(** * TSDuck: PSI/SI descriptors, descriptor lists, EIT packing and three
      packet-processing plugins, embedded from the C++ sources.

    Integers of the C++ code are modelled as [Z]; a conversion to a w-bit
    type is written out as a reduction modulo 2^w.  A [ByteBlock] is a list
    of bytes, a nullable safe pointer is an [option]. *)

From Stdlib Require Import String Ascii.
From Stdlib Require Import ZArith List Bool Lia.
Import ListNotations.
Open Scope Z_scope.

(* ================================================================== *)
(** * Part I: the embedding                                            *)
(* ================================================================== *)

(** ** Bytes and big-endian integers (tsPlatform / tsByteBlock) *)

Module Bytes.

Definition ByteBlock := list Z.

(** Conversion of an integer expression to [uint8_t], [uint16_t]. *)
Definition uint8 (x : Z) : Z := x mod 256.
Definition uint16 (x : Z) : Z := x mod 65536.

Definition is_u8 (x : Z) : bool := (0 <=? x) && (x <? 256).
Definition all_u8 (bb : ByteBlock) : bool := forallb is_u8 bb.

(** [bb.size()] as an integer. *)
Definition size (bb : ByteBlock) : Z := Z.of_nat (length bb).

(** [p[i]] for a byte pointer [p] into a buffer. *)
Definition at_ (bb : ByteBlock) (i : nat) : Z := nth i bb 0.

(** [PutUInt16 (p, v)]: two bytes, most significant first. *)
Definition PutUInt16 (v : Z) : ByteBlock :=
  [Z.land (Z.shiftr v 8) 255; Z.land v 255].

(** [GetUInt16 (p)] and [GetUInt32 (p)]. *)
Definition GetUInt16 (p : ByteBlock) : Z :=
  Z.lor (Z.shiftl (at_ p 0) 8) (at_ p 1).

Definition GetUInt32 (p : ByteBlock) : Z :=
  Z.lor (Z.shiftl (at_ p 0) 24)
    (Z.lor (Z.shiftl (at_ p 1) 16)
       (Z.lor (Z.shiftl (at_ p 2) 8) (at_ p 3))).

Definition PutUInt32 (v : Z) : ByteBlock :=
  [Z.land (Z.shiftr v 24) 255; Z.land (Z.shiftr v 16) 255;
   Z.land (Z.shiftr v 8) 255; Z.land v 255].

(** Exhaustive check of a predicate over the [n] integers from [start]
    on, over the integers from 0 to [n - 1], and over all values of a
    byte. *)
Fixpoint forall_from (n : nat) (start : Z) (p : Z -> bool) : bool :=
match n with
| O => true
| S n' => p start && forall_from n' (start + 1) p
end.

Definition forall_below (n : Z) (p : Z -> bool) : bool :=
forall_from (Z.to_nat n) 0 p.

Definition forall_u8 (p : Z -> bool) : bool := forall_below 256 p.

End Bytes.

Import Bytes.

(** ** Binary descriptors (tsDescriptor.cpp) *)

Module Descriptor.

(** [CopyShare] selects whether a byte block is shared or duplicated.
    Blocks are immutable values here, so both give the same content. *)
Inductive CopyShare := SHARE | COPY.

(** A descriptor holds a possibly null pointer [_data] to its bytes. *)
Record t := mk { data : option ByteBlock }.

(** [Descriptor (const void* addr, size_t size)]: [buf] is the [size]
    bytes found at [addr]. *)
Definition from_memory (buf : ByteBlock) : t :=
  mk (if (size buf >=? 2) && (size buf <? 258) && (at_ buf 1 =? size buf - 2)
      then Some buf else None).

(** [Descriptor (const ByteBlock& bb)]. *)
Definition from_ByteBlock (bb : ByteBlock) : t :=
  mk (if (size bb >=? 2) && (size bb <? 258) && (at_ bb 1 =? size bb - 2)
      then Some bb else None).

(** [Descriptor (const ByteBlockPtr& bbp, CopyShare mode)]. *)
Definition from_ByteBlockPtr (bbp : option ByteBlock) (mode : CopyShare) : t :=
  match bbp with
  | None => mk None
  | Some bb =>
      if (size bb >=? 2) && (size bb <? 258) && (at_ bb 1 =? size bb - 2)
      then match mode with
           | SHARE => mk bbp
           | COPY => mk (Some bb)
           end
      else mk None
  end.

(** [Descriptor (DID tag, const ByteBlock& data)]. *)
Definition from_tag_payload (tag : Z) (payload : ByteBlock) : t :=
  mk (if size payload <? 256
      then Some (tag :: uint8 (size payload) :: payload) else None).

(** Modelled from the spec: [isValid ()] and the other inline accessors of
    tsDescriptor.h, which is not among the sources.  A descriptor is a tag
    byte, a length byte and the payload; a descriptor without data is
    invalid and is read as tag 0 with empty content. *)
Definition isValid (d : t) : bool :=
  match data d with Some _ => true | None => false end.

(** Modelled from the spec: [content ()], the bytes of the descriptor. *)
Definition content (d : t) : ByteBlock :=
  match data d with Some bb => bb | None => [] end.

(** Modelled from the spec: [tag ()], the first byte. *)
Definition tag (d : t) : Z := at_ (content d) 0.

(** Modelled from the spec: [size ()], the number of bytes with the header. *)
Definition size (d : t) : Z := Bytes.size (content d).

(** Modelled from the spec: [payload ()], the bytes after the header. *)
Definition payload (d : t) : ByteBlock := skipn 2 (content d).

(** Modelled from the spec: [payloadSize ()]. *)
Definition payloadSize (d : t) : Z := Bytes.size (payload d).

(** The validity condition spelled out by the constructors. *)
Definition consistent (buf : ByteBlock) : Prop :=
  2 <= Bytes.size buf <= 257 /\ at_ buf 1 = Bytes.size buf - 2.

End Descriptor.

(** ** AC-3 descriptor (tsAC3Descriptor.cpp) *)

Module AC3Descriptor.

(** Modelled from the spec: the tag of the AC-3 descriptor, 0x6A; its
    declaration is in a header that is not among the sources. *)
Definition DID_AC3 : Z := 0x6A.

(** The typed descriptor: four optional bytes ([Variable<uint8_t>]) and
    the trailing additional information. *)
Record t := mk {
  is_valid : bool;
  component_type : option Z;
  bsid : option Z;
  mainid : option Z;
  asvc : option Z;
  additional_info : ByteBlock
}.

(** Default constructor. *)
Definition init : t := mk true None None None None [].

Definition set {A} (v : option A) : bool :=
  match v with Some _ => true | None => false end.

(** [appendUInt8 (v.value())] when [v.set()]. *)
Definition append_opt (v : option Z) : ByteBlock :=
  match v with Some x => [x] | None => [] end.

(** [serialize]: the block starts with two bytes for the header, the
    flags and the fields are appended, then tag and length are patched. *)
Definition serialize (d : t) : Descriptor.t :=
  let flags :=
    Z.lor (if set (component_type d) then 0x80 else 0x00)
      (Z.lor (if set (bsid d) then 0x40 else 0x00)
         (Z.lor (if set (mainid d) then 0x20 else 0x00)
            (if set (asvc d) then 0x10 else 0x00))) in
  let body := [flags] ++ append_opt (component_type d) ++ append_opt (bsid d)
               ++ append_opt (mainid d) ++ append_opt (asvc d)
               ++ additional_info d in
  let bbp := DID_AC3 :: uint8 (Bytes.size ([0; 0] ++ body) - 2) :: body in
  Descriptor.from_ByteBlockPtr (Some bbp) Descriptor.SHARE.

(** One optional field of [deserialize]: consumed when its flag is set
    and a byte remains. *)
Definition take_opt (flags mask : Z) (bytes : ByteBlock) : option Z * ByteBlock :=
  match bytes with
  | x :: rest =>
      if negb (Z.land flags mask =? 0) then (Some x, rest) else (None, bytes)
  | [] => (None, bytes)
  end.

Definition deserialize (desc : Descriptor.t) : t :=
  let valid := Descriptor.isValid desc
               && (Descriptor.tag desc =? DID_AC3)
               && (Descriptor.payloadSize desc >=? 1) in
  if valid then
    match Descriptor.payload desc with
    | flags :: after_flags =>
        let '(ct, r1) := take_opt flags 0x80 after_flags in
        let '(bs, r2) := take_opt flags 0x40 r1 in
        let '(mi, r3) := take_opt flags 0x20 r2 in
        let '(av, r4) := take_opt flags 0x10 r3 in
        mk true ct bs mi av r4
    | [] => mk true None None None None []
    end
  else mk false None None None None [].

(** Number of optional bytes announced by a flags byte. *)
Definition announced (flags : Z) : nat :=
  length (filter (fun m => negb (Z.land flags m =? 0)) [0x80; 0x40; 0x20; 0x10]).

(** A well-formed binary AC-3 descriptor: bytes in range, tag 0x6A, length
    byte equal to the payload size, at least the flags byte, reserved low
    flag bits zero, and one payload byte for each flag that is set. *)
Definition wellformed (b : ByteBlock) : bool :=
  all_u8 b
  && Descriptor.isValid (Descriptor.from_ByteBlock b)
  && (at_ b 0 =? DID_AC3)
  && match skipn 2 b with
     | flags :: rest =>
         (Z.land flags 0x0F =? 0) && (announced flags <=? length rest)%nat
     | [] => false
     end.

(** The flags byte rebuilt from the four presence bits. *)
Definition rebuilt_flags (f : Z) : Z :=
  Z.lor (if negb (Z.land f 0x80 =? 0) then 0x80 else 0x00)
    (Z.lor (if negb (Z.land f 0x40 =? 0) then 0x40 else 0x00)
       (Z.lor (if negb (Z.land f 0x20 =? 0) then 0x20 else 0x00)
          (if negb (Z.land f 0x10 =? 0) then 0x10 else 0x00))).

End AC3Descriptor.

(** ** Structured documents (XML form of the descriptors) *)

Module XML.

(** [ToIntegerDigit (c, base, defaultValue)] of tsToInteger.cpp. *)
Definition ToIntegerDigit (c : ascii) (base defaultValue : Z) : Z :=
  let code := Z.of_N (N_of_ascii c) in
  let digit :=
    if (48 <=? code) && (code <=? 57) then code - 48
    else if (97 <=? code) && (code <=? 122) then 10 + code - 97
    else if (65 <=? code) && (code <=? 90) then 10 + code - 65
    else -1 in
  if (digit >=? 0) && (digit <? base) then digit else defaultValue.

(** Modelled from the spec: the integer reader behind the attribute
    accessors (tsToInteger.h and tsXML.h are not among the sources).  An
    integer attribute is written in decimal, or in hexadecimal after a
    [0x] prefix; every character must be a digit of the base and there is
    at least one digit. *)
Fixpoint digits (base : Z) (s : string) (acc : Z) : option Z :=
  match s with
  | EmptyString => Some acc
  | String c rest =>
      let d := ToIntegerDigit c base (-1) in
      if d <? 0 then None else digits base rest (acc * base + d)
  end.

(** Modelled from the spec: [ToInteger], decimal or hexadecimal. *)
Definition ToInteger (s : string) : option Z :=
  match s with
  | String "0"%char (String "x"%char (String c rest))
  | String "0"%char (String "X"%char (String c rest)) =>
      digits 16 (String c rest) 0
  | String c rest => digits 10 (String c rest) 0
  | EmptyString => None
  end.

(** Modelled from the spec: an element of the structured form, as its
    name, its attributes and its children that hold hexadecimal text. *)
Record Element := mkElement {
  name : string;
  attributes : list (string * string);
  hexa_children : list (string * ByteBlock)
}.

(** Search of an attribute or of a child by its name. *)
Fixpoint lookup {A} (key : string) (l : list (string * A)) : option A :=
  match l with
  | [] => None
  | (k, v) :: rest => if String.eqb k key then Some v else lookup key rest
  end.

(** Modelled from the spec: [getOptionalIntAttribute] for a [uint8_t]
    field.  An absent attribute succeeds and leaves the field unset; a
    present one must read as an integer of the field's range.  The result
    is the success flag and the new state of the field. *)
Definition getOptionalIntAttribute (e : Element) (attr : string)
  : bool * option Z :=
  match lookup attr (attributes e) with
  | None => (true, None)
  | Some text =>
      match ToInteger text with
      | Some v => if (0 <=? v) && (v <=? 255) then (true, Some v) else (false, None)
      | None => (false, None)
      end
  end.

(** Modelled from the spec: [getHexaTextChild] with [required = false]: an
    absent child gives an empty block; a present one must respect the
    size bounds. *)
Definition getHexaTextChild (e : Element) (child : string) (minSize maxSize : Z)
  : bool * ByteBlock :=
  match lookup child (hexa_children e) with
  | None => (true, [])
  | Some bytes =>
      if (minSize <=? Bytes.size bytes) && (Bytes.size bytes <=? maxSize)
      then (true, bytes) else (false, [])
  end.

(** Modelled from the spec: [checkXMLName], the element is named after
    the typed object. *)
Definition checkXMLName (xml_name : string) (e : Element) : bool :=
  String.eqb (name e) xml_name.

End XML.

(** ** XML deserialisation of the AC-3 descriptor (tsAC3Descriptor.cpp) *)

Module AC3DescriptorXML.
Import AC3Descriptor.

(** Modelled from the spec: the largest descriptor, two header bytes and
    255 payload bytes (stated in tsDescriptor.cpp; the constant itself is
    declared in a header that is not among the sources). *)
Definition MAX_DESCRIPTOR_SIZE : Z := 257.

(** [fromXML]: the conjunction is evaluated left to right and stops at
    the first failure, leaving the later fields of [self] untouched. *)
Definition fromXML (self : t) (element : XML.Element) : t :=
  if negb (XML.checkXMLName "AC3_descriptor" element) then
    mk false (component_type self) (bsid self) (mainid self) (asvc self)
      (additional_info self)
  else
    let '(ok1, ct) := XML.getOptionalIntAttribute element "component_type" in
    if negb ok1 then
      mk false ct (bsid self) (mainid self) (asvc self) (additional_info self)
    else
      let '(ok2, bs) := XML.getOptionalIntAttribute element "bsid" in
      if negb ok2 then mk false ct bs (mainid self) (asvc self) (additional_info self)
      else
        let '(ok3, mi) := XML.getOptionalIntAttribute element "mainid" in
        if negb ok3 then mk false ct bs mi (asvc self) (additional_info self)
        else
          let '(ok4, av) := XML.getOptionalIntAttribute element "asvc" in
          if negb ok4 then mk false ct bs mi av (additional_info self)
          else
            let '(ok5, info) :=
              XML.getHexaTextChild element "additional_info" 0
                (MAX_DESCRIPTOR_SIZE - 8) in
            mk ok5 ct bs mi av info.

(** The element [<AC3_descriptor component_type="0x42" bsid="8"/>]. *)
Definition scenario_S2 : XML.Element :=
  XML.mkElement "AC3_descriptor"
    [("component_type", "0x42"); ("bsid", "8")]%string [].

End AC3DescriptorXML.


(** ** Descriptor lists (tsDescriptorList.cpp) *)

Module DescriptorList.

(** Modelled from the spec: the tag of the private_data_specifier_descriptor
    (0x5F in the DVB standard); its declaration is in a header that is not
    among the sources. *)
Definition DID_PRIV_DATA_SPECIF : Z := 0x5F.

(** One entry of the list: the descriptor and its private data
    specifier.  Entries are created by [add], which reads the descriptor
    through its pointer, so a stored pointer is never null. *)
Record Element := mkElement { desc : Descriptor.t; pds : Z }.

(** [ElementVector _list]. *)
Definition t := list Element.

(** Default value for reads of the list by index. *)
Definition dummy : Element := mkElement (Descriptor.mk None) 0.

(** [_list.erase (_list.begin() + n)]. *)
Definition erase (n : nat) (l : t) : t := firstn n l ++ skipn (S n) l.

(** The value that [add] reads from a private_data_specifier_descriptor. *)
Definition declared_pds (d : Descriptor.t) : Z :=
  if Descriptor.payloadSize d <? 4 then 0 else GetUInt32 (Descriptor.payload d).

(** [add (const DescriptorPtr& desc)]. *)
Definition add (l : t) (d : Descriptor.t) : t :=
  let p :=
    if Descriptor.tag d =? DID_PRIV_DATA_SPECIF then declared_pds d
    else match l with
         | [] => 0
         | _ :: _ => pds (last l dummy)
         end in
  l ++ [mkElement d p].

(** [add (const void* data, size_t size)]: the loop cuts one descriptor
    after the other; [n] bounds the number of iterations, each of which
    consumes at least two bytes. *)
Fixpoint add_memory_loop (n : nat) (l : t) (data : ByteBlock) : t :=
  match n with
  | O => l
  | S n' =>
      let length := at_ data 1 + 2 in
      if (Bytes.size data >=? 2) && (length <=? Bytes.size data) then
        add_memory_loop n'
          (add l (Descriptor.from_memory (firstn (Z.to_nat length) data)))
          (skipn (Z.to_nat length) data)
      else l
  end.

Definition add_memory (l : t) (data : ByteBlock) : t :=
  add_memory_loop (List.length data) l data.

(** [PrivateDataSpecifierDescriptor::serialize] (tsPrivateDataSpecifierDescriptor.cpp). *)
Definition PrivateDataSpecifierDescriptor (p : Z) : Descriptor.t :=
  Descriptor.from_memory ([DID_PRIV_DATA_SPECIF; 4] ++ PutUInt32 p).

(** [add (const AbstractDescriptor&)] applied to a serialised descriptor. *)
Definition add_serialized (l : t) (d : Descriptor.t) : t :=
  if Descriptor.isValid d then add l d else l.

(** [addPrivateDataSpecifier (PDS pds)]. *)
Definition addPrivateDataSpecifier (l : t) (p : Z) : t :=
  if negb (p =? 0)
     && (match l with [] => true | _ :: _ => negb (pds (last l dummy) =? p) end)
  then add_serialized l (PrivateDataSpecifierDescriptor p)
  else l.

(** The search loop of [prepareRemovePDS] over the entries that follow
    the descriptor: [None] when a private descriptor is met first,
    otherwise the number of entries before the next
    private_data_specifier_descriptor or the end of the list. *)
Fixpoint scan_ahead (l : t) : option nat :=
  match l with
  | [] => Some O
  | e :: rest =>
      let tag := Descriptor.tag (desc e) in
      if tag >=? 0x80 then None
      else if tag =? DID_PRIV_DATA_SPECIF then Some O
      else option_map S (scan_ahead rest)
  end.

Definition set_pds (p : Z) (e : Element) : Element := mkElement (desc e) p.

(** [prepareRemovePDS (it)], the iterator given as an index; an index
    equal to the size is [_list.end()]. *)
Definition prepareRemovePDS (l : t) (it : nat) : bool * t :=
  match nth_error l it with
  | None => (false, l)
  | Some e =>
      if negb (Descriptor.tag (desc e) =? DID_PRIV_DATA_SPECIF) then (false, l)
      else
        match scan_ahead (skipn (S it) l) with
        | None => (false, l)
        | Some k =>
            let previous_pds :=
              match it with
              | O => 0
              | S before => pds (nth before l dummy)
              end in
            (true,
             firstn (S it) l
             ++ map (set_pds previous_pds) (firstn k (skipn (S it) l))
             ++ skipn (S it + k) l)
        end
  end.

(** The test of [removeInvalidPrivateDescriptors] on one entry. *)
Definition invalid_private (e : Element) : bool :=
  (pds e =? 0) && Descriptor.isValid (desc e) && (Descriptor.tag (desc e) >=? 0x80).

(** [removeInvalidPrivateDescriptors]: the [for] loop on index [n], which
    is incremented at every iteration.  [fuel] bounds the number of
    iterations; the initial size of the list is enough since [n] grows by
    one each time. *)
Fixpoint removeInvalid_loop (fuel : nat) (l : t) (n : nat) (count : Z) : t * Z :=
  match fuel with
  | O => (l, count)
  | S fuel' =>
      if (n <? List.length l)%nat then
        if invalid_private (nth n l dummy)
        then removeInvalid_loop fuel' (erase n l) (S n) (count + 1)
        else removeInvalid_loop fuel' l (S n) count
      else (l, count)
  end.

Definition removeInvalidPrivateDescriptors (l : t) : t * Z :=
  removeInvalid_loop (List.length l) l O 0.

(** [removeByIndex (index)]. *)
Definition removeByIndex (l : t) (index : nat) : bool * t :=
  if (List.length l <=? index)%nat then (false, l)
  else if Descriptor.tag (desc (nth index l dummy)) =? DID_PRIV_DATA_SPECIF then
    let '(ok, l') := prepareRemovePDS l index in
    if ok then (true, erase index l') else (false, l')
  else (true, erase index l).

(** [removeByTag (tag, pds)]: the loop on iterator [it]; [remaining] is the
    number of entries from [it] to the end, which decreases by one at each
    iteration, whether the entry is erased or skipped. *)
Fixpoint removeByTag_loop (remaining : nat) (tag p : Z) (check_pds : bool)
    (l : t) (it : nat) (removed_count : Z) : t * Z :=
  match remaining with
  | O => (l, removed_count)
  | S remaining' =>
      let e := nth it l dummy in
      let itag := Descriptor.tag (desc e) in
      if (itag =? tag) && (negb check_pds || (pds e =? p)) then
        if negb (itag =? DID_PRIV_DATA_SPECIF) then
          removeByTag_loop remaining' tag p check_pds (erase it l) it (removed_count + 1)
        else
          let '(ok, l') := prepareRemovePDS l it in
          if ok
          then removeByTag_loop remaining' tag p check_pds (erase it l') it (removed_count + 1)
          else removeByTag_loop remaining' tag p check_pds l' (S it) removed_count
      else removeByTag_loop remaining' tag p check_pds l (S it) removed_count
  end.

Definition removeByTag (l : t) (tag p : Z) : t * Z :=
  let check_pds := negb (p =? 0) && (tag >=? 0x80) in
  removeByTag_loop (List.length l) tag p check_pds l O 0.

(** [binarySize ()]. *)
Definition binarySize (l : t) : Z :=
  fold_left (fun size e => size + Descriptor.size (desc e)) l 0.

(** The insert and remove operations of a descriptor list. *)
Inductive operation :=
| OpAdd (d : Descriptor.t)
| OpAddSerialized (d : Descriptor.t)
| OpAddMemory (data : ByteBlock)
| OpAddPrivateDataSpecifier (p : Z)
| OpRemoveByIndex (index : nat)
| OpRemoveByTag (tag p : Z)
| OpRemoveInvalidPrivateDescriptors.

Definition apply (l : t) (o : operation) : t :=
  match o with
  | OpAdd d => add l d
  | OpAddSerialized d => add_serialized l d
  | OpAddMemory data => add_memory l data
  | OpAddPrivateDataSpecifier p => addPrivateDataSpecifier l p
  | OpRemoveByIndex index => snd (removeByIndex l index)
  | OpRemoveByTag tag p => fst (removeByTag l tag p)
  | OpRemoveInvalidPrivateDescriptors => fst (removeInvalidPrivateDescriptors l)
  end.

(** The list obtained from the empty list by a sequence of operations. *)
Definition run (ops : list operation) : t := fold_left apply ops [].

(** The closest private_data_specifier_descriptor strictly before
    position [i]. *)
Definition is_pds_descriptor (d : Descriptor.t) : bool :=
  Descriptor.tag d =? DID_PRIV_DATA_SPECIF.

Definition closest_preceding (l : t) (i : nat) : option Descriptor.t :=
  last (map Some (filter is_pds_descriptor (map desc (firstn i l)))) None.

(** The specifier declared by the closest preceding
    private_data_specifier_descriptor, or 0 if there is none. *)
Definition preceding_pds (l : t) (i : nat) : Z :=
  match closest_preceding l i with
  | Some d => declared_pds d
  | None => 0
  end.

(** The scoping invariant: walking the list with the specifier [cur] in
    force, every entry carries the specifier in force after it. *)
Fixpoint scoped (cur : Z) (l : t) : Prop :=
  match l with
  | [] => True
  | e :: rest =>
      let c := if is_pds_descriptor (desc e) then declared_pds (desc e) else cur in
      pds e = c /\ scoped c rest
  end.

(** The specifier in force after a run of entries. *)
Definition cur_after (cur : Z) (l : t) : Z :=
  fold_left (fun c e => if is_pds_descriptor (desc e) then declared_pds (desc e) else c)
    l cur.

End DescriptorList.


(** ** The ClearFilter plugin (tsplugin_clear.cpp) *)

Module ClearPlugin.

(** Status returned by a packet processor. *)
Inductive Status := TSP_OK | TSP_NULL | TSP_DROP | TSP_END.

(** Modelled from the spec: the packet size in bytes, declared in a
    header that is not among the sources. *)
Definition PKT_SIZE : Z := 188.

(** Conversion to [PacketCounter] ([uint64_t]). *)
Definition uint64 (x : Z) : Z := x mod 18446744073709551616.

(** What the plugin reads of an elementary stream of a PMT. *)
Record Stream := mkStream { stream_pid : Z; isAudio : bool; isVideo : bool }.

(** The complete tables that the section demux hands to [handleTable]:
    table id, validity of the typed table, source PID and the content that
    the plugin reads. *)
Inductive Table :=
| TablePAT (sourcePID : Z) (valid : bool) (pmts : list (Z * Z))
| TableSDT (sourcePID : Z) (valid : bool) (services : list (string * Z))
| TablePMT (valid : bool) (service_id : Z) (streams : list Stream)
| TableTOT (sourcePID : Z)
| TableOther.

Definition PID_PAT : Z := 0x0000.
Definition PID_SDT : Z := 0x0011.
Definition PID_TOT : Z := 0x0014.

(** The reference service: optional name, id and PMT PID. *)
Record Service := mkService {
  service_name : option string;
  service_id : option Z;
  service_pmt_pid : option Z
}.

(** A packet as the plugin sees it: its PID, whether it is clear, the
    tables that feeding it to the demux completes, and the bitrate that
    [tsp->bitrate()] reports at that time. *)
Record TSPacket := mkPacket {
  getPID : Z;
  isClear : bool;
  tables : list Table;
  bitrate : Z
}.

(** Command line options read by [start]. *)
Record Options := mkOptions {
  opt_service : Service;
  opt_video : bool;
  opt_audio : bool;
  opt_stuffing : bool;
  opt_drop_after_packets : option Z
}.

Record State := mkState {
  _abort : bool;
  _service : Service;
  _pass_packets : bool;
  _drop_status : Status;
  _video_only : bool;
  _audio_only : bool;
  _drop_after : Z;
  _current_pkt : Z;
  _last_clear_pkt : Z;
  _clear_pids : Z -> bool
}.

Definition start (o : Options) : State :=
  mkState false (opt_service o) false
    (if opt_stuffing o then TSP_NULL else TSP_DROP)
    (opt_video o) (opt_audio o)
    (match opt_drop_after_packets o with Some n => n | None => 0 end)
    0 0 (fun _ => false).

Definition set_abort (s : State) : State :=
  mkState true (_service s) (_pass_packets s) (_drop_status s) (_video_only s)
    (_audio_only s) (_drop_after s) (_current_pkt s) (_last_clear_pkt s) (_clear_pids s).

Definition set_service (s : State) (v : Service) : State :=
  mkState (_abort s) v (_pass_packets s) (_drop_status s) (_video_only s)
    (_audio_only s) (_drop_after s) (_current_pkt s) (_last_clear_pkt s) (_clear_pids s).

Definition set_clear_pids (s : State) (pids : Z -> bool) : State :=
  mkState (_abort s) (_service s) (_pass_packets s) (_drop_status s) (_video_only s)
    (_audio_only s) (_drop_after s) (_current_pkt s) (_last_clear_pkt s) pids.

Fixpoint find_service (n : string) (services : list (string * Z)) : option Z :=
  match services with
  | [] => None
  | (k, v) :: rest => if String.eqb k n then Some v else find_service n rest
  end.

Fixpoint find_pmt (sid : Z) (pmts : list (Z * Z)) : option Z :=
  match pmts with
  | [] => None
  | (k, v) :: rest => if k =? sid then Some v else find_pmt sid rest
  end.

(** [processSDT]. *)
Definition processSDT (s : State) (services : list (string * Z)) : State :=
  match service_name (_service s) with
  | None => s
  | Some n =>
      match find_service n services with
      | None => set_abort s
      | Some sid => set_service s (mkService (Some n) (Some sid) None)
      end
  end.

(** [processPAT]. *)
Definition processPAT (s : State) (pmts : list (Z * Z)) : State :=
  match service_id (_service s) with
  | Some sid =>
      match find_pmt sid pmts with
      | None => set_abort s
      | Some pmt => set_service s (mkService (service_name (_service s)) (Some sid) (Some pmt))
      end
  | None =>
      match pmts with
      | (sid, pmt) :: _ =>
          set_service s (mkService (service_name (_service s)) (Some sid) (Some pmt))
      | [] => set_abort s
      end
  end.

(** [processPMT]: collect the audio and video PIDs. *)
Definition processPMT (s : State) (streams : list Stream) : State :=
  set_clear_pids s
    (fold_left
       (fun (pids : Z -> bool) (st : Stream) =>
          if (isAudio st && negb (_video_only s)) || (isVideo st && negb (_audio_only s))
          then (fun pid => if pid =? stream_pid st then true else pids pid)
          else pids)
       streams (fun _ => false)).

(** [handleTable]. *)
Definition handleTable (s : State) (table : Table) : State :=
  match table with
  | TablePAT src valid pmts =>
      if (src =? PID_PAT) && valid then processPAT s pmts else s
  | TableSDT src valid services =>
      if (src =? PID_SDT) && valid then processSDT s services else s
  | TablePMT valid sid streams =>
      if valid && (match service_id (_service s) with
                   | Some id => id =? sid
                   | None => false
                   end)
      then processPMT s streams else s
  | TableTOT _ => s
  | TableOther => s
  end.

(** [_demux.feedPacket (pkt)]: the handler runs on each completed table. *)
Definition feedPacket (s : State) (pkt : TSPacket) : State :=
  fold_left handleTable (tables pkt) s.

(** [processPacket]. *)
Definition processPacket (s0 : State) (pkt : TSPacket) : State * Status :=
  let pid := getPID pkt in
  let s := feedPacket s0 pkt in
  if _abort s then (s, TSP_END)
  else
    let seen := _clear_pids s pid && isClear pkt in
    let pass1 := if seen then true else _pass_packets s in
    let last_clear := if seen then _current_pkt s else _last_clear_pkt s in
    let drop_after :=
      if _drop_after s =? 0 then bitrate pkt / (PKT_SIZE * 8) else _drop_after s in
    if (_drop_after s =? 0) && (drop_after =? 0) then
      (mkState (_abort s) (_service s) pass1 (_drop_status s) (_video_only s)
         (_audio_only s) drop_after (_current_pkt s) last_clear (_clear_pids s),
       TSP_END)
    else
      let pass2 :=
        if pass1 && (uint64 (_current_pkt s - last_clear) >? drop_after)
        then false else pass1 in
      (mkState (_abort s) (_service s) pass2 (_drop_status s) (_video_only s)
         (_audio_only s) drop_after (uint64 (_current_pkt s + 1)) last_clear
         (_clear_pids s),
       if pass2 then TSP_OK else _drop_status s).

(** The plugin over a stream: the pipeline terminates when a packet is
    answered by [TSP_END], so later packets are not processed. *)
Fixpoint run (s : State) (pkts : list TSPacket) : list Status :=
  match pkts with
  | [] => []
  | pkt :: rest =>
      let '(s', status) := processPacket s pkt in
      match status with
      | TSP_END => [TSP_END]
      | _ => status :: run s' rest
      end
  end.

(** State before packet [n] of a stream. *)
Fixpoint state_at (s : State) (pkts : list TSPacket) (n : nat) {struct n} : State :=
  match n, pkts with
  | S n', pkt :: rest => state_at (fst (processPacket s pkt)) rest n'
  | _, _ => s
  end.

(** Packet [pkt], processed in state [s], is a clear packet on a PID that
    is monitored at that time. *)
Definition clear_monitored (s : State) (pkt : TSPacket) : bool :=
  _clear_pids (feedPacket s pkt) (getPID pkt) && isClear pkt.

(** Packet [pkt], processed in state [s], makes or finds the plugin
    giving up on a fatal error of the signalling. *)
Definition gives_up (s : State) (pkt : TSPacket) : bool :=
  _abort (feedPacket s pkt).

Definition dummy_packet : TSPacket := mkPacket 0x1FFF false [] 0.

(** One pass over the first [n + 1] packets of a stream that has them,
    checking [P] on the index, the state before the packet and the
    packet. *)
Fixpoint holds_upto (P : nat -> State -> TSPacket -> bool) (base : nat)
    (s : State) (pkts : list TSPacket) (n : nat) : bool :=
  match pkts with
  | [] => false
  | pkt :: rest =>
      P base s pkt
      && match n with
         | O => true
         | S n' => holds_upto P (S base) (fst (processPacket s pkt)) rest n'
         end
  end.

(** The part of the state that the table handlers leave alone. *)
Definition same_gate (s s' : State) : Prop :=
  _pass_packets s' = _pass_packets s /\ _drop_status s' = _drop_status s /\
  _drop_after s' = _drop_after s /\ _current_pkt s' = _current_pkt s /\
  _last_clear_pkt s' = _last_clear_pkt s.

(** The decision taken on one packet when the plugin does not give up
    and the hold-off is known. *)
Definition next_pass (s : State) (pkt : TSPacket) : bool :=
  let seen := clear_monitored s pkt in
  let pass1 := if seen then true else _pass_packets s in
  let last_clear := if seen then _current_pkt s else _last_clear_pkt s in
  if pass1 && (uint64 (_current_pkt s - last_clear) >? _drop_after s)
  then false else pass1.

End ClearPlugin.


(** ** Streams for scenario S5 of the ClearFilter plugin *)

Module ClearScenario.
Import ClearPlugin.

(** Packet indices of scenario S5. *)
Definition last_clear : nat := Z.to_nat 5000.
Definition first_dropped : nat := Z.to_nat 6001.
Definition next_clear : nat := Z.to_nat 6501.

(** Service 1 selected by id, [--drop-after-packets=1000]. *)
Definition options : Options :=
  mkOptions (mkService None (Some 1) None) false false false (Some 1000).

(** The PAT announces service 1 with its PMT on PID 0x100; the PMT
    declares one audio stream on PID 0x101. *)
Definition pat_packet : TSPacket :=
  mkPacket PID_PAT true [TablePAT PID_PAT true [(1, 0x100)]] 0.
Definition pmt_packet : TSPacket :=
  mkPacket 0x100 true [TablePMT true 1 [mkStream 0x101 true false]] 0.
Definition clear_audio : TSPacket := mkPacket 0x101 true [] 0.
Definition scrambled_audio : TSPacket := mkPacket 0x101 false [] 0.

(** A later PAT in which service 1 is no longer present. *)
Definition pat_without_service : TSPacket :=
  mkPacket PID_PAT true [TablePAT PID_PAT true [(2, 0x200)]] 0.

(** Audio is clear at packet 5000, then scrambled until packet 6500. *)
Definition stream : list TSPacket :=
  [pat_packet; pmt_packet] ++ repeat scrambled_audio (Z.to_nat 4998)
  ++ [clear_audio] ++ repeat scrambled_audio (Z.to_nat 1500)
  ++ [clear_audio] ++ repeat scrambled_audio 10.

(** The same stream, except that packet 6001 completes a PAT without the
    service. *)
Definition stream_losing_service : list TSPacket :=
  [pat_packet; pmt_packet] ++ repeat scrambled_audio (Z.to_nat 4998)
  ++ [clear_audio] ++ repeat scrambled_audio (Z.to_nat 1000)
  ++ [pat_without_service] ++ repeat scrambled_audio (Z.to_nat 499)
  ++ [clear_audio] ++ repeat scrambled_audio 10.

End ClearScenario.


(** ** The PCRExtract plugin (tsplugin_pcrextract.cpp) *)

Module PCRExtractPlugin.

Definition uint64 (x : Z) : Z := x mod 18446744073709551616.

(** Conversion to [int64_t]. *)
Definition int64 (x : Z) : Z :=
  (x + 9223372036854775808) mod 18446744073709551616 - 9223372036854775808.

(** Modelled from the spec: the PCR is a 90 kHz base multiplied by 300;
    the constant is declared in a header that is not among the sources. *)
Definition SYSTEM_CLOCK_SUBFACTOR : Z := 300.

(** Presence of the command line options. *)
Record Options := mkOptions {
  opt_pcr : bool;
  opt_opcr : bool;
  opt_pts : bool;
  opt_dts : bool;
  opt_good_pts_only : bool;
  opt_noheader : bool
}.

(** What the plugin reads of a packet. *)
Record TSPacket := mkPacket {
  getPID : Z;
  hasPCR : bool; getPCR : Z;
  hasOPCR : bool; getOPCR : Z;
  hasPTS : bool; getPTS : Z;
  hasDTS : bool; getDTS : Z
}.

Record PIDContext := mkContext {
  packet_count : Z;
  pcr_count : Z;
  opcr_count : Z;
  pts_count : Z;
  dts_count : Z;
  first_pcr : Z;
  first_opcr : Z;
  first_pts : Z;
  last_good_pts : Z;
  first_dts : Z
}.

Definition new_context : PIDContext := mkContext 0 0 0 0 0 0 0 0 0 0.

Record State := mkState {
  _good_pts_only : bool;
  _get_pcr : bool;
  _get_opcr : bool;
  _get_pts : bool;
  _get_dts : bool;
  _packet_count : Z;
  _stats : Z -> PIDContext
}.

(** Kind of time stamp named in the "Type" column of a report line. *)
Inductive Kind := PCR | OPCR | PTS | DTS.

(** One line of the report, field by field; the last field is empty
    when the packet has no PCR. *)
Record Line := mkLine {
  line_pid : Z;
  line_packet_index : Z;
  line_index_in_pid : Z;
  line_type : Kind;
  line_count : Z;
  line_value : Z;
  line_offset : Z;
  line_from_pcr : option Z
}.

(** [start]: the options that select the kinds of time stamps. *)
Definition start (o : Options) : State :=
  let get_pts := opt_dts o in
  let get_dts := opt_pts o in
  let get_pcr := opt_pcr o in
  let get_opcr := opt_opcr o in
  if negb get_pts && negb get_dts && negb get_pcr && negb get_opcr
  then mkState (opt_good_pts_only o) true true true true 0 (fun _ => new_context)
  else mkState (opt_good_pts_only o) get_pcr get_opcr get_pts get_dts 0
         (fun _ => new_context).

Section Processing.

(** [SequencedPTS (pts1, pts2)], declared in a header that is not among
    the sources: whether [pts2] follows [pts1], wrapping included. *)
Variable SequencedPTS : Z -> Z -> bool.

Definition processPacket (s : State) (pkt : TSPacket) : State * list Line :=
  let pid := getPID pkt in
  let pc := _stats s pid in
  let pcr := getPCR pkt in
  (* PCR *)
  let first_pcr' := if hasPCR pkt && (pcr_count pc =? 0) then pcr else first_pcr pc in
  let pcr_count' := if hasPCR pkt then uint64 (pcr_count pc + 1) else pcr_count pc in
  let pcr_lines :=
    if hasPCR pkt && _get_pcr s
    then [mkLine pid (_packet_count s) (packet_count pc) PCR pcr_count' pcr
            (uint64 (pcr - first_pcr')) None]
    else [] in
  (* OPCR *)
  let opcr := getOPCR pkt in
  let first_opcr' := if hasOPCR pkt && (opcr_count pc =? 0) then opcr else first_opcr pc in
  let opcr_count' := if hasOPCR pkt then uint64 (opcr_count pc + 1) else opcr_count pc in
  let opcr_lines :=
    if hasOPCR pkt && _get_opcr s
    then [mkLine pid (_packet_count s) (packet_count pc) OPCR opcr_count' opcr
            (uint64 (opcr - first_opcr'))
            (if hasPCR pkt then Some (int64 (int64 opcr - int64 pcr)) else None)]
    else [] in
  (* PTS *)
  let pts := getPTS pkt in
  let first_pts' := if hasPTS pkt && (pts_count pc =? 0) then pts else first_pts pc in
  let last_good0 := if hasPTS pkt && (pts_count pc =? 0) then pts else last_good_pts pc in
  let pts_count' := if hasPTS pkt then uint64 (pts_count pc + 1) else pts_count pc in
  let good_pts := SequencedPTS last_good0 pts in
  let last_good' := if hasPTS pkt && good_pts then pts else last_good0 in
  let pts_lines :=
    if hasPTS pkt && (_get_pts s && (good_pts || negb (_good_pts_only s)))
    then [mkLine pid (_packet_count s) (packet_count pc) PTS pts_count' pts
            (uint64 (pts - first_pts'))
            (if hasPCR pkt
             then Some (int64 (int64 pts - int64 (pcr / SYSTEM_CLOCK_SUBFACTOR)))
             else None)]
    else [] in
  (* DTS *)
  let dts := getDTS pkt in
  let first_dts' := if hasDTS pkt && (dts_count pc =? 0) then dts else first_dts pc in
  let dts_count' := if hasDTS pkt then uint64 (dts_count pc + 1) else dts_count pc in
  let dts_lines :=
    if hasDTS pkt && _get_dts s
    then [mkLine pid (_packet_count s) (packet_count pc) DTS dts_count' dts
            (uint64 (dts - first_dts'))
            (if hasPCR pkt
             then Some (int64 (int64 dts - int64 (pcr / SYSTEM_CLOCK_SUBFACTOR)))
             else None)]
    else [] in
  let pc' := mkContext (uint64 (packet_count pc + 1)) pcr_count' opcr_count'
               pts_count' dts_count' first_pcr' first_opcr' first_pts'
               last_good' first_dts' in
  (mkState (_good_pts_only s) (_get_pcr s) (_get_opcr s) (_get_pts s) (_get_dts s)
     (uint64 (_packet_count s + 1))
     (fun p => if p =? pid then pc' else _stats s p),
   pcr_lines ++ opcr_lines ++ pts_lines ++ dts_lines).

(** The report written for a stream. *)
Fixpoint report (s : State) (pkts : list TSPacket) : list Line :=
  match pkts with
  | [] => []
  | pkt :: rest =>
      let '(s', lines) := processPacket s pkt in
      lines ++ report s' rest
  end.

End Processing.

(** Whether an option selects a kind of time stamp, as the help text
    documents it. *)
Definition selected (o : Options) (k : Kind) : bool :=
  match k with
  | PCR => opt_pcr o
  | OPCR => opt_opcr o
  | PTS => opt_pts o
  | DTS => opt_dts o
  end.

Definition kind_eqb (a b : Kind) : bool :=
  match a, b with
  | PCR, PCR | OPCR, OPCR | PTS, PTS | DTS, DTS => true
  | _, _ => false
  end.

(** [--pts] alone. *)
Definition only_pts : Options := mkOptions false false true false false false.

(** A packet that starts a PES packet with PTS 180000 and DTS 176400. *)
Definition pes_start : TSPacket :=
  mkPacket 0x101 false 0 false 0 true 180000 true 176400.

End PCRExtractPlugin.


(** ** The PCRVerify plugin (tsplugin_pcrverify.cpp) *)

Module PCRVerifyPlugin.

(** Conversions to [uint64_t] and [int64_t]; signed arithmetic is taken
    to wrap around. *)
Definition uint64 (x : Z) : Z := x mod 18446744073709551616.
Definition int64 (x : Z) : Z :=
  (x + 9223372036854775808) mod 18446744073709551616 - 9223372036854775808.

(** Modelled from the spec: the packet size and the system clock
    frequency, whose declarations are in a header that is not among the
    sources. *)
Definition PKT_SIZE : Z := 188.
Definition SYSTEM_CLOCK_FREQ : Z := 27000000.

(** The type of [PKT_SIZE] is not visible in the sources either.  When it
    is a 64-bit unsigned type ([size_t]), the usual arithmetic conversions
    of C++ make the second product, the subtraction and the division of
    [jitter] unsigned; with a narrower or a signed type they are signed. *)
Inductive ConstantType := Signed | Unsigned64.

Section Jitter.

Variable PKT_SIZE_type : ConstantType.

(** [jitter (pcr1, pkt1, pcr2, pkt2, bitrate)], all of type [int64_t]. *)
Definition jitter (pcr1 pkt1 pcr2 pkt2 bitrate : Z) : Z :=
  if bitrate =? 0 then 0
  else
    let clock := int64 (bitrate * int64 (pcr2 - pcr1)) in
    match PKT_SIZE_type with
    | Signed =>
        let bits :=
          int64 (int64 (int64 (int64 (pkt2 - pkt1) * PKT_SIZE) * 8)
                 * SYSTEM_CLOCK_FREQ) in
        int64 (Z.quot (int64 (clock - bits)) bitrate)
    | Unsigned64 =>
        let bits :=
          uint64 (uint64 (uint64 (uint64 (int64 (pkt2 - pkt1)) * PKT_SIZE) * 8)
                  * SYSTEM_CLOCK_FREQ) in
        int64 (uint64 (uint64 clock - bits) / uint64 bitrate)
    end.

(** Per-PID context. *)
Record PIDContext := mkContext { last_pcr_value : Z; last_pcr_packet : Z }.

Record State := mkState {
  _bitrate : Z;
  _jitter_max : Z;
  _pid_list : Z -> bool;
  _packet_count : Z;
  _nb_pcr_ok : Z;
  _nb_pcr_nok : Z;
  _nb_pcr_unchecked : Z;
  _stats : Z -> PIDContext
}.

(** What the plugin reads of a packet, and the bitrate that
    [tsp->bitrate()] reports when the packet is processed. *)
Record TSPacket := mkPacket {
  getPID : Z;
  hasPCR : bool;
  getPCR : Z;
  tsp_bitrate : Z
}.

(** [processPacket]: the new state and the jitter that was computed,
    if any. *)
Definition processPacket (s : State) (pkt : TSPacket) : State * option Z :=
  let pid := getPID pkt in
  if _pid_list s pid && hasPCR pkt then
    let pcr := getPCR pkt in
    let pc := _stats s pid in
    let stats' :=
      fun p => if p =? pid then mkContext pcr (_packet_count s) else _stats s p in
    if last_pcr_value pc =? 0 then
      (mkState (_bitrate s) (_jitter_max s) (_pid_list s)
         (uint64 (_packet_count s + 1)) (_nb_pcr_ok s) (_nb_pcr_nok s)
         (uint64 (_nb_pcr_unchecked s + 1)) stats',
       None)
    else
      let bitrate := int64 (if negb (_bitrate s =? 0) then _bitrate s else tsp_bitrate pkt) in
      let jit := jitter (int64 (last_pcr_value pc)) (int64 (last_pcr_packet pc))
                   (int64 pcr) (int64 (_packet_count s)) bitrate in
      let ajit := if jit >=? 0 then jit else int64 (- jit) in
      if ajit <=? _jitter_max s then
        (mkState (_bitrate s) (_jitter_max s) (_pid_list s)
           (uint64 (_packet_count s + 1)) (uint64 (_nb_pcr_ok s + 1)) (_nb_pcr_nok s)
           (_nb_pcr_unchecked s) stats',
         Some jit)
      else
        (mkState (_bitrate s) (_jitter_max s) (_pid_list s)
           (uint64 (_packet_count s + 1)) (_nb_pcr_ok s) (uint64 (_nb_pcr_nok s + 1))
           (_nb_pcr_unchecked s) stats',
         Some jit)
  else
    (mkState (_bitrate s) (_jitter_max s) (_pid_list s)
       (uint64 (_packet_count s + 1)) (_nb_pcr_ok s) (_nb_pcr_nok s)
       (_nb_pcr_unchecked s) (_stats s),
     None).

End Jitter.



End PCRVerifyPlugin.


(** ** Samples for the PCRVerify plugin *)

Module PCRVerifyScenario.
Import PCRVerifyPlugin.

(** A state in which PID 0x100 had its last PCR, of value [pcr1], in
    packet [pkt1], and [count] packets have been seen; the bitrate is
    given on the command line. *)
Definition state (bitrate pcr1 pkt1 count : Z) : State :=
  mkState bitrate 27000 (fun _ => true) count 0 0 0
    (fun pid => if pid =? 0x100 then mkContext pcr1 pkt1 else mkContext 0 0).

Definition packet (pcr : Z) : TSPacket := mkPacket 0x100 true pcr 0.

End PCRVerifyScenario.


(** ** Serialisation of descriptor lists (tsDescriptorList.cpp) *)

Module DescriptorListCodec.
Import DescriptorList.

(** The loop of [serialize (addr, size, start)] from entry [i] on: the bytes
    written, the space left and the index of the first entry that was not
    written. *)
Fixpoint serialize_from (l : t) (size : Z) (i : nat) : ByteBlock * Z * nat :=
match l with
| [] => ([], size, i)
| e :: rest =>
    if Descriptor.size (desc e) <=? size then
      let '(bytes, size', next) :=
        serialize_from rest (size - Descriptor.size (desc e)) (S i) in
      (Descriptor.content (desc e) ++ bytes, size', next)
    else ([], size, i)
end.

Definition serialize (l : t) (size : Z) (start : nat) : ByteBlock * Z * nat :=
serialize_from (skipn start l) size start.

(** [lengthSerialize (addr, size, start)]: two bytes hold the four bits
    1111 and the length of what follows. *)
Definition lengthSerialize (l : t) (size : Z) (start : nat) : ByteBlock * Z * nat :=
let '(bytes, size', next) := serialize l (size - 2) start in
(PutUInt16 (uint16 (Z.lor (Bytes.size bytes) 0xF000)) ++ bytes, size', next).

(** All the bytes of a descriptor list. *)
Definition all_bytes (l : t) : ByteBlock :=
concat (map (fun e => Descriptor.content (desc e)) l).

End DescriptorListCodec.

(** ** Event Information Table (tsEIT.cpp) *)

Module EIT.
Import DescriptorList DescriptorListCodec.

(** A section as [addSection] builds it. *)
Record Section := mkSection {
  sect_tableId : Z;
  sect_isPrivate : bool;
  sect_tableIdExtension : Z;
  sect_version : Z;
  sect_isCurrent : bool;
  sect_sectionNumber : Z;
  sect_lastSectionNumber : Z;
  sect_payload : ByteBlock
}.

(** Modelled from the spec: a binary table is an ordered collection of
    sections that share a table id; class BinaryTable is not among the
    sources.  [table_isValid] is the completeness of the table. *)
Record BinaryTable := mkTable {
  table_isValid : bool;
  table_tableId : Z;
  table_sections : list Section
}.

(** The value assigned to [flags[0]], the first byte of the length of a
    descriptor loop, from its previous value, the running status and the
    CA mode, converted back to [uint8_t]. *)
Definition flags_byte (flags0 running_status : Z) (CA_controlled : bool) : Z :=
uint8 (Z.lor (Z.lor (Z.land flags0 0x0F) (Z.shiftl running_status 5))
         (if CA_controlled then 0x10 else 0x00)).

Section Codec.

(** Declarations of headers that are not among the sources: the time type
    with its default value, the Modified Julian Date and BCD coders, the
    largest payload of a long section and the range of EIT table ids. *)
Variable Time : Type.
Variable Time_default : Time.
Variable EncodeMJD : Time -> ByteBlock.
Variable DecodeMJD : ByteBlock -> Time.
Variable EncodeBCD : Z -> Z.
Variable DecodeBCD : Z -> Z.
Variable MAX_PSI_LONG_SECTION_PAYLOAD_SIZE : Z.
Variable TID_EIT_MIN : Z.
Variable TID_EIT_MAX : Z.

(** [EncodeMJD (time, data + 2, 5)] fills the five bytes it is given. *)
Definition mjd_bytes (time : Time) : ByteBlock :=
firstn 5 (EncodeMJD time ++ [0; 0; 0; 0; 0]).

(** Conversion to [int]. *)
Definition int32 (x : Z) : Z := (x + 2147483648) mod 4294967296 - 2147483648.

Record Event := mkEvent {
  start_time : Time;
  duration : Z;
  running_status : Z;
  CA_controlled : bool;
  descs : DescriptorList.t
}.

(** [Event::Event ()]. *)
Definition Event_default : Event := mkEvent Time_default 0 0 false [].

(** [EventMap] is a [std::map] from event id to event: the entries in
    increasing order of the ids. *)
Definition EventMap := list (Z * Event).

(** [events[event_id]] read as a value: the entry, or a new event. *)
Fixpoint events_at (m : EventMap) (event_id : Z) : Event :=
match m with
| [] => Event_default
| (k, e) :: rest => if k =? event_id then e else events_at rest event_id
end.

(** The map after the entry [events[event_id]] has been written. *)
Fixpoint events_set (m : EventMap) (event_id : Z) (e : Event) : EventMap :=
match m with
| [] => [(event_id, e)]
| (k, x) :: rest =>
    if event_id <? k then (event_id, e) :: (k, x) :: rest
    else if event_id =? k then (event_id, e) :: rest
    else (k, x) :: events_set rest event_id e
end.

Record t := mk {
  _is_valid : bool;
  _table_id : Z;
  version : Z;
  is_current : bool;
  service_id : Z;
  ts_id : Z;
  onetw_id : Z;
  segment_last : Z;
  last_table_id : Z;
  events : EventMap
}.

(** *** Serialisation *)

(** The state of [serialize]: the sections added to the table, the number
    of the next section, the payload bytes written so far in the buffer
    ([payload] up to [data]) and the space that remains. *)
Record Buffer := mkBuffer {
  table : list Section;
  section_number : Z;
  data : ByteBlock;
  remain : Z
}.

(** [addSection]. *)
Definition addSection (self : t) (b : Buffer) : Buffer :=
mkBuffer
  (table b ++ [mkSection (_table_id self) true (service_id self) (version self)
                 (is_current self) (uint8 (section_number b))
                 (uint8 (section_number b)) (data b)])
  (section_number b + 1)
  (firstn 6 (data b))
  (remain b + (Bytes.size (data b) - 6)).

(** The first six bytes of every payload. *)
Definition fixed_part (self : t) : ByteBlock :=
PutUInt16 (ts_id self) ++ PutUInt16 (onetw_id self)
  ++ [segment_last self; last_table_id self].

(** The ten bytes written before the descriptor loop of an event. *)
Definition event_fixed (event_id : Z) (event : Event) : ByteBlock :=
PutUInt16 event_id ++ mjd_bytes (start_time event)
  ++ [uint8 (EncodeBCD (int32 (Z.quot (duration event) 3600)));
      uint8 (EncodeBCD (int32 (Z.rem (Z.quot (duration event) 60) 60)));
      uint8 (EncodeBCD (int32 (Z.rem (duration event) 60)))].

(** The assignment to [flags[0]] for an event. *)
Definition set_flags (flags0 : Z) (event : Event) : Z :=
flags_byte flags0 (running_status event) (CA_controlled event).

(** The descriptor loop written from [start_index] in [size] bytes, with
    the four upper bits of its first byte replaced. *)
Definition event_loop_bytes (event : Event) (size : Z) (start_index : nat)
  : ByteBlock * Z * nat :=
let '(bytes, size', next) := lengthSerialize (descs event) size start_index in
(match bytes with
 | flags0 :: others => set_flags flags0 event :: others
 | [] => []
 end, size', next).

(** The [while] loop on one event.  [fuel] bounds the number of tests of
    the loop condition; [None] stands for a failed assertion or for a loop
    that does not end.  Every turn but the last one ends on a new section,
    so the next turn either writes at least one descriptor or leaves the
    state unchanged and the loop never ends: with [n] descriptors the
    condition is tested at most [n + 2] times when the loop ends. *)
Fixpoint event_chunks (fuel : nat) (self : t) (event_id : Z) (event : Event)
    (starting : bool) (start_index : nat) (b : Buffer) : option Buffer :=
match fuel with
| O => None
| S fuel' =>
    if starting || (start_index <? List.length (descs event))%nat then
      let b1 :=
        if starting && (12 + binarySize (descs event) >? remain b)
        then addSection self b else b in
      if remain b1 <? 12 then None
      else
        let '(loop, remain', next) :=
          event_loop_bytes event (remain b1 - 10) start_index in
        let b2 := mkBuffer (table b1) (section_number b1)
                    (data b1 ++ event_fixed event_id event ++ loop) remain' in
        let b3 := if (next <? List.length (descs event))%nat
                  then addSection self b2 else b2 in
        event_chunks fuel' self event_id event false next b3
    else Some b
end.

(** The [for] loop on the events. *)
Fixpoint add_events (self : t) (evs : EventMap) (b : Buffer) : option Buffer :=
match evs with
| [] => Some b
| (event_id, event) :: rest =>
    let b0 := if remain b <? 12 then addSection self b else b in
    match event_chunks (S (S (List.length (descs event)))) self event_id event
            true O b0 with
    | None => None
    | Some b' => add_events self rest b'
    end
end.

(** [serialize]: the sections of the table, [None] when the function does
    not return. *)
Definition serialize (self : t) : option (list Section) :=
if negb (_is_valid self) then Some []
else
  let b := mkBuffer [] 0 (fixed_part self) (MAX_PSI_LONG_SECTION_PAYLOAD_SIZE - 6) in
  match add_events self (events self) b with
  | None => None
  | Some b' =>
      if (Bytes.size (data b') >? 6) || (List.length (table b') =? 0)%nat
      then Some (table (addSection self b'))
      else Some (table b')
  end.

(** The complete description of an event: what the loop writes for it when
    the whole descriptor list fits. *)
Definition event_description (ev : Z * Event) : ByteBlock :=
event_fixed (fst ev) (snd ev)
  ++ fst (fst (event_loop_bytes (snd ev) (2 + binarySize (descs (snd ev))) O)).

(** *** Deserialisation *)

(** The loop on the event descriptions of one payload. *)
Fixpoint get_events (fuel : nat) (data : ByteBlock) (evs : EventMap) : EventMap :=
match fuel with
| O => evs
| S fuel' =>
    if Bytes.size data >=? 12 then
      let event_id := GetUInt16 data in
      let event := events_at evs event_id in
      let start := DecodeMJD (firstn 5 (skipn 2 data)) in
      let hour := DecodeBCD (at_ data 7) in
      let min := DecodeBCD (at_ data 8) in
      let sec := DecodeBCD (at_ data 9) in
      let info_length := Z.land (GetUInt16 (skipn 10 data)) 0x0FFF in
      let rest := skipn 12 data in
      let info_length := Z.min info_length (Bytes.size rest) in
      let event' :=
        mkEvent start (hour * 3600 + min * 60 + sec)
          (Z.land (Z.shiftr (at_ data 10) 5) 0x07)
          (negb (Z.land (Z.shiftr (at_ data 10) 4) 0x01 =? 0))
          (add_memory (descs event) (firstn (Z.to_nat info_length) rest)) in
      get_events fuel' (skipn (Z.to_nat info_length) rest)
        (events_set evs event_id event')
    else evs
end.

(** The loop on the sections; the flag tells whether the loop ran to its
    end. *)
Fixpoint get_sections (self : t) (sections : list Section) : bool * t :=
match sections with
| [] => (true, self)
| sect :: rest =>
    if negb (sect_tableId sect =? _table_id self) then (false, self)
    else
      let self1 := mk (_is_valid self) (_table_id self) (sect_version sect)
                     (sect_isCurrent sect) (sect_tableIdExtension sect)
                     (ts_id self) (onetw_id self) (segment_last self)
                     (last_table_id self) (events self) in
      let payload := sect_payload sect in
      if Bytes.size payload <? 6 then (false, self1)
      else
        let self2 := mk (_is_valid self1) (_table_id self1) (version self1)
                       (is_current self1) (service_id self1)
                       (GetUInt16 payload) (GetUInt16 (skipn 2 payload))
                       (at_ payload 4) (at_ payload 5)
                       (get_events (List.length payload) (skipn 6 payload)
                          (events self1)) in
        get_sections self2 rest
end.

(** [deserialize]. *)
Definition deserialize (self : t) (tbl : BinaryTable) : t :=
let cleared := mk false (_table_id self) (version self) (is_current self)
                 0 0 0 0 (_table_id self) [] in
if negb (table_isValid tbl) then cleared
else
  let self0 := mk false (table_tableId tbl) (version self) (is_current self)
                 0 0 0 0 (_table_id self) [] in
  if (table_tableId tbl <? TID_EIT_MIN) || (table_tableId tbl >? TID_EIT_MAX)
  then self0
  else
    let '(completed, self1) := get_sections self0 (table_sections tbl) in
    if completed
    then mk true (_table_id self1) (version self1) (is_current self1)
           (service_id self1) (ts_id self1) (onetw_id self1) (segment_last self1)
           (last_table_id self1) (events self1)
    else self1.

(** *** Statements about the codec *)

(** The descriptor loop of an event when there is room for all of it. *)
Definition whole_loop (event : Event) : ByteBlock :=
set_flags (Z.land (Z.shiftr (uint16 (Z.lor (binarySize (descs event)) 0xF000)) 8) 255)
  event
  :: Z.land (uint16 (Z.lor (binarySize (descs event)) 0xF000)) 255
  :: all_bytes (descs event).

(** Payload of a section that holds the complete descriptions of a group
    of events. *)
Definition whole_events (self : t) (group : EventMap) : ByteBlock :=
fixed_part self ++ concat (map event_description group).

(** State of the serialisation when the sections built so far hold the
    groups [done] and the buffer holds the group [cur]. *)
Definition packed (self : t) (done : list EventMap) (cur : EventMap)
  (b : Buffer) : Prop :=
  map sect_payload (table b) = map (whole_events self) done
  /\ data b = whole_events self cur
  /\ remain b = MAX_PSI_LONG_SECTION_PAYLOAD_SIZE - Bytes.size (data b)
  /\ (Forall (fun g => g <> []) done
      /\ Forall (fun s => sect_tableId s = _table_id self) (table b)).

(** Every event of the list fits in one section. *)
Definition all_fit (evs : EventMap) : Prop :=
  forall ev, In ev evs -> 12 + binarySize (descs (snd ev)) <= MAX_PSI_LONG_SECTION_PAYLOAD_SIZE - 6.

(** What the length bits carry for an event, next to its id: the three
    bits of its running status and its CA mode, as written and as read. *)
Definition written_flags (ev : Z * Event) : Z * Z * bool :=
(fst ev, Z.land (running_status (snd ev)) 0x07, CA_controlled (snd ev)).

Definition read_flags (ev : Z * Event) : Z * Z * bool :=
(fst ev, running_status (snd ev), CA_controlled (snd ev)).

(** The fields of an event have values of their C++ types, and its
    descriptor loop has a length of 12 bits. *)
Definition event_ok (ev : Z * Event) : Prop :=
  0 <= fst ev < 65536 /\ 0 <= running_status (snd ev) < 256
  /\ binarySize (descs (snd ev)) < 4096.

(** Keys in increasing order, all above [lo]. *)
Fixpoint ascending (lo : Z) (keys : list Z) : Prop :=
match keys with
| [] => True
| k :: rest => lo < k /\ ascending k rest
end.

End Codec.

Arguments mkEvent {Time}.
Arguments start_time {Time}.
Arguments duration {Time}.
Arguments running_status {Time}.
Arguments CA_controlled {Time}.
Arguments descs {Time}.
Arguments Event_default {Time}.
Arguments events_at {Time}.
Arguments events_set {Time}.
Arguments mk {Time}.
Arguments _is_valid {Time}.
Arguments _table_id {Time}.
Arguments version {Time}.
Arguments is_current {Time}.
Arguments service_id {Time}.
Arguments ts_id {Time}.
Arguments onetw_id {Time}.
Arguments segment_last {Time}.
Arguments last_table_id {Time}.
Arguments events {Time}.
Arguments mjd_bytes {Time}.
Arguments addSection {Time}.
Arguments fixed_part {Time}.
Arguments event_fixed {Time}.
Arguments set_flags {Time}.
Arguments event_loop_bytes {Time}.
Arguments event_chunks {Time}.
Arguments add_events {Time}.
Arguments serialize {Time}.
Arguments event_description {Time}.
Arguments get_events {Time}.
Arguments get_sections {Time}.
Arguments deserialize {Time}.
Arguments whole_loop {Time}.
Arguments whole_events {Time}.
Arguments packed {Time}.
Arguments all_fit {Time}.
Arguments written_flags {Time}.
Arguments read_flags {Time}.
Arguments event_ok {Time}.

End EIT.


(** ** A table for scenario S4, and coders to run the EIT codec on it *)

Module EITScenario.
Import DescriptorList EIT.

(** Sample instances of the declarations that [EIT] leaves open: times as
    seconds since 1970, the largest long section payload of a 1024-byte
    section, the table ids of the DVB standard. *)
Definition EncodeBCD (x : Z) : Z := ((x / 10) mod 10) * 16 + x mod 10.
Definition DecodeBCD (b : Z) : Z := (b / 16) * 10 + b mod 16.
Definition EncodeMJD (time : Z) : ByteBlock :=
PutUInt16 (time / 86400 + 40587)
  ++ [EncodeBCD ((time mod 86400) / 3600);
      EncodeBCD (((time mod 86400) / 60) mod 60);
      EncodeBCD (time mod 60)].
Definition DecodeMJD (bytes : ByteBlock) : Z :=
(GetUInt16 bytes - 40587) * 86400 + DecodeBCD (at_ bytes 2) * 3600
  + DecodeBCD (at_ bytes 3) * 60 + DecodeBCD (at_ bytes 4).
Definition MAX_PSI_LONG_SECTION_PAYLOAD_SIZE : Z := 1012.
Definition TID_EIT_MIN : Z := 0x4E.
Definition TID_EIT_MAX : Z := 0x6F.

(** A descriptor of 80 bytes: tag 0x4D, length 78. *)
Definition descriptor_80 : Descriptor.t :=
Descriptor.from_memory (0x4D :: 78 :: repeat 0x20 78).

(** Event [i]: one hour long, running, with one 80-byte descriptor. *)
Definition event (i : nat) : Z * Event Z :=
(Z.of_nat i, mkEvent (1500000000 + 3600 * Z.of_nat i) 3600 4 false
               (add [] descriptor_80)).

(** An EIT schedule table with 120 events. *)
Definition eit_120 : EIT.t Z :=
mk true 0x50 1 true 0x0064 0x1234 0x0001 0 0x50 (map event (seq 0 120)).

(** A descriptor of 257 bytes and a table whose single event has five of
    them: the descriptor loop does not fit in one section. *)
Definition descriptor_257 : Descriptor.t :=
Descriptor.from_memory (0x4E :: 255 :: repeat 0x41 255).

Definition eit_long_event : EIT.t Z :=
mk true 0x50 1 true 0x0064 0x1234 0x0001 0 0x50
  [(7, mkEvent 1500000000 7200 4 true
         (fold_left add (repeat descriptor_257 5) []))].

End EITScenario.


(** ** Searches and selections in descriptor lists (tsDescriptorList.cpp) *)

Module DescriptorListSearch.
Import DescriptorList.

(** The loop of [search (tag, start_index, pds)] on [index].  [fuel] bounds
    the number of iterations: the index grows by one at each of them and
    the loop stops when it reaches the size of the list. *)
Fixpoint search_loop (fuel : nat) (l : t) (tag p : Z) (check_pds : bool)
    (index : nat) : nat :=
match fuel with
| O => index
| S fuel' =>
    if (index <? List.length l)%nat
       && (negb (Descriptor.tag (desc (nth index l dummy)) =? tag)
           || (check_pds && negb (pds (nth index l dummy) =? p)))
    then search_loop fuel' l tag p check_pds (S index)
    else index
end.

Definition search (l : t) (tag : Z) (start_index : nat) (p : Z) : nat :=
let check_pds := negb (p =? 0) && (tag >=? 0x80) in
search_loop (List.length l) l tag p check_pds start_index.

(** [count ()]. *)
Definition count (l : t) : nat := List.length l.

(** The entries that [search] stops on and that [removeByTag] considers:
    the tag is the requested one and, for a private tag searched with a
    specifier, the entry is associated with this specifier. *)
Definition selected (tag p : Z) (e : Element) : bool :=
(Descriptor.tag (desc e) =? tag)
&& (negb (negb (p =? 0) && (tag >=? 0x80)) || (pds e =? p)).

(** Private descriptors have a tag of 0x80 or more. *)
Definition is_private (e : Element) : bool := Descriptor.tag (desc e) >=? 0x80.

(** No two neighbours are both private descriptors without specifier. *)
Fixpoint no_adjacent_invalid (l : t) : Prop :=
match l with
| e :: ((e' :: _) as rest) =>
    (invalid_private e && invalid_private e' = false) /\ no_adjacent_invalid rest
| _ => True
end.

(** An entry whose descriptor holds a block of bytes that passes the test
    of the constructors. *)
Definition holds_consistent (e : Element) : Prop :=
match Descriptor.data (desc e) with
| Some buf => Descriptor.consistent buf
| None => False
end.

(** The bytes that remain when [add (data, size)] stops: fewer than two,
    or a descriptor whose announced length exceeds them. *)
Definition unparsed (rest : ByteBlock) : Prop :=
Bytes.size rest < 2 \/ Bytes.size rest < at_ rest 1 + 2.

End DescriptorListSearch.


(** ** The private_data_specifier_descriptor (tsPrivateDataSpecifierDescriptor.cpp) *)

Module PrivateDataSpecifierDescriptor.

(** The typed descriptor: its validity and the specifier ([uint32_t]). *)
Record t := mk { _is_valid : bool; pds : Z }.

(** [_tag], given to the base class by the constructors. *)
Definition _tag : Z := DescriptorList.DID_PRIV_DATA_SPECIF.

(** [PrivateDataSpecifierDescriptor (PDS pds_)]. *)
Definition init (pds_ : Z) : t := mk true pds_.

(** [serialize]: six bytes, given to the constructor of [Descriptor]. *)
Definition serialize (self : t) : Descriptor.t :=
Descriptor.from_memory ([_tag; 4] ++ PutUInt32 (pds self)).

(** [deserialize]: the specifier is assigned when the descriptor is
    accepted only. *)
Definition deserialize (self : t) (desc : Descriptor.t) : t :=
let valid := Descriptor.isValid desc && (Descriptor.tag desc =? _tag)
             && (Descriptor.payloadSize desc =? 4) in
mk valid (if valid then GetUInt32 (Descriptor.payload desc) else pds self).

(** [PrivateDataSpecifierDescriptor (const Descriptor& desc, ...)]. *)
Definition from_Descriptor (desc : Descriptor.t) : t := deserialize (mk false 0) desc.

End PrivateDataSpecifierDescriptor.


(** ** Merging AC-3 descriptors, and their use by the PMT plugin
       (tsAC3Descriptor.cpp, tsplugin_pmt.cpp) *)

Module AC3DescriptorMerge.
Import AC3Descriptor.

(** [merge (other)]: the information that this object misses is taken
    from the other one. *)
Definition merge (self other : t) : t :=
mk (is_valid self)
   (if negb (set (component_type self)) then component_type other else component_type self)
   (if negb (set (bsid self)) then bsid other else bsid self)
   (if negb (set (mainid self)) then mainid other else mainid self)
   (if negb (set (asvc self)) then asvc other else asvc self)
   (match additional_info self with
    | [] => additional_info other
    | _ :: _ => additional_info self
    end).

(** Number of payload bytes that [serialize] writes. *)
Definition payload_size (d : t) : Z :=
1 + Bytes.size (append_opt (component_type d) ++ append_opt (bsid d)
                ++ append_opt (mainid d) ++ append_opt (asvc d))
+ Bytes.size (additional_info d).

(** The object that [deserialize] leaves when it rejects a descriptor. *)
Definition rejected : t := mk false None None None None [].

End AC3DescriptorMerge.

Module PMTPlugin.
Import DescriptorList DescriptorListSearch.

(** Stream types named in the help text of [--ac3-atsc2dvb]: 0x81 for
    AC-3 audio in the ATSC way, 0x06 for private PES data. *)
Definition ST_AC3_AUDIO : Z := 0x81.
Definition ST_PES_PRIV : Z := 0x06.

(** What [handleTable] reads of a component of the PMT. *)
Record Stream := mkStream { stream_type : Z; descs : DescriptorList.t }.

(** The body of the loop run for [--ac3-atsc2dvb] on one component;
    [search (DID_AC3)] starts at index 0 and gives no specifier. *)
Definition ac3_atsc2dvb (s : Stream) : Stream :=
if stream_type s =? ST_AC3_AUDIO then
  mkStream ST_PES_PRIV
    (if (search (descs s) AC3Descriptor.DID_AC3 O 0 =? count (descs s))%nat
     then add_serialized (descs s) (AC3Descriptor.serialize AC3Descriptor.init)
     else descs s)
else s.

(** A component has an AC-3 descriptor. *)
Definition has_AC3_descriptor (s : Stream) : bool :=
(search (descs s) AC3Descriptor.DID_AC3 O 0 <? count (descs s))%nat.

End PMTPlugin.


(** ** Descriptors that share their bytes (tsDescriptor.cpp) *)

Module DescriptorStore.
Import Descriptor.

(** The byte blocks that descriptors point to.  [_data] is a counted
    pointer: copying it makes two descriptors point to one block, and
    [replacePayload] and [resizePayload] change the block in place.  A
    block is named by its position in the store. *)
Definition Store := list ByteBlock.

(** A descriptor: [_data], null or the name of a block. *)
Record t := mk { _data : option nat }.

(** [new ByteBlock (...)]. *)
Definition new_block (st : Store) (bb : ByteBlock) : Store * nat :=
(st ++ [bb], List.length st).

(** [*_data]. *)
Definition block (st : Store) (p : nat) : ByteBlock := nth p st [].

(** Assignment to the block that [p] names. *)
Definition set_block (st : Store) (p : nat) (bb : ByteBlock) : Store :=
if (p <? List.length st)%nat then firstn p st ++ bb :: skipn (S p) st else st.

(** [bb[i] = v] inside a block. *)
Definition put_at (i : nat) (v : Z) (bb : ByteBlock) : ByteBlock :=
if (i <? List.length bb)%nat then firstn i bb ++ v :: skipn (S i) bb else bb.

(** [Descriptor (const ByteBlock& bb)]. *)
Definition from_ByteBlock (st : Store) (bb : ByteBlock) : Store * t :=
if (Bytes.size bb >=? 2) && (Bytes.size bb <? 258) && (at_ bb 1 =? Bytes.size bb - 2)
then let '(st', p) := new_block st bb in (st', mk (Some p))
else (st, mk None).

(** [Descriptor (const Descriptor& desc, CopyShare mode)]; [None] when the
    null pointer of an invalid descriptor is dereferenced in mode [COPY]. *)
Definition copy (st : Store) (desc : t) (mode : CopyShare) : option (Store * t) :=
match mode with
| SHARE => Some (st, mk (_data desc))
| COPY =>
    match _data desc with
    | Some p => let '(st', q) := new_block st (block st p) in Some (st', mk (Some q))
    | None => None
    end
end.

(** Modelled from the spec: [isValid ()] and [content ()] of tsDescriptor.h,
    as in module [Descriptor]. *)
Definition isValid (d : t) : bool :=
match _data d with Some _ => true | None => false end.

Definition content (st : Store) (d : t) : ByteBlock :=
match _data d with Some p => block st p | None => [] end.

(** [replacePayload (addr, size)], [payload] being the [size] bytes at
    [addr]: the previous payload is erased from the block, the new one is
    appended and the length byte is adjusted. *)
Definition replacePayload (st : Store) (d : t) (payload : ByteBlock) : Store * t :=
if Bytes.size payload >? 255 then (st, mk None)
else
  match _data d with
  | None => (st, d)
  | Some p =>
      let erased := firstn 2 (block st p) in
      let appended := erased ++ payload in
      (set_block st p (put_at 1 (uint8 (Bytes.size appended - 2)) appended), d)
  end.

(** [resizePayload (new_size)]: the block is truncated or extended with
    zeroes, and the length byte is adjusted. *)
Definition resizePayload (st : Store) (d : t) (new_size : Z) : Store * t :=
if new_size >? 255 then (st, mk None)
else
  match _data d with
  | None => (st, d)
  | Some p =>
      let bb := block st p in
      let resized := firstn (Z.to_nat (new_size + 2)) bb
                     ++ repeat 0 (Z.to_nat (new_size + 2) - List.length bb) in
      (set_block st p (put_at 1 (uint8 (Bytes.size resized - 2)) resized), d)
  end.

(** A valid descriptor of the store: its pointer names a block that
    passes the test of the constructors. *)
Definition wellformed (st : Store) (d : t) : Prop :=
match _data d with
| Some p => (p < List.length st)%nat /\ consistent (block st p)
| None => False
end.

End DescriptorStore.


(** ** Reading back the sections of an EIT (tsEIT.cpp) *)

Module EITReading.
Import DescriptorList DescriptorListSearch DescriptorListCodec EIT.

Section Reading.

Variable Time : Type.
Variable Time_default : Time.
Variable EncodeMJD : Time -> ByteBlock.
Variable DecodeMJD : ByteBlock -> Time.
Variable EncodeBCD : Z -> Z.
Variable DecodeBCD : Z -> Z.
Variable MAX_PSI_LONG_SECTION_PAYLOAD_SIZE : Z.

(** The loop of [deserialize] on the event descriptions that follow the
    six fixed bytes of a payload, run to its end: every turn consumes at
    least twelve bytes. *)
Definition read_events (data : ByteBlock) (evs : EventMap Time) : EventMap Time :=
get_events Time_default DecodeMJD DecodeBCD (List.length data) data evs.

(** The events after the loop on the sections has gone through some
    payloads. *)
Definition read_payloads (payloads : list ByteBlock) : EventMap Time :=
fold_left (fun evs payload =>
             get_events Time_default DecodeMJD DecodeBCD (List.length payload)
               (skipn 6 payload) evs)
  payloads [].

(** An event with its first [k] descriptors only. *)
Definition truncated (e : Event Time) (k : nat) : Event Time :=
mkEvent (start_time e) (duration e) (running_status e) (CA_controlled e)
  (firstn k (descs e)).

(** The descriptor loop written for the descriptors [seg] of an event:
    the two bytes of the length, with the running status and the CA mode
    in the four upper bits, and the descriptors. *)
Definition loop_bytes (event : Event Time) (seg : DescriptorList.t) : ByteBlock :=
set_flags (Z.land (Z.shiftr (uint16 (Z.lor (binarySize seg) 0xF000)) 8) 255) event
:: Z.land (uint16 (Z.lor (binarySize seg) 0xF000)) 255
:: all_bytes seg.

(** The events whose descriptors are blocks that pass the test of the
    constructors of [Descriptor]: none is longer than 257 bytes. *)
Definition descriptors_consistent (evs : EventMap Time) : Prop :=
Forall (fun ev => Forall holds_consistent (descs (snd ev))) evs.

(** An event that the binary form can hold: a 16-bit id, a running
    status of three bits, a duration below 100 hours, a start time that
    the date coder gives back, consistent descriptors, each associated
    with the specifier in force. *)
Definition event_codable (ev : Z * Event Time) : Prop :=
0 <= fst ev < 65536
/\ 0 <= running_status (snd ev) < 8
/\ 0 <= duration (snd ev) < 360000
/\ DecodeMJD (mjd_bytes EncodeMJD (start_time (snd ev))) = start_time (snd ev)
/\ Forall holds_consistent (descs (snd ev))
/\ scoped 0 (descs (snd ev)).

(** The BCD coder gives back the numbers of two decimal digits. *)
Definition bcd_codable : Prop :=
forall x : Z, 0 <= x < 100 -> DecodeBCD (uint8 (EncodeBCD x)) = x.

(** A table that the binary form can hold. *)
Definition table_codable (self : t Time) : Prop :=
_is_valid self = true
/\ 0 <= ts_id self < 65536 /\ 0 <= onetw_id self < 65536
/\ ascending (-1) (map fst (events self))
/\ Forall event_codable (events self).

(** A section as [addSection] builds it for a table, with a payload that
    starts with the six fixed bytes and is not larger than the buffer of
    [serialize]. *)
Definition section_of (self : t Time) (s : Section) : Prop :=
sect_tableId s = _table_id self
/\ sect_isPrivate s = true
/\ sect_tableIdExtension s = service_id self
/\ sect_version s = version self
/\ sect_isCurrent s = is_current self
/\ sect_lastSectionNumber s = sect_sectionNumber s
/\ firstn 6 (sect_payload s) = fixed_part self
/\ Bytes.size (sect_payload s) <= MAX_PSI_LONG_SECTION_PAYLOAD_SIZE.

(** The state of [serialize] between two writes: the buffer starts with
    the six fixed bytes, [remain] is the room left in it, and the sections
    built so far are sections of the table. *)
Definition buffer_ok (self : t Time) (b : Buffer) : Prop :=
firstn 6 (data b) = fixed_part self
/\ remain b = MAX_PSI_LONG_SECTION_PAYLOAD_SIZE - Bytes.size (data b)
/\ 0 <= remain b
/\ Forall (section_of self) (table b).

(** What [deserialize] reads from the sections built so far, followed by
    the buffer and by any bytes written later, is what it reads from
    these later bytes with the events [m] already there. *)
Definition buffer_reads (b : Buffer) (m : EventMap Time) : Prop :=
forall rest : ByteBlock,
  read_events (skipn 6 (data b) ++ rest) (read_payloads (map sect_payload (table b)))
  = read_events rest m.

End Reading.

Arguments read_events {Time}.
Arguments read_payloads {Time}.
Arguments truncated {Time}.
Arguments loop_bytes {Time}.
Arguments descriptors_consistent {Time}.
Arguments event_codable {Time}.
Arguments table_codable {Time}.
Arguments section_of {Time}.
Arguments buffer_ok {Time}.
Arguments buffer_reads {Time}.

End EITReading.


(** ** Table ids of the EIT (tsEIT.cpp) *)

Module EITTableId.
Import EIT.

Section TableId.

Variable Time : Type.

(** The table ids of the EIT and [isPresentFollowing ()] are declared in
    headers that are not among the sources. *)
Variable TID_EIT_PF_ACT : Z.
Variable TID_EIT_PF_OTH : Z.
Variable TID_EIT_S_ACT_MIN : Z.
Variable TID_EIT_S_ACT_MAX : Z.
Variable TID_EIT_S_OTH_MIN : Z.
Variable isPresentFollowing : EIT.t Time -> bool.

(** [ComputeTableId (is_actual, is_pf, eits_index)], of type [TID]
    ([uint8_t]). *)
Definition ComputeTableId (is_actual is_pf : bool) (eits_index : Z) : Z :=
if is_pf then (if is_actual then TID_EIT_PF_ACT else TID_EIT_PF_OTH)
else uint8 ((if is_actual then TID_EIT_S_ACT_MIN else TID_EIT_S_OTH_MIN)
            + Z.land eits_index 0x0F).

(** The default constructor. *)
Definition init (is_actual_ is_pf_ : bool)
    (eits_index_ version_ : Z) (is_current_ : bool)
    (service_id_ ts_id_ onetw_id_ : Z) : EIT.t Time :=
mk true (ComputeTableId is_actual_ is_pf_ eits_index_) version_ is_current_
  service_id_ ts_id_ onetw_id_ 0 (ComputeTableId is_actual_ is_pf_ eits_index_) [].

(** [isActual ()]. *)
Definition isActual (self : EIT.t Time) : bool :=
(_table_id self =? TID_EIT_PF_ACT)
|| ((_table_id self >=? TID_EIT_S_ACT_MIN) && (_table_id self <=? TID_EIT_S_ACT_MAX)).

Definition set_table_ids (self : EIT.t Time) (table_id last : Z) : EIT.t Time :=
mk (_is_valid self) table_id (version self) (is_current self) (service_id self)
  (ts_id self) (onetw_id self) (segment_last self) last (events self).

(** [setActual (is_actual)]. *)
Definition setActual (self : EIT.t Time) (is_actual : bool) : EIT.t Time :=
if isPresentFollowing self then
  let table_id := if is_actual then TID_EIT_PF_ACT else TID_EIT_PF_OTH in
  set_table_ids self table_id table_id
else if is_actual then
  set_table_ids self
    (uint8 (TID_EIT_S_ACT_MIN + Z.land (_table_id self) 0x0F))
    (uint8 (TID_EIT_S_ACT_MIN + Z.land (last_table_id self) 0x0F))
else
  set_table_ids self
    (uint8 (TID_EIT_S_OTH_MIN + Z.land (_table_id self) 0x0F))
    (uint8 (TID_EIT_S_ACT_MIN + Z.land (last_table_id self) 0x0F)).

(** The layout of the table ids: present/following actual, then
    present/following other, then sixteen ids for the schedules of the
    actual stream, then sixteen ids for the schedules of the other
    streams. *)
Definition tid_layout : Prop :=
0 <= TID_EIT_PF_ACT < TID_EIT_PF_OTH
/\ TID_EIT_PF_OTH < TID_EIT_S_ACT_MIN
/\ TID_EIT_S_ACT_MAX = TID_EIT_S_ACT_MIN + 15
/\ TID_EIT_S_ACT_MAX < TID_EIT_S_OTH_MIN
/\ TID_EIT_S_OTH_MIN + 15 < 256.

End TableId.

End EITTableId.


(** ** The PCRVerify plugin over a stream (tsplugin_pcrverify.cpp) *)

Module PCRVerifyRun.
Import PCRVerifyPlugin.

(** [start], once the options are read: the counters and the contexts of
    all PIDs are reset. *)
Definition reset (s : State) : State :=
mkState (_bitrate s) (_jitter_max s) (_pid_list s) 0 0 0 0 (fun _ => mkContext 0 0).

(** The state after the packets of a stream; [processPacket] answers
    [TSP_OK] for every packet. *)
Definition run (ty : ConstantType) (s : State) (pkts : list TSPacket) : State :=
fold_left (fun s pkt => fst (processPacket ty s pkt)) pkts s.

(** The packets whose PCR the plugin looks at: those of a selected PID
    that have a PCR. *)
Definition examined (pid_list : Z -> bool) (pkt : TSPacket) : bool :=
pid_list (getPID pkt) && hasPCR pkt.

(** The PIDs for which the state holds no previous PCR to compare with. *)
Definition no_reference (s : State) (pid : Z) : bool :=
last_pcr_value (_stats s pid) =? 0.

(** The PIDs of the examined packets, in the order of the stream. *)
Definition examined_pids (pid_list : Z -> bool) (pkts : list TSPacket) : list Z :=
map getPID (filter (examined pid_list) pkts).

End PCRVerifyRun.


(** ** The report of the PCRExtract plugin (tsplugin_pcrextract.cpp) *)

Module PCRExtractReport.
Import PCRExtractPlugin.

(** The PCR lines of a PID in a report. *)
Definition is_pcr_of (pid : Z) (l : Line) : bool :=
(line_pid l =? pid) && kind_eqb (line_type l) PCR.

(** The values of the PCRs of a PID in a stream, in the order of the
    packets. *)
Definition pcr_values (pid : Z) (pkts : list TSPacket) : list Z :=
map getPCR (filter (fun pkt => (getPID pkt =? pid) && hasPCR pkt) pkts).

End PCRExtractReport.


(** ** CA identifier descriptor (tsCAIdentifierDescriptor.cpp) *)

Module CAIdentifierDescriptor.

Section Codec.

(** The tag of the descriptor; its declaration is in a header that is not
    among the sources. *)
Variable DID_CA_ID : Z.

(** The typed descriptor: a vector of [uint16_t]. *)
Record t := mk { _is_valid : bool; casids : list Z }.

(** Default constructor. *)
Definition init : t := mk true [].

(** [serialize]: two bytes for the header, then [appendUInt16] for each
    identifier; tag and length are patched at the end. *)
Definition serialize (self : t) : Descriptor.t :=
let body := concat (map PutUInt16 (casids self)) in
let bbp := DID_CA_ID :: uint8 (Bytes.size ([0; 0] ++ body) - 2) :: body in
Descriptor.from_ByteBlockPtr (Some bbp) Descriptor.SHARE.

(** The loop of [deserialize]: one identifier for every two bytes. *)
Fixpoint get_ids (data : ByteBlock) : list Z :=
match data with
| hi :: lo :: rest => GetUInt16 (hi :: lo :: rest) :: get_ids rest
| _ => []
end.

(** [deserialize]; the identifiers that the object held are cleared
    first. *)
Definition deserialize (desc : Descriptor.t) : t :=
let valid := Descriptor.isValid desc
             && (Descriptor.tag desc =? DID_CA_ID)
             && (Descriptor.payloadSize desc mod 2 =? 0) in
if valid then mk true (get_ids (Descriptor.payload desc)) else mk false [].

End Codec.

(** A descriptor with two identifiers. *)
Definition two_ids : t := mk true [0x0100; 0x0500].

End CAIdentifierDescriptor.


(** ** Terrestrial delivery system descriptor
       (tsTerrestrialDeliverySystemDescriptor.cpp) *)

Module TerrestrialDeliverySystemDescriptor.

(** The typed descriptor.  The fields are declared in a header that is
    not among the sources; they are integers here, and booleans for the
    three priority flags and [other_frequency]. *)
Record t := mk {
  _is_valid : bool;
  centre_frequency : Z;
  bandwidth : Z;
  high_priority : bool;
  no_time_slicing : bool;
  no_mpe_fec : bool;
  constellation : Z;
  hierarchy : Z;
  code_rate_hp : Z;
  code_rate_lp : Z;
  guard_interval : Z;
  transmission_mode : Z;
  other_frequency : bool
}.

(** Default constructor. *)
Definition init : t := mk true 0 0 true true true 0 0 0 0 0 0 false.

(** [uint8_t (b)] for a boolean. *)
Definition bit (b : bool) : Z := if b then 1 else 0.

(** Exhaustive check of a predicate over the booleans. *)
Definition forall_bool (p : bool -> bool) : bool := p true && p false.

Section Codec.

(** The tag of the descriptor; its declaration is in a header that is not
    among the sources. *)
Variable DID_TERREST_DELIVERY : Z.

(** [serialize]: thirteen bytes, each one converted to [uint8_t] when it
    is stored. *)
Definition serialize (self : t) : Descriptor.t :=
Descriptor.from_memory
  ([uint8 DID_TERREST_DELIVERY; 11]
   ++ PutUInt32 (centre_frequency self)
   ++ [uint8 (Z.lor (Z.shiftl (bandwidth self) 5)
                (Z.lor (Z.shiftl (bit (high_priority self)) 4)
                   (Z.lor (Z.shiftl (bit (no_time_slicing self)) 3)
                      (Z.lor (Z.shiftl (bit (no_mpe_fec self)) 2) 0x03))));
       uint8 (Z.lor (Z.shiftl (constellation self) 6)
                (Z.lor (Z.shiftl (Z.land (hierarchy self) 0x07) 3)
                   (Z.land (code_rate_hp self) 0x07)));
       uint8 (Z.lor (Z.shiftl (code_rate_lp self) 5)
                (Z.lor (Z.shiftl (Z.land (guard_interval self) 0x03) 3)
                   (Z.lor (Z.shiftl (Z.land (transmission_mode self) 0x03) 1)
                      (bit (other_frequency self)))));
       0xFF; 0xFF; 0xFF; 0xFF]).

(** [deserialize]: the fields are left as they are when the binary
    descriptor is not accepted. *)
Definition deserialize (self : t) (desc : Descriptor.t) : t :=
let valid := Descriptor.isValid desc
             && (Descriptor.tag desc =? uint8 DID_TERREST_DELIVERY)
             && (Descriptor.payloadSize desc >=? 7) in
if valid then
  let data := Descriptor.payload desc in
  mk true (GetUInt32 data)
    (Z.land (Z.shiftr (at_ data 4) 5) 0x07)
    (negb (Z.land (at_ data 4) 0x10 =? 0))
    (negb (Z.land (at_ data 4) 0x08 =? 0))
    (negb (Z.land (at_ data 4) 0x04 =? 0))
    (Z.land (Z.shiftr (at_ data 5) 6) 0x03)
    (Z.land (Z.shiftr (at_ data 5) 3) 0x07)
    (Z.land (at_ data 5) 0x07)
    (Z.land (Z.shiftr (at_ data 6) 5) 0x07)
    (Z.land (Z.shiftr (at_ data 6) 3) 0x03)
    (Z.land (Z.shiftr (at_ data 6) 1) 0x03)
    (negb (Z.land (at_ data 6) 0x01 =? 0))
else
  mk false (centre_frequency self) (bandwidth self) (high_priority self)
    (no_time_slicing self) (no_mpe_fec self) (constellation self) (hierarchy self)
    (code_rate_hp self) (code_rate_lp self) (guard_interval self)
    (transmission_mode self) (other_frequency self).

End Codec.

(** The fields of a descriptor reduced to the number of bits that the
    binary form has for them. *)
Definition masked (self : t) : t :=
mk true (centre_frequency self) (Z.land (bandwidth self) 0x07) (high_priority self)
  (no_time_slicing self) (no_mpe_fec self) (Z.land (constellation self) 0x03)
  (Z.land (hierarchy self) 0x07) (Z.land (code_rate_hp self) 0x07)
  (Z.land (code_rate_lp self) 0x07) (Z.land (guard_interval self) 0x03)
  (Z.land (transmission_mode self) 0x03) (other_frequency self).

(** The fields are values of their C++ types: 32 bits for the frequency,
    a byte for the others. *)
Definition typed (self : t) : Prop :=
0 <= centre_frequency self < 4294967296
/\ 0 <= bandwidth self < 256 /\ 0 <= constellation self < 256
/\ 0 <= hierarchy self < 256 /\ 0 <= code_rate_hp self < 256
/\ 0 <= code_rate_lp self < 256 /\ 0 <= guard_interval self < 256
/\ 0 <= transmission_mode self < 256.

(** The fields fit in the bits that the binary form has for them. *)
Definition in_range (self : t) : Prop :=
0 <= centre_frequency self < 4294967296
/\ 0 <= bandwidth self < 8 /\ 0 <= constellation self < 4
/\ 0 <= hierarchy self < 8 /\ 0 <= code_rate_hp self < 8
/\ 0 <= code_rate_lp self < 8 /\ 0 <= guard_interval self < 4
/\ 0 <= transmission_mode self < 4.

(** A DVB-T multiplex at 474 MHz: 8 MHz, 64-QAM, rate 2/3, guard 1/4,
    8k. *)
Definition mux_474 : t := mk true 47400000 0 true true true 2 0 1 0 3 1 false.

End TerrestrialDeliverySystemDescriptor.


(** ** Searches by language in descriptor lists (tsDescriptorList.cpp) *)

Module DescriptorListLanguage.
Import DescriptorList DescriptorListSearch.

Section Language.

(** The tags of the three descriptors and [SimilarStrings (language,
    desc, 3)], which compares the language with three bytes of a
    descriptor, are declared in headers that are not among the sources. *)
Variable DID_LANGUAGE : Z.
Variable DID_SUBTITLING : Z.
Variable DID_TELETEXT : Z.
Variable SimilarStrings : string -> ByteBlock -> bool.

(** [language.empty ()]. *)
Definition language_empty (language : string) : bool :=
match language with
| EmptyString => true
| String _ _ => false
end.

(** The loop of [searchLanguage] on [index]; [fuel] bounds the number of
    iterations. *)
Fixpoint searchLanguage_loop (fuel : nat) (l : t) (language : string)
    (index : nat) : nat :=
match fuel with
| O => count l
| S fuel' =>
    if (index <? List.length l)%nat then
      let d := desc (nth index l dummy) in
      if (Descriptor.tag d =? DID_LANGUAGE)
         && ((Descriptor.payloadSize d >=? 3)
             && SimilarStrings language (firstn 3 (Descriptor.payload d)))
      then index
      else searchLanguage_loop fuel' l language (S index)
    else count l
end.

Definition searchLanguage (l : t) (language : string) (start_index : nat) : nat :=
searchLanguage_loop (List.length l) l language start_index.

(** The loop on the entries of eight bytes of a subtitling descriptor. *)
Fixpoint subtitling_loop (fuel : nat) (language : string) (desc : ByteBlock) : bool :=
match fuel with
| O => false
| S fuel' =>
    if Bytes.size desc >=? 8 then
      if SimilarStrings language (firstn 3 desc) then true
      else subtitling_loop fuel' language (skipn 8 desc)
    else false
end.

(** The loop on the entries of five bytes of a teletext descriptor:
    whether the function returns the index, and whether [not_found] has
    been set to [count () + 1]. *)
Fixpoint teletext_loop (fuel : nat) (language : string) (desc : ByteBlock)
    (seen : bool) : bool * bool :=
match fuel with
| O => (false, seen)
| S fuel' =>
    if Bytes.size desc >=? 5 then
      let tel_type := Z.shiftr (at_ desc 3) 3 in
      if (tel_type =? 0x02) || (tel_type =? 0x05) then
        if language_empty language then (true, seen)
        else if SimilarStrings language (firstn 3 desc) then (true, true)
        else teletext_loop fuel' language (skipn 5 desc) true
      else teletext_loop fuel' language (skipn 5 desc) seen
    else (false, seen)
end.

(** The loop of [searchSubtitle] on [index]. *)
Fixpoint searchSubtitle_loop (fuel : nat) (l : t) (language : string)
    (not_found index : nat) : nat :=
match fuel with
| O => not_found
| S fuel' =>
    if (index <? List.length l)%nat then
      let d := desc (nth index l dummy) in
      if Descriptor.tag d =? DID_SUBTITLING then
        if language_empty language then index
        else if subtitling_loop (List.length (Descriptor.payload d)) language
                  (Descriptor.payload d)
        then index
        else searchSubtitle_loop fuel' l language (count l + 1)%nat (S index)
      else if Descriptor.tag d =? DID_TELETEXT then
        let '(found, seen) :=
          teletext_loop (List.length (Descriptor.payload d)) language
            (Descriptor.payload d) false in
        if found then index
        else searchSubtitle_loop fuel' l language
               (if seen then (count l + 1)%nat else not_found) (S index)
      else searchSubtitle_loop fuel' l language not_found (S index)
    else not_found
end.

Definition searchSubtitle (l : t) (language : string) (start_index : nat) : nat :=
searchSubtitle_loop (List.length l) l language (count l) start_index.

(** *** Statements about the searches *)

(** The complete entries of [n] bytes of a payload. *)
Fixpoint entries (fuel n : nat) (data : ByteBlock) : list ByteBlock :=
match fuel with
| O => []
| S fuel' =>
    if (n <=? List.length data)%nat
    then firstn n data :: entries fuel' n (skipn n data)
    else []
end.

Definition payload_entries (n : nat) (d : Descriptor.t) : list ByteBlock :=
entries (List.length (Descriptor.payload d)) n (Descriptor.payload d).

(** A language descriptor whose first language is similar. *)
Definition has_language (language : string) (e : Element) : bool :=
(Descriptor.tag (desc e) =? DID_LANGUAGE)
&& ((Descriptor.payloadSize (desc e) >=? 3)
    && SimilarStrings language (firstn 3 (Descriptor.payload (desc e)))).

(** A teletext entry of type 2 or 5: subtitles. *)
Definition teletext_subtitles (entry : ByteBlock) : bool :=
(Z.shiftr (at_ entry 3) 3 =? 0x02) || (Z.shiftr (at_ entry 3) 3 =? 0x05).

(** A descriptor that carries subtitles in the language: a subtitling
    descriptor, or a teletext descriptor with an entry for subtitles;
    when a language is given, one of the entries is in a similar
    language. *)
Definition has_subtitles (language : string) (e : Element) : bool :=
if Descriptor.tag (desc e) =? DID_SUBTITLING then
  language_empty language
  || existsb (fun entry => SimilarStrings language (firstn 3 entry))
       (payload_entries 8 (desc e))
else if Descriptor.tag (desc e) =? DID_TELETEXT then
  existsb (fun entry =>
             teletext_subtitles entry
             && (language_empty language
                 || SimilarStrings language (firstn 3 entry)))
    (payload_entries 5 (desc e))
else false.

(** A descriptor of subtitles in any language. *)
Definition subtitle_kind (e : Element) : bool :=
if Descriptor.tag (desc e) =? DID_SUBTITLING then true
else if Descriptor.tag (desc e) =? DID_TELETEXT then
  existsb teletext_subtitles (payload_entries 5 (desc e))
else false.

End Language.

(** A sample list: a teletext descriptor with one entry of subtitles in
    "fra", then a subtitling descriptor with one entry in "eng"; two
    languages are similar when they have the same three bytes. *)
Definition same_bytes (language : string) (bytes : ByteBlock) : bool :=
match language with
| String a (String b (String c EmptyString)) =>
    match bytes with
    | [x; y; z] =>
        (Z.of_N (N_of_ascii a) =? x) && (Z.of_N (N_of_ascii b) =? y)
        && (Z.of_N (N_of_ascii c) =? z)
    | _ => false
    end
| _ => false
end.

Definition sample_list : t :=
[mkElement (Descriptor.from_memory [0x56; 5; 0x66; 0x72; 0x61; 0x10; 0x88]) 0;
 mkElement (Descriptor.from_memory [0x59; 8; 0x65; 0x6E; 0x67; 0x10; 0; 1; 0; 1]) 0].

End DescriptorListLanguage.


(** ** Removal of descriptors by the PMT plugin (tsplugin_pmt.cpp) *)

Module PMTPluginDescriptors.
Import DescriptorList DescriptorListSearch PMTPlugin.

(** What the loop reads of the PMT: the descriptor list of the program
    and the components by PID, in the order of the map. *)
Record PMT := mkPMT { pmt_descs : DescriptorList.t; streams : list (Z * Stream) }.

(** One turn of the loop on [_removed_desc]: [removeByTag] on the list of
    the program and on the list of every component. *)
Definition remove_tag (pds : Z) (pmt : PMT) (tag : Z) : PMT :=
mkPMT (fst (removeByTag (pmt_descs pmt) tag pds))
  (map (fun smi => (fst smi,
                    mkStream (stream_type (snd smi))
                      (fst (removeByTag (descs (snd smi)) tag pds))))
     (streams pmt)).

(** The loop on [_removed_desc]. *)
Definition remove_descriptors (removed_desc : list Z) (pds : Z) (pmt : PMT) : PMT :=
fold_left (remove_tag pds) removed_desc pmt.

(** The entries that none of the tags selects. *)
Definition kept (removed_desc : list Z) (pds : Z) (e : Element) : bool :=
forallb (fun tag => negb (selected tag pds e)) removed_desc.

(** A PMT with a language descriptor and a private descriptor for the
    program, and one component with two descriptors of tag 0x0A around a
    descriptor of tag 0x52. *)
Definition sample_pmt : PMT :=
mkPMT
  (fold_left add
     [Descriptor.from_memory [0x0A; 0]; Descriptor.from_memory [0x83; 1; 7]] [])
  [(0x101, mkStream 0x04
             (fold_left add
                [Descriptor.from_memory [0x0A; 0]; Descriptor.from_memory [0x52; 1; 5];
                 Descriptor.from_memory [0x0A; 1; 9]] []))].

End PMTPluginDescriptors.


(* ================================================================== *)
(** * Part II: properties                                              *)
(* ================================================================== *)

Module BytesFacts.

Lemma forall_from_sound (p : Z -> bool) : forall (n : nat) (start : Z),
  forall_from n start p = true ->
  forall x, start <= x < start + Z.of_nat n -> p x = true.
Proof.
  induction n as [|n IH]; intros start H x Hx; [lia|].
  cbn [forall_from] in H. apply andb_true_iff in H. destruct H as [H0 Hr].
  destruct (Z.eq_dec x start) as [->|Hne]; [exact H0|].
  apply (IH (start + 1) Hr). lia.
Qed.

Lemma forall_below_sound (n : Z) (p : Z -> bool) :
  forall_below n p = true -> forall x, 0 <= x < n -> p x = true.
Proof.
  unfold forall_below. intros H x Hx.
  apply (forall_from_sound p _ 0 H). lia.
Qed.

Lemma forall_u8_sound (p : Z -> bool) :
  forall_u8 p = true -> forall x, 0 <= x < 256 -> p x = true.
Proof. apply forall_below_sound. Qed.

Lemma is_u8_true x : is_u8 x = true <-> 0 <= x < 256.
Proof. unfold is_u8. rewrite andb_true_iff, Z.leb_le, Z.ltb_lt. tauto. Qed.

Lemma size_app (a b : ByteBlock) : Bytes.size (a ++ b) = Bytes.size a + Bytes.size b.
Proof. unfold Bytes.size. rewrite length_app. lia. Qed.

Lemma size_cons (x : Z) (a : ByteBlock) : Bytes.size (x :: a) = 1 + Bytes.size a.
Proof. unfold Bytes.size. cbn [List.length]. lia. Qed.

Lemma size_nonneg (a : ByteBlock) : 0 <= Bytes.size a.
Proof. unfold Bytes.size. lia. Qed.

End BytesFacts.

Module DescriptorFacts.
Import Descriptor.

Lemma guard_iff (buf : ByteBlock) :
  (Bytes.size buf >=? 2) && (Bytes.size buf <? 258)
    && (at_ buf 1 =? Bytes.size buf - 2) = true <-> consistent buf.
Proof.
  unfold consistent.
  rewrite !andb_true_iff, Z.geb_le, Z.ltb_lt, Z.eqb_eq. lia.
Qed.

Lemma isValid_from_ByteBlock (buf : ByteBlock) :
  isValid (from_ByteBlock buf) = true <-> consistent buf.
Proof.
  rewrite <- guard_iff. unfold isValid, from_ByteBlock.
  destruct ((Bytes.size buf >=? 2) && (Bytes.size buf <? 258)
            && (at_ buf 1 =? Bytes.size buf - 2)); cbn [data];
    split; congruence.
Qed.

(** C10. A descriptor built from a raw buffer of [s] bytes is valid exactly
    when [2 <= s <= 257] and the second byte equals [s - 2]; this holds for
    the constructor from a memory area, from a byte block and from a
    non-null byte block pointer in either mode.  When the condition holds
    the descriptor holds the buffer; when it fails the descriptor holds no
    data and [isValid] is false. *)
Theorem descriptor_valid_iff (buf : ByteBlock) (mode : CopyShare) :
  (isValid (from_memory buf) = true <-> consistent buf) /\
  (isValid (from_ByteBlock buf) = true <-> consistent buf) /\
  (isValid (from_ByteBlockPtr (Some buf) mode) = true <-> consistent buf) /\
  (consistent buf ->
     data (from_memory buf) = Some buf /\
     data (from_ByteBlock buf) = Some buf /\
     data (from_ByteBlockPtr (Some buf) mode) = Some buf) /\
  (~ consistent buf ->
     data (from_memory buf) = None /\ isValid (from_memory buf) = false /\
     data (from_ByteBlock buf) = None /\ isValid (from_ByteBlock buf) = false /\
     data (from_ByteBlockPtr (Some buf) mode) = None /\
     isValid (from_ByteBlockPtr (Some buf) mode) = false).
Proof.
  pose proof (guard_iff buf) as G.
  unfold isValid, from_memory, from_ByteBlock, from_ByteBlockPtr.
  destruct ((Bytes.size buf >=? 2) && (Bytes.size buf <? 258)
            && (at_ buf 1 =? Bytes.size buf - 2)) eqn:E.
  - assert (C : consistent buf) by (apply G; reflexivity).
    destruct mode; cbn [data]; intuition congruence.
  - assert (C : ~ consistent buf) by (intro C; apply G in C; discriminate).
    cbn [data]; intuition congruence.
Qed.

End DescriptorFacts.

Module AC3DescriptorFacts.
Import AC3Descriptor.

Lemma rebuilt_flags_id (f : Z) :
  0 <= f < 256 -> Z.land f 0x0F = 0 -> rebuilt_flags f = f.
Proof.
  intros Hf H0.
  pose proof (BytesFacts.forall_u8_sound
    (fun f => implb (Z.land f 0x0F =? 0) (rebuilt_flags f =? f))
    ltac:(vm_compute; reflexivity) f Hf) as H.
  cbv beta in H. rewrite H0 in H. cbn [Z.eqb implb] in H.
  now apply Z.eqb_eq.
Qed.

Lemma take_opt_set flags mask x rest :
  (Z.land flags mask =? 0) = false -> take_opt flags mask (x :: rest) = (Some x, rest).
Proof. intros H. unfold take_opt. now rewrite H. Qed.

Lemma take_opt_clear flags mask bytes :
  (Z.land flags mask =? 0) = true -> take_opt flags mask bytes = (None, bytes).
Proof. intros H. unfold take_opt. rewrite H. now destruct bytes. Qed.

(** Serialising the fields read from payload [flags :: rest] gives the
    payload back, whatever the header. *)
Lemma fields_roundtrip (flags : Z) (rest : ByteBlock) :
  (announced flags <= length rest)%nat ->
  let '(ct, r1) := take_opt flags 0x80 rest in
  let '(bs, r2) := take_opt flags 0x40 r1 in
  let '(mi, r3) := take_opt flags 0x20 r2 in
  let '(av, r4) := take_opt flags 0x10 r3 in
  (set ct = negb (Z.land flags 0x80 =? 0)) /\
  (set bs = negb (Z.land flags 0x40 =? 0)) /\
  (set mi = negb (Z.land flags 0x20 =? 0)) /\
  (set av = negb (Z.land flags 0x10 =? 0)) /\
  append_opt ct ++ append_opt bs ++ append_opt mi ++ append_opt av ++ r4 = rest.
Proof.
  unfold announced. cbn [filter].
  destruct (Z.land flags 0x80 =? 0) eqn:E1;
  destruct (Z.land flags 0x40 =? 0) eqn:E2;
  destruct (Z.land flags 0x20 =? 0) eqn:E3;
  destruct (Z.land flags 0x10 =? 0) eqn:E4;
  cbn [negb length]; intros Hlen;
  repeat (first
    [ rewrite (take_opt_clear _ _ _ E1) | rewrite (take_opt_clear _ _ _ E2)
    | rewrite (take_opt_clear _ _ _ E3) | rewrite (take_opt_clear _ _ _ E4)
    | match goal with
      | |- context [take_opt _ _ ?l] =>
          destruct l as [|? ?]; [cbn [length] in Hlen; lia|];
          cbn [length] in Hlen;
          first [ rewrite (take_opt_set _ _ _ _ E1) | rewrite (take_opt_set _ _ _ _ E2)
                | rewrite (take_opt_set _ _ _ _ E3) | rewrite (take_opt_set _ _ _ _ E4) ]
      end ]);
  cbn [set append_opt app]; repeat split; reflexivity.
Qed.

Lemma wellformed_inv (b : ByteBlock) :
  wellformed b = true ->
  exists len flags rest,
    b = DID_AC3 :: len :: flags :: rest /\
    len = Bytes.size (flags :: rest) /\ len < 256 /\
    0 <= flags < 256 /\ Z.land flags 0x0F = 0 /\
    (announced flags <= length rest)%nat.
Proof.
  unfold wellformed. rewrite !andb_true_iff.
  intros [[[Hu8 Hv] Htag] Hpl].
  apply DescriptorFacts.isValid_from_ByteBlock in Hv. destruct Hv as [Hsz Hlen].
  destruct b as [|tag [|len [|flags rest]]]; cbn [skipn] in Hpl; try discriminate.
  rewrite andb_true_iff, Z.eqb_eq, Nat.leb_le in Hpl. destruct Hpl as [Hlow Hann].
  apply Z.eqb_eq in Htag. unfold at_ in Htag, Hlen. cbn [nth] in Htag, Hlen.
  unfold all_u8 in Hu8. cbn [forallb] in Hu8. rewrite !andb_true_iff in Hu8.
  destruct Hu8 as (_ & _ & Hf & _). apply BytesFacts.is_u8_true in Hf.
  unfold Bytes.size in *. cbn [length] in *.
  exists len, flags, rest. subst tag. repeat split; try assumption; try lia.
Qed.

(** C1. For every well-formed binary AC-3 descriptor [b], deserialising
    [b] and serialising the result yields a valid descriptor whose bytes
    are exactly [b]. *)
Theorem serialize_deserialize (b : ByteBlock) :
  wellformed b = true ->
  is_valid (deserialize (Descriptor.from_ByteBlock b)) = true /\
  serialize (deserialize (Descriptor.from_ByteBlock b)) = Descriptor.mk (Some b).
Proof.
  intros Hwf.
  destruct (wellformed_inv b Hwf)
    as (len & flags & rest & -> & Hlen & Hlt & Hf & Hlow & Hann).
  assert (Hdesc : Descriptor.from_ByteBlock (DID_AC3 :: len :: flags :: rest)
                  = Descriptor.mk (Some (DID_AC3 :: len :: flags :: rest))).
  { unfold Descriptor.from_ByteBlock.
    replace ((Bytes.size (DID_AC3 :: len :: flags :: rest) >=? 2)
             && (Bytes.size (DID_AC3 :: len :: flags :: rest) <? 258)
             && (at_ (DID_AC3 :: len :: flags :: rest) 1
                 =? Bytes.size (DID_AC3 :: len :: flags :: rest) - 2)) with true;
      [reflexivity|].
    symmetry. rewrite !andb_true_iff, Z.geb_le, Z.ltb_lt, Z.eqb_eq.
    unfold Bytes.size, at_ in *. cbn [length nth] in *. lia. }
  rewrite Hdesc. unfold deserialize.
  unfold Descriptor.isValid, Descriptor.tag, Descriptor.payloadSize,
    Descriptor.payload, Descriptor.content.
  cbn [Descriptor.data skipn at_ nth].
  rewrite Z.eqb_refl.
  replace (Bytes.size (flags :: rest) >=? 1) with true
    by (symmetry; apply Z.geb_le; unfold Bytes.size; cbn [length]; lia).
  cbn [andb].
  pose proof (fields_roundtrip flags rest Hann) as R.
  destruct (take_opt flags 0x80 rest) as [ct r1].
  destruct (take_opt flags 0x40 r1) as [bs r2].
  destruct (take_opt flags 0x20 r2) as [mi r3].
  destruct (take_opt flags 0x10 r3) as [av r4].
  destruct R as (S1 & S2 & S3 & S4 & Hbody).
  split; [reflexivity|].
  unfold serialize. cbn [component_type bsid mainid asvc additional_info].
  rewrite S1, S2, S3, S4.
  fold (rebuilt_flags flags). rewrite (rebuilt_flags_id flags Hf Hlow).
  rewrite Hbody.
  assert (Hsz : uint8 (Bytes.size ([0; 0] ++ [flags] ++ rest) - 2) = len).
  { unfold uint8, Bytes.size in *. cbn [app length] in *.
    rewrite Z.mod_small; lia. }
  rewrite Hsz. cbn [app].
  unfold Descriptor.from_ByteBlockPtr.
  replace ((Bytes.size (DID_AC3 :: len :: flags :: rest) >=? 2)
           && (Bytes.size (DID_AC3 :: len :: flags :: rest) <? 258)
           && (at_ (DID_AC3 :: len :: flags :: rest) 1
               =? Bytes.size (DID_AC3 :: len :: flags :: rest) - 2)) with true;
    [reflexivity|].
  symmetry. rewrite !andb_true_iff, Z.geb_le, Z.ltb_lt, Z.eqb_eq.
  unfold Bytes.size, at_ in *. cbn [length nth] in *. lia.
Qed.

(** A descriptor with component type, bsid and two bytes of additional
    information. *)
Lemma serialize_deserialize_witness :
  wellformed [0x6A; 5; 0xC0; 0x42; 0x08; 0xAB; 0xCD] = true /\
  serialize (deserialize (Descriptor.from_ByteBlock [0x6A; 5; 0xC0; 0x42; 0x08; 0xAB; 0xCD]))
    = Descriptor.mk (Some [0x6A; 5; 0xC0; 0x42; 0x08; 0xAB; 0xCD]).
Proof.
  split; [reflexivity|].
  apply (serialize_deserialize [0x6A; 5; 0xC0; 0x42; 0x08; 0xAB; 0xCD]).
  reflexivity.
Defined.

End AC3DescriptorFacts.

Module AC3DescriptorXMLFacts.
Import AC3Descriptor AC3DescriptorXML.

Lemma fromXML_S2 :
  fromXML init scenario_S2 = mk true (Some 0x42) (Some 8) None None [].
Proof. reflexivity. Qed.

(** C5. Reading the element [<AC3_descriptor component_type="0x42"
    bsid="8"/>] into an AC-3 descriptor and serialising it gives the five
    bytes 6A 03 C0 42 08. *)
Theorem xml_S2_bytes :
  serialize (fromXML init scenario_S2)
    = Descriptor.mk (Some [0x6A; 0x03; 0xC0; 0x42; 0x08]).
Proof. rewrite fromXML_S2. reflexivity. Qed.

End AC3DescriptorXMLFacts.

Module DescriptorListFacts.
Import DescriptorList.

Lemma scoped_app cur l1 l2 :
  scoped cur (l1 ++ l2) <-> scoped cur l1 /\ scoped (cur_after cur l1) l2.
Proof.
  revert cur. induction l1 as [|e l1 IH]; intros cur; cbn [app scoped cur_after fold_left].
  - tauto.
  - fold (cur_after (if is_pds_descriptor (desc e) then declared_pds (desc e) else cur) l1).
    rewrite IH. tauto.
Qed.

Lemma scoped_last cur l :
  scoped cur l -> l <> [] -> pds (last l dummy) = cur_after cur l.
Proof.
  revert cur. induction l as [|e l IH]; intros cur H Hne; [congruence|].
  cbn [scoped] in H. destruct H as [He Hr].
  destruct l as [|e' l'].
  - cbn. exact He.
  - change (last (e :: e' :: l') dummy) with (last (e' :: l') dummy).
    rewrite (IH _ Hr) by congruence. reflexivity.
Qed.

Lemma add_scoped l d : scoped 0 l -> scoped 0 (add l d).
Proof.
  intros H. unfold add. apply scoped_app. split; [exact H|].
  cbn [scoped]. split; [|exact I]. cbn [desc pds].
  unfold is_pds_descriptor.
  destruct (Descriptor.tag d =? DID_PRIV_DATA_SPECIF); [reflexivity|].
  destruct l as [|e l']; [reflexivity|].
  apply scoped_last; [exact H|congruence].
Qed.

Lemma add_serialized_scoped l d : scoped 0 l -> scoped 0 (add_serialized l d).
Proof.
  intros H. unfold add_serialized.
  destruct (Descriptor.isValid d); [now apply add_scoped|exact H].
Qed.

Lemma add_memory_loop_scoped n : forall l data,
  scoped 0 l -> scoped 0 (add_memory_loop n l data).
Proof.
  induction n as [|n IH]; intros l data H; cbn [add_memory_loop]; [exact H|].
  destruct ((Bytes.size data >=? 2) && (at_ data 1 + 2 <=? Bytes.size data));
    [|exact H].
  apply IH. now apply add_scoped.
Qed.

Lemma addPrivateDataSpecifier_scoped l p :
  scoped 0 l -> scoped 0 (addPrivateDataSpecifier l p).
Proof.
  intros H. unfold addPrivateDataSpecifier.
  destruct (negb (p =? 0) && _); [now apply add_serialized_scoped|exact H].
Qed.

(** Erasing an entry that is not a private_data_specifier_descriptor. *)
Lemma erase_other_scoped : forall l n cur,
  scoped cur l ->
  is_pds_descriptor (desc (nth n l dummy)) = false ->
  scoped cur (erase n l).
Proof.
  unfold erase.
  induction l as [|e l IH]; intros n cur H Hn.
  - destruct n; exact I.
  - destruct n as [|n].
    + cbn [nth] in Hn. cbn [firstn skipn app]. cbn [scoped] in H.
      rewrite Hn in H. tauto.
    + cbn [nth] in Hn. cbn [firstn skipn app scoped] in *.
      destruct H as [He Hr]. split; [exact He|]. now apply IH.
Qed.

(** After the search loop stops at distance [k], rewriting the [k]
    entries that were scanned puts what follows under the scope of
    [prev]. *)
Lemma scan_ahead_scoped prev : forall rest cur k,
  scoped cur rest ->
  scan_ahead rest = Some k ->
  scoped prev (map (set_pds prev) (firstn k rest) ++ skipn k rest).
Proof.
  induction rest as [|x r IH]; intros cur k H Hscan.
  - destruct k; exact I.
  - cbn [scan_ahead] in Hscan. cbn [scoped] in H. destruct H as [Hx Hr].
    destruct (Descriptor.tag (desc x) >=? 0x80); [discriminate|].
    unfold is_pds_descriptor in *.
    destruct (Descriptor.tag (desc x) =? DID_PRIV_DATA_SPECIF) eqn:Ep.
    + injection Hscan as <-. cbn [firstn map skipn app scoped].
      unfold is_pds_descriptor. rewrite Ep. tauto.
    + destruct (scan_ahead r) as [k'|] eqn:Es; [|discriminate].
      injection Hscan as <-. cbn [firstn map skipn app scoped set_pds desc pds].
      unfold is_pds_descriptor. rewrite Ep. split; [reflexivity|].
      now apply (IH cur).
Qed.

Lemma nth_last_prefix (A : t) e (R : t) before :
  List.length A = S before -> nth before (A ++ e :: R) dummy = last A dummy.
Proof.
  revert before. induction A as [|a A IH]; intros before Hlen; [discriminate|].
  cbn [List.length] in Hlen. injection Hlen as Hlen.
  destruct A as [|a' A'].
  - cbn in Hlen. subst before. reflexivity.
  - destruct before as [|before]; [discriminate|].
    change (nth (S before) ((a :: a' :: A') ++ e :: R) dummy)
      with (nth before ((a' :: A') ++ e :: R) dummy).
    rewrite (IH before Hlen). reflexivity.
Qed.

Lemma prepareRemovePDS_false l it l' :
  prepareRemovePDS l it = (false, l') -> l' = l.
Proof.
  unfold prepareRemovePDS.
  destruct (nth_error l it) as [e|]; [|congruence].
  destruct (negb _); [congruence|].
  destruct (scan_ahead _); congruence.
Qed.

(** A private_data_specifier_descriptor that [prepareRemovePDS] accepts
    can be erased. *)
Lemma prepareRemovePDS_scoped l it l' :
  scoped 0 l -> prepareRemovePDS l it = (true, l') -> scoped 0 (erase it l').
Proof.
  intros H. unfold prepareRemovePDS.
  destruct (nth_error l it) as [e|] eqn:En; [|discriminate].
  destruct (negb _); [discriminate|].
  destruct (scan_ahead (skipn (S it) l)) as [k|] eqn:Es; [|discriminate].
  intros Heq.
  assert (Hl' : l' = firstn (S it) l
                     ++ map (set_pds match it with
                                     | O => 0
                                     | S before => pds (nth before l dummy)
                                     end) (firstn k (skipn (S it) l))
                     ++ skipn (S it + k) l)
    by (injection Heq as Heq'; symmetry; exact Heq').
  clear Heq. subst l'.
  apply nth_error_split in En. destruct En as (A & R & -> & Hlen).
  assert (Hskip : skipn (S it) (A ++ e :: R) = R).
  { replace (S it) with (List.length (A ++ [e])) by (rewrite length_app; cbn; lia).
    replace (A ++ e :: R) with ((A ++ [e]) ++ R) by (now rewrite <- app_assoc).
    now rewrite skipn_app, skipn_all, Nat.sub_diag. }
  assert (Hfirst : firstn (S it) (A ++ e :: R) = A ++ [e]).
  { replace (S it) with (List.length (A ++ [e])) by (rewrite length_app; cbn; lia).
    replace (A ++ e :: R) with ((A ++ [e]) ++ R) by (now rewrite <- app_assoc).
    now rewrite firstn_app, firstn_all, Nat.sub_diag, firstn_O, app_nil_r. }
  assert (Hskipk : skipn (S it + k) (A ++ e :: R) = skipn k R).
  { rewrite Nat.add_comm, <- skipn_skipn. now rewrite Hskip. }
  rewrite Hskip in Es. rewrite Hfirst, Hskip, Hskipk.
  set (prev := match it with O => 0 | S before => pds (nth before (A ++ e :: R) dummy) end).
  set (tail := map (set_pds prev) (firstn k R) ++ skipn k R).
  assert (Herase : erase it ((A ++ [e]) ++ tail) = A ++ tail).
  { unfold erase. rewrite <- Hlen. rewrite <- app_assoc.
    rewrite firstn_app, firstn_all, Nat.sub_diag, firstn_O, app_nil_r.
    replace (S (List.length A)) with (List.length (A ++ [e])) by (rewrite length_app; cbn; lia).
    rewrite app_assoc, skipn_app, skipn_all, Nat.sub_diag. reflexivity. }
  rewrite Herase.
  apply scoped_app in H. destruct H as [HA HR].
  apply scoped_app. split; [exact HA|].
  cbn [scoped] in HR. destruct HR as [_ HR].
  assert (Hprev : prev = cur_after 0 A).
  { subst prev. destruct it as [|before].
    - destruct A; [reflexivity|discriminate].
    - rewrite (nth_last_prefix A e R before Hlen).
      apply scoped_last; [exact HA|]. destruct A; [discriminate|congruence]. }
  rewrite <- Hprev. subst tail.
  eapply scan_ahead_scoped; eassumption.
Qed.

Lemma removeByIndex_scoped l index :
  scoped 0 l -> scoped 0 (snd (removeByIndex l index)).
Proof.
  intros H. unfold removeByIndex.
  destruct (List.length l <=? index)%nat; [exact H|].
  destruct (Descriptor.tag (desc (nth index l dummy)) =? DID_PRIV_DATA_SPECIF) eqn:Et.
  - destruct (prepareRemovePDS l index) as [ok l'] eqn:Ep.
    destruct ok; cbn [snd].
    + now apply (prepareRemovePDS_scoped l).
    + now rewrite (prepareRemovePDS_false _ _ _ Ep).
  - cbn [snd]. now apply erase_other_scoped.
Qed.

Lemma removeByTag_loop_scoped tag p check_pds : forall remaining l it count,
  scoped 0 l ->
  scoped 0 (fst (removeByTag_loop remaining tag p check_pds l it count)).
Proof.
  induction remaining as [|r IH]; intros l it count H; cbn [removeByTag_loop]; [exact H|].
  destruct ((Descriptor.tag (desc (nth it l dummy)) =? tag)
            && (negb check_pds || (pds (nth it l dummy) =? p))); [|now apply IH].
  destruct (Descriptor.tag (desc (nth it l dummy)) =? DID_PRIV_DATA_SPECIF) eqn:Et;
    cbn [negb].
  - destruct (prepareRemovePDS l it) as [ok l'] eqn:Ep. destruct ok.
    + apply IH. now apply (prepareRemovePDS_scoped l).
    + apply IH. now rewrite (prepareRemovePDS_false _ _ _ Ep).
  - apply IH. now apply erase_other_scoped.
Qed.

Lemma invalid_private_not_pds e :
  invalid_private e = true -> is_pds_descriptor (desc e) = false.
Proof.
  unfold invalid_private, is_pds_descriptor, DID_PRIV_DATA_SPECIF.
  rewrite !andb_true_iff, Z.geb_le. intros [_ Ht].
  apply Z.eqb_neq. lia.
Qed.

Lemma removeInvalid_loop_scoped : forall fuel l n count,
  scoped 0 l -> scoped 0 (fst (removeInvalid_loop fuel l n count)).
Proof.
  induction fuel as [|f IH]; intros l n count H; cbn [removeInvalid_loop]; [exact H|].
  destruct (n <? List.length l)%nat; [|exact H].
  destruct (invalid_private (nth n l dummy)) eqn:Ei; [|now apply IH].
  apply IH. apply erase_other_scoped; [exact H|].
  now apply invalid_private_not_pds.
Qed.

Lemma apply_scoped l o : scoped 0 l -> scoped 0 (apply l o).
Proof.
  intros H. destruct o; cbn [apply].
  - now apply add_scoped.
  - now apply add_serialized_scoped.
  - now apply add_memory_loop_scoped.
  - now apply addPrivateDataSpecifier_scoped.
  - now apply removeByIndex_scoped.
  - now apply removeByTag_loop_scoped.
  - now apply removeInvalid_loop_scoped.
Qed.

Lemma run_scoped ops : scoped 0 (run ops).
Proof.
  unfold run.
  assert (G : forall l, scoped 0 l -> scoped 0 (fold_left apply ops l)).
  { induction ops as [|o ops IH]; intros l H; cbn [fold_left]; [exact H|].
    apply IH. now apply apply_scoped. }
  apply G. exact I.
Qed.

Lemma last_cons_some (x : Descriptor.t) (l : list Descriptor.t) :
  last (map Some (x :: l)) None
  = match last (map Some l) None with Some d => Some d | None => Some x end.
Proof.
  revert x. induction l as [|y l IH]; intros x; [reflexivity|].
  change (last (map Some (x :: y :: l)) None) with (last (map Some (y :: l)) None).
  rewrite IH. destruct (last (map Some l) None); reflexivity.
Qed.

(** Reading of the invariant position by position. *)
Lemma scoped_nth : forall l cur i e,
  scoped cur l -> nth_error l i = Some e ->
  pds e = if is_pds_descriptor (desc e) then declared_pds (desc e)
          else match closest_preceding l i with
               | Some d => declared_pds d
               | None => cur
               end.
Proof.
  induction l as [|x r IH]; intros cur i e H Hi.
  - destruct i; discriminate.
  - cbn [scoped] in H. destruct H as [Hx Hr]. destruct i as [|j].
    + cbn in Hi. injection Hi as <-. exact Hx.
    + cbn [nth_error] in Hi. rewrite (IH _ j e Hr Hi).
      destruct (is_pds_descriptor (desc e)); [reflexivity|].
      unfold closest_preceding. cbn [firstn map filter].
      destruct (is_pds_descriptor (desc x)) eqn:Ex.
      * rewrite last_cons_some.
        destruct (last (map Some (filter is_pds_descriptor (map desc (firstn j r)))) None);
          reflexivity.
      * reflexivity.
Qed.

(** C3, as amended.  After any sequence of insert and remove operations,
    a private_data_specifier_descriptor is associated with the specifier
    it declares itself, and every other descriptor with the specifier
    declared by the closest private_data_specifier_descriptor before it,
    or 0 if there is none. *)
Theorem pds_scoping (ops : list operation) (i : nat) (e : Element) :
  nth_error (run ops) i = Some e ->
  pds e = if is_pds_descriptor (desc e) then declared_pds (desc e)
          else preceding_pds (run ops) i.
Proof.
  intros Hi. unfold preceding_pds.
  apply (scoped_nth (run ops) 0 i e (run_scoped ops) Hi).
Qed.

Lemma pds_scoping_witness :
  let ops := [OpAdd (PrivateDataSpecifierDescriptor 5);
              OpAdd (Descriptor.from_memory [0x83; 1; 7]);
              OpAdd (PrivateDataSpecifierDescriptor 9);
              OpAdd (Descriptor.from_memory [0x48; 0]);
              OpRemoveByIndex 2] in
  let e := mkElement (Descriptor.from_memory [0x48; 0]) 5 in
  nth_error (run ops) 2 = Some e /\
  pds e = if is_pds_descriptor (desc e) then declared_pds (desc e)
          else preceding_pds (run ops) 2.
Proof.
  split; [reflexivity|].
  apply (pds_scoping
           [OpAdd (PrivateDataSpecifierDescriptor 5);
            OpAdd (Descriptor.from_memory [0x83; 1; 7]);
            OpAdd (PrivateDataSpecifierDescriptor 9);
            OpAdd (Descriptor.from_memory [0x48; 0]);
            OpRemoveByIndex 2] 2).
  reflexivity.
Defined.

(** C3, as stated, fails on the private_data_specifier_descriptor itself:
    in the list made of one such descriptor declaring 5, the entry carries
    5 although no private_data_specifier_descriptor precedes it. *)
Lemma pds_scoping_counterexample :
  let l := run [OpAdd (PrivateDataSpecifierDescriptor 5)] in
  exists e, nth_error l 0 = Some e /\ pds e = 5 /\ preceding_pds l 0 = 0
            /\ pds e <> preceding_pds l 0.
Proof.
  cbv zeta. eexists. split; [reflexivity|].
  repeat split; try reflexivity. discriminate.
Qed.

(** The count returned by [removeInvalidPrivateDescriptors] is the number
    of entries that were erased. *)
Lemma removeInvalid_loop_count : forall fuel l n count,
  Z.of_nat (List.length (fst (removeInvalid_loop fuel l n count)))
    + snd (removeInvalid_loop fuel l n count)
  = Z.of_nat (List.length l) + count.
Proof.
  induction fuel as [|f IH]; intros l n count; cbn [removeInvalid_loop fst snd];
    [reflexivity|].
  destruct (n <? List.length l)%nat eqn:En; [|reflexivity].
  destruct (invalid_private (nth n l dummy)); rewrite IH; [|reflexivity].
  apply Nat.ltb_lt in En. unfold erase.
  rewrite length_app, length_firstn, length_skipn. lia.
Qed.

(** C7, at a failing input.  On a list of two private descriptors (tags
    0x80 and 0x81) that no private_data_specifier_descriptor precedes,
    [removeInvalidPrivateDescriptors] erases the first one, steps over the
    second one, which has moved into the erased position, and returns 1:
    a valid private descriptor with specifier 0 remains in the list. *)
Theorem removeInvalid_leaves_private :
  let l := run [OpAdd (Descriptor.from_memory [0x80; 0]);
                OpAdd (Descriptor.from_memory [0x81; 0])] in
  let remaining := mkElement (Descriptor.from_memory [0x81; 0]) 0 in
  forallb invalid_private l = true /\
  removeInvalidPrivateDescriptors l = ([remaining], 1) /\
  invalid_private remaining = true.
Proof. cbv zeta. repeat split; reflexivity. Qed.

End DescriptorListFacts.

Module ClearPluginFacts.
Import ClearPlugin.

Lemma handleTable_gate s table : same_gate s (handleTable s table).
Proof.
  unfold same_gate, handleTable, processPAT, processSDT, processPMT.
  destruct table as [src valid pmts|src valid services|valid sid streams|src|].
  - destruct ((src =? PID_PAT) && valid); [|tauto].
    destruct (service_id (_service s)).
    + destruct (find_pmt z pmts); cbn; tauto.
    + destruct pmts as [|[sid pmt] rest]; cbn; tauto.
  - destruct ((src =? PID_SDT) && valid); [|tauto].
    destruct (service_name (_service s)); [|tauto].
    destruct (find_service s0 services); cbn; tauto.
  - destruct (valid && _); cbn; tauto.
  - tauto.
  - tauto.
Qed.

Lemma feedPacket_gate s pkt : same_gate s (feedPacket s pkt).
Proof.
  unfold feedPacket. generalize (tables pkt). intros ts. revert s.
  induction ts as [|x ts IH]; intros s; cbn [fold_left].
  - unfold same_gate; tauto.
  - specialize (IH (handleTable s x)).
    pose proof (handleTable_gate s x) as H.
    unfold same_gate in *. intuition congruence.
Qed.

Lemma processPacket_step s pkt :
  gives_up s pkt = false -> _drop_after s <> 0 ->
  let s' := fst (processPacket s pkt) in
  snd (processPacket s pkt) = (if next_pass s pkt then TSP_OK else _drop_status s) /\
  _pass_packets s' = next_pass s pkt /\
  _drop_status s' = _drop_status s /\
  _drop_after s' = _drop_after s /\
  _current_pkt s' = uint64 (_current_pkt s + 1) /\
  _last_clear_pkt s' =
    (if clear_monitored s pkt then _current_pkt s else _last_clear_pkt s).
Proof.
  intros Hgo Hd. unfold gives_up in Hgo.
  destruct (feedPacket_gate s pkt) as (Hp & Hs & Ha & Hc & Hl).
  unfold processPacket, next_pass, clear_monitored.
  rewrite Hgo, Hp, Ha, Hc, Hl, Hs.
  apply Z.eqb_neq in Hd. rewrite Hd. cbn [andb fst snd].
  cbn. repeat split; reflexivity.
Qed.

Lemma processPacket_end s pkt :
  gives_up s pkt = true -> snd (processPacket s pkt) = TSP_END.
Proof. unfold gives_up, processPacket. intros ->. reflexivity. Qed.

(** Running the stream answers packet [n] from the state reached before
    it, as long as the plugin did not give up earlier. *)
Lemma run_nth : forall pkts s n,
  _drop_after s <> 0 -> _drop_status s <> TSP_END ->
  (n < List.length pkts)%nat ->
  (forall i, (i < n)%nat -> gives_up (state_at s pkts i) (nth i pkts dummy_packet) = false) ->
  nth_error (run s pkts) n
  = Some (snd (processPacket (state_at s pkts n) (nth n pkts dummy_packet))).
Proof.
  induction pkts as [|pkt rest IH]; intros s n Hd Hs Hn Hgo; [cbn in Hn; lia|].
  cbn [run]. destruct n as [|n].
  - cbn [state_at nth]. destruct (processPacket s pkt) as [s' status].
    destruct status; reflexivity.
  - pose proof (Hgo O ltac:(lia)) as H0. cbn [state_at nth] in H0.
    destruct (processPacket_step s pkt H0 Hd) as (Hst & _ & Hds & Ha & _).
    cbv zeta in Ha, Hds.
    cbn [state_at nth].
    destruct (processPacket s pkt) as [s' status] eqn:E. cbn [fst snd] in *.
    assert (Hne : status <> TSP_END).
    { rewrite Hst. destruct (next_pass s pkt); [discriminate|exact Hs]. }
    assert (Hrec : nth_error (run s' rest) n
                   = Some (snd (processPacket (state_at s' rest n) (nth n rest dummy_packet)))).
    { apply IH; try congruence.
      - cbn [List.length] in Hn. lia.
      - intros i Hi. specialize (Hgo (S i) ltac:(lia)).
        cbn [state_at nth] in Hgo. rewrite E in Hgo. exact Hgo. }
    destruct status; try congruence; cbn [nth_error]; exact Hrec.
Qed.

Lemma state_at_succ : forall pkts s n,
  (n < List.length pkts)%nat ->
  state_at s pkts (S n)
  = fst (processPacket (state_at s pkts n) (nth n pkts dummy_packet)).
Proof.
  induction pkts as [|pkt rest IH]; intros s n Hn; [cbn in Hn; lia|].
  destruct n as [|n]; [reflexivity|].
  cbn [List.length] in Hn.
  change (state_at s (pkt :: rest) (S (S n)))
    with (state_at (fst (processPacket s pkt)) rest (S n)).
  rewrite IH by lia. reflexivity.
Qed.

Lemma uint64_succ a : uint64 (uint64 a + 1) = uint64 (a + 1).
Proof. unfold uint64. now rewrite Zplus_mod_idemp_l. Qed.

Section Gating.

Variable s0 : State.
Variable pkts : list TSPacket.
Variable d : nat.

Let st (i : nat) : State := state_at s0 pkts i.
Let pk (i : nat) : TSPacket := nth i pkts dummy_packet.

Hypothesis drop_after_set : _drop_after s0 = Z.of_nat d.
Hypothesis drop_after_pos : (0 < d)%nat.
Hypothesis counter_reset : _current_pkt s0 = 0.

(** Settings and packet counter before packet [i]. *)
Lemma settings_at (i : nat) :
  (i <= List.length pkts)%nat ->
  (forall j, (j < i)%nat -> gives_up (st j) (pk j) = false) ->
  _drop_after (st i) = Z.of_nat d /\
  _drop_status (st i) = _drop_status s0 /\
  _current_pkt (st i) = uint64 (Z.of_nat i).
Proof.
  induction i as [|i IH]; intros Hi Hgo.
  - subst st. cbn [state_at]. rewrite counter_reset.
    split; [exact drop_after_set|split; reflexivity].
  - destruct IH as (Ha & Hs & Hc); [lia|intros j Hj; apply Hgo; lia|].
    subst st pk. cbv beta in *. rewrite state_at_succ by lia.
    destruct (processPacket_step (state_at s0 pkts i) (nth i pkts dummy_packet))
      as (_ & _ & Hs' & Ha' & Hc' & _); [apply Hgo; lia|rewrite Ha; lia|].
    cbv zeta in *. rewrite Hs', Ha', Hc', Ha, Hs, Hc.
    repeat split. rewrite uint64_succ. f_equal. lia.
Qed.

Variable c : nat.
Hypothesis in_range : Z.of_nat (c + d + 1) < 18446744073709551616.
Hypothesis clear_at_c : clear_monitored (st c) (pk c) = true.

(** While no clear packet follows packet [c], the plugin remembers [c]. *)
Lemma last_clear_at (i : nat) :
  (c < i)%nat -> (i <= List.length pkts)%nat ->
  (forall j, (j < i)%nat -> gives_up (st j) (pk j) = false) ->
  (forall j, (c < j < i)%nat -> clear_monitored (st j) (pk j) = false) ->
  _last_clear_pkt (st i) = Z.of_nat c.
Proof.
  induction i as [|i IH]; intros Hc Hi Hgo Hnc; [lia|].
  destruct (settings_at i) as (Ha & Hs & Hcur); [lia|intros j Hj; apply Hgo; lia|].
  assert (Hstep : st (S i) = fst (processPacket (st i) (pk i)))
    by (subst st pk; cbv beta; apply state_at_succ; lia).
  destruct (processPacket_step (st i) (pk i))
    as (_ & _ & _ & _ & _ & Hl); [apply Hgo; lia|rewrite Ha; lia|].
  cbv zeta in Hl. rewrite Hstep, Hl.
  destruct (Nat.eq_dec i c) as [->|Hne].
  - rewrite clear_at_c, Hcur. unfold uint64. apply Z.mod_small. lia.
  - rewrite (Hnc i) by lia. apply IH; try lia.
    + intros j Hj; apply Hgo; lia.
    + intros j Hj; apply Hnc; lia.
Qed.

(** Decision on a packet that is clear on a monitored PID. *)
Lemma next_pass_clear (i : nat) :
  _drop_after (st i) = Z.of_nat d ->
  clear_monitored (st i) (pk i) = true -> next_pass (st i) (pk i) = true.
Proof.
  intros Ha Hcl. unfold next_pass. rewrite Hcl, Ha, Z.sub_diag.
  cbn [andb]. unfold uint64. rewrite Z.mod_0_l by lia.
  destruct (0 >? Z.of_nat d) eqn:E; [|reflexivity].
  apply Z.gtb_lt in E. lia.
Qed.

(** Decision on the packets that follow packet [c + d]. *)
Lemma next_pass_after (i : nat) :
  (c + d < i)%nat -> (i < List.length pkts)%nat ->
  (forall j, (j <= i)%nat -> gives_up (st j) (pk j) = false) ->
  (forall j, (c < j < i)%nat -> clear_monitored (st j) (pk j) = false) ->
  next_pass (st i) (pk i) = clear_monitored (st i) (pk i).
Proof.
  induction i as [|i IH]; intros Hc Hi Hgo Hnc; [lia|].
  destruct (settings_at (S i)) as (Ha & Hs & Hcur); [lia|intros j Hj; apply Hgo; lia|].
  destruct (clear_monitored (st (S i)) (pk (S i))) eqn:Hcl;
    [now apply next_pass_clear|].
  unfold next_pass. rewrite Hcl, Ha.
  destruct (Nat.eq_dec i (c + d)) as [Heq|Hne].
  - rewrite last_clear_at, Hcur; try lia.
    + replace (uint64 (Z.of_nat (S i))) with (Z.of_nat (S i))
        by (unfold uint64; rewrite Z.mod_small; lia).
      replace (uint64 (Z.of_nat (S i) - Z.of_nat c)) with (Z.of_nat d + 1)
        by (unfold uint64; rewrite Z.mod_small; lia).
      replace (Z.of_nat d + 1 >? Z.of_nat d) with true
        by (symmetry; apply Z.gtb_lt; lia).
      now destruct (_pass_packets (st (S i))).
    + intros j Hj; apply Hgo; lia.
    + exact Hnc.
  - assert (Hprev : _pass_packets (st (S i)) = false).
    { assert (Hstep : st (S i) = fst (processPacket (st i) (pk i)))
        by (subst st pk; cbv beta; apply state_at_succ; lia).
      destruct (settings_at i) as (Ha' & _); [lia|intros j Hj; apply Hgo; lia|].
      destruct (processPacket_step (st i) (pk i))
        as (_ & Hp & _); [apply Hgo; lia|rewrite Ha'; lia|].
      cbv zeta in Hp. rewrite Hstep, Hp, IH; try lia.
      - apply Hnc. lia.
      - intros j Hj; apply Hgo; lia.
      - intros j Hj; apply Hnc; lia. }
    rewrite Hprev. reflexivity.
Qed.

(** Answer to packet [n] after the hold-off has expired. *)
Lemma status_after (n : nat) :
  _drop_status s0 <> TSP_END ->
  (c + d < n)%nat -> (n < List.length pkts)%nat ->
  (forall j, (j <= n)%nat -> gives_up (st j) (pk j) = false) ->
  (forall j, (c < j < n)%nat -> clear_monitored (st j) (pk j) = false) ->
  nth_error (run s0 pkts) n
  = Some (if clear_monitored (st n) (pk n) then TSP_OK else _drop_status s0).
Proof.
  intros Hds Hc Hn Hgo Hnc.
  destruct (settings_at n) as (Ha & Hs & _); [lia|intros j Hj; apply Hgo; lia|].
  rewrite run_nth; try assumption.
  - f_equal.
    destruct (processPacket_step (st n) (pk n)) as (Hst & _);
      [apply Hgo; lia|rewrite Ha; lia|].
    change (state_at s0 pkts n) with (st n).
    change (nth n pkts dummy_packet) with (pk n).
    cbv zeta in Hst. rewrite Hst, Hs.
    now rewrite (next_pass_after n Hc Hn Hgo Hnc).
  - rewrite drop_after_set. lia.
  - intros i Hi. apply Hgo. lia.
Qed.

(** Up to [d] packets after the clear packet [c], the gate stays open. *)
Lemma pass_within (i : nat) :
  (c < i <= c + d + 1)%nat -> (i <= List.length pkts)%nat ->
  (forall j, (j < i)%nat -> gives_up (st j) (pk j) = false) ->
  _pass_packets (st i) = true
  /\ Z.of_nat c <= _last_clear_pkt (st i) < Z.of_nat i.
Proof.
  induction i as [|i IH]; intros Hc Hi Hgo; [lia|].
  destruct (settings_at i) as (Ha & Hs & Hcur); [lia|intros j Hj; apply Hgo; lia|].
  assert (Hcur' : _current_pkt (st i) = Z.of_nat i)
    by (rewrite Hcur; unfold uint64; apply Z.mod_small; lia).
  assert (Hstep : st (S i) = fst (processPacket (st i) (pk i)))
    by (subst st pk; cbv beta; apply state_at_succ; lia).
  destruct (processPacket_step (st i) (pk i))
    as (_ & Hp & _ & _ & _ & Hl); [apply Hgo; lia|rewrite Ha; lia|].
  cbv zeta in Hp, Hl. rewrite Hstep, Hp, Hl.
  destruct (clear_monitored (st i) (pk i)) eqn:Hcl.
  - rewrite next_pass_clear by assumption. rewrite Hcur'. lia.
  - assert (Hne : i <> c) by (intros ->; rewrite clear_at_c in Hcl; discriminate).
    destruct IH as [Hpass Hlast]; [lia|lia|intros j Hj; apply Hgo; lia|].
    unfold next_pass. rewrite Hcl, Hpass, Ha, Hcur'. cbn [andb].
    replace (uint64 (Z.of_nat i - _last_clear_pkt (st i)) >? Z.of_nat d) with false.
    + split; [reflexivity|lia].
    + symmetry. rewrite Z.gtb_ltb. apply Z.ltb_ge.
      unfold uint64. rewrite Z.mod_small; lia.
Qed.

(** The packets that follow a clear packet are forwarded during the
    hold-off. *)
Lemma status_after_clear (n : nat) :
  _drop_status s0 <> TSP_END ->
  (c <= n <= c + d)%nat -> (n < List.length pkts)%nat ->
  (forall j, (j <= n)%nat -> gives_up (st j) (pk j) = false) ->
  nth_error (run s0 pkts) n = Some TSP_OK.
Proof.
  intros Hds Hc Hn Hgo.
  destruct (settings_at n) as (Ha & Hs & _); [lia|intros j Hj; apply Hgo; lia|].
  rewrite run_nth; try assumption.
  - f_equal.
    destruct (processPacket_step (st n) (pk n)) as (Hst & Hp & _);
      [apply Hgo; lia|rewrite Ha; lia|].
    change (state_at s0 pkts n) with (st n).
    change (nth n pkts dummy_packet) with (pk n).
    cbv zeta in Hst, Hp. rewrite Hst, <- Hp.
    assert (Hstep : st (S n) = fst (processPacket (st n) (pk n)))
      by (subst st pk; cbv beta; apply state_at_succ; lia).
    rewrite <- Hstep.
    destruct (pass_within (S n)) as [-> _]; [lia|lia|intros j Hj; apply Hgo; lia|].
    reflexivity.
  - rewrite drop_after_set. lia.
  - intros i Hi. apply Hgo. lia.
Qed.

End Gating.

Lemma holds_upto_sound P : forall pkts base s n,
  holds_upto P base s pkts n = true ->
  forall j, (j <= n)%nat ->
    P (base + j)%nat (state_at s pkts j) (nth j pkts dummy_packet) = true.
Proof.
  induction pkts as [|pkt rest IH]; intros base s n H j Hj; [discriminate|].
  cbn [holds_upto] in H. apply andb_true_iff in H. destruct H as [H0 Hr].
  destruct j as [|j].
  - rewrite Nat.add_0_r. exact H0.
  - destruct n as [|n]; [lia|].
    cbn [state_at nth]. rewrite <- Nat.add_succ_comm.
    apply (IH (S base) _ n Hr). lia.
Qed.

(** C8, as amended.  With [--drop-after-packets=1000], if packet 5000 is a
    clear packet on a monitored PID and the plugin has not given up on a
    fatal signalling error up to packet [n >= 6001], then, when no packet
    between 5000 and [n] is a clear packet on a monitored PID, packet [n]
    is dropped (replaced by a null packet with [--stuffing]) unless it is
    itself such a clear packet, in which case it is forwarded. *)
Theorem clear_gating_S5 (o : Options) (pkts : list TSPacket) (n : nat) :
  opt_drop_after_packets o = Some 1000 ->
  (ClearScenario.first_dropped <= n < List.length pkts)%nat ->
  (forall j, (j <= n)%nat ->
     gives_up (state_at (start o) pkts j) (nth j pkts dummy_packet) = false) ->
  clear_monitored (state_at (start o) pkts ClearScenario.last_clear)
    (nth ClearScenario.last_clear pkts dummy_packet) = true ->
  (forall j, (ClearScenario.last_clear < j < n)%nat ->
     clear_monitored (state_at (start o) pkts j) (nth j pkts dummy_packet) = false) ->
  nth_error (run (start o) pkts) n
  = Some (if clear_monitored (state_at (start o) pkts n) (nth n pkts dummy_packet)
          then TSP_OK
          else if opt_stuffing o then TSP_NULL else TSP_DROP).
Proof.
  intros Hopt Hn Hgo Hclear Hnc.
  assert (Hc : Z.of_nat ClearScenario.last_clear = 5000) by reflexivity.
  assert (Hf : Z.of_nat ClearScenario.first_dropped = 6001) by reflexivity.
  assert (Hd : Z.of_nat (Z.to_nat 1000) = 1000) by reflexivity.
  apply (status_after (start o) pkts (Z.to_nat 1000))
    with (c := ClearScenario.last_clear); try assumption; try lia.
  - cbn [start _drop_after]. now rewrite Hopt.
  - reflexivity.
  - cbn [start _drop_status]. destruct (opt_stuffing o); discriminate.
Qed.

(** Forwarding resumes with a clear packet on a monitored PID: this packet
    and the 1000 packets that follow it are forwarded. *)
Lemma forwarding_resumes (o : Options) (pkts : list TSPacket) (k m : nat) :
  opt_drop_after_packets o = Some 1000 ->
  clear_monitored (state_at (start o) pkts k) (nth k pkts dummy_packet) = true ->
  Z.of_nat k <= Z.of_nat m <= Z.of_nat k + 1000 ->
  (m < List.length pkts)%nat ->
  Z.of_nat k + 1001 < 18446744073709551616 ->
  (forall j, (j <= m)%nat ->
     gives_up (state_at (start o) pkts j) (nth j pkts dummy_packet) = false) ->
  nth_error (run (start o) pkts) m = Some TSP_OK.
Proof.
  intros Hopt Hclear Hm Hlen Hrange Hgo.
  assert (Hd : Z.of_nat (Z.to_nat 1000) = 1000) by reflexivity.
  apply (status_after_clear (start o) pkts (Z.to_nat 1000)) with (c := k);
    try assumption; try lia.
  - cbn [start _drop_after]. now rewrite Hopt.
  - reflexivity.
  - cbn [start _drop_status]. destruct (opt_stuffing o); discriminate.
Qed.

Lemma clear_gating_S5_witness :
  nth_error (run (start ClearScenario.options) ClearScenario.stream)
    ClearScenario.first_dropped = Some TSP_DROP.
Proof.
  assert (Hc : Z.of_nat ClearScenario.last_clear = 5000) by reflexivity.
  assert (Hf : Z.of_nat ClearScenario.first_dropped = 6001) by reflexivity.
  apply (clear_gating_S5 ClearScenario.options ClearScenario.stream
           ClearScenario.first_dropped).
  - reflexivity.
  - assert (Hl : Z.of_nat (List.length ClearScenario.stream) = 6512)
      by (vm_compute; reflexivity).
    lia.
  - intros j Hj. apply negb_true_iff.
    apply (holds_upto_sound (fun _ s pkt => negb (gives_up s pkt))
             ClearScenario.stream O (start ClearScenario.options)
             ClearScenario.first_dropped); [vm_compute; reflexivity|exact Hj].
  - vm_compute. reflexivity.
  - intros j Hj.
    pose proof (holds_upto_sound
                  (fun i s pkt => (i <=? ClearScenario.last_clear)%nat
                                  || negb (clear_monitored s pkt))
                  ClearScenario.stream O (start ClearScenario.options)
                  ClearScenario.first_dropped ltac:(vm_compute; reflexivity)
                  j ltac:(lia)) as H.
    cbv beta in H. rewrite Nat.add_0_l in H.
    apply orb_true_iff in H. destruct H as [H|H].
    + apply Nat.leb_le in H. lia.
    + now apply negb_true_iff in H.
Defined.

(** On the same stream forwarding resumes with the next clear packet. *)
Lemma clear_gating_S5_resumes :
  nth_error (run (start ClearScenario.options) ClearScenario.stream)
    ClearScenario.next_clear = Some TSP_OK.
Proof. vm_compute. reflexivity. Qed.

(** C8, as stated, fails on a stream in which the plugin gives up: audio
    is clear at packet 5000, scrambled afterwards and clear again at packet
    6501, and packet 6001 completes a PAT in which the service is absent.
    Packet 6001 is answered by [TSP_END], not by the drop status, and the
    clear packet 6501 is never forwarded. *)
Lemma clear_gating_S5_counterexample :
  opt_drop_after_packets ClearScenario.options = Some 1000 /\
  clear_monitored (state_at (start ClearScenario.options)
                     ClearScenario.stream_losing_service ClearScenario.last_clear)
    (nth ClearScenario.last_clear ClearScenario.stream_losing_service dummy_packet)
    = true /\
  (forall j, (ClearScenario.last_clear < j <= ClearScenario.first_dropped)%nat ->
     clear_monitored (state_at (start ClearScenario.options)
                        ClearScenario.stream_losing_service j)
       (nth j ClearScenario.stream_losing_service dummy_packet) = false) /\
  nth_error (run (start ClearScenario.options) ClearScenario.stream_losing_service)
    ClearScenario.first_dropped = Some TSP_END /\
  nth_error (run (start ClearScenario.options) ClearScenario.stream_losing_service)
    ClearScenario.first_dropped <> Some (_drop_status (start ClearScenario.options)) /\
  nth ClearScenario.next_clear ClearScenario.stream_losing_service dummy_packet
    = ClearScenario.clear_audio /\
  nth_error (run (start ClearScenario.options) ClearScenario.stream_losing_service)
    ClearScenario.next_clear = None.
Proof.
  split; [reflexivity|].
  split; [vm_compute; reflexivity|].
  split.
  { intros j Hj.
    pose proof (holds_upto_sound
                  (fun i s pkt => (i <=? ClearScenario.last_clear)%nat
                                  || negb (clear_monitored s pkt))
                  ClearScenario.stream_losing_service O (start ClearScenario.options)
                  ClearScenario.first_dropped ltac:(vm_compute; reflexivity)
                  j ltac:(lia)) as H.
    cbv beta in H. rewrite Nat.add_0_l in H.
    apply orb_true_iff in H. destruct H as [H|H].
    - apply Nat.leb_le in H. lia.
    - now apply negb_true_iff in H. }
  split; [vm_compute; reflexivity|].
  split; [vm_compute; discriminate|].
  split; vm_compute; reflexivity.
Qed.

End ClearPluginFacts.

Module PCRExtractPluginFacts.
Import PCRExtractPlugin.

(** C9, at a failing input.  With [--pts] as the only selection, a packet
    that carries a PTS and a DTS produces one line, of type DTS, and no
    PTS line: [start] stores the presence of [--dts] in the PTS selector
    and the presence of [--pts] in the DTS selector. *)
Theorem pts_option_reports_dts SequencedPTS :
  selected only_pts PTS = true /\ selected only_pts DTS = false /\
  _get_pts (start only_pts) = false /\ _get_dts (start only_pts) = true /\
  map line_type (snd (processPacket SequencedPTS (start only_pts) pes_start)) = [DTS].
Proof. repeat split; reflexivity. Qed.

End PCRExtractPluginFacts.

Module PCRVerifyPluginFacts.
Import PCRVerifyPlugin.










End PCRVerifyPluginFacts.

Module DescriptorListCodecFacts.
Import DescriptorList DescriptorListCodec.

Lemma binarySize_acc (l : t) (acc : Z) :
  fold_left (fun size e => size + Descriptor.size (desc e)) l acc
  = acc + binarySize l.
Proof.
  unfold binarySize. revert acc.
  induction l as [|e l IH]; intros acc; cbn [fold_left]; [lia|].
  rewrite IH, (IH (0 + _)). lia.
Qed.

Lemma binarySize_cons (e : Element) (l : t) :
  binarySize (e :: l) = Descriptor.size (desc e) + binarySize l.
Proof. unfold binarySize at 1. cbn [fold_left]. now rewrite binarySize_acc. Qed.

Lemma binarySize_nonneg (l : t) : 0 <= binarySize l.
Proof.
  induction l as [|e l IH]; [unfold binarySize; cbn; lia|].
  rewrite binarySize_cons. unfold Descriptor.size, Bytes.size. lia.
Qed.

Lemma all_bytes_size (l : t) : Bytes.size (all_bytes l) = binarySize l.
Proof.
  induction l as [|e l IH]; [reflexivity|].
  rewrite binarySize_cons, <- IH. unfold all_bytes, Bytes.size, Descriptor.size.
  cbn [map concat]. rewrite length_app. unfold Bytes.size. lia.
Qed.

(** With room for the whole list, every descriptor is written. *)
Lemma serialize_from_all : forall (l : t) (size : Z) (i : nat),
  binarySize l <= size ->
  serialize_from l size i = (all_bytes l, size - binarySize l, (i + List.length l)%nat).
Proof.
  induction l as [|e l IH]; intros size i Hfit.
  - cbn. unfold binarySize. cbn. f_equal; [f_equal; lia|lia].
  - rewrite binarySize_cons in Hfit. pose proof (binarySize_nonneg l) as Hnn.
    cbn [serialize_from].
    replace (Descriptor.size (desc e) <=? size) with true
      by (symmetry; apply Z.leb_le; lia).
    rewrite IH by lia. rewrite binarySize_cons. cbn [List.length].
    unfold all_bytes. cbn [map concat].
    f_equal; [f_equal; lia|lia].
Qed.

Lemma lengthSerialize_all (l : t) (size : Z) :
  2 + binarySize l <= size ->
  lengthSerialize l size O
  = (PutUInt16 (uint16 (Z.lor (binarySize l) 0xF000)) ++ all_bytes l,
     size - 2 - binarySize l, List.length l).
Proof.
  intros Hfit. unfold lengthSerialize, serialize. cbn [skipn].
  rewrite serialize_from_all by lia. rewrite all_bytes_size. reflexivity.
Qed.

End DescriptorListCodecFacts.

Module EITFacts.
Import DescriptorList DescriptorListCodec DescriptorListCodecFacts EIT.

(** *** Bits of the length field *)

(** What the four upper bits of the first length byte hold after the
    assignment, and what the four lower bits keep. *)
Lemma flags_byte_bits (flags0 rs : Z) (ca : bool) :
  0 <= flags0 < 256 -> 0 <= rs < 256 ->
  0 <= flags_byte flags0 rs ca < 256
  /\ Z.shiftr (flags_byte flags0 rs ca) 5 = Z.land rs 0x07
  /\ Z.land (Z.shiftr (flags_byte flags0 rs ca) 5) 0x07 = Z.land rs 0x07
  /\ Z.land (Z.shiftr (flags_byte flags0 rs ca) 4) 0x01 = (if ca then 1 else 0)
  /\ Z.land (flags_byte flags0 rs ca) 0x0F = Z.land flags0 0x0F.
Proof.
  intros Hf Hr.
  set (check := fun f r c =>
         let b := flags_byte f r c in
         (0 <=? b) && (b <? 256)
         && (Z.shiftr b 5 =? Z.land r 0x07)
         && (Z.land (Z.shiftr b 5) 0x07 =? Z.land r 0x07)
         && (Z.land (Z.shiftr b 4) 0x01 =? (if c then 1 else 0))
         && (Z.land b 0x0F =? Z.land f 0x0F)).
  assert (Hall : forall_u8 (fun f => forall_u8 (fun r => check f r true && check f r false))
                 = true) by (vm_compute; reflexivity).
  pose proof (BytesFacts.forall_u8_sound _
                (BytesFacts.forall_u8_sound _ Hall flags0 Hf) rs Hr) as H.
  cbv beta in H. apply andb_true_iff in H.
  assert (Hc : check flags0 rs ca = true) by (destruct ca; tauto).
  unfold check in Hc. cbv zeta in Hc.
  rewrite !andb_true_iff, Z.leb_le, Z.ltb_lt, !Z.eqb_eq in Hc. tauto.
Qed.

(** The two bytes written by [lengthSerialize] for a length below 4096. *)
Lemma length_bytes (len : Z) :
  0 <= len < 4096 ->
  Z.land (Z.shiftr (uint16 (Z.lor len 0xF000)) 8) 255 = 0xF0 + len / 256
  /\ Z.land (uint16 (Z.lor len 0xF000)) 255 = len mod 256
  /\ Z.land (0xF0 + len / 256) 0x0F = len / 256.
Proof.
  intros Hl.
  pose proof (BytesFacts.forall_below_sound 4096
    (fun len =>
       (Z.land (Z.shiftr (uint16 (Z.lor len 0xF000)) 8) 255 =? 0xF0 + len / 256)
       && (Z.land (uint16 (Z.lor len 0xF000)) 255 =? len mod 256)
       && (Z.land (0xF0 + len / 256) 0x0F =? len / 256))
    ltac:(vm_compute; reflexivity) len Hl) as H.
  cbv beta in H. rewrite !andb_true_iff, !Z.eqb_eq in H. tauto.
Qed.

(** Twelve bits read from two bytes. *)
Lemma twelve_bits (hi lo : Z) :
  0 <= hi < 256 -> 0 <= lo < 256 ->
  Z.land (GetUInt16 [hi; lo]) 0x0FFF = Z.land hi 0x0F * 256 + lo.
Proof.
  intros Hh Hl.
  pose proof (BytesFacts.forall_u8_sound _
    (BytesFacts.forall_u8_sound
       (fun hi => forall_u8 (fun lo =>
          Z.land (GetUInt16 [hi; lo]) 0x0FFF =? Z.land hi 0x0F * 256 + lo))
       ltac:(vm_compute; reflexivity) hi Hh) lo Hl) as H.
  cbv beta in H. now apply Z.eqb_eq in H.
Qed.

Lemma GetUInt16_PutUInt16 (v : Z) (rest : ByteBlock) :
  0 <= v < 65536 -> GetUInt16 (PutUInt16 v ++ rest) = v.
Proof.
  intros Hv.
  pose proof (BytesFacts.forall_below_sound 65536
    (fun v => GetUInt16 (PutUInt16 v) =? v)
    ltac:(vm_compute; reflexivity) v Hv) as H.
  cbv beta in H. apply Z.eqb_eq in H. exact H.
Qed.

(** The length of a descriptor loop is read back from its two bytes,
    whatever was put in the four upper bits. *)
Lemma loop_length_read (len rs : Z) (ca : bool) :
  0 <= len < 4096 -> 0 <= rs < 256 ->
  Z.land (GetUInt16
            [flags_byte (Z.land (Z.shiftr (uint16 (Z.lor len 0xF000)) 8) 255) rs ca;
             Z.land (uint16 (Z.lor len 0xF000)) 255]) 0x0FFF = len.
Proof.
  intros Hl Hr. destruct (length_bytes len Hl) as (Hhi & Hlo & Hlow).
  rewrite Hhi, Hlo.
  assert (Hh : 0 <= 0xF0 + len / 256 < 256).
  { assert (0 <= len / 256 < 16)
      by (split; [apply Z.div_pos; lia|apply Z.div_lt_upper_bound; lia]).
    lia. }
  destruct (flags_byte_bits (0xF0 + len / 256) rs ca Hh Hr) as (Hb & _ & _ & _ & Hlow').
  rewrite twelve_bits; [|exact Hb|apply Z.mod_pos_bound; lia].
  rewrite Hlow', Hlow.
  rewrite (Z.div_mod len 256) at 3 by lia. lia.
Qed.

Section Packing.

Variable Time : Type.
Variable EncodeMJD : Time -> ByteBlock.
Variable EncodeBCD : Z -> Z.
Variable MAX : Z.

Local Abbreviation event_fixed := (EIT.event_fixed EncodeMJD EncodeBCD).
Local Abbreviation event_description := (EIT.event_description EncodeMJD EncodeBCD).
Local Abbreviation event_chunks := (EIT.event_chunks EncodeMJD EncodeBCD).
Local Abbreviation add_events := (EIT.add_events EncodeMJD EncodeBCD).
Local Abbreviation serialize := (EIT.serialize EncodeMJD EncodeBCD MAX).
Local Abbreviation all_fit := (EIT.all_fit MAX).

Lemma mjd_bytes_length (time : Time) : List.length (mjd_bytes EncodeMJD time) = 5%nat.
Proof.
  unfold mjd_bytes. rewrite length_firstn, length_app. cbn [List.length]. lia.
Qed.

Lemma event_fixed_size (event_id : Z) (event : Event Time) :
  Bytes.size (event_fixed event_id event) = 10.
Proof.
  unfold EIT.event_fixed, Bytes.size, PutUInt16.
  rewrite !length_app, mjd_bytes_length. reflexivity.
Qed.

Lemma event_loop_bytes_all (event : Event Time) (size : Z) :
  2 + binarySize (descs event) <= size ->
  event_loop_bytes event size O
  = (whole_loop event, size - 2 - binarySize (descs event),
     List.length (descs event)).
Proof.
  intros Hfit. unfold event_loop_bytes. rewrite lengthSerialize_all by exact Hfit.
  reflexivity.
Qed.

Lemma event_description_eq (ev : Z * Event Time) :
  event_description ev = event_fixed (fst ev) (snd ev) ++ whole_loop (snd ev).
Proof.
  unfold EIT.event_description. rewrite event_loop_bytes_all by lia. reflexivity.
Qed.

Lemma event_description_size (ev : Z * Event Time) :
  Bytes.size (event_description ev) = 12 + binarySize (descs (snd ev)).
Proof.
  rewrite event_description_eq, BytesFacts.size_app, event_fixed_size.
  unfold whole_loop. rewrite !BytesFacts.size_cons, all_bytes_size. lia.
Qed.

Variable self : EIT.t Time.

Local Abbreviation whole_events := (EIT.whole_events EncodeMJD EncodeBCD self).
Local Abbreviation packed := (EIT.packed EncodeMJD EncodeBCD MAX self).

Lemma fixed_part_size : Bytes.size (fixed_part self) = 6.
Proof. reflexivity. Qed.

Lemma whole_events_size (g : EventMap Time) :
  Bytes.size (whole_events g)
  = 6 + Bytes.size (concat (map event_description g)).
Proof. unfold EIT.whole_events. now rewrite BytesFacts.size_app, fixed_part_size. Qed.

Lemma whole_events_snoc (g : EventMap Time) (ev : Z * Event Time) :
  whole_events (g ++ [ev]) = whole_events g ++ event_description ev.
Proof.
  unfold EIT.whole_events. rewrite map_app, concat_app. cbn [map concat].
  now rewrite app_nil_r, app_assoc.
Qed.

Lemma whole_events_nonempty_size (g : EventMap Time) :
  g <> [] -> 18 <= Bytes.size (whole_events g).
Proof.
  intros Hg. destruct g as [|ev g]; [congruence|].
  rewrite whole_events_size. cbn [map concat].
  rewrite BytesFacts.size_app, event_description_size.
  pose proof (binarySize_nonneg (descs (snd ev))).
  pose proof (BytesFacts.size_nonneg (concat (map event_description g))). lia.
Qed.

Lemma addSection_packed done cur b :
  packed done cur b -> cur <> [] -> packed (done ++ [cur]) [] (addSection self b).
Proof.
  intros (Ht & Hd & Hr & Hne) Hcur. unfold EIT.packed, addSection.
  cbn [table data remain].
  assert (Hfirst : firstn 6 (data b) = whole_events []).
  { rewrite Hd. unfold EIT.whole_events. cbn [map concat]. rewrite app_nil_r.
    reflexivity. }
  split; [|split; [|split]].
  - rewrite !map_app, Ht. cbn [map sect_payload]. now rewrite Hd.
  - exact Hfirst.
  - rewrite Hfirst, Hr. change (Bytes.size (whole_events [])) with 6. lia.
  - destruct Hne as [Hne Htid]. split; apply Forall_app; split; try assumption.
    + constructor; [exact Hcur|constructor].
    + constructor; [reflexivity|constructor].
Qed.

(** One event that fits is written whole, in the current section or in a
    new one. *)
Lemma event_chunks_whole (n : nat) (ev : Z * Event Time) done cur b :
  packed done cur b ->
  12 + binarySize (descs (snd ev)) <= MAX - 6 ->
  exists done' cur' b',
    event_chunks (S (S n)) self (fst ev) (snd ev) true O
      (if remain b <? 12 then addSection self b else b) = Some b'
    /\ packed done' (cur' ++ [ev]) b'
    /\ concat done' ++ cur' = concat done ++ cur.
Proof.
  intros Hp Hfit.
  pose proof (binarySize_nonneg (descs (snd ev))) as Hnn.
  assert (Hroom : exists d c b1,
            (let b0 := if remain b <? 12 then addSection self b else b in
             if true && (12 + binarySize (descs (snd ev)) >? remain b0)
             then addSection self b0 else b0) = b1
            /\ packed d c b1
            /\ 12 + binarySize (descs (snd ev)) <= remain b1
            /\ concat d ++ c = concat done ++ cur).
  { destruct Hp as (Ht & Hd & Hr & Hne).
    assert (Hcur : remain b < 12 + binarySize (descs (snd ev)) -> cur <> []).
    { intros Hlt Hnil. subst cur. rewrite Hd in Hr.
      change (Bytes.size (whole_events [])) with 6 in Hr. lia. }
    cbv zeta. cbn [andb].
    destruct (remain b <? 12) eqn:E12.
    - apply Z.ltb_lt in E12.
      pose proof (addSection_packed done cur b (conj Ht (conj Hd (conj Hr Hne)))
                    ltac:(apply Hcur; lia)) as Hp1.
      assert (Hr1 : remain (addSection self b) = MAX - 6).
      { destruct Hp1 as (_ & Hd1 & Hr1 & _). rewrite Hr1, Hd1. reflexivity. }
      replace (12 + binarySize (descs (snd ev)) >? remain (addSection self b))
        with false by (symmetry; rewrite Z.gtb_ltb; apply Z.ltb_ge; lia).
      exists (done ++ [cur]), [], (addSection self b).
      split; [reflexivity|]. split; [exact Hp1|]. split; [lia|].
      rewrite concat_app. cbn [concat]. now rewrite !app_nil_r.
    - apply Z.ltb_ge in E12.
      destruct (12 + binarySize (descs (snd ev)) >? remain b) eqn:Efit.
      + apply Z.gtb_lt in Efit.
        pose proof (addSection_packed done cur b (conj Ht (conj Hd (conj Hr Hne)))
                      ltac:(apply Hcur; lia)) as Hp1.
        assert (Hr1 : remain (addSection self b) = MAX - 6).
        { destruct Hp1 as (_ & Hd1 & Hr1 & _). rewrite Hr1, Hd1. reflexivity. }
        exists (done ++ [cur]), [], (addSection self b).
        split; [reflexivity|]. split; [exact Hp1|]. split; [lia|].
        rewrite concat_app. cbn [concat]. now rewrite !app_nil_r.
      + rewrite Z.gtb_ltb in Efit. apply Z.ltb_ge in Efit.
        exists done, cur, b.
        split; [reflexivity|]. split; [exact (conj Ht (conj Hd (conj Hr Hne)))|].
        split; [lia|reflexivity]. }
  destruct Hroom as (d & c & b1 & Hb1 & (Ht & Hd & Hr & Hne) & Hfit1 & Hcat).
  cbv zeta in Hb1.
  exists d, c.
  eexists. split; [|split; [|exact Hcat]].
  - cbn [EIT.event_chunks orb]. rewrite Hb1.
    replace (remain b1 <? 12) with false by (symmetry; apply Z.ltb_ge; lia).
    rewrite event_loop_bytes_all by lia.
    rewrite Nat.ltb_irrefl. cbn [orb]. reflexivity.
  - unfold EIT.packed. cbn [table data remain]. split; [|split; [|split]].
    + exact Ht.
    + rewrite whole_events_snoc, event_description_eq, Hd. reflexivity.
    + rewrite !BytesFacts.size_app, event_fixed_size, Hr.
      unfold whole_loop. rewrite !BytesFacts.size_cons, all_bytes_size. lia.
    + exact Hne.
Qed.

Lemma add_events_whole : forall (evs : EventMap Time) done cur b,
  packed done cur b -> all_fit evs ->
  exists done' cur' b',
    add_events self evs b = Some b'
    /\ packed done' cur' b'
    /\ concat done' ++ cur' = concat done ++ cur ++ evs
    /\ (evs <> [] -> cur' <> []).
Proof.
  induction evs as [|ev evs IH]; intros done cur b Hp Hfit.
  - exists done, cur, b. cbn [EIT.add_events]. rewrite app_nil_r.
    repeat split; try apply Hp. congruence.
  - destruct ev as [event_id event].
    destruct (event_chunks_whole (List.length (descs event)) (event_id, event)
                done cur b Hp (Hfit _ (or_introl eq_refl)))
      as (d1 & c1 & b1 & Hrun & Hp1 & Hcat1).
    destruct (IH d1 (c1 ++ [(event_id, event)]) b1 Hp1
                (fun ev H => Hfit ev (or_intror H)))
      as (d2 & c2 & b2 & Hrun2 & Hp2 & Hcat2 & Hne2).
    exists d2, c2, b2. cbn [EIT.add_events]. cbn [fst snd] in Hrun.
    rewrite Hrun. split; [exact Hrun2|]. split; [exact Hp2|]. split.
    + rewrite Hcat2, <- !app_assoc. cbn [app].
      rewrite !app_assoc. rewrite Hcat1. now rewrite <- !app_assoc.
    + intros _. destruct evs as [|ev' evs'].
      * cbn [EIT.add_events] in Hrun2. injection Hrun2 as <-.
        destruct Hp1 as (_ & Hd1 & _). destruct Hp2 as (_ & Hd2 & _).
        intros ->. rewrite Hd1 in Hd2.
        pose proof (whole_events_nonempty_size (c1 ++ [(event_id, event)])
                      ltac:(now destruct c1)) as Hsz.
        rewrite Hd2 in Hsz. change (Bytes.size (whole_events [])) with 6 in Hsz. lia.
      * apply Hne2. congruence.
Qed.

Lemma all_fit_forallb (evs : EventMap Time) :
  forallb (fun ev => 12 + binarySize (descs (snd ev)) <=? MAX - 6) evs = true ->
  all_fit evs.
Proof.
  intros H ev Hin. rewrite forallb_forall in H. apply Z.leb_le. now apply H.
Qed.

(** What [serialize] returns when every event fits in one section. *)
Lemma serialize_packs :
  _is_valid self = true ->
  all_fit (events self) ->
  exists (groups : list (EventMap Time)) (sections : list Section),
    serialize self = Some sections
    /\ concat groups = events self
    /\ map sect_payload sections = map whole_events groups
    /\ Forall (fun s => sect_tableId s = _table_id self) sections
    /\ (events self <> [] -> Forall (fun g => g <> []) groups).
Proof.
  intros Hvalid Hfit.
  assert (Hp0 : packed [] []
                  (mkBuffer [] 0 (fixed_part self) (MAX - 6))).
  { unfold EIT.packed. cbn [table data remain map].
    split; [reflexivity|split; [reflexivity|split; [reflexivity|split; constructor]]]. }
  destruct (add_events_whole (events self) [] [] _ Hp0 Hfit)
    as (done & cur & b & Hrun & Hp & Hcat & Hne).
  cbn [concat app] in Hcat.
  unfold EIT.serialize. rewrite Hvalid. cbn [negb]. rewrite Hrun.
  destruct (events self) as [|ev evs] eqn:Hev.
  - cbn [EIT.add_events] in Hrun. injection Hrun as <-.
    cbn [data table List.length Nat.eqb orb addSection app map].
    rewrite Bool.orb_true_r.
    exists [[]]. eexists. split; [reflexivity|].
    cbn [map table addSection app sect_payload data sect_tableId].
    split; [reflexivity|]. split; [|split; [|congruence]].
    + unfold EIT.whole_events. cbn [map concat]. now rewrite app_nil_r.
    + constructor; [reflexivity|constructor].
  - assert (Hcur : cur <> []) by (apply Hne; congruence).
    pose proof (addSection_packed done cur b Hp Hcur) as (Ht & _ & _ & Hall & Htid).
    assert (Hbig : (Bytes.size (data b) >? 6) = true).
    { destruct Hp as (_ & Hd & _). rewrite Hd. apply Z.gtb_lt.
      pose proof (whole_events_nonempty_size cur Hcur). lia. }
    rewrite Hbig. cbn [orb].
    exists (done ++ [cur]). eexists. split; [reflexivity|]. split; [|split; [|split]].
    + rewrite concat_app. cbn [concat]. now rewrite app_nil_r.
    + exact Ht.
    + exact Htid.
    + intros _. exact Hall.
Qed.


(** *** Reading the sections back *)

Variable Time_default : Time.
Variable DecodeMJD : ByteBlock -> Time.
Variable DecodeBCD : Z -> Z.
Variable TID_EIT_MIN : Z.
Variable TID_EIT_MAX : Z.

Local Abbreviation get_events := (EIT.get_events Time_default DecodeMJD DecodeBCD).
Local Abbreviation get_sections := (EIT.get_sections Time_default DecodeMJD DecodeBCD).
Local Abbreviation deserialize :=
  (EIT.deserialize Time_default DecodeMJD DecodeBCD TID_EIT_MIN TID_EIT_MAX).

Lemma last_cons : forall (keys : list Z) (k lo : Z),
  last (k :: keys) lo = last keys k.
Proof.
  induction keys as [|k' keys IH]; intros k lo; [reflexivity|].
  change (last (k :: k' :: keys) lo) with (last (k' :: keys) lo).
  rewrite (IH k' lo), (IH k' k). reflexivity.
Qed.

Lemma ascending_last : forall keys lo,
  ascending lo keys -> lo <= last keys lo /\ Forall (fun k => k <= last keys lo) keys.
Proof.
  induction keys as [|k keys IH]; intros lo H; [split; [cbn; lia|constructor]|].
  cbn [ascending] in H. destruct H as [Hlt Hr].
  destruct (IH k Hr) as [Hle Hall].
  rewrite last_cons. split; [lia|]. constructor; [exact Hle|exact Hall].
Qed.

Lemma ascending_app : forall l1 l2 lo,
  ascending lo (l1 ++ l2) -> ascending lo l1 /\ ascending (last l1 lo) l2.
Proof.
  induction l1 as [|k l1 IH]; intros l2 lo H; [split; [exact I|exact H]|].
  cbn [app ascending] in H. destruct H as [Hlt Hr].
  destruct (IH l2 k Hr) as [H1 H2].
  rewrite last_cons. cbn [ascending]. tauto.
Qed.

Lemma events_set_append : forall (evs : EventMap Time) (event_id : Z) (e : Event Time),
  Forall (fun kv => fst kv < event_id) evs ->
  events_set evs event_id e = evs ++ [(event_id, e)].
Proof.
  induction evs as [|[k x] evs IH]; intros event_id e H; [reflexivity|].
  inversion H as [|? ? Hk Hr]; subst. cbn [fst] in Hk.
  cbn [events_set app].
  replace (event_id <? k) with false by (symmetry; apply Z.ltb_ge; lia).
  replace (event_id =? k) with false by (symmetry; apply Z.eqb_neq; lia).
  now rewrite IH.
Qed.

(** One turn of the loop of [deserialize] on the description of an event. *)
Lemma get_events_one (fuel : nat) (ev : Z * Event Time) (rest : ByteBlock)
    (evs : EventMap Time) :
  event_ok ev ->
  exists e' : Event Time,
    get_events (S fuel) (event_description ev ++ rest) evs
    = get_events fuel rest (events_set evs (fst ev) e')
    /\ running_status e' = Z.land (running_status (snd ev)) 0x07
    /\ CA_controlled e' = CA_controlled (snd ev).
Proof.
  intros (Hid & Hrs & Hlen).
  pose proof (binarySize_nonneg (descs (snd ev))) as Hnn.
  rewrite event_description_eq. unfold EIT.event_fixed, whole_loop, set_flags.
  pose proof (mjd_bytes_length (start_time (snd ev))) as Hm.
  destruct (mjd_bytes EncodeMJD (start_time (snd ev)))
    as [|m0 [|m1 [|m2 [|m3 [|m4 [|m5 ms]]]]]]; try discriminate Hm.
  unfold PutUInt16 at 1. cbn [app].
  set (f := flags_byte (Z.land (Z.shiftr (uint16 (Z.lor (binarySize (descs (snd ev))) 0xF000)) 8) 255)
              (running_status (snd ev)) (CA_controlled (snd ev))).
  set (lo := Z.land (uint16 (Z.lor (binarySize (descs (snd ev))) 0xF000)) 255).
  cbn [EIT.get_events].
  assert (Hsize : (Bytes.size
            (Z.land (Z.shiftr (fst ev) 8) 255 :: Z.land (fst ev) 255 :: m0 :: m1 :: m2
             :: m3 :: m4 :: uint8 (EncodeBCD (int32 (Z.quot (duration (snd ev)) 3600)))
             :: uint8 (EncodeBCD (int32 (Z.rem (Z.quot (duration (snd ev)) 60) 60)))
             :: uint8 (EncodeBCD (int32 (Z.rem (duration (snd ev)) 60)))
             :: f :: lo :: all_bytes (descs (snd ev)) ++ rest) >=? 12) = true).
  { apply Z.geb_le. rewrite !BytesFacts.size_cons.
    pose proof (BytesFacts.size_nonneg (all_bytes (descs (snd ev)) ++ rest)). lia. }
  rewrite Hsize. cbn [skipn at_ nth].
  assert (Hget : GetUInt16 (Z.land (Z.shiftr (fst ev) 8) 255 :: Z.land (fst ev) 255 :: m0 :: m1 :: m2
             :: m3 :: m4 :: uint8 (EncodeBCD (int32 (Z.quot (duration (snd ev)) 3600)))
             :: uint8 (EncodeBCD (int32 (Z.rem (Z.quot (duration (snd ev)) 60) 60)))
             :: uint8 (EncodeBCD (int32 (Z.rem (duration (snd ev)) 60)))
             :: f :: lo :: all_bytes (descs (snd ev)) ++ rest) = fst ev).
  { exact (GetUInt16_PutUInt16 (fst ev) _ Hid). }
  rewrite Hget.
  assert (Hinfo : Z.land (GetUInt16 (f :: lo :: all_bytes (descs (snd ev)) ++ rest)) 0x0FFF
                  = binarySize (descs (snd ev))).
  { exact (loop_length_read _ _ (CA_controlled (snd ev)) (conj Hnn Hlen) Hrs). }
  rewrite Hinfo.
  assert (Hmin : Z.min (binarySize (descs (snd ev)))
                   (Bytes.size (all_bytes (descs (snd ev)) ++ rest))
                 = binarySize (descs (snd ev))).
  { rewrite BytesFacts.size_app, all_bytes_size.
    pose proof (BytesFacts.size_nonneg rest). lia. }
  rewrite Hmin.
  assert (Hnat : Z.to_nat (binarySize (descs (snd ev)))
                 = List.length (all_bytes (descs (snd ev)))).
  { rewrite <- all_bytes_size. unfold Bytes.size. lia. }
  rewrite Hnat.
  rewrite skipn_app, skipn_all, Nat.sub_diag. cbn [skipn app].
  eexists. split; [reflexivity|].
  cbn [running_status CA_controlled].
  assert (Hhi : 0 <= Z.land (Z.shiftr (uint16 (Z.lor (binarySize (descs (snd ev))) 0xF000)) 8) 255 < 256).
  { destruct (length_bytes _ (conj Hnn Hlen)) as (-> & _).
    assert (0 <= binarySize (descs (snd ev)) / 256 < 16)
      by (split; [apply Z.div_pos; lia|apply Z.div_lt_upper_bound; lia]).
    lia. }
  destruct (flags_byte_bits _ _ (CA_controlled (snd ev)) Hhi Hrs)
    as (_ & _ & Hb5 & Hb4 & _).
  fold f in Hb5, Hb4. rewrite Hb5, Hb4.
  split; [reflexivity|]. now destruct (CA_controlled (snd ev)).
Qed.

(** The loop of [deserialize] on the descriptions of a group of events
    whose ids are above the ids already in the map. *)
Lemma get_events_group : forall (g : EventMap Time) (fuel : nat)
    (evs : EventMap Time) (lo : Z),
  (List.length (concat (map event_description g)) <= fuel)%nat ->
  ascending lo (map fst g) ->
  Forall (fun kv => fst kv <= lo) evs ->
  Forall event_ok g ->
  exists decoded : EventMap Time,
    get_events fuel (concat (map event_description g)) evs = evs ++ decoded
    /\ map read_flags decoded = map written_flags g.
Proof.
  induction g as [|ev g IH]; intros fuel evs lo Hfuel Hasc Hevs Hok.
  - exists []. rewrite app_nil_r. cbn [map concat].
    split; [|reflexivity]. destruct fuel; reflexivity.
  - cbn [map concat] in *. destruct Hasc as [Hlt Hasc].
    inversion Hok as [|? ? Hev Hg]; subst.
    destruct fuel as [|fuel].
    { pose proof (event_description_size ev) as Hsz.
      pose proof (binarySize_nonneg (descs (snd ev))).
      rewrite length_app in Hfuel. unfold Bytes.size in Hsz. lia. }
    destruct (get_events_one fuel ev (concat (map event_description g)) evs Hev)
      as (e' & Hstep & Hrs & Hca).
    rewrite Hstep.
    rewrite events_set_append
      by (eapply Forall_impl; [|exact Hevs]; cbn beta; intros; lia).
    destruct (IH fuel (evs ++ [(fst ev, e')]) (fst ev)) as (decoded & Hrun & Hflags).
    + pose proof (event_description_size ev) as Hsz.
      pose proof (binarySize_nonneg (descs (snd ev))).
      rewrite length_app in Hfuel. unfold Bytes.size in Hsz. lia.
    + exact Hasc.
    + apply Forall_app. split.
      * eapply Forall_impl; [|exact Hevs]. cbn beta. intros. lia.
      * constructor; [cbn; lia|constructor].
    + exact Hg.
    + exists ((fst ev, e') :: decoded). split.
      * rewrite Hrun, <- app_assoc. reflexivity.
      * cbn [map]. rewrite Hflags. f_equal.
        unfold read_flags, written_flags. cbn [fst snd]. now rewrite Hrs, Hca.
Qed.

(** The loop of [deserialize] on sections that hold whole events. *)
Lemma get_sections_groups : forall (groups : list (EventMap Time))
    (sections : list Section) (acc : EIT.t Time) (lo : Z),
  map sect_payload sections = map whole_events groups ->
  Forall (fun s => sect_tableId s = _table_id acc) sections ->
  ascending lo (map fst (concat groups)) ->
  Forall (fun kv => fst kv <= lo) (events acc) ->
  Forall event_ok (concat groups) ->
  exists acc' decoded,
    get_sections acc sections = (true, acc')
    /\ events acc' = events acc ++ decoded
    /\ map read_flags decoded = map written_flags (concat groups).
Proof.
  induction groups as [|g groups IH]; intros sections acc lo Hpay Htid Hasc Hlo Hok.
  - destruct sections; [|discriminate]. exists acc, [].
    rewrite app_nil_r. repeat split; reflexivity.
  - destruct sections as [|sect sections]; [discriminate|].
    cbn [map] in Hpay. injection Hpay as Hsect Hpay.
    inversion Htid as [|? ? Hid Htid']; subst.
    cbn [concat] in Hasc, Hok. rewrite map_app in Hasc.
    apply ascending_app in Hasc. destruct Hasc as [Hasc1 Hasc2].
    apply Forall_app in Hok. destruct Hok as [Hok1 Hok2].
    cbn [EIT.get_sections]. rewrite Hid, Z.eqb_refl. cbn [negb].
    rewrite Hsect.
    replace (Bytes.size (whole_events g) <? 6) with false
      by (symmetry; apply Z.ltb_ge; rewrite whole_events_size;
          pose proof (BytesFacts.size_nonneg (concat (map event_description g))); lia).
    change (skipn 6 (whole_events g)) with (concat (map event_description g)).
    cbn [events _is_valid _table_id version is_current service_id].
    destruct (get_events_group g (List.length (whole_events g)) (events acc) lo)
      as (decoded1 & Hrun1 & Hflags1); try assumption.
    { unfold EIT.whole_events. rewrite length_app. lia. }
    rewrite Hrun1.
    destruct (ascending_last _ _ Hasc1) as [Hle Hall].
    match goal with |- context [EIT.get_sections _ _ _ ?a sections] => set (acc1 := a) end.
    destruct (IH sections acc1 (last (map fst g) lo)) as (acc' & decoded2 & Hrun2 & Hev2 & Hflags2).
    + exact Hpay.
    + exact Htid'.
    + exact Hasc2.
    + subst acc1. cbn [events]. apply Forall_app. split.
      * eapply Forall_impl; [|exact Hlo]. cbn beta. intros. lia.
      * assert (Hkeys : map fst decoded1 = map fst g).
        { apply (f_equal (map (fun x => fst (fst x)))) in Hflags1.
          rewrite !map_map in Hflags1. exact Hflags1. }
        apply Forall_forall. intros kv Hin.
        rewrite Forall_forall in Hall. apply Hall.
        rewrite <- Hkeys. now apply in_map.
    + exact Hok2.
    + exists acc', (decoded1 ++ decoded2). split; [exact Hrun2|]. split.
      * rewrite Hev2. subst acc1. cbn [events]. now rewrite app_assoc.
      * cbn [concat]. rewrite !map_app, Hflags1, Hflags2. reflexivity.
Qed.

Lemma land_255_byte (a : Z) : 0 <= Z.land a 255 < 256.
Proof.
  change 255 with (Z.ones 8). rewrite Z.land_ones by lia.
  apply Z.mod_pos_bound. reflexivity.
Qed.

(** Whatever the room and the first descriptor, the loop written for an
    event starts with a byte that holds the running status and the CA
    mode in its four upper bits. *)
Lemma event_loop_bytes_flags (event : Event Time) (size : Z) (start_index : nat) :
  0 <= running_status event < 256 ->
  exists flags lo body,
    fst (fst (event_loop_bytes event size start_index)) = flags :: lo :: body
    /\ Z.shiftr flags 5 = Z.land (running_status event) 0x07
    /\ Z.land (Z.shiftr flags 4) 0x01 = (if CA_controlled event then 1 else 0).
Proof.
  intros Hrs. unfold event_loop_bytes, lengthSerialize.
  destruct (DescriptorListCodec.serialize (descs event) (size - 2) start_index)
    as [[bytes size'] next].
  unfold PutUInt16. cbn [app fst].
  eexists. eexists. eexists. split; [reflexivity|].
  unfold set_flags.
  destruct (flags_byte_bits _ _ (CA_controlled event)
              (land_255_byte (Z.shiftr (uint16 (Z.lor (Bytes.size bytes) 0xF000)) 8)) Hrs)
    as (_ & H5 & _ & H4 & _).
  split; assumption.
Qed.

Lemma ascending_check : forall (keys : list Z) (lo : Z),
  (fix check (lo : Z) (keys : list Z) : bool :=
     match keys with
     | [] => true
     | k :: rest => (lo <? k) && check k rest
     end) lo keys = true ->
  ascending lo keys.
Proof using Type.
  induction keys as [|k keys IH]; intros lo H; [exact I|].
  apply andb_true_iff in H. destruct H as [Hlt Hr].
  split; [now apply Z.ltb_lt|now apply IH].
Qed.

Lemma event_ok_check (evs : EventMap Time) :
  forallb (fun ev => (0 <=? fst ev) && (fst ev <? 65536)
                     && (0 <=? running_status (snd ev))
                     && (running_status (snd ev) <? 256)
                     && (binarySize (descs (snd ev)) <? 4096)) evs = true ->
  Forall event_ok evs.
Proof using Time.
  intros H. rewrite forallb_forall in H. apply Forall_forall. intros ev Hin.
  specialize (H ev Hin).
  rewrite !andb_true_iff, !Z.leb_le, !Z.ltb_lt in H.
  destruct H as [[[[H1 H2] H3] H4] H5].
  unfold event_ok. repeat split; assumption.
Qed.

(** The bytes that one turn of the loop of [serialize] appends for an event
    have the running status and the CA mode in the four upper bits of the
    byte at offset 10, the first byte of the length of the descriptor
    loop. *)
Lemma chunk_flags (event_id : Z) (event : Event Time) (size : Z) (start_index : nat) :
  0 <= running_status event < 256 ->
  Z.shiftr (at_ (event_fixed event_id event
                 ++ fst (fst (event_loop_bytes event size start_index))) 10) 5
  = Z.land (running_status event) 0x07
  /\ Z.land (Z.shiftr (at_ (event_fixed event_id event
                            ++ fst (fst (event_loop_bytes event size start_index))) 10) 4)
       0x01
     = (if CA_controlled event then 1 else 0).
Proof.
  intros Hrs.
  destruct (event_loop_bytes_flags event size start_index Hrs)
    as (flags & lo & body & -> & H5 & H4).
  assert (Hat : at_ (event_fixed event_id event ++ flags :: lo :: body) 10 = flags).
  { unfold at_. rewrite app_nth2.
    - pose proof (event_fixed_size event_id event) as Hs. unfold Bytes.size in Hs.
      replace (10 - List.length (event_fixed event_id event))%nat with O by lia.
      reflexivity.
    - pose proof (event_fixed_size event_id event) as Hs. unfold Bytes.size in Hs. lia. }
  rewrite Hat. split; assumption.
Qed.

(** One turn of the loop of [deserialize] reads the same bits of the byte
    at offset 10 into the event named by the first two bytes. *)
Lemma get_events_flags (fuel : nat) (bytes : ByteBlock) (evs : EventMap Time) :
  12 <= Bytes.size bytes ->
  exists (e' : Event Time) (rest : ByteBlock),
    get_events (S fuel) bytes evs
    = get_events fuel rest (events_set evs (GetUInt16 bytes) e')
    /\ running_status e' = Z.land (Z.shiftr (at_ bytes 10) 5) 0x07
    /\ CA_controlled e' = negb (Z.land (Z.shiftr (at_ bytes 10) 4) 0x01 =? 0).
Proof.
  intros Hsize. cbn [EIT.get_events].
  replace (Bytes.size bytes >=? 12) with true by (symmetry; apply Z.geb_le; lia).
  eexists. eexists. split; [reflexivity|]. split; reflexivity.
Qed.

(** C6.  In the bytes that [serialize] writes for an event, in every section
    where it writes some, the four upper bits of the 16-bit length of the
    descriptor loop (offset 10) hold the running status (three bits) and
    the CA mode (one bit) of the event; [deserialize] reads these four
    bits of every event description into the running status and the CA
    mode of the event.  When the table is serialised with every event in
    one section and deserialised, every event gets back the three
    low-order bits of its running status and its CA mode. *)
Theorem running_status_and_CA_in_length_bits (other : EIT.t Time) :
  (forall (event_id : Z) (event : Event Time) (size : Z) (start_index : nat),
     0 <= running_status event < 256 ->
     Z.shiftr (at_ (event_fixed event_id event
                    ++ fst (fst (event_loop_bytes event size start_index))) 10) 5
     = Z.land (running_status event) 0x07
     /\ Z.land (Z.shiftr (at_ (event_fixed event_id event
                               ++ fst (fst (event_loop_bytes event size start_index))) 10) 4)
          0x01
        = (if CA_controlled event then 1 else 0))
  /\ (forall (fuel : nat) (bytes : ByteBlock) (evs : EventMap Time),
        12 <= Bytes.size bytes ->
        exists (e' : Event Time) (rest : ByteBlock),
          get_events (S fuel) bytes evs
          = get_events fuel rest (events_set evs (GetUInt16 bytes) e')
          /\ running_status e' = Z.land (Z.shiftr (at_ bytes 10) 5) 0x07
          /\ CA_controlled e' = negb (Z.land (Z.shiftr (at_ bytes 10) 4) 0x01 =? 0))
  /\ (_is_valid self = true ->
      all_fit (events self) ->
      ascending (-1) (map fst (events self)) ->
      Forall event_ok (events self) ->
      TID_EIT_MIN <= _table_id self <= TID_EIT_MAX ->
      exists sections,
        serialize self = Some sections
        /\ _is_valid (deserialize other (mkTable true (_table_id self) sections)) = true
        /\ map read_flags
             (events (deserialize other (mkTable true (_table_id self) sections)))
           = map written_flags (events self)).
Proof.
  split; [exact chunk_flags|]. split; [exact get_events_flags|].
  intros Hvalid Hfit Hasc Hok Htid.
  destruct (serialize_packs Hvalid Hfit)
    as (groups & sections & Hser & Hcat & Hpay & Hids & _).
  exists sections. split; [exact Hser|].
  unfold EIT.deserialize. cbn [table_isValid table_tableId table_sections negb].
  replace ((_table_id self <? TID_EIT_MIN) || (_table_id self >? TID_EIT_MAX))
    with false
    by (symmetry; apply orb_false_iff; split;
        [apply Z.ltb_ge; lia|rewrite Z.gtb_ltb; apply Z.ltb_ge; lia]).
  destruct (get_sections_groups groups sections
              (mk false (_table_id self) (version other) (is_current other)
                 0 0 0 0 (_table_id other) []) (-1))
    as (acc' & decoded & Hrun & Hev & Hflags).
  - exact Hpay.
  - exact Hids.
  - rewrite Hcat. exact Hasc.
  - constructor.
  - rewrite Hcat. exact Hok.
  - rewrite Hrun. cbn [_is_valid events]. split; [reflexivity|].
    rewrite Hev. cbn [events app]. rewrite Hflags, Hcat. reflexivity.
Qed.

End Packing.


(** The 120 events of 92 bytes each are sent in 12 sections. *)
Lemma eit_120_sections :
  option_map (@List.length Section)
    (serialize EITScenario.EncodeMJD EITScenario.EncodeBCD
       EITScenario.MAX_PSI_LONG_SECTION_PAYLOAD_SIZE EITScenario.eit_120)
  = Some 12%nat.
Proof. vm_compute. reflexivity. Qed.

(** The table of 120 events goes through [serialize] and [deserialize]
    with the running status and the CA mode of every event unchanged. *)
Lemma running_status_and_CA_in_length_bits_witness :
  exists sections,
    serialize EITScenario.EncodeMJD EITScenario.EncodeBCD
      EITScenario.MAX_PSI_LONG_SECTION_PAYLOAD_SIZE EITScenario.eit_120 = Some sections
    /\ _is_valid
         (deserialize 0 EITScenario.DecodeMJD EITScenario.DecodeBCD
            EITScenario.TID_EIT_MIN EITScenario.TID_EIT_MAX
            (mk false 0x4E 0 false 0 0 0 0 0 [])
            (mkTable true (_table_id EITScenario.eit_120) sections)) = true
    /\ map read_flags
         (events
            (deserialize 0 EITScenario.DecodeMJD EITScenario.DecodeBCD
               EITScenario.TID_EIT_MIN EITScenario.TID_EIT_MAX
               (mk false 0x4E 0 false 0 0 0 0 0 [])
               (mkTable true (_table_id EITScenario.eit_120) sections)))
       = map written_flags (events EITScenario.eit_120).
Proof.
  apply (proj2 (proj2 (running_status_and_CA_in_length_bits Z EITScenario.EncodeMJD
                  EITScenario.EncodeBCD EITScenario.MAX_PSI_LONG_SECTION_PAYLOAD_SIZE
                  EITScenario.eit_120 0 EITScenario.DecodeMJD EITScenario.DecodeBCD
                  EITScenario.TID_EIT_MIN EITScenario.TID_EIT_MAX
                  (mk false 0x4E 0 false 0 0 0 0 0 [])))).
  - reflexivity.
  - apply all_fit_forallb. vm_compute. reflexivity.
  - apply ascending_check. vm_compute. reflexivity.
  - apply event_ok_check. vm_compute. reflexivity.
  - vm_compute. split; discriminate.
Defined.

(** An event whose descriptor loop exceeds a section: the test made at the
    beginning of the event closes the current section, here with its 6
    fixed bytes only, then the event is sent in two sections, three
    descriptors in the first one and two in the second one, with the 12
    bytes of the event at the head of each.  It is read back with its
    running status and its CA mode. *)
Lemma eit_long_event_sections :
  option_map (map (fun s => Bytes.size (sect_payload s)))
    (serialize EITScenario.EncodeMJD EITScenario.EncodeBCD
       EITScenario.MAX_PSI_LONG_SECTION_PAYLOAD_SIZE EITScenario.eit_long_event)
  = Some [6; 6 + 12 + 3 * 257; 6 + 12 + 2 * 257].
Proof. vm_compute. reflexivity. Qed.

Lemma eit_long_event_read_back :
  option_map
    (fun sections =>
       map read_flags
         (events (deserialize 0 EITScenario.DecodeMJD EITScenario.DecodeBCD
                    EITScenario.TID_EIT_MIN EITScenario.TID_EIT_MAX
                    (mk false 0x4E 0 false 0 0 0 0 0 [])
                    (mkTable true 0x50 sections))))
    (serialize EITScenario.EncodeMJD EITScenario.EncodeBCD
       EITScenario.MAX_PSI_LONG_SECTION_PAYLOAD_SIZE EITScenario.eit_long_event)
  = Some [(7, 4, true)].
Proof. vm_compute. reflexivity. Qed.

End EITFacts.

Module DescriptorListSearchFacts.
Import DescriptorList DescriptorListSearch.

Lemma search_loop_first_match (l : t) (tag p : Z) (check_pds : bool) :
  forall (fuel index : nat),
  (List.length l <= index + fuel)%nat ->
  (index <= search_loop fuel l tag p check_pds index)%nat
  /\ (search_loop fuel l tag p check_pds index <= Nat.max index (List.length l))%nat
  /\ ((search_loop fuel l tag p check_pds index < List.length l)%nat ->
      (Descriptor.tag (desc (nth (search_loop fuel l tag p check_pds index) l dummy)) =? tag)
      && (negb check_pds
          || (pds (nth (search_loop fuel l tag p check_pds index) l dummy) =? p)) = true)
  /\ (forall i, (index <= i < search_loop fuel l tag p check_pds index)%nat ->
      (Descriptor.tag (desc (nth i l dummy)) =? tag)
      && (negb check_pds || (pds (nth i l dummy) =? p)) = false).
Proof.
  induction fuel as [|fuel IH]; intros index Hfuel; cbn [search_loop].
  - repeat split; try lia.
  - destruct (index <? List.length l)%nat eqn:Elt; cbn [andb].
    + apply Nat.ltb_lt in Elt.
      destruct (Descriptor.tag (desc (nth index l dummy)) =? tag) eqn:Etag; cbn [negb orb].
      * destruct check_pds; cbn [andb negb orb].
        -- destruct (pds (nth index l dummy) =? p) eqn:Epds; cbn [negb].
           ++ split; [lia|]. split; [lia|]. split; [|intros; lia].
              intros _. now rewrite Etag, Epds.
           ++ destruct (IH (S index)) as (H1 & H2 & H3 & H4); [lia|].
              split; [lia|]. split; [lia|]. split; [exact H3|].
              intros i Hi. destruct (Nat.eq_dec i index) as [->|Hne].
              ** now rewrite Etag, Epds.
              ** apply H4. lia.
        -- split; [lia|]. split; [lia|]. split; [|intros; lia].
           intros _. now rewrite Etag.
      * destruct (IH (S index)) as (H1 & H2 & H3 & H4); [lia|].
        split; [lia|]. split; [lia|]. split; [exact H3|].
        intros i Hi. destruct (Nat.eq_dec i index) as [->|Hne].
        -- now rewrite Etag.
        -- apply H4. lia.
    + apply Nat.ltb_ge in Elt. repeat split; try lia.
Qed.

Lemma search_spec (l : t) (tag p : Z) (start_index : nat) :
  (start_index <= search l tag start_index p)%nat
  /\ (search l tag start_index p <= Nat.max start_index (count l))%nat
  /\ ((search l tag start_index p < count l)%nat ->
      selected tag p (nth (search l tag start_index p) l dummy) = true)
  /\ (forall i, (start_index <= i < search l tag start_index p)%nat ->
      selected tag p (nth i l dummy) = false).
Proof.
  unfold search, count, selected.
  apply search_loop_first_match. lia.
Qed.

(** [search] returns the index of the first entry, from [start_index] on,
    that has the requested tag (and, for a private tag searched with a non
    zero specifier, this specifier); it returns [count ()] when there is
    none and the start index itself when it is beyond the end. *)
Theorem search_first_match (l : t) (tag p : Z) (start_index : nat) :
  (start_index <= search l tag start_index p)%nat
  /\ (search l tag start_index p <= Nat.max start_index (count l))%nat
  /\ ((search l tag start_index p < count l)%nat ->
      selected tag p (nth (search l tag start_index p) l dummy) = true)
  /\ (forall i, (start_index <= i < search l tag start_index p)%nat ->
      selected tag p (nth i l dummy) = false).
Proof.
  unfold search, count, selected.
  apply search_loop_first_match. lia.
Qed.


(** *** Removal by tag *)

Lemma nth_middle_dummy (done rest : t) (e : Element) :
  nth (List.length done) (done ++ e :: rest) dummy = e.
Proof. now rewrite nth_middle. Qed.

Lemma erase_middle (done rest : t) (e : Element) :
  erase (List.length done) (done ++ e :: rest) = done ++ rest.
Proof.
  unfold erase.
  rewrite firstn_app, firstn_all, Nat.sub_diag, firstn_O, app_nil_r.
  replace (done ++ e :: rest) with ((done ++ [e]) ++ rest) by (now rewrite <- app_assoc).
  replace (S (List.length done)) with (List.length (done ++ [e]))
    by (rewrite length_app; cbn; lia).
  now rewrite skipn_app, skipn_all, Nat.sub_diag.
Qed.

Lemma removeByTag_loop_filter (tag p : Z) :
  tag <> DID_PRIV_DATA_SPECIF ->
  forall (rest done : t) (removed_count : Z),
  removeByTag_loop (List.length rest) tag p (negb (p =? 0) && (tag >=? 0x80))
    (done ++ rest) (List.length done) removed_count
  = (done ++ filter (fun e => negb (selected tag p e)) rest,
     removed_count + Z.of_nat (List.length (filter (selected tag p) rest))).
Proof.
  intros Htag.
  induction rest as [|e rest IH]; intros done removed_count.
  - cbn. f_equal. lia.
  - cbn [List.length removeByTag_loop filter].
    rewrite nth_middle_dummy.
    fold (selected tag p e).
    unfold selected at 1.
    destruct ((Descriptor.tag (desc e) =? tag)
              && (negb (negb (p =? 0) && (tag >=? 0x80)) || (pds e =? p))) eqn:Esel.
    + assert (Hsel : selected tag p e = true) by exact Esel.
      rewrite Hsel. cbn [negb List.length].
      apply andb_true_iff in Esel. destruct Esel as [Et _]. apply Z.eqb_eq in Et.
      replace (Descriptor.tag (desc e) =? DID_PRIV_DATA_SPECIF) with false
        by (symmetry; apply Z.eqb_neq; congruence).
      cbn [negb]. rewrite erase_middle, IH. f_equal. lia.
    + assert (Hsel : selected tag p e = false) by exact Esel.
      rewrite Hsel. cbn [negb].
      replace (done ++ e :: rest) with ((done ++ [e]) ++ rest) by (now rewrite <- app_assoc).
      replace (S (List.length done)) with (List.length (done ++ [e]))
        by (rewrite length_app; cbn; lia).
      rewrite IH. now rewrite <- app_assoc.
Qed.

(** [removeByTag], for a tag other than the one of the
    private_data_specifier_descriptor, removes exactly the entries that
    [search] would find, keeps the other entries in their order and
    returns the number of entries removed. *)
Theorem removeByTag_removes_selected (l : t) (tag p : Z) :
  tag <> DID_PRIV_DATA_SPECIF ->
  removeByTag l tag p
  = (filter (fun e => negb (selected tag p e)) l,
     Z.of_nat (List.length (filter (selected tag p) l))).
Proof.
  intros Htag. unfold removeByTag.
  exact (removeByTag_loop_filter tag p Htag l [] 0).
Qed.

(** Two descriptors of tag 0x0A are removed around a descriptor of tag
    0x52. *)
Lemma removeByTag_removes_selected_witness :
  let l := run [OpAdd (Descriptor.from_memory [0x0A; 0]);
                OpAdd (Descriptor.from_memory [0x52; 1; 7]);
                OpAdd (Descriptor.from_memory [0x0A; 1; 3])] in
  0x0A <> DID_PRIV_DATA_SPECIF
  /\ removeByTag l 0x0A 0
     = ([mkElement (Descriptor.from_memory [0x52; 1; 7]) 0], 2).
Proof.
  cbv zeta.
  assert (H : 0x0A <> DID_PRIV_DATA_SPECIF) by (unfold DID_PRIV_DATA_SPECIF; lia).
  split; [exact H|].
  rewrite (removeByTag_removes_selected _ 0x0A 0 H). reflexivity.
Defined.


(** *** Removal of a private_data_specifier_descriptor *)

Lemma scan_ahead_not_private : forall (rest : t) (k : nat),
  scan_ahead rest = Some k ->
  filter is_private (firstn k rest) = [] /\ (k <= List.length rest)%nat.
Proof.
  induction rest as [|x r IH]; intros k Hscan.
  - cbn in Hscan. injection Hscan as <-. split; [reflexivity|cbn; lia].
  - cbn [scan_ahead] in Hscan.
    destruct (Descriptor.tag (desc x) >=? 0x80) eqn:Epriv; [discriminate|].
    destruct (Descriptor.tag (desc x) =? DID_PRIV_DATA_SPECIF).
    + injection Hscan as <-. split; [reflexivity|cbn; lia].
    + destruct (scan_ahead r) as [k'|]; [|discriminate].
      injection Hscan as <-. destruct (IH k' eq_refl) as [Hf Hk].
      cbn [firstn filter].
      change (is_private x) with (Descriptor.tag (desc x) >=? 0x80). rewrite Epriv.
      split; [exact Hf|cbn; lia].
Qed.

Lemma filter_private_set_pds (prev : Z) (l : t) :
  filter is_private l = [] -> filter is_private (map (set_pds prev) l) = [].
Proof.
  induction l as [|e l IH]; [reflexivity|].
  cbn [filter map].
  change (is_private (set_pds prev e)) with (is_private e).
  destruct (is_private e); [discriminate|exact IH].
Qed.

(** What [prepareRemovePDS] changes when it accepts: the specifier of
    entries that are not private descriptors. *)
Lemma prepareRemovePDS_keeps (l : t) (it : nat) (l' : t) :
  prepareRemovePDS l it = (true, l') ->
  map desc l' = map desc l /\ filter is_private l' = filter is_private l.
Proof.
  unfold prepareRemovePDS.
  destruct (nth_error l it) as [e|]; [|discriminate].
  destruct (negb _); [discriminate|].
  destruct (scan_ahead (skipn (S it) l)) as [k|] eqn:Es; [|discriminate].
  intros Heq.
  assert (Hl' : l' = firstn (S it) l
                     ++ map (set_pds match it with
                                     | O => 0
                                     | S before => pds (nth before l dummy)
                                     end) (firstn k (skipn (S it) l))
                     ++ skipn (S it + k) l)
    by (injection Heq as Heq'; symmetry; exact Heq').
  clear Heq.
  destruct (scan_ahead_not_private _ _ Es) as [Hnone Hk].
  assert (Hsplit : l = firstn (S it) l ++ firstn k (skipn (S it) l) ++ skipn (S it + k) l).
  { rewrite (Nat.add_comm (S it) k), <- skipn_skipn.
    now rewrite !firstn_skipn. }
  rewrite Hl'. split.
  - transitivity (map desc (firstn (S it) l ++ firstn k (skipn (S it) l)
                            ++ skipn (S it + k) l)); [|now rewrite <- Hsplit].
    rewrite !map_app, map_map. reflexivity.
  - transitivity (filter is_private (firstn (S it) l ++ firstn k (skipn (S it) l)
                                     ++ skipn (S it + k) l)); [|now rewrite <- Hsplit].
    rewrite !filter_app.
    rewrite (filter_private_set_pds _ _ Hnone), Hnone. reflexivity.
Qed.

Lemma filter_erase (f : Element -> bool) : forall (l : t) (n : nat),
  f (nth n l dummy) = false -> filter f (erase n l) = filter f l.
Proof.
  unfold erase.
  induction l as [|e l IH]; intros n Hn.
  - destruct n; reflexivity.
  - destruct n as [|n].
    + cbn [nth] in Hn. cbn [firstn skipn app filter]. now rewrite Hn.
    + cbn [nth] in Hn. cbn [firstn skipn app filter]. rewrite IH by exact Hn.
      reflexivity.
Qed.

Lemma nth_map_desc (l l' : t) (n : nat) :
  map desc l' = map desc l -> desc (nth n l' dummy) = desc (nth n l dummy).
Proof.
  intros H.
  change (desc (nth n l' dummy)) with (desc (nth n l' dummy)).
  rewrite <- (map_nth desc l' dummy n), <- (map_nth desc l dummy n). now rewrite H.
Qed.

Lemma nth_skipn_dummy : forall (l : t) (n i : nat),
  nth i (skipn n l) dummy = nth (n + i) l dummy.
Proof.
  induction l as [|e l IH]; intros n i.
  - rewrite skipn_nil. destruct i, n; reflexivity.
  - destruct n as [|n]; [reflexivity|]. cbn [skipn Nat.add nth]. apply IH.
Qed.

(** The search loop of [prepareRemovePDS] fails when it meets a private
    descriptor before any private_data_specifier_descriptor. *)
Lemma scan_ahead_private : forall (rest : t) (j : nat),
  (j < List.length rest)%nat ->
  is_private (nth j rest dummy) = true ->
  (forall i, (i < j)%nat -> is_pds_descriptor (desc (nth i rest dummy)) = false) ->
  scan_ahead rest = None.
Proof.
  induction rest as [|x r IH]; intros j Hj Hpriv Hbefore; [cbn in Hj; lia|].
  cbn [scan_ahead].
  destruct (Descriptor.tag (desc x) >=? 0x80) eqn:Ex; [reflexivity|].
  destruct j as [|j].
  - cbn [nth] in Hpriv. unfold is_private in Hpriv. congruence.
  - pose proof (Hbefore O ltac:(lia)) as H0. cbn [nth] in H0.
    unfold is_pds_descriptor in H0. rewrite H0.
    rewrite (IH j); [reflexivity| cbn in Hj; lia | exact Hpriv |].
    intros i Hi. apply (Hbefore (S i)). lia.
Qed.

(** [removeByIndex]: an index beyond the end is refused, and so is a
    private_data_specifier_descriptor that is followed by a private
    descriptor with no other private_data_specifier_descriptor in
    between; a refusal leaves the list as it was.  Otherwise the entry at
    [index] is erased and the descriptors of the other entries are kept
    in their order.  When the erased entry is not itself a private
    descriptor, the private descriptors of the list and the specifiers
    they are associated with are unchanged. *)
Theorem removeByIndex_result (l : t) (index : nat) :
  ((List.length l <= index)%nat -> removeByIndex l index = (false, l))
  /\ (is_pds_descriptor (desc (nth index l dummy)) = true ->
      (exists j, (index < j < List.length l)%nat
                 /\ is_private (nth j l dummy) = true
                 /\ forall i, (index < i < j)%nat ->
                      is_pds_descriptor (desc (nth i l dummy)) = false) ->
      removeByIndex l index = (false, l))
  /\ (fst (removeByIndex l index) = false -> snd (removeByIndex l index) = l)
  /\ (fst (removeByIndex l index) = true ->
      (index < List.length l)%nat
      /\ map desc (snd (removeByIndex l index)) = map desc (erase index l)
      /\ (is_private (nth index l dummy) = false ->
          filter is_private (snd (removeByIndex l index)) = filter is_private l)).
Proof.
  unfold removeByIndex.
  destruct (List.length l <=? index)%nat eqn:Elen.
  - apply Nat.leb_le in Elen. cbn [fst snd].
    split; [reflexivity|]. split; [reflexivity|]. split; [reflexivity|discriminate].
  - apply Nat.leb_gt in Elen. split; [lia|].
    destruct (Descriptor.tag (desc (nth index l dummy)) =? DID_PRIV_DATA_SPECIF) eqn:Et.
    + split.
      { intros _ (j & Hj & Hpriv & Hbefore).
        assert (Hscan : scan_ahead (skipn (S index) l) = None).
        { apply (scan_ahead_private _ (j - S index)).
          - rewrite length_skipn. lia.
          - rewrite nth_skipn_dummy. replace (S index + (j - S index))%nat with j by lia.
            exact Hpriv.
          - intros i Hi. rewrite nth_skipn_dummy. apply Hbefore. lia. }
        unfold prepareRemovePDS. rewrite Hscan.
        destruct (nth_error l index); [|reflexivity].
        destruct (negb _); reflexivity. }
      destruct (prepareRemovePDS l index) as [ok l'] eqn:Ep. destruct ok; cbn [fst snd].
      * split; [discriminate|]. intros _. split; [exact Elen|].
        destruct (prepareRemovePDS_keeps _ _ _ Ep) as [Hd Hf].
        split.
        -- unfold erase. rewrite !map_app, <- !firstn_map, <- !skipn_map, Hd.
           reflexivity.
        -- intros Hpriv. rewrite filter_erase; [exact Hf|].
           unfold is_private in *. now rewrite (nth_map_desc l l' index Hd).
      * split; [|discriminate]. intros _.
        exact (DescriptorListFacts.prepareRemovePDS_false _ _ _ Ep).
    + cbn [fst snd]. split.
      { intros Hpds. unfold is_pds_descriptor in Hpds. congruence. }
      split; [discriminate|]. intros _. split; [exact Elen|].
      split; [reflexivity|]. intros Hpriv. now apply filter_erase.
Qed.

(** A private_data_specifier_descriptor followed by a private descriptor
    stays in the list. *)
Lemma removeByIndex_result_witness :
  let l := run [OpAdd (PrivateDataSpecifierDescriptor 5);
                OpAdd (Descriptor.from_memory [0x83; 1; 7])] in
  removeByIndex l 0 = (false, l).
Proof.
  cbv zeta.
  apply (proj1 (proj2 (removeByIndex_result _ 0))); [reflexivity|].
  exists 1%nat. split; [cbn; lia|]. split; [reflexivity|]. intros i Hi. lia.
Defined.


Lemma removeByTag_loop_keeps_private (tag p : Z) (check_pds : bool) :
  tag < 0x80 ->
  forall (remaining : nat) (l : t) (it : nat) (removed_count : Z),
  filter is_private (fst (removeByTag_loop remaining tag p check_pds l it removed_count))
  = filter is_private l.
Proof.
  intros Htag.
  induction remaining as [|r IH]; intros l it removed_count; cbn [removeByTag_loop];
    [reflexivity|].
  destruct (Descriptor.tag (desc (nth it l dummy)) =? tag) eqn:Et; cbn [andb];
    [|apply IH].
  destruct (negb check_pds || (pds (nth it l dummy) =? p)); [|apply IH].
  apply Z.eqb_eq in Et.
  assert (Hnp : is_private (nth it l dummy) = false).
  { unfold is_private. rewrite Z.geb_leb. apply Z.leb_gt. lia. }
  destruct (negb (Descriptor.tag (desc (nth it l dummy)) =? DID_PRIV_DATA_SPECIF)).
  - rewrite IH. now apply filter_erase.
  - destruct (prepareRemovePDS l it) as [ok l'] eqn:Ep. destruct ok.
    + rewrite IH. destruct (prepareRemovePDS_keeps _ _ _ Ep) as [Hd Hf].
      rewrite filter_erase; [exact Hf|].
      unfold is_private in *. now rewrite (nth_map_desc l l' it Hd).
    + rewrite IH. now rewrite (DescriptorListFacts.prepareRemovePDS_false _ _ _ Ep).
Qed.

(** Removing the descriptors of a tag that is not private, the
    private_data_specifier_descriptors in particular, leaves every private
    descriptor in the list, in the same order and associated with the
    same specifier. *)
Theorem removeByTag_keeps_private (l : t) (tag p : Z) :
  tag < 0x80 ->
  filter is_private (fst (removeByTag l tag p)) = filter is_private l.
Proof.
  intros Htag. unfold removeByTag. now apply removeByTag_loop_keeps_private.
Qed.

(** Of two private_data_specifier_descriptors, the one that no private
    descriptor depends on is removed; the private descriptor keeps the
    specifier 9. *)
Lemma removeByTag_keeps_private_witness :
  let l := run [OpAdd (PrivateDataSpecifierDescriptor 5);
                OpAdd (Descriptor.from_memory [0x48; 0]);
                OpAdd (PrivateDataSpecifierDescriptor 9);
                OpAdd (Descriptor.from_memory [0x83; 1; 7])] in
  DID_PRIV_DATA_SPECIF < 0x80
  /\ snd (removeByTag l DID_PRIV_DATA_SPECIF 0) = 1
  /\ filter is_private (fst (removeByTag l DID_PRIV_DATA_SPECIF 0))
     = [mkElement (Descriptor.from_memory [0x83; 1; 7]) 9].
Proof.
  cbv zeta.
  assert (H : DID_PRIV_DATA_SPECIF < 0x80) by (unfold DID_PRIV_DATA_SPECIF; lia).
  split; [exact H|]. split; [reflexivity|].
  rewrite (removeByTag_keeps_private _ DID_PRIV_DATA_SPECIF 0 H). reflexivity.
Defined.

(** *** Removal of the private descriptors without specifier *)

Lemma removeInvalid_loop_keeps : forall (fuel : nat) (l : t) (n : nat) (count : Z),
  filter (fun e => negb (invalid_private e)) (fst (removeInvalid_loop fuel l n count))
  = filter (fun e => negb (invalid_private e)) l.
Proof.
  induction fuel as [|f IH]; intros l n count; cbn [removeInvalid_loop]; [reflexivity|].
  destruct (n <? List.length l)%nat; [|reflexivity].
  destruct (invalid_private (nth n l dummy)) eqn:Ei; rewrite IH; [|reflexivity].
  apply filter_erase. now rewrite Ei.
Qed.

Lemma removeInvalid_loop_all : forall (fuel : nat) (rest done : t) (count : Z),
  (List.length rest <= fuel)%nat ->
  no_adjacent_invalid rest ->
  fst (removeInvalid_loop fuel (done ++ rest) (List.length done) count)
  = done ++ filter (fun e => negb (invalid_private e)) rest.
Proof.
  induction fuel as [|f IH]; intros rest done count Hfuel Hadj.
  - destruct rest; [|cbn in Hfuel; lia]. reflexivity.
  - cbn [removeInvalid_loop].
    destruct rest as [|e rest].
    + rewrite app_nil_r, Nat.ltb_irrefl. cbn. now rewrite app_nil_r.
    + replace (List.length done <? List.length (done ++ e :: rest))%nat with true
        by (symmetry; apply Nat.ltb_lt; rewrite length_app; cbn; lia).
      rewrite nth_middle_dummy. cbn [filter].
      destruct (invalid_private e) eqn:Ei; cbn [negb].
      * rewrite erase_middle.
        destruct rest as [|e' rest].
        { rewrite app_nil_r. cbn [filter].
          destruct f; cbn [removeInvalid_loop fst]; [now rewrite app_nil_r|].
          replace (S (List.length done) <? List.length done)%nat with false
            by (symmetry; apply Nat.ltb_ge; lia).
          cbn [fst]. now rewrite app_nil_r. }
        cbn [no_adjacent_invalid] in Hadj. destruct Hadj as [Hpair Hadj].
        rewrite Ei in Hpair. cbn [andb] in Hpair.
        cbn [filter]. rewrite Hpair. cbn [negb].
        replace (done ++ e' :: rest) with ((done ++ [e']) ++ rest)
          by (now rewrite <- app_assoc).
        replace (S (List.length done)) with (List.length (done ++ [e']))
          by (rewrite length_app; cbn; lia).
        rewrite IH; [now rewrite <- app_assoc| cbn in Hfuel; lia |].
        destruct rest as [|e'' rest]; [exact I|].
        cbn [no_adjacent_invalid] in Hadj. tauto.
      * replace (done ++ e :: rest) with ((done ++ [e]) ++ rest)
          by (now rewrite <- app_assoc).
        replace (S (List.length done)) with (List.length (done ++ [e]))
          by (rewrite length_app; cbn; lia).
        rewrite IH; [now rewrite <- app_assoc| cbn in Hfuel; lia |].
        destruct rest as [|e' rest]; [exact I|].
        cbn [no_adjacent_invalid] in Hadj. tauto.
Qed.

(** [removeInvalidPrivateDescriptors] removes nothing but valid private
    descriptors associated with the specifier 0, keeps the other entries
    in their order, and returns the number of entries that it removed.
    When no two such descriptors are neighbours in the list, it removes
    all of them. *)
Theorem removeInvalidPrivateDescriptors_result (l : t) :
  filter (fun e => negb (invalid_private e)) (fst (removeInvalidPrivateDescriptors l))
  = filter (fun e => negb (invalid_private e)) l
  /\ snd (removeInvalidPrivateDescriptors l)
     = Z.of_nat (List.length l)
       - Z.of_nat (List.length (fst (removeInvalidPrivateDescriptors l)))
  /\ (no_adjacent_invalid l ->
      fst (removeInvalidPrivateDescriptors l)
      = filter (fun e => negb (invalid_private e)) l).
Proof.
  unfold removeInvalidPrivateDescriptors. split; [apply removeInvalid_loop_keeps|].
  split.
  - pose proof (DescriptorListFacts.removeInvalid_loop_count (List.length l) l O 0). lia.
  - intros Hadj. exact (removeInvalid_loop_all (List.length l) l [] 0 (Nat.le_refl _) Hadj).
Qed.

(** Two private descriptors without specifier, separated by another
    descriptor, are both removed. *)
Lemma removeInvalidPrivateDescriptors_result_witness :
  let l := run [OpAdd (Descriptor.from_memory [0x80; 0]);
                OpAdd (Descriptor.from_memory [0x48; 0]);
                OpAdd (Descriptor.from_memory [0x81; 0])] in
  no_adjacent_invalid l
  /\ fst (removeInvalidPrivateDescriptors l)
     = [mkElement (Descriptor.from_memory [0x48; 0]) 0].
Proof.
  cbv zeta.
  assert (H : no_adjacent_invalid
                (run [OpAdd (Descriptor.from_memory [0x80; 0]);
                      OpAdd (Descriptor.from_memory [0x48; 0]);
                      OpAdd (Descriptor.from_memory [0x81; 0])])).
  { cbn. repeat split; reflexivity. }
  split; [exact H|].
  rewrite (proj2 (proj2 (removeInvalidPrivateDescriptors_result _)) H). reflexivity.
Defined.

End DescriptorListSearchFacts.

Module BigEndianFacts.

Lemma testbit_255 (m : Z) : Z.testbit 255 m = (0 <=? m) && (m <? 8).
Proof. change 255 with (Z.ones 8). apply Z.testbit_ones. lia. Qed.

Lemma testbit_u32_high (v n : Z) : 0 <= v < 4294967296 -> 32 <= n -> Z.testbit v n = false.
Proof.
  intros Hv Hn. destruct (Z.eq_dec v 0) as [->|Hnz]; [apply Z.bits_0|].
  apply Z.bits_above_log2; [lia|].
  assert (Z.log2 v < 32); [|lia].
  apply Z.log2_lt_pow2; [lia|]. change (2 ^ 32) with 4294967296. lia.
Qed.

(** Four bytes written most significant first are read back as the
    value. *)
Lemma GetUInt32_PutUInt32 (v : Z) (rest : ByteBlock) :
  0 <= v < 4294967296 -> GetUInt32 (PutUInt32 v ++ rest) = v.
Proof.
  intros Hv. unfold GetUInt32, PutUInt32, at_. cbn [app nth].
  apply Z.bits_inj'. intros n Hn.
  rewrite !Z.lor_spec, !Z.shiftl_spec, !Z.land_spec by lia.
  rewrite !testbit_255.
  destruct (Z_lt_dec n 8); [|destruct (Z_lt_dec n 16); [|destruct (Z_lt_dec n 24);
    [|destruct (Z_lt_dec n 32)]]].
  - rewrite (Z.testbit_neg_r _ (n - 24)), (Z.testbit_neg_r _ (n - 16)),
      (Z.testbit_neg_r _ (n - 8)) by lia.
    replace (0 <=? n) with true by (symmetry; apply Z.leb_le; lia).
    replace (n <? 8) with true by (symmetry; apply Z.ltb_lt; lia).
    cbn [andb orb]. now rewrite andb_true_r.
  - rewrite (Z.testbit_neg_r _ (n - 24)), (Z.testbit_neg_r _ (n - 16)) by lia.
    rewrite Z.shiftr_spec by lia.
    replace (n - 8 + 8) with n by lia.
    replace (0 <=? n - 8) with true by (symmetry; apply Z.leb_le; lia).
    replace (n - 8 <? 8) with true by (symmetry; apply Z.ltb_lt; lia).
    replace (n <? 8) with false by (symmetry; apply Z.ltb_ge; lia).
    cbn [andb orb]. now rewrite !andb_true_r, !andb_false_r, orb_false_r.
  - rewrite (Z.testbit_neg_r _ (n - 24)) by lia.
    rewrite !Z.shiftr_spec by lia.
    replace (n - 16 + 16) with n by lia.
    replace (0 <=? n - 16) with true by (symmetry; apply Z.leb_le; lia).
    replace (n - 16 <? 8) with true by (symmetry; apply Z.ltb_lt; lia).
    replace (n - 8 <? 8) with false by (symmetry; apply Z.ltb_ge; lia).
    replace (n <? 8) with false by (symmetry; apply Z.ltb_ge; lia).
    cbn [andb orb]. now rewrite !andb_true_r, !andb_false_r, !orb_false_r.
  - rewrite !Z.shiftr_spec by lia.
    replace (n - 24 + 24) with n by lia.
    replace (0 <=? n - 24) with true by (symmetry; apply Z.leb_le; lia).
    replace (n - 24 <? 8) with true by (symmetry; apply Z.ltb_lt; lia).
    replace (n - 16 <? 8) with false by (symmetry; apply Z.ltb_ge; lia).
    replace (n - 8 <? 8) with false by (symmetry; apply Z.ltb_ge; lia).
    replace (n <? 8) with false by (symmetry; apply Z.ltb_ge; lia).
    cbn [andb orb]. now rewrite !andb_true_r, !andb_false_r, !orb_false_r.
  - rewrite (testbit_u32_high v n Hv) by lia.
    replace (n - 24 <? 8) with false by (symmetry; apply Z.ltb_ge; lia).
    replace (n - 16 <? 8) with false by (symmetry; apply Z.ltb_ge; lia).
    replace (n - 8 <? 8) with false by (symmetry; apply Z.ltb_ge; lia).
    replace (n <? 8) with false by (symmetry; apply Z.ltb_ge; lia).
    now rewrite !andb_false_r.
Qed.

End BigEndianFacts.

Module PrivateDataSpecifierDescriptorFacts.
Import PrivateDataSpecifierDescriptor.

Lemma serialize_content (self : t) :
  serialize self = Descriptor.mk (Some ([_tag; 4] ++ PutUInt32 (pds self))).
Proof. reflexivity. Qed.

(** Serialising a private_data_specifier_descriptor always gives a valid
    binary descriptor of six bytes, and deserialising this descriptor
    gives a valid object with the same specifier, whatever the object
    held before. *)
Theorem pds_deserialize_serialize (self other : t) :
  0 <= pds self < 4294967296 ->
  Descriptor.isValid (serialize self) = true
  /\ Descriptor.size (serialize self) = 6
  /\ deserialize other (serialize self) = mk true (pds self).
Proof.
  intros Hp. rewrite serialize_content.
  split; [reflexivity|]. split; [reflexivity|].
  unfold deserialize, Descriptor.isValid, Descriptor.tag, Descriptor.payloadSize,
    Descriptor.payload, Descriptor.content.
  cbn [Descriptor.data app skipn at_ nth].
  rewrite Z.eqb_refl. cbn [andb].
  change (Bytes.size (PutUInt32 (pds self)) =? 4) with true. cbv iota.
  f_equal. rewrite <- (app_nil_r (PutUInt32 (pds self))).
  now apply BigEndianFacts.GetUInt32_PutUInt32.
Qed.

Lemma pds_deserialize_serialize_witness :
  0 <= pds (init 0x00000028) < 4294967296
  /\ deserialize (mk false 0) (serialize (init 0x00000028)) = mk true 0x28.
Proof.
  assert (H : 0 <= pds (init 0x00000028) < 4294967296) by (cbn; lia).
  split; [exact H|].
  exact (proj2 (proj2 (pds_deserialize_serialize (init 0x00000028) (mk false 0) H))).
Defined.

End PrivateDataSpecifierDescriptorFacts.

Module DescriptorListParsingFacts.
Import DescriptorList DescriptorListSearch DescriptorListCodec DescriptorListCodecFacts.

(** *** Serialisation *)

Lemma all_bytes_cons (e : Element) (l : t) :
  all_bytes (e :: l) = Descriptor.content (desc e) ++ all_bytes l.
Proof. reflexivity. Qed.

Lemma serialize_from_whole : forall (l : t) (size : Z) (i : nat),
  exists k : nat,
    (k <= List.length l)%nat
    /\ snd (serialize_from l size i) = (i + k)%nat
    /\ fst (fst (serialize_from l size i)) = all_bytes (firstn k l)
    /\ snd (fst (serialize_from l size i)) = size - binarySize (firstn k l)
    /\ ((k < List.length l)%nat ->
        size - binarySize (firstn k l) < Descriptor.size (desc (nth k l dummy))).
Proof.
  induction l as [|e l IH]; intros size i.
  - exists O. cbn. unfold binarySize. cbn. repeat split; try lia.
  - cbn [serialize_from].
    destruct (Descriptor.size (desc e) <=? size) eqn:Efit.
    + destruct (IH (size - Descriptor.size (desc e)) (S i)) as (k & Hk & Hn & Hb & Hs & Hstop).
      destruct (serialize_from l (size - Descriptor.size (desc e)) (S i))
        as [[bytes size'] next].
      cbn [fst snd] in *. exists (S k). cbn [firstn List.length nth].
      rewrite binarySize_cons, all_bytes_cons.
      split; [lia|]. split; [lia|]. split; [now rewrite Hb|]. split; [lia|].
      intros Hlt. specialize (Hstop ltac:(lia)). lia.
    + apply Z.leb_gt in Efit. exists O. cbn [fst snd firstn nth List.length].
      unfold binarySize. cbn [fold_left].
      split; [lia|]. split; [lia|]. split; [reflexivity|]. split; [lia|].
      intros _. lia.
Qed.


(** [serialize (addr, size, start)] writes whole descriptors only: the
    bytes are the descriptors of the entries from [start] to the returned
    index, in their order; the space left is reduced by what was written;
    either the returned index is the end of the list, or the descriptor at
    this index is larger than the space left. *)
Theorem serialize_whole_descriptors (l : t) (size : Z) (start : nat) :
  exists k : nat,
    (start + k <= Nat.max start (count l))%nat
    /\ snd (serialize l size start) = (start + k)%nat
    /\ fst (fst (serialize l size start)) = all_bytes (firstn k (skipn start l))
    /\ snd (fst (serialize l size start))
       = size - Bytes.size (fst (fst (serialize l size start)))
    /\ ((start + k < count l)%nat ->
        snd (fst (serialize l size start))
        < Descriptor.size (desc (nth (start + k) l dummy))).
Proof.
  unfold serialize, count.
  destruct (serialize_from_whole (skipn start l) size start)
    as (k & Hk & Hn & Hb & Hs & Hstop).
  exists k. rewrite length_skipn in Hk, Hstop.
  split; [lia|]. split; [exact Hn|]. split; [exact Hb|].
  split; [rewrite Hs, Hb, all_bytes_size; reflexivity|].
  intros Hlt. rewrite Hs. rewrite DescriptorListSearchFacts.nth_skipn_dummy in Hstop.
  apply Hstop. lia.
Qed.






(** *** Reading descriptors from memory *)

Lemma from_memory_consistent (buf : ByteBlock) :
  Descriptor.consistent buf -> Descriptor.from_memory buf = Descriptor.mk (Some buf).
Proof.
  intros H. apply DescriptorFacts.guard_iff in H.
  unfold Descriptor.from_memory. now rewrite H.
Qed.

Lemma at_1_app (buf rest : ByteBlock) :
  2 <= Bytes.size buf -> at_ (buf ++ rest) 1 = at_ buf 1.
Proof.
  intros H. unfold at_. apply app_nth1. unfold Bytes.size in H. lia.
Qed.

(** One turn of the loop of [add (data, size)] on data that begin with a
    consistent block. *)
Lemma add_memory_loop_step (fuel : nat) (l : t) (buf rest : ByteBlock) :
  Descriptor.consistent buf ->
  add_memory_loop (S fuel) l (buf ++ rest)
  = add_memory_loop fuel (add l (Descriptor.mk (Some buf))) rest.
Proof.
  intros Hc. pose proof Hc as [Hsz Hlen].
  cbn [add_memory_loop]. rewrite at_1_app by lia. rewrite Hlen.
  replace (Bytes.size buf - 2 + 2) with (Bytes.size buf) by lia.
  replace ((Bytes.size (buf ++ rest) >=? 2) && (Bytes.size buf <=? Bytes.size (buf ++ rest)))
    with true.
  - replace (Z.to_nat (Bytes.size buf)) with (List.length buf)
      by (unfold Bytes.size; lia).
    rewrite firstn_app, firstn_all, Nat.sub_diag, firstn_O, app_nil_r.
    rewrite skipn_app, skipn_all, Nat.sub_diag. cbn [skipn app].
    now rewrite from_memory_consistent.
  - symmetry. rewrite andb_true_iff, Z.geb_le, Z.leb_le, BytesFacts.size_app.
    pose proof (BytesFacts.size_nonneg rest). lia.
Qed.

Lemma add_memory_loop_stop (fuel : nat) (l : t) (rest : ByteBlock) :
  unparsed rest -> add_memory_loop fuel l rest = l.
Proof.
  intros H. destruct fuel; [reflexivity|]. cbn [add_memory_loop].
  replace ((Bytes.size rest >=? 2) && (at_ rest 1 + 2 <=? Bytes.size rest)) with false;
    [reflexivity|].
  symmetry. apply andb_false_iff. unfold unparsed in H.
  destruct H as [H|H]; [left; rewrite Z.geb_leb; apply Z.leb_gt; lia
                       |right; apply Z.leb_gt; lia].
Qed.

Lemma add_memory_loop_blocks : forall (blocks : list ByteBlock) (fuel : nat) (l : t)
    (rest : ByteBlock),
  (List.length blocks <= fuel)%nat ->
  Forall Descriptor.consistent blocks ->
  unparsed rest ->
  add_memory_loop fuel l (concat blocks ++ rest)
  = fold_left add (map (fun buf => Descriptor.mk (Some buf)) blocks) l.
Proof.
  induction blocks as [|buf blocks IH]; intros fuel l rest Hfuel Hall Hrest.
  - cbn [concat app map fold_left]. now apply add_memory_loop_stop.
  - inversion Hall as [|? ? Hbuf Hall']; subst.
    destruct fuel as [|fuel]; [cbn in Hfuel; lia|].
    cbn [concat map fold_left]. rewrite <- app_assoc.
    rewrite add_memory_loop_step by exact Hbuf.
    apply IH; [cbn in Hfuel; lia|exact Hall'|exact Hrest].
Qed.

Lemma concat_length_blocks (blocks : list ByteBlock) :
  Forall Descriptor.consistent blocks ->
  (2 * List.length blocks <= List.length (concat blocks))%nat.
Proof.
  induction 1 as [|buf blocks [Hsz _] _ IH]; [cbn; lia|].
  cbn [concat List.length]. rewrite length_app. unfold Bytes.size in Hsz. lia.
Qed.

(** Adding descriptors to a list whose entries carry the specifier in
    force gives back the entries that were serialised. *)
Lemma fold_add_scoped : forall (l l0 : t),
  scoped 0 (l0 ++ l) -> fold_left add (map desc l) l0 = l0 ++ l.
Proof.
  induction l as [|e l IH]; intros l0 H; [now rewrite app_nil_r|].
  cbn [map fold_left].
  assert (Hadd : add l0 (desc e) = l0 ++ [e]).
  { unfold add. f_equal. f_equal.
    apply DescriptorListFacts.scoped_app in H. destruct H as [H0 He].
    cbn [scoped] in He. destruct He as [He _].
    destruct e as [d p]. cbn [desc pds] in *. f_equal. rewrite He.
    unfold is_pds_descriptor.
    destruct (Descriptor.tag d =? DID_PRIV_DATA_SPECIF); [reflexivity|].
    destruct l0 as [|x l0']; [reflexivity|].
    apply DescriptorListFacts.scoped_last; [exact H0|congruence]. }
  rewrite Hadd. replace (l0 ++ e :: l) with ((l0 ++ [e]) ++ l) by (now rewrite <- app_assoc).
  apply IH. now rewrite <- app_assoc.
Qed.

Lemma holds_consistent_blocks (l : t) :
  Forall holds_consistent l ->
  exists blocks : list ByteBlock,
    Forall Descriptor.consistent blocks
    /\ map desc l = map (fun buf => Descriptor.mk (Some buf)) blocks
    /\ all_bytes l = concat blocks.
Proof.
  induction 1 as [|e l He _ (blocks & Hc & Hd & Hb)].
  - exists []. repeat split; constructor.
  - unfold holds_consistent in He. destruct e as [[d] p]. cbn [desc Descriptor.data] in He.
    destruct d as [buf|]; [|contradiction].
    exists (buf :: blocks). split; [now constructor|].
    split; [cbn [map desc]; now rewrite Hd|].
    rewrite all_bytes_cons, Hb. reflexivity.
Qed.

(** The bytes of a descriptor list, read by [add (data, size)], give the
    list back: when every entry of [l] holds a consistent block and has
    the specifier that the entries before it put in force, adding the
    serialised form of [l] to a list [l0] appends [l], whatever bytes
    that do not make a descriptor follow. *)
Theorem add_memory_of_serialized (l0 l : t) (rest : ByteBlock) :
  Forall holds_consistent l ->
  scoped 0 (l0 ++ l) ->
  unparsed rest ->
  add_memory l0 (all_bytes l ++ rest) = l0 ++ l.
Proof.
  intros Hall Hscoped Hrest.
  destruct (holds_consistent_blocks l Hall) as (blocks & Hc & Hd & Hb).
  unfold add_memory. rewrite Hb.
  rewrite add_memory_loop_blocks; try assumption.
  - rewrite <- Hd. now apply fold_add_scoped.
  - pose proof (concat_length_blocks blocks Hc). rewrite length_app. lia.
Qed.

Lemma add_memory_of_serialized_witness :
  let l := run [OpAdd (PrivateDataSpecifierDescriptor 5);
                OpAdd (Descriptor.from_memory [0x83; 1; 7]);
                OpAdd (Descriptor.from_memory [0x48; 0])] in
  Forall holds_consistent l /\ scoped 0 ([] ++ l) /\ unparsed [0xFF]
  /\ add_memory [] (all_bytes l ++ [0xFF]) = l.
Proof.
  cbv zeta.
  assert (H1 : Forall holds_consistent
                 (run [OpAdd (PrivateDataSpecifierDescriptor 5);
                       OpAdd (Descriptor.from_memory [0x83; 1; 7]);
                       OpAdd (Descriptor.from_memory [0x48; 0])])).
  { repeat constructor; cbn; unfold Bytes.size; cbn; lia. }
  assert (H2 : scoped 0 ([] ++ run [OpAdd (PrivateDataSpecifierDescriptor 5);
                                    OpAdd (Descriptor.from_memory [0x83; 1; 7]);
                                    OpAdd (Descriptor.from_memory [0x48; 0])]))
    by apply DescriptorListFacts.run_scoped.
  assert (H3 : unparsed [0xFF]) by (left; cbn; lia).
  split; [exact H1|]. split; [exact H2|]. split; [exact H3|].
  exact (add_memory_of_serialized [] _ [0xFF] H1 H2 H3).
Defined.


Lemma all_u8_nth (data : ByteBlock) (i : nat) :
  all_u8 data = true -> 0 <= at_ data i < 256.
Proof.
  intros H. unfold at_. destruct (Nat.lt_ge_cases i (List.length data)) as [Hlt|Hge].
  - unfold all_u8 in H. rewrite forallb_forall in H.
    apply BytesFacts.is_u8_true, H, nth_In, Hlt.
  - rewrite nth_overflow by exact Hge. lia.
Qed.

Lemma all_u8_skipn (data : ByteBlock) (n : nat) :
  all_u8 data = true -> all_u8 (skipn n data) = true.
Proof.
  unfold all_u8. rewrite !forallb_forall. intros H x Hx.
  apply H. rewrite <- (firstn_skipn n data). apply in_or_app. now right.
Qed.

Lemma add_memory_loop_cuts : forall (fuel : nat) (data : ByteBlock),
  all_u8 data = true ->
  (List.length data <= fuel)%nat ->
  exists (blocks : list ByteBlock) (rest : ByteBlock),
    data = concat blocks ++ rest
    /\ Forall Descriptor.consistent blocks
    /\ unparsed rest
    /\ forall l : t,
         add_memory_loop fuel l data
         = fold_left add (map (fun buf => Descriptor.mk (Some buf)) blocks) l.
Proof.
  induction fuel as [|fuel IH]; intros data Hu8 Hfuel.
  - destruct data; [|cbn in Hfuel; lia].
    exists [], []. repeat split; [constructor|left; cbn; lia].
  - destruct ((Bytes.size data >=? 2) && (at_ data 1 + 2 <=? Bytes.size data)) eqn:Eg.
    + apply andb_true_iff in Eg. destruct Eg as [Hsz Hlen].
      rewrite Z.geb_le in Hsz. apply Z.leb_le in Hlen.
      pose proof (all_u8_nth data 1 Hu8) as Hb.
      set (n := Z.to_nat (at_ data 1 + 2)).
      assert (Hn : (2 <= n <= List.length data)%nat)
        by (unfold Bytes.size in *; subst n; lia).
      assert (Hbuf : Descriptor.consistent (firstn n data)).
      { unfold Descriptor.consistent, Bytes.size. rewrite length_firstn.
        assert (Hat : at_ (firstn n data) 1 = at_ data 1).
        { unfold at_. rewrite <- (firstn_skipn n data) at 2.
          rewrite app_nth1; [reflexivity|rewrite length_firstn; lia]. }
        rewrite Hat. subst n. lia. }
      destruct (IH (skipn n data)) as (blocks & rest & Hdata & Hc & Hrest & Hrun).
      * now apply all_u8_skipn.
      * rewrite length_skipn. lia.
      * exists (firstn n data :: blocks), rest.
        split; [cbn [concat]; rewrite <- app_assoc, <- Hdata; now rewrite firstn_skipn|].
        split; [now constructor|]. split; [exact Hrest|].
        intros l. rewrite <- (firstn_skipn n data) at 1.
        rewrite add_memory_loop_step by exact Hbuf.
        cbn [map fold_left]. apply Hrun.
    + exists [], data. split; [reflexivity|]. split; [constructor|].
      assert (Hun : unparsed data).
      { apply andb_false_iff in Eg. unfold unparsed.
        destruct Eg as [E|E]; [left; rewrite Z.geb_leb in E; apply Z.leb_gt in E; lia
                              |right; apply Z.leb_gt in E; lia]. }
      split; [exact Hun|]. intros l. cbn [map fold_left].
      now apply add_memory_loop_stop.
Qed.

(** [add (data, size)] on any bytes: the data are cut into consecutive
    blocks, each of which is a consistent descriptor (two header bytes and
    the number of payload bytes that the second one announces); the
    descriptors added to the list are these blocks, in their order, all
    valid; the loop stops at the first place where fewer than two bytes
    remain or the announced length exceeds what remains, and the bytes
    from there on are ignored. *)
Theorem add_memory_cuts (l : t) (data : ByteBlock) :
  all_u8 data = true ->
  exists (blocks : list ByteBlock) (rest : ByteBlock),
    data = concat blocks ++ rest
    /\ Forall Descriptor.consistent blocks
    /\ unparsed rest
    /\ add_memory l data
       = fold_left add (map (fun buf => Descriptor.mk (Some buf)) blocks) l.
Proof.
  intros Hu8.
  destruct (add_memory_loop_cuts (List.length data) data Hu8 (Nat.le_refl _))
    as (blocks & rest & Hdata & Hc & Hrest & Hrun).
  exists blocks, rest. repeat split; try assumption. apply Hrun.
Qed.

(** Two descriptors followed by a truncated one: the truncated bytes are
    not read. *)
Lemma add_memory_cuts_witness :
  all_u8 [0x48; 1; 7; 0x52; 0; 0x0A; 4; 1] = true
  /\ exists (blocks : list ByteBlock) (rest : ByteBlock),
       [0x48; 1; 7; 0x52; 0; 0x0A; 4; 1] = concat blocks ++ rest
       /\ Forall Descriptor.consistent blocks
       /\ unparsed rest
       /\ add_memory [] [0x48; 1; 7; 0x52; 0; 0x0A; 4; 1]
          = fold_left add (map (fun buf => Descriptor.mk (Some buf)) blocks) [].
Proof.
  split; [reflexivity|].
  apply (add_memory_cuts [] [0x48; 1; 7; 0x52; 0; 0x0A; 4; 1]). reflexivity.
Defined.

Lemma add_memory_truncated :
  map desc (add_memory [] [0x48; 1; 7; 0x52; 0; 0x0A; 4; 1])
  = [Descriptor.mk (Some [0x48; 1; 7]); Descriptor.mk (Some [0x52; 0])].
Proof. reflexivity. Qed.


(** *** Insertion of a private_data_specifier_descriptor *)

Lemma declared_pds_serialized (p : Z) :
  0 <= p < 4294967296 -> declared_pds (PrivateDataSpecifierDescriptor p) = p.
Proof.
  intros Hp. unfold declared_pds, PrivateDataSpecifierDescriptor.
  change (Descriptor.from_memory ([DID_PRIV_DATA_SPECIF; 4] ++ PutUInt32 p))
    with (Descriptor.mk (Some ([DID_PRIV_DATA_SPECIF; 4] ++ PutUInt32 p))).
  unfold Descriptor.payloadSize, Descriptor.payload, Descriptor.content.
  cbn [Descriptor.data app skipn].
  change (Bytes.size (PutUInt32 p) <? 4) with false. cbv iota.
  rewrite <- (app_nil_r (PutUInt32 p)). now apply BigEndianFacts.GetUInt32_PutUInt32.
Qed.

Lemma last_snoc (l : t) (e : Element) : last (l ++ [e]) dummy = e.
Proof. apply last_last. Qed.

(** [addPrivateDataSpecifier (pds)] with a non zero specifier leaves the
    list with this specifier in force at its end: it appends one
    private_data_specifier_descriptor that declares it, unless the last
    entry is already associated with it.  With the specifier 0 it does
    nothing.  Calling it twice is the same as calling it once. *)
Theorem addPrivateDataSpecifier_in_force (l : t) (p : Z) :
  0 <= p < 4294967296 ->
  (p = 0 -> addPrivateDataSpecifier l p = l)
  /\ (p <> 0 ->
      pds (last (addPrivateDataSpecifier l p) dummy) = p
      /\ (addPrivateDataSpecifier l p = l
          \/ addPrivateDataSpecifier l p
             = l ++ [mkElement (PrivateDataSpecifierDescriptor p) p]))
  /\ addPrivateDataSpecifier (addPrivateDataSpecifier l p) p
     = addPrivateDataSpecifier l p.
Proof.
  intros Hp.
  assert (Hadd : forall l0, add_serialized l0 (PrivateDataSpecifierDescriptor p)
                            = l0 ++ [mkElement (PrivateDataSpecifierDescriptor p) p]).
  { intros l0. unfold add_serialized.
    change (Descriptor.isValid (PrivateDataSpecifierDescriptor p)) with true. cbv iota.
    unfold add.
    change (Descriptor.tag (PrivateDataSpecifierDescriptor p) =? DID_PRIV_DATA_SPECIF)
      with true. cbv iota.
    now rewrite declared_pds_serialized. }
  assert (Hstep : p <> 0 ->
            pds (last (addPrivateDataSpecifier l p) dummy) = p
            /\ addPrivateDataSpecifier l p <> []
            /\ (addPrivateDataSpecifier l p = l
                \/ addPrivateDataSpecifier l p
                   = l ++ [mkElement (PrivateDataSpecifierDescriptor p) p])).
  { intros Hnz. unfold addPrivateDataSpecifier.
    replace (p =? 0) with false by (symmetry; now apply Z.eqb_neq). cbn [negb andb].
    destruct l as [|e l'].
    - rewrite Hadd. cbn. split; [reflexivity|]. split; [discriminate|now right].
    - destruct (pds (last (e :: l') dummy) =? p) eqn:E; cbn [negb].
      + apply Z.eqb_eq in E. split; [exact E|]. split; [discriminate|now left].
      + rewrite Hadd, last_snoc. split; [reflexivity|].
        split; [destruct l'; discriminate|now right]. }
  split; [|split].
  - intros ->. reflexivity.
  - intros Hnz. destruct (Hstep Hnz) as (H1 & _ & H3). now split.
  - destruct (Z.eq_dec p 0) as [->|Hnz]; [reflexivity|].
    destruct (Hstep Hnz) as (H1 & H2 & _).
    unfold addPrivateDataSpecifier at 1.
    destruct (addPrivateDataSpecifier l p) as [|e l'] eqn:El; [congruence|].
    rewrite H1, Z.eqb_refl. cbn [negb]. now rewrite andb_false_r.
Qed.

Lemma addPrivateDataSpecifier_in_force_witness :
  0 <= 0x28 < 4294967296
  /\ pds (last (addPrivateDataSpecifier
                  (run [OpAdd (Descriptor.from_memory [0x48; 0])]) 0x28) dummy) = 0x28.
Proof.
  assert (H : 0 <= 0x28 < 4294967296) by lia.
  split; [exact H|].
  apply (proj1 (proj2 (addPrivateDataSpecifier_in_force
                         (run [OpAdd (Descriptor.from_memory [0x48; 0])]) 0x28 H))).
  discriminate.
Defined.

End DescriptorListParsingFacts.

Module AC3DescriptorMergeFacts.
Import AC3Descriptor AC3DescriptorMerge.

Lemma merge_eta (d : t) :
  d = mk (is_valid d) (component_type d) (bsid d) (mainid d) (asvc d) (additional_info d).
Proof. now destruct d. Qed.

(** [merge] never replaces a field that is set: a field of the result is
    the field of this object when it is set (not empty, for the
    additional information), and the field of the other object
    otherwise.  Hence merging is associative, and the default descriptor,
    in which nothing is set, is neutral on both sides. *)
Theorem merge_associative (a b c : t) :
  merge (merge a b) c = merge a (merge b c)
  /\ merge a init = a
  /\ merge init a = mk true (component_type a) (bsid a) (mainid a) (asvc a)
                       (additional_info a)
  /\ merge a a = a.
Proof.
  destruct a as [va [a1|] [a2|] [a3|] [a4|] [|x ai]];
  destruct b as [vb [b1|] [b2|] [b3|] [b4|] [|y bi]];
  destruct c as [vc c1 c2 c3 c4 ci]; repeat split; reflexivity.
Qed.

(** *** From the object to the bytes and back *)

Lemma serialize_bytes (d : t) :
  payload_size d <= 255 ->
  exists flags,
    serialize d
    = Descriptor.mk (Some (DID_AC3 :: payload_size d :: flags
                           :: append_opt (component_type d) ++ append_opt (bsid d)
                              ++ append_opt (mainid d) ++ append_opt (asvc d)
                              ++ additional_info d))
    /\ flags = Z.lor (if set (component_type d) then 0x80 else 0x00)
                 (Z.lor (if set (bsid d) then 0x40 else 0x00)
                    (Z.lor (if set (mainid d) then 0x20 else 0x00)
                       (if set (asvc d) then 0x10 else 0x00))).
Proof.
  intros Hfit. eexists. split; [|reflexivity].
  unfold serialize.
  set (flags := Z.lor _ _).
  set (body := [flags] ++ _).
  assert (Hsize : Bytes.size body = payload_size d).
  { subst body. unfold payload_size. rewrite !BytesFacts.size_app.
    unfold Bytes.size at 1. cbn [List.length]. lia. }
  assert (Hnn : 0 <= Bytes.size body) by apply BytesFacts.size_nonneg.
  assert (Hlen : uint8 (Bytes.size ([0; 0] ++ body) - 2) = payload_size d).
  { rewrite BytesFacts.size_app. unfold Bytes.size at 1. cbn [List.length].
    unfold uint8. rewrite Z.mod_small; lia. }
  rewrite Hlen. unfold Descriptor.from_ByteBlockPtr.
  replace ((Bytes.size (DID_AC3 :: payload_size d :: body) >=? 2)
           && (Bytes.size (DID_AC3 :: payload_size d :: body) <? 258)
           && (at_ (DID_AC3 :: payload_size d :: body) 1
               =? Bytes.size (DID_AC3 :: payload_size d :: body) - 2)) with true.
  - subst body. cbn [app]. reflexivity.
  - symmetry. rewrite !andb_true_iff, Z.geb_le, Z.ltb_lt, Z.eqb_eq.
    rewrite !BytesFacts.size_cons. unfold at_. cbn [nth]. lia.
Qed.

(** Serialising an AC-3 descriptor whose payload takes at most 255 bytes
    and deserialising the result gives the same fields back, in a valid
    object ([serialize] does not look at the validity of the object).
    When the additional information makes the payload longer, [serialize]
    gives an invalid binary descriptor and [deserialize] rejects it. *)
Theorem ac3_deserialize_serialize (d : t) :
  (payload_size d <= 255 ->
   Descriptor.isValid (serialize d) = true
   /\ deserialize (serialize d)
      = mk true (component_type d) (bsid d) (mainid d) (asvc d) (additional_info d))
  /\ (255 < payload_size d ->
      Descriptor.isValid (serialize d) = false
      /\ deserialize (serialize d) = rejected).
Proof.
  split.
  - intros Hfit. destruct (serialize_bytes d Hfit) as (flags & -> & Hflags).
    split; [reflexivity|].
    unfold deserialize, Descriptor.isValid, Descriptor.tag, Descriptor.payloadSize,
      Descriptor.payload, Descriptor.content.
    cbn [Descriptor.data skipn at_ nth]. rewrite Z.eqb_refl. cbn [andb].
    replace (Bytes.size (flags :: _) >=? 1) with true
      by (symmetry; apply Z.geb_le; rewrite BytesFacts.size_cons;
          match goal with |- 1 <= 1 + Bytes.size ?x =>
            pose proof (BytesFacts.size_nonneg x) end; lia).
    subst flags.
    destruct d as [v [a1|] [a2|] [a3|] [a4|] info];
      cbn [component_type bsid mainid asvc additional_info set append_opt app];
      destruct info; reflexivity.
  - intros Hbig.
    assert (Hinv : serialize d = Descriptor.mk None).
    { unfold serialize.
      set (flags := Z.lor _ _).
      set (body := [flags] ++ _).
      assert (Hsize : Bytes.size body = payload_size d).
      { subst body. unfold payload_size. rewrite !BytesFacts.size_app.
        unfold Bytes.size at 1. cbn [List.length]. lia. }
      unfold Descriptor.from_ByteBlockPtr.
      match goal with |- (if ?g then _ else _) = _ =>
        replace g with false; [reflexivity|] end.
      symmetry. apply andb_false_iff. left. apply andb_false_iff. right.
      apply Z.ltb_ge. rewrite !BytesFacts.size_cons. lia. }
    rewrite Hinv. split; reflexivity.
Qed.

(** A descriptor with a component type, an associated service and three
    bytes of additional information. *)
Lemma ac3_deserialize_serialize_witness :
  payload_size (mk true (Some 0x42) None None (Some 0x7F) [1; 2; 3]) <= 255
  /\ deserialize (serialize (mk true (Some 0x42) None None (Some 0x7F) [1; 2; 3]))
     = mk true (Some 0x42) None None (Some 0x7F) [1; 2; 3].
Proof.
  assert (H : payload_size (mk true (Some 0x42) None None (Some 0x7F) [1; 2; 3]) <= 255)
    by (vm_compute; discriminate).
  split; [exact H|].
  exact (proj2 (proj1 (ac3_deserialize_serialize
                         (mk true (Some 0x42) None None (Some 0x7F) [1; 2; 3])) H)).
Defined.

End AC3DescriptorMergeFacts.

Module PMTPluginFacts.
Import DescriptorList DescriptorListSearch PMTPlugin.

Lemma default_AC3_descriptor :
  AC3Descriptor.serialize AC3Descriptor.init
  = Descriptor.mk (Some [AC3Descriptor.DID_AC3; 1; 0]).
Proof. reflexivity. Qed.

(** A list that ends with an AC-3 descriptor has one. *)
Lemma search_finds_last (l : t) (e : Element) :
  Descriptor.tag (desc e) = AC3Descriptor.DID_AC3 ->
  (search (l ++ [e]) AC3Descriptor.DID_AC3 O 0 < count (l ++ [e]))%nat.
Proof.
  intros Htag.
  destruct (DescriptorListSearchFacts.search_spec (l ++ [e]) AC3Descriptor.DID_AC3 0 O)
    as (_ & Hmax & _ & Hnone).
  destruct (Nat.lt_ge_cases (search (l ++ [e]) AC3Descriptor.DID_AC3 O 0) (count (l ++ [e])))
    as [Hlt|Hge]; [exact Hlt|].
  exfalso.
  assert (Hsel : selected AC3Descriptor.DID_AC3 0 (nth (List.length l) (l ++ [e]) dummy) = false).
  { apply Hnone. unfold count in Hge. rewrite length_app in Hge. cbn in Hge. lia. }
  rewrite nth_middle in Hsel. unfold selected in Hsel.
  rewrite Htag, Z.eqb_refl in Hsel. discriminate.
Qed.

(** The rewriting done for [--ac3-atsc2dvb]: a component of stream type
    0x81 gets the stream type 0x06 and has an AC-3 descriptor afterwards;
    its descriptor list is unchanged when it had one already, and gets
    the default AC-3 descriptor (bytes 6A 01 00) at its end otherwise.
    The other components are unchanged, and so is a component that was
    rewritten once. *)
Theorem ac3_atsc2dvb_result (s : Stream) :
  (stream_type s = ST_AC3_AUDIO ->
   stream_type (ac3_atsc2dvb s) = ST_PES_PRIV
   /\ has_AC3_descriptor (ac3_atsc2dvb s) = true
   /\ (has_AC3_descriptor s = true -> descs (ac3_atsc2dvb s) = descs s)
   /\ (has_AC3_descriptor s = false ->
       map desc (descs (ac3_atsc2dvb s))
       = map desc (descs s) ++ [Descriptor.mk (Some [0x6A; 1; 0])]))
  /\ (stream_type s <> ST_AC3_AUDIO -> ac3_atsc2dvb s = s)
  /\ ac3_atsc2dvb (ac3_atsc2dvb s) = ac3_atsc2dvb s.
Proof.
  assert (Hmax : (search (descs s) AC3Descriptor.DID_AC3 O 0 <= count (descs s))%nat).
  { destruct (DescriptorListSearchFacts.search_spec (descs s)
                AC3Descriptor.DID_AC3 0 O) as (_ & H & _). lia. }
  assert (Hadd : add_serialized (descs s) (AC3Descriptor.serialize AC3Descriptor.init)
                 = descs s ++ [mkElement (Descriptor.mk (Some [0x6A; 1; 0]))
                                 (match descs s with
                                  | [] => 0
                                  | _ :: _ => pds (last (descs s) dummy)
                                  end)]).
  { rewrite default_AC3_descriptor. reflexivity. }
  assert (Hfirst : stream_type s = ST_AC3_AUDIO ->
            stream_type (ac3_atsc2dvb s) = ST_PES_PRIV
            /\ has_AC3_descriptor (ac3_atsc2dvb s) = true
            /\ (has_AC3_descriptor s = true -> descs (ac3_atsc2dvb s) = descs s)
            /\ (has_AC3_descriptor s = false ->
                map desc (descs (ac3_atsc2dvb s))
                = map desc (descs s) ++ [Descriptor.mk (Some [0x6A; 1; 0])])).
  { intros Htype. unfold ac3_atsc2dvb, has_AC3_descriptor.
    rewrite Htype, Z.eqb_refl. cbn [stream_type descs].
    destruct (search (descs s) AC3Descriptor.DID_AC3 O 0 =? count (descs s))%nat eqn:E.
    - apply Nat.eqb_eq in E. split; [reflexivity|]. split.
      + apply Nat.ltb_lt. rewrite Hadd. now apply search_finds_last.
      + split.
        * intros Hhas. apply Nat.ltb_lt in Hhas. lia.
        * intros _. rewrite Hadd, map_app. reflexivity.
    - apply Nat.eqb_neq in E. split; [reflexivity|]. split.
      + apply Nat.ltb_lt. lia.
      + split; [reflexivity|]. intros Hhas. apply Nat.ltb_ge in Hhas. lia. }
  split; [exact Hfirst|]. split.
  - intros Hne. unfold ac3_atsc2dvb.
    now replace (stream_type s =? ST_AC3_AUDIO) with false by (symmetry; now apply Z.eqb_neq).
  - destruct (Z.eq_dec (stream_type s) ST_AC3_AUDIO) as [Htype|Hne].
    + destruct (Hfirst Htype) as (Ht & _). unfold ac3_atsc2dvb at 1. now rewrite Ht.
    + unfold ac3_atsc2dvb at 2.
      replace (stream_type s =? ST_AC3_AUDIO) with false by (symmetry; now apply Z.eqb_neq).
      unfold ac3_atsc2dvb.
      now replace (stream_type s =? ST_AC3_AUDIO) with false by (symmetry; now apply Z.eqb_neq).
Qed.

(** An ATSC AC-3 component whose only descriptor is a language
    descriptor. *)
Lemma ac3_atsc2dvb_result_witness :
  let s := mkStream 0x81 (run [OpAdd (Descriptor.from_memory [0x0A; 4; 0x66; 0x72; 0x61; 0])]) in
  stream_type s = ST_AC3_AUDIO
  /\ stream_type (ac3_atsc2dvb s) = ST_PES_PRIV
  /\ has_AC3_descriptor (ac3_atsc2dvb s) = true.
Proof.
  cbv zeta. split; [reflexivity|].
  destruct (proj1 (ac3_atsc2dvb_result
                     (mkStream 0x81
                        (run [OpAdd (Descriptor.from_memory [0x0A; 4; 0x66; 0x72; 0x61; 0])])))
              eq_refl) as (H1 & H2 & _).
  split; [exact H1|exact H2].
Defined.

End PMTPluginFacts.

Module DescriptorStoreFacts.
Import Descriptor DescriptorStore.

Lemma block_set_block_same (st : Store) (p : nat) (bb : ByteBlock) :
  (p < List.length st)%nat -> block (set_block st p bb) p = bb.
Proof.
  intros Hp. unfold set_block, block.
  replace (p <? List.length st)%nat with true by (symmetry; now apply Nat.ltb_lt).
  rewrite app_nth2; rewrite length_firstn; [|lia].
  replace (p - Nat.min p (List.length st))%nat with O by lia. reflexivity.
Qed.

Lemma block_set_block_other (st : Store) (p q : nat) (bb : ByteBlock) :
  p <> q -> block (set_block st p bb) q = block st q.
Proof.
  intros Hne. unfold set_block, block.
  destruct (p <? List.length st)%nat eqn:Ep; [|reflexivity].
  apply Nat.ltb_lt in Ep.
  rewrite <- (firstn_skipn p st) at 3.
  destruct (Nat.lt_ge_cases q p) as [Hlt|Hge].
  - rewrite !app_nth1 by (rewrite length_firstn; lia). reflexivity.
  - rewrite !app_nth2 by (rewrite length_firstn; lia).
    rewrite length_firstn. replace (Nat.min p (List.length st)) with p by lia.
    destruct (q - p)%nat as [|k] eqn:Ek; [lia|]. cbn [nth].
    destruct (skipn p st) as [|x r] eqn:Es.
    + rewrite (skipn_all2 st) by (apply (f_equal (@List.length _)) in Es;
                                   rewrite length_skipn in Es; cbn in Es; lia).
      now destruct k.
    + replace (skipn (S p) st) with r; [reflexivity|].
      change (S p) with (1 + p)%nat. rewrite <- skipn_skipn, Es. reflexivity.
Qed.

Lemma length_set_block (st : Store) (p : nat) (bb : ByteBlock) :
  List.length (set_block st p bb) = List.length st.
Proof.
  unfold set_block. destruct (p <? List.length st)%nat eqn:Ep; [|reflexivity].
  apply Nat.ltb_lt in Ep.
  rewrite length_app, length_firstn. cbn [List.length]. rewrite length_skipn. lia.
Qed.

Lemma block_new_block (st : Store) (bb : ByteBlock) :
  block (fst (new_block st bb)) (snd (new_block st bb)) = bb
  /\ forall q, (q < List.length st)%nat -> block (fst (new_block st bb)) q = block st q.
Proof.
  unfold new_block, block. cbn [fst snd]. split.
  - now rewrite nth_middle.
  - intros q Hq. now apply app_nth1.
Qed.

(** The block written by [replacePayload] over a block that has its two
    header bytes. *)
Lemma replaced_block (bb payload : ByteBlock) :
  2 <= Bytes.size bb -> Bytes.size payload <= 255 ->
  put_at 1 (uint8 (Bytes.size (firstn 2 bb ++ payload) - 2)) (firstn 2 bb ++ payload)
  = at_ bb 0 :: Bytes.size payload :: payload.
Proof.
  intros Hbb Hp.
  destruct bb as [|tag [|len rest]]; try (unfold Bytes.size in Hbb; cbn in Hbb; lia).
  cbn [firstn app]. unfold put_at. cbn [List.length Nat.ltb Nat.leb firstn skipn app].
  unfold at_. cbn [nth]. f_equal. f_equal.
  rewrite !BytesFacts.size_cons. unfold uint8.
  pose proof (BytesFacts.size_nonneg payload). rewrite Z.mod_small; lia.
Qed.

Lemma consistent_header (tag : Z) (payload : ByteBlock) :
  Bytes.size payload <= 255 -> consistent (tag :: Bytes.size payload :: payload).
Proof.
  intros Hp. unfold consistent. rewrite !BytesFacts.size_cons. unfold at_. cbn [nth].
  pose proof (BytesFacts.size_nonneg payload). lia.
Qed.

(** [replacePayload] with at most 255 bytes, on a descriptor that points
    to a block with its two header bytes. *)
Lemma replacePayload_block (st : Store) (p : nat) (payload : ByteBlock) :
  2 <= Bytes.size (block st p) -> Bytes.size payload <= 255 ->
  replacePayload st (mk (Some p)) payload
  = (set_block st p (at_ (block st p) 0 :: Bytes.size payload :: payload), mk (Some p)).
Proof.
  intros Hsz Hfit. unfold replacePayload.
  replace (Bytes.size payload >? 255) with false
    by (symmetry; rewrite Z.gtb_ltb; apply Z.ltb_ge; lia).
  cbn [_data]. now rewrite replaced_block by lia.
Qed.

(** [replacePayload] on a valid descriptor, with at most 255 bytes, keeps
    the tag, stores the new payload and sets the length byte to its size:
    the descriptor stays valid and consistent, and no other block of the
    store changes.  With more than 255 bytes the descriptor becomes
    invalid and the store is untouched. *)
Theorem replacePayload_content (st : Store) (d : t) (payload : ByteBlock) :
  wellformed st d ->
  (Bytes.size payload <= 255 ->
   snd (replacePayload st d payload) = d
   /\ content (fst (replacePayload st d payload)) d
      = at_ (content st d) 0 :: Bytes.size payload :: payload
   /\ wellformed (fst (replacePayload st d payload)) d
   /\ forall q, _data d <> Some q ->
        block (fst (replacePayload st d payload)) q = block st q)
  /\ (255 < Bytes.size payload ->
      isValid (snd (replacePayload st d payload)) = false
      /\ fst (replacePayload st d payload) = st).
Proof.
  unfold wellformed, content. destruct d as [[p|]]; cbn [_data]; [|contradiction].
  intros [Hp [Hsz Hlen]]. split.
  - intros Hfit. rewrite replacePayload_block by lia. cbn [fst snd _data].
    split; [reflexivity|]. split; [now apply block_set_block_same|]. split.
    + rewrite length_set_block, block_set_block_same by exact Hp.
      split; [exact Hp|now apply consistent_header].
    + intros q Hq. apply block_set_block_other. congruence.
  - intros Hbig. unfold replacePayload.
    replace (Bytes.size payload >? 255) with true
      by (symmetry; rewrite Z.gtb_ltb; apply Z.ltb_lt; lia).
    split; reflexivity.
Qed.

Lemma replacePayload_content_witness :
  let st := fst (from_ByteBlock [] [0x48; 2; 7; 9]) in
  let d := snd (from_ByteBlock [] [0x48; 2; 7; 9]) in
  wellformed st d /\ Bytes.size [1; 2; 3] <= 255
  /\ content (fst (replacePayload st d [1; 2; 3])) d = [0x48; 3; 1; 2; 3].
Proof.
  cbv zeta.
  assert (H1 : wellformed (fst (from_ByteBlock [] [0x48; 2; 7; 9]))
                 (snd (from_ByteBlock [] [0x48; 2; 7; 9]))).
  { cbn. split; [lia|]. unfold consistent, Bytes.size. cbn. lia. }
  assert (H2 : Bytes.size [1; 2; 3] <= 255) by (cbn; lia).
  split; [exact H1|]. split; [exact H2|].
  exact (proj1 (proj2 (proj1 (replacePayload_content _ _ [1; 2; 3] H1) H2))).
Defined.

(** A descriptor built from another one in mode [SHARE] points to the
    same block: replacing the payload of the new descriptor replaces the
    payload of the original one as well.  In mode [COPY] the new
    descriptor has a block of its own and the original one keeps its
    bytes. *)
Theorem replacePayload_shared (st : Store) (d1 : t) (payload : ByteBlock) :
  wellformed st d1 ->
  Bytes.size payload <= 255 ->
  (exists d2, copy st d1 SHARE = Some (st, d2)
     /\ content (fst (replacePayload st d2 payload)) d1
        = at_ (content st d1) 0 :: Bytes.size payload :: payload)
  /\ (exists st1 d3, copy st d1 COPY = Some (st1, d3)
        /\ content st1 d3 = content st d1
        /\ content (fst (replacePayload st1 d3 payload)) d3
           = at_ (content st d1) 0 :: Bytes.size payload :: payload
        /\ content (fst (replacePayload st1 d3 payload)) d1 = content st d1).
Proof.
  unfold wellformed. destruct d1 as [[p|]]; cbn [_data]; [|contradiction].
  intros [Hp [Hsz Hlen]] Hfit. split.
  - exists (mk (Some p)). split; [reflexivity|].
    rewrite replacePayload_block by lia. unfold content. cbn [fst _data].
    now apply block_set_block_same.
  - destruct (block_new_block st (block st p)) as [Hnew Hold].
    unfold new_block in Hnew, Hold. cbn [fst snd] in Hnew, Hold.
    exists (st ++ [block st p]), (mk (Some (List.length st))).
    split; [reflexivity|]. unfold content. cbn [_data].
    split; [exact Hnew|].
    rewrite replacePayload_block by (try rewrite Hnew; lia). cbn [fst].
    split.
    + rewrite block_set_block_same by (rewrite length_app; cbn [List.length]; lia).
      now rewrite Hnew.
    + rewrite block_set_block_other by lia. now apply Hold.
Qed.

Lemma replacePayload_shared_witness :
  let st := fst (from_ByteBlock [] [0x48; 2; 7; 9]) in
  let d1 := snd (from_ByteBlock [] [0x48; 2; 7; 9]) in
  wellformed st d1 /\ Bytes.size [1; 2; 3] <= 255
  /\ exists d2, copy st d1 SHARE = Some (st, d2)
       /\ content (fst (replacePayload st d2 [1; 2; 3])) d1
          = at_ (content st d1) 0 :: Bytes.size [1; 2; 3] :: [1; 2; 3].
Proof.
  cbv zeta.
  assert (H1 : wellformed (fst (from_ByteBlock [] [0x48; 2; 7; 9]))
                 (snd (from_ByteBlock [] [0x48; 2; 7; 9]))).
  { cbn. split; [lia|]. unfold consistent, Bytes.size. cbn. lia. }
  assert (H2 : Bytes.size [1; 2; 3] <= 255) by (cbn; lia).
  split; [exact H1|]. split; [exact H2|].
  exact (proj1 (replacePayload_shared _ _ [1; 2; 3] H1 H2)).
Defined.


(** The block written by [resizePayload]. *)
Lemma resized_block (bb : ByteBlock) (new_size : Z) :
  2 <= Bytes.size bb -> 0 <= new_size <= 255 ->
  put_at 1
    (uint8 (Bytes.size (firstn (Z.to_nat (new_size + 2)) bb
                        ++ repeat 0 (Z.to_nat (new_size + 2) - List.length bb)) - 2))
    (firstn (Z.to_nat (new_size + 2)) bb
     ++ repeat 0 (Z.to_nat (new_size + 2) - List.length bb))
  = at_ bb 0 :: new_size
    :: firstn (Z.to_nat new_size) (skipn 2 bb)
       ++ repeat 0 (Z.to_nat new_size - List.length (skipn 2 bb)).
Proof.
  intros Hbb Hn.
  destruct bb as [|tag [|len rest]]; try (unfold Bytes.size in Hbb; cbn in Hbb; lia).
  replace (Z.to_nat (new_size + 2)) with (S (S (Z.to_nat new_size))) by lia.
  cbn [firstn app skipn List.length Nat.sub].
  unfold put_at. cbn [List.length Nat.ltb Nat.leb firstn skipn app].
  unfold at_. cbn [nth]. f_equal. f_equal.
  rewrite !BytesFacts.size_cons, BytesFacts.size_app. unfold Bytes.size, uint8.
  rewrite length_firstn, repeat_length. rewrite Z.mod_small; lia.
Qed.

(** [resizePayload] on a valid descriptor, with a size of at most 255,
    keeps the tag and the first bytes of the payload, pads with zeroes
    when the payload grows, and sets the length byte to the new size; the
    descriptor stays valid and consistent.  Growing the payload and then
    resizing it to its first size gives the first descriptor back.  With
    a size above 255 the descriptor becomes invalid. *)
Theorem resizePayload_content (st : Store) (d : t) (new_size : Z) :
  wellformed st d ->
  (0 <= new_size <= 255 ->
   snd (resizePayload st d new_size) = d
   /\ content (fst (resizePayload st d new_size)) d
      = at_ (content st d) 0 :: new_size
        :: firstn (Z.to_nat new_size) (skipn 2 (content st d))
           ++ repeat 0 (Z.to_nat new_size - List.length (skipn 2 (content st d)))
   /\ wellformed (fst (resizePayload st d new_size)) d)
  /\ (Bytes.size (content st d) - 2 <= new_size <= 255 ->
      content (fst (resizePayload (fst (resizePayload st d new_size)) d
                      (Bytes.size (content st d) - 2))) d
      = content st d)
  /\ (255 < new_size -> isValid (snd (resizePayload st d new_size)) = false).
Proof.
  intros Hwf.
  assert (Hone : forall st0 n, wellformed st0 d -> 0 <= n <= 255 ->
            snd (resizePayload st0 d n) = d
            /\ content (fst (resizePayload st0 d n)) d
               = at_ (content st0 d) 0 :: n
                 :: firstn (Z.to_nat n) (skipn 2 (content st0 d))
                    ++ repeat 0 (Z.to_nat n - List.length (skipn 2 (content st0 d)))
            /\ wellformed (fst (resizePayload st0 d n)) d).
  { intros st0 n. unfold wellformed, resizePayload, content.
    destruct d as [[p|]]; cbn [_data]; [|contradiction].
    intros [Hp [Hsz Hlen]] Hn.
    replace (n >? 255) with false by (symmetry; rewrite Z.gtb_ltb; apply Z.ltb_ge; lia).
    cbn [fst snd _data]. rewrite resized_block by lia.
    split; [reflexivity|]. split; [now apply block_set_block_same|].
    rewrite length_set_block, block_set_block_same by exact Hp.
    split; [exact Hp|].
    unfold consistent. rewrite !BytesFacts.size_cons, BytesFacts.size_app.
    unfold at_, Bytes.size. cbn [nth]. rewrite length_firstn, repeat_length. lia. }
  split; [now apply Hone|]. split.
  - intros Hgrow.
    assert (Hc : 2 <= Bytes.size (content st d) <= 257
                 /\ at_ (content st d) 1 = Bytes.size (content st d) - 2).
    { unfold wellformed in Hwf. unfold content. destruct (_data d); [|contradiction].
      exact (proj2 Hwf). }
    destruct Hc as [Hsz Hlen].
    destruct (Hone st new_size Hwf ltac:(lia)) as (_ & Hc1 & Hwf1).
    destruct (Hone (fst (resizePayload st d new_size)) (Bytes.size (content st d) - 2)
                Hwf1 ltac:(lia)) as (_ & Hc2 & _).
    rewrite Hc2, Hc1. cbn [at_ nth skipn].
    destruct (content st d) as [|tag [|len payload]] eqn:Ec;
      try (unfold Bytes.size in Hsz; cbn in Hsz; lia).
    cbn [skipn] in *. unfold at_ in *. cbn [nth] in *.
    rewrite !BytesFacts.size_cons in *. unfold Bytes.size in *.
    replace (Z.to_nat (1 + (1 + Z.of_nat (List.length payload)) - 2))
      with (List.length payload) by lia.
    rewrite (firstn_all2 (n := Z.to_nat new_size) payload) by lia.
    rewrite firstn_app, firstn_all, Nat.sub_diag, firstn_O, app_nil_r.
    rewrite length_app, repeat_length.
    replace (List.length payload
             - (List.length payload + (Z.to_nat new_size - List.length payload)))%nat
      with O by lia.
    cbn [repeat]. rewrite app_nil_r. f_equal. f_equal. lia.
  - intros Hbig. unfold resizePayload.
    replace (new_size >? 255) with true
      by (symmetry; rewrite Z.gtb_ltb; apply Z.ltb_lt; lia).
    reflexivity.
Qed.

Lemma resizePayload_content_witness :
  let st := fst (from_ByteBlock [] [0x48; 2; 7; 9]) in
  let d := snd (from_ByteBlock [] [0x48; 2; 7; 9]) in
  wellformed st d /\ 0 <= 4 <= 255
  /\ content (fst (resizePayload st d 4)) d = [0x48; 4; 7; 9; 0; 0].
Proof.
  cbv zeta.
  assert (H1 : wellformed (fst (from_ByteBlock [] [0x48; 2; 7; 9]))
                 (snd (from_ByteBlock [] [0x48; 2; 7; 9]))).
  { cbn. split; [lia|]. unfold consistent, Bytes.size. cbn. lia. }
  assert (H2 : 0 <= 4 <= 255) by lia.
  split; [exact H1|]. split; [exact H2|].
  exact (proj1 (proj2 (proj1 (resizePayload_content _ _ 4 H1) H2))).
Defined.

End DescriptorStoreFacts.

Module EITReadingFacts.
Import DescriptorList DescriptorListSearch DescriptorListCodec DescriptorListCodecFacts.
Import EIT EITReading.

(** *** Descriptor lists in pieces *)

Lemma add_memory_all_bytes (l0 l : DescriptorList.t) :
  Forall holds_consistent l ->
  scoped 0 (l0 ++ l) ->
  add_memory l0 (all_bytes l) = l0 ++ l.
Proof.
  intros Hall Hscoped.
  destruct (DescriptorListParsingFacts.holds_consistent_blocks l Hall)
    as (blocks & Hc & Hd & Hb).
  unfold add_memory. rewrite Hb. rewrite <- (app_nil_r (concat blocks)) at 2.
  rewrite DescriptorListParsingFacts.add_memory_loop_blocks.
  - rewrite <- Hd. now apply DescriptorListParsingFacts.fold_add_scoped.
  - pose proof (DescriptorListParsingFacts.concat_length_blocks blocks Hc). lia.
  - exact Hc.
  - left. cbn. lia.
Qed.

Lemma scoped_firstn (l : DescriptorList.t) (k : nat) (cur : Z) :
  scoped cur l -> scoped cur (firstn k l).
Proof.
  intros H. rewrite <- (firstn_skipn k l) in H.
  now apply DescriptorListFacts.scoped_app in H.
Qed.

Lemma firstn_add (l : DescriptorList.t) (i k : nat) :
  firstn i l ++ firstn k (skipn i l) = firstn (i + k) l.
Proof.
  revert l. induction i as [|i IH]; intros l; [reflexivity|].
  destruct l as [|e l]; [destruct k; reflexivity|].
  cbn [firstn skipn app Nat.add]. now rewrite IH.
Qed.

Lemma Forall_firstn_skipn (P : Element -> Prop) (l : DescriptorList.t) (i k : nat) :
  Forall P l -> Forall P (firstn k (skipn i l)).
Proof.
  intros H. rewrite <- (firstn_skipn i l) in H.
  apply Forall_app in H. destruct H as [_ H].
  rewrite <- (firstn_skipn k (skipn i l)) in H.
  now apply Forall_app in H.
Qed.

Lemma holds_consistent_size (e : Element) :
  holds_consistent e -> 2 <= Descriptor.size (desc e) <= 257.
Proof.
  unfold holds_consistent, Descriptor.size, Descriptor.content.
  destruct (Descriptor.data (desc e)); [|contradiction]. intros [H _]. exact H.
Qed.

(** With room for one descriptor, at least one descriptor is written. *)
Lemma serialize_from_progress : forall (l : DescriptorList.t) (size : Z) (i : nat),
  0 <= size ->
  0 <= snd (fst (serialize_from l size i))
  /\ (l <> [] -> Descriptor.size (desc (hd dummy l)) <= size ->
      (i < snd (serialize_from l size i))%nat).
Proof.
  induction l as [|e l IH]; intros size i Hsize.
  - cbn. split; [lia|congruence].
  - cbn [serialize_from hd].
    destruct (Descriptor.size (desc e) <=? size) eqn:Efit.
    + apply Z.leb_le in Efit.
      destruct (IH (size - Descriptor.size (desc e)) (S i) ltac:(lia)) as [Hnn _].
      pose proof (DescriptorListParsingFacts.serialize_from_whole l
                    (size - Descriptor.size (desc e)) (S i)) as (k & _ & Hnext & _).
      destruct (serialize_from l (size - Descriptor.size (desc e)) (S i))
        as [[bytes size'] next].
      cbn [fst snd] in *. split; [exact Hnn|]. intros _ _. lia.
    + apply Z.leb_gt in Efit. cbn [fst snd]. split; [lia|]. intros _ H. lia.
Qed.

Section Reading.

Variable Time : Type.
Variable Time_default : Time.
Variable EncodeMJD : Time -> ByteBlock.
Variable DecodeMJD : ByteBlock -> Time.
Variable EncodeBCD : Z -> Z.
Variable DecodeBCD : Z -> Z.
Variable MAX : Z.

Local Abbreviation get_events := (EIT.get_events Time_default DecodeMJD DecodeBCD).
Local Abbreviation read_events := (EITReading.read_events Time_default DecodeMJD DecodeBCD).
Local Abbreviation read_payloads := (EITReading.read_payloads Time_default DecodeMJD DecodeBCD).
Local Abbreviation event_fixed := (EIT.event_fixed EncodeMJD EncodeBCD).
Local Abbreviation event_chunks := (EIT.event_chunks EncodeMJD EncodeBCD).
Local Abbreviation add_events := (EIT.add_events EncodeMJD EncodeBCD).
Local Abbreviation serialize := (EIT.serialize EncodeMJD EncodeBCD MAX).
Local Abbreviation event_codable := (EITReading.event_codable EncodeMJD DecodeMJD).
Local Abbreviation bcd_codable := (EITReading.bcd_codable EncodeBCD DecodeBCD).
Local Abbreviation section_of := (EITReading.section_of MAX).
Local Abbreviation buffer_ok := (EITReading.buffer_ok MAX).
Local Abbreviation buffer_reads := (EITReading.buffer_reads Time_default DecodeMJD DecodeBCD).

(** The loop on the event descriptions does not depend on the bound on
    its turns, once the bound is the number of bytes. *)
Lemma get_events_fuel : forall (fuel1 fuel2 : nat) (data : ByteBlock) (evs : EventMap Time),
  (List.length data <= fuel1)%nat -> (List.length data <= fuel2)%nat ->
  get_events fuel1 data evs = get_events fuel2 data evs.
Proof.
  induction fuel1 as [|f1 IH]; intros fuel2 data evs H1 H2.
  - destruct data; [|cbn in H1; lia]. destruct fuel2; reflexivity.
  - destruct fuel2 as [|f2].
    + destruct data; [|cbn in H2; lia]. reflexivity.
    + cbn [EIT.get_events].
      destruct (Bytes.size data >=? 12) eqn:E; [|reflexivity].
      rewrite Z.geb_le in E. unfold Bytes.size in E.
      apply IH; rewrite !length_skipn; lia.
Qed.

Lemma read_events_short (data : ByteBlock) (evs : EventMap Time) :
  Bytes.size data < 12 -> read_events data evs = evs.
Proof.
  intros H. unfold EITReading.read_events.
  destruct (List.length data); [reflexivity|]. cbn [EIT.get_events].
  replace (Bytes.size data >=? 12) with false; [reflexivity|].
  symmetry. rewrite Z.geb_leb. apply Z.leb_gt. lia.
Qed.


Lemma duration_parts (d : Z) :
  0 <= d < 360000 ->
  0 <= Z.quot d 3600 < 100
  /\ 0 <= Z.rem (Z.quot d 60) 60 < 100
  /\ 0 <= Z.rem d 60 < 100
  /\ Z.quot d 3600 * 3600 + Z.rem (Z.quot d 60) 60 * 60 + Z.rem d 60 = d.
Proof using Type.
  intros Hd.
  rewrite !Z.quot_div_nonneg by lia.
  assert (H60 : 0 <= d / 60) by (apply Z.div_pos; lia).
  rewrite !Z.rem_mod_nonneg by lia.
  pose proof (Z.mod_pos_bound d 60 ltac:(lia)).
  pose proof (Z.mod_pos_bound (d / 60) 60 ltac:(lia)).
  pose proof (Z.div_mod d 60 ltac:(lia)).
  pose proof (Z.div_mod (d / 60) 60 ltac:(lia)).
  assert (Hdd : d / 60 / 60 = d / 3600) by (rewrite Z.div_div; [reflexivity|lia|lia]).
  assert (0 <= d / 3600 < 100)
    by (split; [apply Z.div_pos; lia|apply Z.div_lt_upper_bound; lia]).
  lia.
Qed.

Lemma int32_small (x : Z) : 0 <= x < 100 -> @EIT.int32 x = x.
Proof using Type. intros H. unfold int32. rewrite Z.mod_small; lia. Qed.

Lemma land_7_small (x : Z) : 0 <= x < 8 -> Z.land x 7 = x.
Proof using Type.
  intros H.
  pose proof (BytesFacts.forall_below_sound 8 (fun x => Z.land x 7 =? x)
                ltac:(vm_compute; reflexivity) x H) as E.
  cbv beta in E. now apply Z.eqb_eq.
Qed.

(** One turn of the loop on a description of at least twelve bytes. *)
Lemma get_events_turn (fuel : nat) (data : ByteBlock) (evs : EventMap Time) :
  (Bytes.size data >=? 12) = true ->
  get_events (S fuel) data evs
  = get_events fuel
      (skipn (Z.to_nat (Z.min (Z.land (GetUInt16 (skipn 10 data)) 0x0FFF)
                          (Bytes.size (skipn 12 data))))
         (skipn 12 data))
      (events_set evs (GetUInt16 data)
         (mkEvent (DecodeMJD (firstn 5 (skipn 2 data)))
            (DecodeBCD (at_ data 7) * 3600 + DecodeBCD (at_ data 8) * 60
             + DecodeBCD (at_ data 9))
            (Z.land (Z.shiftr (at_ data 10) 5) 0x07)
            (negb (Z.land (Z.shiftr (at_ data 10) 4) 0x01 =? 0))
            (add_memory (descs (events_at Time_default evs (GetUInt16 data)))
               (firstn (Z.to_nat (Z.min (Z.land (GetUInt16 (skipn 10 data)) 0x0FFF)
                                    (Bytes.size (skipn 12 data))))
                  (skipn 12 data))))).
Proof using Type.
  intros H. cbn [EIT.get_events]. rewrite H. reflexivity.
Qed.

(** One turn of the loop of [deserialize] on the bytes written by one turn
    of the loop of [serialize] for an event. *)
Lemma read_chunk (id : Z) (e : Event Time) (seg : DescriptorList.t) (rest : ByteBlock)
    (evs : EventMap Time) :
  bcd_codable ->
  0 <= id < 65536 ->
  0 <= running_status e < 8 ->
  0 <= duration e < 360000 ->
  DecodeMJD (mjd_bytes EncodeMJD (start_time e)) = start_time e ->
  binarySize seg < 4096 ->
  read_events (event_fixed id e ++ loop_bytes e seg ++ rest) evs
  = read_events rest
      (events_set evs id
         (mkEvent (start_time e) (duration e) (running_status e) (CA_controlled e)
            (add_memory (descs (events_at Time_default evs id)) (all_bytes seg)))).
Proof using Type.
  intros Hbcd Hid Hrs Hdur Hmjd Hlen.
  pose proof (binarySize_nonneg seg) as Hnn.
  destruct (duration_parts (duration e) Hdur) as (Hh & Hm & Hs & Hsum).
  unfold EITReading.read_events, EIT.event_fixed, loop_bytes, set_flags.
  pose proof (EITFacts.mjd_bytes_length Time EncodeMJD (start_time e)) as Hml.
  remember (mjd_bytes EncodeMJD (start_time e)) as mjd eqn:Emjd.
  destruct mjd as [|m0 [|m1 [|m2 [|m3 [|m4 [|m5 ms]]]]]]; try discriminate Hml.
  unfold PutUInt16. cbn [app].
  set (f := flags_byte (Z.land (Z.shiftr (uint16 (Z.lor (binarySize seg) 0xF000)) 8) 255)
              (running_status e) (CA_controlled e)).
  set (lo := Z.land (uint16 (Z.lor (binarySize seg) 0xF000)) 255).
  set (b7 := uint8 (EncodeBCD (int32 (Z.quot (duration e) 3600)))).
  set (b8 := uint8 (EncodeBCD (int32 (Z.rem (Z.quot (duration e) 60) 60)))).
  set (b9 := uint8 (EncodeBCD (int32 (Z.rem (duration e) 60)))).
  match goal with
  | |- ?F ?n ?d evs = _ =>
      rewrite (get_events_fuel n (S (List.length d)) d evs) by lia;
      remember (List.length d) as fuel eqn:Efuel
  end.
  assert (Hsize : (Bytes.size
            (Z.land (Z.shiftr id 8) 255 :: Z.land id 255 :: m0 :: m1 :: m2
             :: m3 :: m4 :: b7 :: b8 :: b9 :: f :: lo :: all_bytes seg ++ rest) >=? 12) = true).
  { apply Z.geb_le. rewrite !BytesFacts.size_cons.
    pose proof (BytesFacts.size_nonneg (all_bytes seg ++ rest)). lia. }
  rewrite (get_events_turn _ _ _ Hsize).
  cbn [skipn at_ nth firstn].
  assert (Hget : GetUInt16 (Z.land (Z.shiftr id 8) 255 :: Z.land id 255 :: m0 :: m1 :: m2
                  :: m3 :: m4 :: b7 :: b8 :: b9 :: f :: lo :: all_bytes seg ++ rest) = id)
    by exact (EITFacts.GetUInt16_PutUInt16 id _ Hid).
  rewrite Hget.
  assert (Hinfo : Z.land (GetUInt16 (f :: lo :: all_bytes seg ++ rest)) 0x0FFF
                  = binarySize seg).
  { assert (Hrs' : 0 <= running_status e < 256) by lia.
    exact (EITFacts.loop_length_read _ _ (CA_controlled e) (conj Hnn Hlen) Hrs'). }
  rewrite Hinfo.
  replace (Z.min (binarySize seg) (Bytes.size (all_bytes seg ++ rest)))
    with (binarySize seg)
    by (rewrite BytesFacts.size_app, all_bytes_size;
        pose proof (BytesFacts.size_nonneg rest); lia).
  replace (Z.to_nat (binarySize seg)) with (List.length (all_bytes seg))
    by (rewrite <- all_bytes_size; unfold Bytes.size; lia).
  rewrite skipn_app, skipn_all, Nat.sub_diag. cbn [skipn app].
  rewrite firstn_app, firstn_all, Nat.sub_diag, firstn_O, app_nil_r.
  rewrite Hmjd.
  subst b7 b8 b9.
  rewrite !int32_small by assumption. rewrite !Hbcd by assumption. rewrite Hsum.
  assert (Hhi : 0 <= Z.land (Z.shiftr (uint16 (Z.lor (binarySize seg) 0xF000)) 8) 255 < 256)
    by apply EITFacts.land_255_byte.
  assert (Hrs' : 0 <= running_status e < 256) by lia.
  destruct (EITFacts.flags_byte_bits _ (running_status e) (CA_controlled e) Hhi Hrs')
    as (_ & _ & Hb5 & Hb4 & _).
  fold f in Hb5, Hb4. rewrite Hb5, Hb4, land_7_small by exact Hrs.
  replace (negb ((if CA_controlled e then 1 else 0) =? 0)) with (CA_controlled e)
    by (now destruct (CA_controlled e)).
  apply get_events_fuel; [|lia].
  subst fuel. cbn [List.length]. rewrite length_app. lia.
Qed.


(** *** One turn of the loop of [serialize] *)

(** The descriptor loop written in [size] bytes from [start_index]: some
    descriptors, the next one when it fits. *)
Lemma event_loop_bytes_seg (e : Event Time) (size : Z) (start_index : nat) :
  2 <= size ->
  exists k : nat,
    event_loop_bytes e size start_index
    = (loop_bytes e (firstn k (skipn start_index (descs e))),
       size - 2 - binarySize (firstn k (skipn start_index (descs e))),
       (start_index + k)%nat)
    /\ 0 <= size - 2 - binarySize (firstn k (skipn start_index (descs e)))
    /\ (start_index + k <= Nat.max start_index (List.length (descs e)))%nat
    /\ ((start_index < List.length (descs e))%nat ->
        Descriptor.size (desc (nth start_index (descs e) dummy)) <= size - 2 ->
        (0 < k)%nat).
Proof using Type.
  intros Hsize. unfold event_loop_bytes, lengthSerialize, DescriptorListCodec.serialize.
  destruct (DescriptorListParsingFacts.serialize_from_whole
              (skipn start_index (descs e)) (size - 2) start_index)
    as (k & Hk & Hnext & Hbytes & Hleft & _).
  destruct (serialize_from_progress (skipn start_index (descs e)) (size - 2) start_index
              ltac:(lia)) as [Hnn Hprog].
  destruct (serialize_from (skipn start_index (descs e)) (size - 2) start_index)
    as [[bytes size'] next].
  cbn [fst snd] in *. subst bytes size' next.
  exists k. rewrite all_bytes_size. unfold PutUInt16, loop_bytes. cbn [app].
  split; [f_equal; f_equal; lia|]. split; [lia|].
  rewrite length_skipn in Hk. split; [lia|].
  intros Hlt Hfit.
  assert (Hne : skipn start_index (descs e) <> []).
  { intros Hnil. apply (f_equal (@List.length _)) in Hnil.
    rewrite length_skipn in Hnil. cbn in Hnil. lia. }
  assert (Hhd : hd dummy (skipn start_index (descs e)) = nth start_index (descs e) dummy).
  { rewrite <- (Nat.add_0_r start_index) at 2.
    rewrite <- DescriptorListSearchFacts.nth_skipn_dummy.
    now destruct (skipn start_index (descs e)). }
  specialize (Hprog Hne). rewrite Hhd in Hprog. specialize (Hprog Hfit). lia.
Qed.

Lemma events_at_absent : forall (m : EventMap Time) (id : Z),
  Forall (fun kv => fst kv < id) m -> events_at Time_default m id = Event_default Time_default.
Proof using Type.
  induction m as [|[k x] m IH]; intros id H; [reflexivity|].
  inversion H as [|? ? Hk Hr]; subst. cbn [fst] in Hk. cbn [EIT.events_at].
  replace (k =? id) with false by (symmetry; apply Z.eqb_neq; lia).
  now apply IH.
Qed.

Lemma events_at_last : forall (m : EventMap Time) (id : Z) (x : Event Time),
  Forall (fun kv => fst kv < id) m -> events_at Time_default (m ++ [(id, x)]) id = x.
Proof using Type.
  induction m as [|[k y] m IH]; intros id x H.
  - cbn. now rewrite Z.eqb_refl.
  - inversion H as [|? ? Hk Hr]; subst. cbn [fst] in Hk. cbn [app EIT.events_at].
    replace (k =? id) with false by (symmetry; apply Z.eqb_neq; lia).
    now apply IH.
Qed.

Lemma events_set_last : forall (m : EventMap Time) (id : Z) (x y : Event Time),
  Forall (fun kv => fst kv < id) m ->
  events_set (m ++ [(id, y)]) id x = m ++ [(id, x)].
Proof using Type.
  induction m as [|[k z] m IH]; intros id x y H.
  - cbn. now rewrite Z.ltb_irrefl, Z.eqb_refl.
  - inversion H as [|? ? Hk Hr]; subst. cbn [fst] in Hk. cbn [app EIT.events_set].
    replace (id <? k) with false by (symmetry; apply Z.ltb_ge; lia).
    replace (id =? k) with false by (symmetry; apply Z.eqb_neq; lia).
    now rewrite IH.
Qed.

Variable self : EIT.t Time.

Lemma fixed_part_length : List.length (fixed_part self) = 6%nat.
Proof using Type. reflexivity. Qed.

Lemma buffer_ok_size (b : Buffer) : buffer_ok self b -> 6 <= Bytes.size (data b).
Proof using Type.
  intros (Hfix & _). apply (f_equal (@List.length _)) in Hfix.
  rewrite length_firstn, fixed_part_length in Hfix. unfold Bytes.size. lia.
Qed.

(** [addSection] closes the buffer into a section of the table and
    leaves a buffer that holds the six fixed bytes. *)
Lemma addSection_ok (b : Buffer) :
  6 <= MAX -> buffer_ok self b ->
  buffer_ok self (addSection self b)
  /\ remain (addSection self b) = MAX - 6
  /\ data (addSection self b) = fixed_part self.
Proof using Type.
  intros Hmax Hok. pose proof (buffer_ok_size b Hok) as Hsz.
  destruct Hok as (Hfix & Hrem & Hnn & Hsec).
  unfold addSection, EITReading.buffer_ok. cbn [table data remain section_number].
  rewrite Hfix. split; [|split; [lia|reflexivity]].
  split; [reflexivity|]. split; [change (Bytes.size (fixed_part self)) with 6; lia|].
  split; [lia|]. apply Forall_app. split; [exact Hsec|].
  constructor; [|constructor].
  unfold EITReading.section_of.
  cbn [sect_tableId sect_isPrivate sect_tableIdExtension sect_version sect_isCurrent
       sect_lastSectionNumber sect_sectionNumber sect_payload].
  repeat (split; [reflexivity|]). split; [exact Hfix|lia].
Qed.

Lemma read_payloads_snoc (payloads : list ByteBlock) (payload : ByteBlock) :
  read_payloads (payloads ++ [payload])
  = read_events (skipn 6 payload) (read_payloads payloads).
Proof using Type.
  unfold EITReading.read_payloads, EITReading.read_events.
  rewrite fold_left_app. cbn [fold_left].
  apply get_events_fuel; rewrite ?length_skipn; lia.
Qed.

Lemma addSection_reads (b : Buffer) (m : EventMap Time) :
  buffer_ok self b -> buffer_reads b m -> buffer_reads (addSection self b) m.
Proof using Type.
  intros Hok Hreads rest. destruct Hok as (Hfix & _).
  unfold addSection. cbn [table data].
  rewrite map_app. cbn [map sect_payload]. rewrite read_payloads_snoc.
  specialize (Hreads []). rewrite app_nil_r in Hreads. rewrite Hreads.
  rewrite Hfix. change (skipn 6 (fixed_part self)) with (@nil Z). cbn [app].
  reflexivity.
Qed.


Lemma loop_bytes_size (e : Event Time) (seg : DescriptorList.t) :
  Bytes.size (loop_bytes e seg) = 2 + binarySize seg.
Proof using Type.
  unfold loop_bytes. rewrite !BytesFacts.size_cons, all_bytes_size. lia.
Qed.

Lemma truncated_all (e : Event Time) : truncated e (List.length (descs e)) = e.
Proof using Type. unfold truncated. rewrite firstn_all. now destruct e. Qed.

(** Appending the bytes of one turn to the buffer. *)
Lemma write_chunk_ok (b : Buffer) (id : Z) (e : Event Time) (seg : DescriptorList.t) :
  buffer_ok self b ->
  0 <= remain b - 12 - binarySize seg ->
  buffer_ok self
    (mkBuffer (table b) (section_number b) (data b ++ event_fixed id e ++ loop_bytes e seg)
       (remain b - 10 - 2 - binarySize seg)).
Proof using Type.
  intros Hok Hroom. pose proof (buffer_ok_size b Hok) as Hsz.
  destruct Hok as (Hfix & Hrem & Hnn & Hsec).
  unfold EITReading.buffer_ok. cbn [table data remain].
  split; [|split; [|split; [lia|exact Hsec]]].
  - rewrite firstn_app. unfold Bytes.size in Hsz.
    replace (6 - List.length (data b))%nat with O by lia.
    now rewrite firstn_O, app_nil_r.
  - rewrite !BytesFacts.size_app, EITFacts.event_fixed_size, loop_bytes_size. lia.
Qed.

Lemma write_chunk_reads (b : Buffer) (id : Z) (e : Event Time) (seg : DescriptorList.t)
    (cur : EventMap Time) (n : Z) :
  buffer_ok self b ->
  bcd_codable -> event_codable (id, e) -> binarySize seg < 4096 ->
  buffer_reads b cur ->
  buffer_reads
    (mkBuffer (table b) (section_number b) (data b ++ event_fixed id e ++ loop_bytes e seg) n)
    (events_set cur id
       (mkEvent (start_time e) (duration e) (running_status e) (CA_controlled e)
          (add_memory (descs (events_at Time_default cur id)) (all_bytes seg)))).
Proof using Type.
  intros Hok Hbcd (Hid & Hrs & Hdur & Hmjd & _) Hlen Hreads rest.
  pose proof (buffer_ok_size b Hok) as Hsz. cbn [fst snd] in *.
  cbn [table data]. rewrite skipn_app. unfold Bytes.size in Hsz.
  replace (6 - List.length (data b))%nat with O by lia. cbn [skipn].
  rewrite <- !app_assoc. rewrite Hreads.
  now apply read_chunk.
Qed.

(** The loop of [serialize] on one event ends, and what it writes is read
    back as the event. *)
Lemma event_chunks_ok (id : Z) (e : Event Time) :
  275 <= MAX ->
  Forall holds_consistent (descs e) ->
  forall (fuel : nat) (starting : bool) (i : nat) (b : Buffer),
  buffer_ok self b ->
  (i <= List.length (descs e))%nat ->
  (if starting then i = O /\ 12 <= remain b
   else (i < List.length (descs e))%nat -> remain b = MAX - 6) ->
  (List.length (descs e) - i + (if starting then 2 else 1) <= fuel)%nat ->
  exists b' : Buffer,
    event_chunks fuel self id e starting i b = Some b'
    /\ buffer_ok self b'
    /\ (bcd_codable -> event_codable (id, e) -> MAX <= 4113 ->
        forall m : EventMap Time,
        Forall (fun kv => fst kv < id) m ->
        buffer_reads b (if starting then m else m ++ [(id, truncated e i)]) ->
        buffer_reads b' (m ++ [(id, e)])).
Proof using Type.
  intros Hmax Hcons.
  induction fuel as [|fuel IH]; intros starting i b Hok Hi Hpre Hfuel.
  { destruct starting; lia. }
  cbn [EIT.event_chunks].
  destruct (starting || (i <? List.length (descs e))%nat) eqn:Econd.
  2:{ apply orb_false_iff in Econd. destruct Econd as [-> Ei].
      apply Nat.ltb_ge in Ei. assert (i = List.length (descs e)) by lia. subst i.
      exists b. split; [reflexivity|]. split; [exact Hok|].
      intros _ _ _ m _ Hreads. now rewrite truncated_all in Hreads. }
  set (b1 := if starting && (12 + binarySize (descs e) >? remain b)
             then addSection self b else b).
  assert (H1 : buffer_ok self b1 /\ 12 <= remain b1
               /\ (remain b1 = MAX - 6 \/ (i = O /\ 12 + binarySize (descs e) <= remain b1))
               /\ forall cur, buffer_reads b cur -> buffer_reads b1 cur).
  { subst b1. destruct starting; cbn [andb orb] in *.
    - destruct Hpre as [Hi0 Hroom].
      destruct (12 + binarySize (descs e) >? remain b) eqn:Ebig.
      + destruct (addSection_ok b ltac:(lia) Hok) as (Hok' & Hrem' & _).
        split; [exact Hok'|]. split; [lia|]. split; [now left|].
        intros cur. now apply addSection_reads.
      + rewrite Z.gtb_ltb in Ebig. apply Z.ltb_ge in Ebig.
        split; [exact Hok|]. split; [exact Hroom|]. split; [right; now split|].
        intros cur H. exact H.
    - apply Nat.ltb_lt in Econd. specialize (Hpre Econd).
      split; [exact Hok|]. split; [lia|]. split; [now left|]. intros cur H. exact H. }
  destruct H1 as (Hok1 & Hroom1 & Hcase & Hreads1).
  replace (remain b1 <? 12) with false by (symmetry; apply Z.ltb_ge; lia).
  destruct (event_loop_bytes_seg e (remain b1 - 10) i ltac:(lia))
    as (k & Hloop & Hnn & Hle & Hprog).
  rewrite Hloop.
  set (seg := firstn k (skipn i (descs e))) in *.
  assert (Hk : ((i < List.length (descs e))%nat -> (0 < k)%nat)).
  { intros Hlt. apply Hprog; [exact Hlt|].
    destruct Hcase as [Hfresh|[Hi0 Hfits]].
    - assert (Hin : holds_consistent (nth i (descs e) dummy)).
      { rewrite Forall_forall in Hcons. apply Hcons, nth_In, Hlt. }
      apply holds_consistent_size in Hin. lia.
    - subst i. destruct (descs e) as [|x D']; [cbn in Hlt; lia|].
      cbn [nth]. rewrite binarySize_cons in Hfits.
      pose proof (binarySize_nonneg D'). lia. }
  assert (Hok2 : buffer_ok self
            (mkBuffer (table b1) (section_number b1)
               (data b1 ++ event_fixed id e ++ loop_bytes e seg)
               (remain b1 - 10 - 2 - binarySize seg)))
    by (apply write_chunk_ok; [exact Hok1|lia]).
  set (b2 := mkBuffer (table b1) (section_number b1)
               (data b1 ++ event_fixed id e ++ loop_bytes e seg)
               (remain b1 - 10 - 2 - binarySize seg)) in *.
  set (b3 := if (i + k <? List.length (descs e))%nat then addSection self b2 else b2).
  assert (H3 : buffer_ok self b3
               /\ ((i + k < List.length (descs e))%nat -> remain b3 = MAX - 6)
               /\ forall cur, buffer_reads b2 cur -> buffer_reads b3 cur).
  { subst b3. destruct (i + k <? List.length (descs e))%nat eqn:Enext.
    - destruct (addSection_ok b2 ltac:(lia) Hok2) as (Hok' & Hrem' & _).
      split; [exact Hok'|]. split; [intros _; exact Hrem'|].
      intros cur. now apply addSection_reads.
    - apply Nat.ltb_ge in Enext. split; [exact Hok2|]. split; [lia|].
      intros cur H. exact H. }
  destruct H3 as (Hok3 & Hrem3 & Hreads3).
  destruct (IH false (i + k)%nat b3 Hok3) as (b' & Hrun & Hok' & Hreads').
  { lia. }
  { exact Hrem3. }
  { destruct starting.
    - destruct Hpre as [-> _]. lia.
    - cbn [orb] in Econd. apply Nat.ltb_lt in Econd. specialize (Hk Econd). lia. }
  exists b'. split; [exact Hrun|]. split; [exact Hok'|].
  intros Hbcd Hcod Hmax' m Hkeys Hreads.
  apply (Hreads' Hbcd Hcod Hmax' m Hkeys). apply Hreads3.
  assert (Hlen : binarySize seg < 4096).
  { pose proof (buffer_ok_size b1 Hok1). destruct Hok1 as (_ & Hrem1 & _). lia. }
  pose proof Hcod as (Hid & Hrs & Hdur & Hmjd & _ & Hscoped). cbn [fst snd] in *.
  assert (Hseg : Forall holds_consistent seg) by (now apply Forall_firstn_skipn).
  pose proof (write_chunk_reads b1 id e seg _ (remain b1 - 10 - 2 - binarySize seg)
                Hok1 Hbcd Hcod Hlen (Hreads1 _ Hreads)) as Hw.
  fold b2 in Hw.
  destruct starting.
  - destruct Hpre as [-> _]. cbn [Nat.add] in *.
    rewrite events_at_absent in Hw by exact Hkeys.
    cbn [descs EIT.Event_default] in Hw.
    rewrite add_memory_all_bytes in Hw; [|exact Hseg|].
    + rewrite EITFacts.events_set_append in Hw by exact Hkeys. exact Hw.
    + cbn [app]. subst seg. cbn [skipn]. now apply scoped_firstn.
  - rewrite events_at_last in Hw by exact Hkeys.
    cbn [descs truncated] in Hw.
    rewrite add_memory_all_bytes in Hw; [|exact Hseg|].
    + rewrite events_set_last in Hw by exact Hkeys.
      subst seg. rewrite firstn_add in Hw. exact Hw.
    + subst seg. rewrite firstn_add. now apply scoped_firstn.
Qed.

(** The loop of [serialize] on the events. *)
Lemma add_events_ok : forall (evs : EventMap Time) (b : Buffer),
  275 <= MAX ->
  descriptors_consistent evs ->
  buffer_ok self b ->
  exists b' : Buffer,
    add_events self evs b = Some b'
    /\ buffer_ok self b'
    /\ (bcd_codable -> Forall event_codable evs -> MAX <= 4113 ->
        forall (m : EventMap Time) (lo : Z),
        Forall (fun kv => fst kv <= lo) m ->
        ascending lo (map fst evs) ->
        buffer_reads b m -> buffer_reads b' (m ++ evs)).
Proof using Type.
  induction evs as [|[id e] evs IH]; intros b Hmax Hcons Hok.
  - exists b. split; [reflexivity|]. split; [exact Hok|].
    intros _ _ _ m lo _ _ H. now rewrite app_nil_r.
  - inversion Hcons as [|? ? He Hrest]; subst. cbn [snd] in He.
    cbn [EIT.add_events].
    set (b0 := if remain b <? 12 then addSection self b else b).
    assert (H0 : buffer_ok self b0 /\ 12 <= remain b0
                 /\ forall cur, buffer_reads b cur -> buffer_reads b0 cur).
    { subst b0. destruct (remain b <? 12) eqn:E.
      - assert (Hmax6 : 6 <= MAX) by lia.
        destruct (addSection_ok b Hmax6 Hok) as (Hok' & Hrem' & _).
        split; [exact Hok'|]. split; [lia|]. intros cur. now apply addSection_reads.
      - apply Z.ltb_ge in E. split; [exact Hok|]. split; [exact E|].
        intros cur H. exact H. }
    destruct H0 as (Hok0 & Hroom0 & Hreads0).
    assert (Hi0 : (0 <= List.length (descs e))%nat) by lia.
    assert (Hfuel : (List.length (descs e) - 0 + 2 <= S (S (List.length (descs e))))%nat)
      by lia.
    destruct (event_chunks_ok id e Hmax He (S (S (List.length (descs e)))) true O b0
                Hok0 Hi0 (conj eq_refl Hroom0) Hfuel)
      as (b1 & Hrun1 & Hok1 & Hreads1).
    rewrite Hrun1.
    destruct (IH b1 Hmax Hrest Hok1) as (b' & Hrun & Hok' & Hreads').
    exists b'. split; [exact Hrun|]. split; [exact Hok'|].
    intros Hbcd Hcod Hmax' m lo Hkeys Hasc Hreads.
    inversion Hcod as [|? ? Hev Hcod']; subst.
    cbn [map fst EIT.ascending] in Hasc. destruct Hasc as [Hlt Hasc].
    assert (Hkeys' : Forall (fun kv : Z * Event Time => fst kv < id) m)
      by (eapply Forall_impl; [|exact Hkeys]; cbn beta; intros; lia).
    replace (m ++ (id, e) :: evs) with ((m ++ [(id, e)]) ++ evs)
      by (now rewrite <- app_assoc).
    apply (Hreads' Hbcd Hcod' Hmax' (m ++ [(id, e)]) id).
    + apply Forall_app. split.
      * eapply Forall_impl; [|exact Hkeys]. cbn beta. intros. lia.
      * constructor; [cbn; lia|constructor].
    + exact Hasc.
    + apply (Hreads1 Hbcd Hev Hmax' m Hkeys'). now apply Hreads0.
Qed.

(** [serialize] as a whole. *)
Lemma serialize_ok :
  _is_valid self = true ->
  275 <= MAX ->
  descriptors_consistent (events self) ->
  exists sections : list Section,
    serialize self = Some sections
    /\ sections <> []
    /\ Forall (section_of self) sections
    /\ (bcd_codable -> Forall event_codable (events self) -> MAX <= 4113 ->
        ascending (-1) (map fst (events self)) ->
        read_payloads (map sect_payload sections) = events self).
Proof using Type.
  intros Hvalid Hmax Hcons. unfold EIT.serialize. rewrite Hvalid. cbn [negb].
  set (b := mkBuffer [] 0 (fixed_part self) (MAX - 6)).
  assert (Hok : buffer_ok self b).
  { unfold EITReading.buffer_ok. unfold b. cbn [data remain table].
    split; [reflexivity|]. split; [reflexivity|]. split; [lia|constructor]. }
  assert (Hreads : buffer_reads b []).
  { intros rest. reflexivity. }
  destruct (add_events_ok (events self) b Hmax Hcons Hok) as (b' & Hrun & Hok' & Hreads').
  rewrite Hrun.
  destruct ((Bytes.size (data b') >? 6) || (List.length (table b') =? 0)%nat) eqn:Elast.
  - assert (Hmax6 : 6 <= MAX) by lia.
    destruct (addSection_ok b' Hmax6 Hok') as (Hok'' & _ & Hdata).
    eexists. split; [reflexivity|]. split.
    + unfold addSection. cbn [table]. intros Hnil. now apply app_eq_nil in Hnil.
    + split; [exact (proj2 (proj2 (proj2 Hok'')))|].
      intros Hbcd Hcod Hmax' Hasc.
      pose proof (addSection_reads b' _ Hok'
                    (Hreads' Hbcd Hcod Hmax' [] (-1) (Forall_nil _) Hasc Hreads) []) as H.
      rewrite Hdata in H. cbn [app skipn] in H.
      change (skipn 6 (fixed_part self)) with (@nil Z) in H.
      rewrite !read_events_short in H by (cbn; lia). exact H.
  - apply orb_false_iff in Elast. destruct Elast as [Esz Elen].
    rewrite Z.gtb_ltb in Esz. apply Z.ltb_ge in Esz. apply Nat.eqb_neq in Elen.
    eexists. split; [reflexivity|]. split.
    + intros Hnil. rewrite Hnil in Elen. now apply Elen.
    + split; [exact (proj2 (proj2 (proj2 Hok')))|].
      intros Hbcd Hcod Hmax' Hasc.
      pose proof (Hreads' Hbcd Hcod Hmax' [] (-1) (Forall_nil _) Hasc Hreads []) as H.
      pose proof (buffer_ok_size b' Hok') as Hsz.
      rewrite skipn_all2 in H by (unfold Bytes.size in *; lia).
      cbn [app] in H. rewrite !read_events_short in H by (cbn; lia). exact H.
Qed.

(** On a valid table whose descriptors are consistent blocks, [serialize]
    returns: the loop on the descriptors of an event ends and no
    assertion fails, as soon as a section has room for the fixed part, the
    fixed part of an event and one descriptor.  It returns at least one
    section; every section carries the identification of the table, is
    the last of its numbering and has a payload that starts with the six
    fixed bytes and is not larger than the buffer. *)
Theorem serialize_returns_sections :
  _is_valid self = true ->
  275 <= MAX ->
  descriptors_consistent (events self) ->
  exists sections : list Section,
    serialize self = Some sections
    /\ sections <> []
    /\ Forall (section_of self) sections.
Proof using Type Time_default DecodeMJD DecodeBCD.
  intros Hvalid Hmax Hcons.
  destruct (serialize_ok Hvalid Hmax Hcons) as (sections & Hrun & Hne & Hsec & _).
  exists sections. split; [exact Hrun|]. split; [exact Hne|exact Hsec].
Qed.

(** *** The loop of [deserialize] on the sections *)

Variable TID_EIT_MIN : Z.
Variable TID_EIT_MAX : Z.

Local Abbreviation get_sections := (EIT.get_sections Time_default DecodeMJD DecodeBCD).
Local Abbreviation deserialize :=
  (EIT.deserialize Time_default DecodeMJD DecodeBCD TID_EIT_MIN TID_EIT_MAX).

Lemma payload_fixed (payload : ByteBlock) :
  firstn 6 payload = fixed_part self ->
  payload = PutUInt16 (ts_id self) ++ PutUInt16 (onetw_id self)
            ++ [segment_last self; last_table_id self] ++ skipn 6 payload.
Proof using Type.
  intros H. rewrite <- (firstn_skipn 6 payload) at 1. rewrite H.
  unfold fixed_part. now rewrite <- !app_assoc.
Qed.

Lemma get_sections_reads : forall (sections : list Section) (acc : EIT.t Time),
  Forall (section_of self) sections ->
  _table_id acc = _table_id self ->
  0 <= ts_id self < 65536 -> 0 <= onetw_id self < 65536 ->
  get_sections acc sections
  = (true,
     match sections with
     | [] => acc
     | _ :: _ =>
         mk (_is_valid acc) (_table_id acc) (version self) (is_current self)
           (service_id self) (ts_id self) (onetw_id self) (segment_last self)
           (last_table_id self)
           (fold_left (fun evs payload =>
                         get_events (List.length payload) (skipn 6 payload) evs)
              (map sect_payload sections) (events acc))
     end).
Proof using Type.
  induction sections as [|s sections IH]; intros acc Hsec Htid Hts Hon; [reflexivity|].
  inversion Hsec as [|? ? Hs Hrest]; subst.
  destruct Hs as (Hid & _ & Hext & Hver & Hcur & _ & Hfix & _).
  cbn [EIT.get_sections]. rewrite Hid, <- Htid, Z.eqb_refl. cbn [negb].
  assert (Hsz : 6 <= Bytes.size (sect_payload s)).
  { apply (f_equal (@List.length _)) in Hfix.
    rewrite length_firstn, fixed_part_length in Hfix. unfold Bytes.size. lia. }
  replace (Bytes.size (sect_payload s) <? 6) with false
    by (symmetry; apply Z.ltb_ge; lia).
  cbn [_is_valid _table_id version is_current service_id events].
  assert (Hts' : GetUInt16 (sect_payload s) = ts_id self).
  { rewrite (payload_fixed _ Hfix). now apply EITFacts.GetUInt16_PutUInt16. }
  assert (Hon' : GetUInt16 (skipn 2 (sect_payload s)) = onetw_id self).
  { rewrite (payload_fixed _ Hfix). unfold PutUInt16 at 1. cbn [app skipn].
    now apply EITFacts.GetUInt16_PutUInt16. }
  assert (H4 : at_ (sect_payload s) 4 = segment_last self
               /\ at_ (sect_payload s) 5 = last_table_id self).
  { rewrite (payload_fixed _ Hfix). unfold PutUInt16, at_. cbn [app nth]. now split. }
  destruct H4 as [H4 H5]. rewrite Hts', Hon', H4, H5, Hext, Hver, Hcur.
  rewrite IH; [|exact Hrest|exact Htid|exact Hts|exact Hon].
  cbn [_is_valid _table_id events map fold_left].
  destruct sections; reflexivity.
Qed.

(** Serialising a table that the binary form can hold and deserialising
    the sections gives the table back, whether its events fit in one
    section or have their descriptors spread over several sections, and
    whatever the object that [deserialize] fills held before. *)
Theorem eit_deserialize_serialize (other : EIT.t Time) :
  table_codable EncodeMJD DecodeMJD self ->
  bcd_codable ->
  275 <= MAX <= 4113 ->
  TID_EIT_MIN <= _table_id self <= TID_EIT_MAX ->
  exists sections : list Section,
    serialize self = Some sections
    /\ deserialize other (mkTable true (_table_id self) sections) = self.
Proof using Type.
  intros (Hvalid & Hts & Hon & Hasc & Hcod) Hbcd [Hmin Hmax] Htid.
  assert (Hcons : descriptors_consistent (events self)).
  { unfold EITReading.descriptors_consistent. eapply Forall_impl; [|exact Hcod].
    intros ev (_ & _ & _ & _ & H & _). exact H. }
  destruct (serialize_ok Hvalid Hmin Hcons) as (sections & Hrun & Hne & Hsec & Hread).
  exists sections. split; [exact Hrun|].
  specialize (Hread Hbcd Hcod Hmax Hasc).
  unfold EIT.deserialize. cbn [table_isValid table_tableId table_sections negb].
  replace ((_table_id self <? TID_EIT_MIN) || (_table_id self >? TID_EIT_MAX))
    with false
    by (symmetry; apply orb_false_iff; split;
        [apply Z.ltb_ge; lia|rewrite Z.gtb_ltb; apply Z.ltb_ge; lia]).
  rewrite get_sections_reads; [|exact Hsec|reflexivity|exact Hts|exact Hon].
  destruct sections as [|s sections]; [congruence|].
  cbn [_is_valid _table_id version is_current service_id ts_id onetw_id segment_last
       last_table_id events].
  unfold EITReading.read_payloads in Hread. rewrite Hread.
  destruct self. cbn [EIT._is_valid] in Hvalid. now rewrite Hvalid.
Qed.

End Reading.

(** *** The table with one event of five 257-byte descriptors *)

Lemma scenario_bcd_codable :
  bcd_codable EITScenario.EncodeBCD EITScenario.DecodeBCD.
Proof.
  intros x Hx.
  pose proof (BytesFacts.forall_below_sound 100
                (fun x => EITScenario.DecodeBCD (uint8 (EITScenario.EncodeBCD x)) =? x)
                ltac:(vm_compute; reflexivity) x Hx) as E.
  now apply Z.eqb_eq in E.
Qed.

Lemma eit_long_event_consistent :
  Forall holds_consistent (descs (snd (hd (0, mkEvent 0 0 0 false [])
                                        (events EITScenario.eit_long_event)))).
Proof.
  repeat constructor; cbn; lia.
Qed.

Lemma eit_long_event_codable :
  table_codable EITScenario.EncodeMJD EITScenario.DecodeMJD EITScenario.eit_long_event.
Proof.
  split; [reflexivity|]. split; [cbn; lia|]. split; [cbn; lia|].
  split; [cbn; lia|]. constructor; [|constructor].
  split; [cbn; lia|]. split; [cbn; lia|]. split; [cbn; lia|].
  split; [vm_compute; reflexivity|]. split; [exact eit_long_event_consistent|].
  vm_compute. intuition congruence.
Qed.

(** The event of five 257-byte descriptors is sent in two sections. *)
Lemma serialize_returns_sections_witness :
  exists sections : list Section,
    EIT.serialize EITScenario.EncodeMJD EITScenario.EncodeBCD
      EITScenario.MAX_PSI_LONG_SECTION_PAYLOAD_SIZE EITScenario.eit_long_event
    = Some sections
    /\ sections <> []
    /\ Forall (section_of EITScenario.MAX_PSI_LONG_SECTION_PAYLOAD_SIZE
                 EITScenario.eit_long_event) sections.
Proof.
  apply (serialize_returns_sections Z 0 EITScenario.EncodeMJD EITScenario.DecodeMJD
           EITScenario.EncodeBCD EITScenario.DecodeBCD
           EITScenario.MAX_PSI_LONG_SECTION_PAYLOAD_SIZE EITScenario.eit_long_event).
  - reflexivity.
  - unfold EITScenario.MAX_PSI_LONG_SECTION_PAYLOAD_SIZE. lia.
  - constructor; [exact eit_long_event_consistent|constructor].
Defined.

(** The event of five 257-byte descriptors comes back from its two
    sections, in an object that held the table of 120 events. *)
Lemma eit_deserialize_serialize_witness :
  exists sections : list Section,
    EIT.serialize EITScenario.EncodeMJD EITScenario.EncodeBCD
      EITScenario.MAX_PSI_LONG_SECTION_PAYLOAD_SIZE EITScenario.eit_long_event
    = Some sections
    /\ EIT.deserialize 0 EITScenario.DecodeMJD EITScenario.DecodeBCD
         EITScenario.TID_EIT_MIN EITScenario.TID_EIT_MAX EITScenario.eit_120
         (mkTable true (_table_id EITScenario.eit_long_event) sections)
       = EITScenario.eit_long_event.
Proof.
  apply (eit_deserialize_serialize Z 0 EITScenario.EncodeMJD EITScenario.DecodeMJD
           EITScenario.EncodeBCD EITScenario.DecodeBCD
           EITScenario.MAX_PSI_LONG_SECTION_PAYLOAD_SIZE EITScenario.eit_long_event
           EITScenario.TID_EIT_MIN EITScenario.TID_EIT_MAX EITScenario.eit_120).
  - exact eit_long_event_codable.
  - exact scenario_bcd_codable.
  - unfold EITScenario.MAX_PSI_LONG_SECTION_PAYLOAD_SIZE. lia.
  - cbn. unfold EITScenario.TID_EIT_MIN, EITScenario.TID_EIT_MAX. lia.
Defined.

End EITReadingFacts.

Module EITTableIdFacts.
Import EIT EITTableId.

Lemma land_15_range (x : Z) : 0 <= Z.land x 0x0F < 16.
Proof.
  change 0x0F with (Z.ones 4). rewrite Z.land_ones by lia.
  apply Z.mod_pos_bound. lia.
Qed.

Section TableId.

Variable Time : Type.
Variable PF_ACT PF_OTH S_ACT_MIN S_ACT_MAX S_OTH_MIN : Z.
Variable isPresentFollowing : EIT.t Time -> bool.

Local Abbreviation ComputeTableId := (ComputeTableId PF_ACT PF_OTH S_ACT_MIN S_OTH_MIN).
Local Abbreviation init := (init Time PF_ACT PF_OTH S_ACT_MIN S_OTH_MIN).
Local Abbreviation isActual := (isActual Time PF_ACT S_ACT_MIN S_ACT_MAX).
Local Abbreviation setActual :=
  (setActual Time PF_ACT PF_OTH S_ACT_MIN S_OTH_MIN isPresentFollowing).
Local Abbreviation tid_layout := (tid_layout PF_ACT PF_OTH S_ACT_MIN S_ACT_MAX S_OTH_MIN).

Hypothesis layout : tid_layout.

(** A table id built from one of the two bases of the schedules. *)
Lemma schedule_id (actual : bool) (x : Z) :
  uint8 ((if actual then S_ACT_MIN else S_OTH_MIN) + Z.land x 0x0F)
  = (if actual then S_ACT_MIN else S_OTH_MIN) + Z.land x 0x0F.
Proof using layout.
  destruct layout as (H1 & H2 & H3 & H4 & H5).
  pose proof (land_15_range x). unfold uint8.
  apply Z.mod_small. destruct actual; lia.
Qed.

Lemma isActual_id (self : EIT.t Time) (actual : bool) (x : Z) :
  _table_id self = (if actual then S_ACT_MIN else S_OTH_MIN) + Z.land x 0x0F ->
  isActual self = actual.
Proof using layout.
  destruct layout as (H1 & H2 & H3 & H4 & H5).
  pose proof (land_15_range x) as Hx. intros E.
  unfold EITTableId.isActual. rewrite E. destruct actual.
  - apply orb_true_iff. right. apply andb_true_iff. split.
    + apply Z.geb_le. lia.
    + apply Z.leb_le. lia.
  - apply orb_false_iff. split.
    + apply Z.eqb_neq. lia.
    + apply andb_false_iff. right. apply Z.leb_gt. lia.
Qed.

Lemma isActual_pf (self : EIT.t Time) (actual : bool) :
  _table_id self = (if actual then PF_ACT else PF_OTH) ->
  isActual self = actual.
Proof using layout.
  destruct layout as (H1 & H2 & H3 & H4 & H5). intros E.
  unfold EITTableId.isActual. rewrite E. destruct actual.
  - now rewrite Z.eqb_refl.
  - apply orb_false_iff. split.
    + apply Z.eqb_neq. lia.
    + apply andb_false_iff. left. rewrite Z.geb_leb. apply Z.leb_gt. lia.
Qed.

(** The table built by the constructor is actual exactly when it was
    asked to be, and [setActual] makes [isActual] return what it was
    given, whatever the table id before.  On a table that is not
    present/following, [setActual] keeps the four lower bits of the table
    id and moves it to the base of the actual or of the other schedules;
    the last table id is set in the range of the actual schedules in
    both cases. *)
Theorem setActual_isActual (self : EIT.t Time) (is_actual : bool) :
  (forall (is_pf : bool) (eits_index version : Z) (is_current : bool)
          (service_id ts_id onetw_id : Z),
     isActual (init is_actual is_pf eits_index version is_current
                 service_id ts_id onetw_id) = is_actual)
  /\ isActual (setActual self is_actual) = is_actual
  /\ (isPresentFollowing self = false ->
      _table_id (setActual self is_actual)
      = (if is_actual then S_ACT_MIN else S_OTH_MIN) + Z.land (_table_id self) 0x0F
      /\ S_ACT_MIN <= last_table_id (setActual self is_actual) <= S_ACT_MAX).
Proof using layout.
  split; [|split].
  - intros is_pf eits_index version is_current service_id ts_id onetw_id.
    destruct is_pf.
    + apply isActual_pf. reflexivity.
    + apply (isActual_id _ _ eits_index). cbn [EITTableId.init _table_id].
      unfold EITTableId.ComputeTableId. apply schedule_id.
  - unfold EITTableId.setActual. destruct (isPresentFollowing self).
    + apply isActual_pf. reflexivity.
    + destruct is_actual.
      * apply (isActual_id _ true (_table_id self)). apply (schedule_id true).
      * apply (isActual_id _ false (_table_id self)). apply (schedule_id false).
  - intros Hpf. unfold EITTableId.setActual. rewrite Hpf.
    destruct layout as (H1 & H2 & H3 & H4 & H5).
    pose proof (land_15_range (last_table_id self)) as Hl.
    destruct is_actual; cbn [set_table_ids _table_id last_table_id];
      rewrite (schedule_id true (last_table_id self)).
    + rewrite (schedule_id true). split; [reflexivity|lia].
    + rewrite (schedule_id false). split; [reflexivity|lia].
Qed.

End TableId.

(** With the table ids of the DVB standard, a schedule table of the
    actual stream made a table of the other streams. *)
Lemma setActual_isActual_witness :
  isActual Z 0x4E 0x50 0x5F
    (setActual Z 0x4E 0x4F 0x50 0x60
       (fun self => (_table_id self =? 0x4E) || (_table_id self =? 0x4F))
       EITScenario.eit_120 false) = false.
Proof.
  apply (setActual_isActual Z 0x4E 0x4F 0x50 0x5F 0x60
           (fun self => (_table_id self =? 0x4E) || (_table_id self =? 0x4F))
           ltac:(unfold tid_layout; lia) EITScenario.eit_120 false).
Defined.

End EITTableIdFacts.

Module PCRVerifyRunFacts.
Import PCRVerifyPlugin PCRVerifyRun.

(** *** Distinct values of a list *)

Lemma filter_other_absent (p : Z) (l : list Z) :
  ~ In p l -> filter (fun q => negb (q =? p)) l = l.
Proof.
  induction l as [|a l IH]; intros H; [reflexivity|].
  cbn [filter]. destruct (Z.eqb_spec a p) as [->|Hne].
  - exfalso. apply H. now left.
  - cbn [negb]. rewrite IH; [reflexivity|]. intros Hin. apply H. now right.
Qed.

Lemma nodup_without (p : Z) (l : list Z) :
  In p l ->
  List.length (nodup Z.eq_dec l)
  = S (List.length (nodup Z.eq_dec (filter (fun q => negb (q =? p)) l))).
Proof.
  induction l as [|a l IH]; intros Hin; [contradiction|].
  cbn [filter]. destruct (Z.eqb_spec a p) as [->|Hne]; cbn [negb].
  - cbn [nodup]. destruct (in_dec Z.eq_dec p l) as [Hl|Hl].
    + now apply IH.
    + rewrite filter_other_absent by exact Hl. reflexivity.
  - assert (Hl : In p l) by (destruct Hin as [E|Hl]; [congruence|exact Hl]).
    cbn [nodup].
    destruct (in_dec Z.eq_dec a l) as [Ha|Ha];
      destruct (in_dec Z.eq_dec a (filter (fun q => negb (q =? p)) l)) as [Hb|Hb].
    + now apply IH.
    + exfalso. apply Hb. apply filter_In. split; [exact Ha|].
      apply negb_true_iff. now apply Z.eqb_neq.
    + exfalso. apply Ha. apply filter_In in Hb. tauto.
    + cbn [List.length]. f_equal. now apply IH.
Qed.

Lemma nodup_first (p : Z) (l : list Z) :
  List.length (nodup Z.eq_dec (p :: l))
  = S (List.length (nodup Z.eq_dec (filter (fun q => negb (q =? p)) l))).
Proof.
  cbn [nodup]. destruct (in_dec Z.eq_dec p l) as [Hl|Hl].
  - now apply nodup_without.
  - rewrite filter_other_absent by exact Hl. reflexivity.
Qed.

Lemma filter_filter (f g : Z -> bool) (l : list Z) :
  filter (fun q => f q && g q) l = filter f (filter g l).
Proof.
  induction l as [|a l IH]; [reflexivity|].
  cbn [filter]. destruct (g a); cbn [filter].
  - rewrite andb_true_r. destruct (f a); now rewrite IH.
  - rewrite andb_false_r. exact IH.
Qed.

(** *** One packet *)

Lemma uint64_small (x : Z) : 0 <= x < 18446744073709551616 -> uint64 x = x.
Proof. intros H. unfold uint64. now apply Z.mod_small. Qed.

(** What [processPacket] does to the counters and to the contexts. *)
Lemma processPacket_counts (ty : ConstantType) (s : State) (pkt : TSPacket) :
  _pid_list (fst (processPacket ty s pkt)) = _pid_list s
  /\ _packet_count (fst (processPacket ty s pkt)) = uint64 (_packet_count s + 1)
  /\ (examined (_pid_list s) pkt = false ->
      _nb_pcr_ok (fst (processPacket ty s pkt)) = _nb_pcr_ok s
      /\ _nb_pcr_nok (fst (processPacket ty s pkt)) = _nb_pcr_nok s
      /\ _nb_pcr_unchecked (fst (processPacket ty s pkt)) = _nb_pcr_unchecked s
      /\ _stats (fst (processPacket ty s pkt)) = _stats s)
  /\ (examined (_pid_list s) pkt = true ->
      (forall p, _stats (fst (processPacket ty s pkt)) p
                 = if p =? getPID pkt then mkContext (getPCR pkt) (_packet_count s)
                   else _stats s p)
      /\ (if no_reference s (getPID pkt)
          then _nb_pcr_ok (fst (processPacket ty s pkt)) = _nb_pcr_ok s
               /\ _nb_pcr_nok (fst (processPacket ty s pkt)) = _nb_pcr_nok s
               /\ _nb_pcr_unchecked (fst (processPacket ty s pkt))
                  = uint64 (_nb_pcr_unchecked s + 1)
          else _nb_pcr_unchecked (fst (processPacket ty s pkt)) = _nb_pcr_unchecked s
               /\ ((_nb_pcr_ok (fst (processPacket ty s pkt)) = uint64 (_nb_pcr_ok s + 1)
                    /\ _nb_pcr_nok (fst (processPacket ty s pkt)) = _nb_pcr_nok s)
                   \/ (_nb_pcr_ok (fst (processPacket ty s pkt)) = _nb_pcr_ok s
                       /\ _nb_pcr_nok (fst (processPacket ty s pkt))
                          = uint64 (_nb_pcr_nok s + 1))))).
Proof.
  unfold processPacket, examined, no_reference.
  destruct (_pid_list s (getPID pkt) && hasPCR pkt).
  - destruct (last_pcr_value (_stats s (getPID pkt)) =? 0).
    + cbn [fst _pid_list _packet_count _nb_pcr_ok _nb_pcr_nok _nb_pcr_unchecked _stats].
      split; [reflexivity|]. split; [reflexivity|]. split; [discriminate|].
      intros _. split; [reflexivity|]. now split.
    + match goal with
      | |- context [if ?c then _ else _] => destruct c
      end;
        cbn [fst _pid_list _packet_count _nb_pcr_ok _nb_pcr_nok _nb_pcr_unchecked _stats];
        (split; [reflexivity|]); (split; [reflexivity|]); (split; [discriminate|]);
        intros _; (split; [reflexivity|]); (split; [reflexivity|]).
      * left. now split.
      * right. now split.
  - cbn [fst _pid_list _packet_count _nb_pcr_ok _nb_pcr_nok _nb_pcr_unchecked _stats].
    split; [reflexivity|]. split; [reflexivity|]. split; [|discriminate].
    intros _. repeat split.
Qed.

(** *** A stream *)

Lemma run_cons (ty : ConstantType) (s : State) (pkt : TSPacket) (pkts : list TSPacket) :
  run ty s (pkt :: pkts) = run ty (fst (processPacket ty s pkt)) pkts.
Proof. reflexivity. Qed.

(** The counters after a stream, from any state in which they cannot
    wrap around. *)
Lemma run_counts (ty : ConstantType) : forall (pkts : list TSPacket) (s : State),
  0 <= _packet_count s ->
  0 <= _nb_pcr_ok s -> 0 <= _nb_pcr_nok s -> 0 <= _nb_pcr_unchecked s ->
  _packet_count s + Z.of_nat (List.length pkts) < 18446744073709551616 ->
  _nb_pcr_ok s + _nb_pcr_nok s + _nb_pcr_unchecked s + Z.of_nat (List.length pkts)
    < 18446744073709551616 ->
  _packet_count (run ty s pkts) = _packet_count s + Z.of_nat (List.length pkts)
  /\ 0 <= _nb_pcr_ok (run ty s pkts)
  /\ 0 <= _nb_pcr_nok (run ty s pkts)
  /\ 0 <= _nb_pcr_unchecked (run ty s pkts)
  /\ _nb_pcr_ok (run ty s pkts) + _nb_pcr_nok (run ty s pkts)
     + _nb_pcr_unchecked (run ty s pkts)
     = _nb_pcr_ok s + _nb_pcr_nok s + _nb_pcr_unchecked s
       + Z.of_nat (List.length (examined_pids (_pid_list s) pkts))
  /\ ((forall pkt, In pkt pkts -> examined (_pid_list s) pkt = true -> getPCR pkt <> 0) ->
      _nb_pcr_unchecked (run ty s pkts)
      = _nb_pcr_unchecked s
        + Z.of_nat (List.length
                      (nodup Z.eq_dec
                         (filter (no_reference s) (examined_pids (_pid_list s) pkts))))).
Proof.
  induction pkts as [|pkt pkts IH]; intros s Hc Hok Hnok Hun Hlen Hsum.
  - cbn. repeat split; lia.
  - cbn [List.length] in Hlen, Hsum. rewrite !run_cons.
    destruct (processPacket_counts ty s pkt) as (Hpl & Hpc & Hno & Hyes).
    set (s' := fst (processPacket ty s pkt)) in *.
    rewrite uint64_small in Hpc by lia.
    unfold examined_pids. cbn [filter].
    destruct (examined (_pid_list s) pkt) eqn:Eex.
    + destruct (Hyes eq_refl) as (Hstats & Hcnt). clear Hno Hyes.
      assert (Hs' : 0 <= _nb_pcr_ok s' /\ 0 <= _nb_pcr_nok s' /\ 0 <= _nb_pcr_unchecked s'
                    /\ _nb_pcr_ok s' + _nb_pcr_nok s' + _nb_pcr_unchecked s'
                       = _nb_pcr_ok s + _nb_pcr_nok s + _nb_pcr_unchecked s + 1
                    /\ _nb_pcr_unchecked s'
                       = _nb_pcr_unchecked s
                         + (if no_reference s (getPID pkt) then 1 else 0)).
      { destruct (no_reference s (getPID pkt)).
        - destruct Hcnt as (-> & -> & ->). rewrite uint64_small by lia. lia.
        - destruct Hcnt as (-> & [(-> & ->)|(-> & ->)]); rewrite uint64_small by lia; lia. }
      destruct Hs' as (Hok' & Hnok' & Hun' & Hsum' & Hunchecked').
      destruct (IH s') as (H1 & H2 & H3 & H4 & H5 & H6); try lia.
      rewrite Hpl in H5, H6. unfold examined_pids in H5, H6.
      cbn [map List.length]. rewrite Nat2Z.inj_succ.
      split; [lia|]. split; [lia|]. split; [lia|]. split; [lia|]. split; [lia|].
      intros Hnz.
      rewrite H6 by (intros q Hq; apply Hnz; now right).
      assert (Hpcr : getPCR pkt <> 0) by (apply Hnz; [now left|exact Eex]).
      set (L := map getPID (filter (examined (_pid_list s)) pkts)).
      assert (Hfilter : filter (no_reference s') L
                        = filter (fun q => negb (q =? getPID pkt))
                            (filter (no_reference s) L)).
      { rewrite <- filter_filter. apply filter_ext. intros q.
        unfold no_reference. rewrite Hstats.
        destruct (Z.eqb_spec q (getPID pkt)) as [->|Hne]; cbn [negb andb].
        - cbn [last_pcr_value]. now apply Z.eqb_neq.
        - reflexivity. }
      rewrite Hfilter, Hunchecked'. cbn [filter].
      destruct (no_reference s (getPID pkt)) eqn:Eref.
      * rewrite nodup_first. lia.
      * rewrite filter_other_absent; [lia|].
        intros Hin. apply filter_In in Hin. destruct Hin as [_ Hin]. congruence.
    + destruct (Hno eq_refl) as (Eok & Enok & Eun & Estats). clear Hno Hyes.
      destruct (IH s') as (H1 & H2 & H3 & H4 & H5 & H6); try lia.
      rewrite Hpl in H5, H6. unfold examined_pids in H5, H6. cbn [List.length].
      split; [lia|]. split; [lia|]. split; [lia|]. split; [lia|]. split; [lia|].
      intros Hnz.
      rewrite H6 by (intros q Hq; apply Hnz; now right).
      rewrite Eun. do 4 f_equal. apply filter_ext. intros q.
      unfold no_reference. now rewrite Estats.
Qed.

(** From [start] to the end of a stream of fewer than 2^64 packets: all
    packets are counted; every packet of a selected PID that has a PCR is
    counted once, as a PCR without excessive jitter, with excessive
    jitter, or unchecked; and, when no PCR has the value 0, the unchecked
    PCRs are the first ones of the PIDs, one for each PID. *)
Theorem pcr_accounting (ty : ConstantType) (s : State) (pkts : list TSPacket) :
  Z.of_nat (List.length pkts) < 18446744073709551616 ->
  _packet_count (run ty (reset s) pkts) = Z.of_nat (List.length pkts)
  /\ _nb_pcr_ok (run ty (reset s) pkts) + _nb_pcr_nok (run ty (reset s) pkts)
     + _nb_pcr_unchecked (run ty (reset s) pkts)
     = Z.of_nat (List.length (examined_pids (_pid_list s) pkts))
  /\ ((forall pkt, In pkt pkts -> examined (_pid_list s) pkt = true -> getPCR pkt <> 0) ->
      _nb_pcr_unchecked (run ty (reset s) pkts)
      = Z.of_nat (List.length (nodup Z.eq_dec (examined_pids (_pid_list s) pkts)))).
Proof.
  intros Hlen.
  destruct (run_counts ty pkts (reset s)) as (H1 & _ & _ & _ & H5 & H6);
    cbn [reset _packet_count _nb_pcr_ok _nb_pcr_nok _nb_pcr_unchecked]; try lia.
  cbn [reset _packet_count _nb_pcr_ok _nb_pcr_nok _nb_pcr_unchecked _pid_list] in H1, H5, H6.
  split; [lia|]. split; [lia|]. intros Hnz. rewrite (H6 Hnz).
  assert (Hall : forall l : list Z, filter (no_reference (reset s)) l = l).
  { induction l as [|p l IHl]; [reflexivity|].
    cbn [filter]. unfold no_reference at 1. cbn [reset _stats last_pcr_value Z.eqb].
    now rewrite IHl. }
  rewrite Hall. reflexivity.
Qed.

(** Three PCRs on PID 0x100 and a packet without PCR: four packets, three
    PCRs accounted for, one of them unchecked. *)
Lemma pcr_accounting_witness :
  _packet_count (run Signed (reset (PCRVerifyScenario.state 0 0 0 0))
                   [PCRVerifyScenario.packet 1000; mkPacket 0x101 false 0 0;
                    PCRVerifyScenario.packet 2000; PCRVerifyScenario.packet 3000]) = 4
  /\ _nb_pcr_ok (run Signed (reset (PCRVerifyScenario.state 0 0 0 0))
                   [PCRVerifyScenario.packet 1000; mkPacket 0x101 false 0 0;
                    PCRVerifyScenario.packet 2000; PCRVerifyScenario.packet 3000])
     + _nb_pcr_nok (run Signed (reset (PCRVerifyScenario.state 0 0 0 0))
                   [PCRVerifyScenario.packet 1000; mkPacket 0x101 false 0 0;
                    PCRVerifyScenario.packet 2000; PCRVerifyScenario.packet 3000])
     + _nb_pcr_unchecked (run Signed (reset (PCRVerifyScenario.state 0 0 0 0))
                   [PCRVerifyScenario.packet 1000; mkPacket 0x101 false 0 0;
                    PCRVerifyScenario.packet 2000; PCRVerifyScenario.packet 3000]) = 3
  /\ _nb_pcr_unchecked (run Signed (reset (PCRVerifyScenario.state 0 0 0 0))
                   [PCRVerifyScenario.packet 1000; mkPacket 0x101 false 0 0;
                    PCRVerifyScenario.packet 2000; PCRVerifyScenario.packet 3000]) = 1.
Proof.
  destruct (pcr_accounting Signed (PCRVerifyScenario.state 0 0 0 0)
              [PCRVerifyScenario.packet 1000; mkPacket 0x101 false 0 0;
               PCRVerifyScenario.packet 2000; PCRVerifyScenario.packet 3000])
    as (H1 & H2 & H3).
  - cbn. lia.
  - split; [exact H1|]. split; [exact H2|]. apply H3.
    intros pkt Hin Hex. cbn in Hin.
    destruct Hin as [<-|[<-|[<-|[<-|[]]]]]; cbn in Hex |- *; discriminate.
Defined.

End PCRVerifyRunFacts.

Module ClearPluginStatusFacts.
Import ClearPlugin.

(** The answer of [processPacket] and the value of [_pass_packets] that
    it leaves: the packet passes only when [_pass_packets] is left set,
    and [_pass_packets] stays clear on a packet that is not a clear
    packet of a monitored PID. *)
Lemma processPacket_status (s : State) (pkt : TSPacket) :
  _drop_status (fst (processPacket s pkt)) = _drop_status s
  /\ (snd (processPacket s pkt) = TSP_END
      \/ (snd (processPacket s pkt) = TSP_OK
          /\ _pass_packets (fst (processPacket s pkt)) = true)
      \/ (snd (processPacket s pkt) = _drop_status s
          /\ _pass_packets (fst (processPacket s pkt)) = false))
  /\ (_pass_packets s = false -> clear_monitored s pkt = false ->
      _pass_packets (fst (processPacket s pkt)) = false).
Proof.
  destruct (ClearPluginFacts.feedPacket_gate s pkt) as (Hp & Hs & Ha & Hc & Hl).
  unfold processPacket, clear_monitored.
  destruct (_abort (feedPacket s pkt)).
  - cbn [fst snd]. split; [exact Hs|]. split; [now left|]. intros H _. congruence.
  - rewrite Hp, Hs.
    destruct (_clear_pids (feedPacket s pkt) (getPID pkt) && isClear pkt).
    + destruct ((_drop_after (feedPacket s pkt) =? 0) && _); cbn [fst snd _drop_status].
      * split; [reflexivity|]. split; [now left|]. discriminate.
      * split; [reflexivity|]. split; [|discriminate].
        cbn [_pass_packets].
        match goal with
        | |- context [if ?c then false else true] => destruct c
        end; [right; right|right; left]; now split.
    + destruct ((_drop_after (feedPacket s pkt) =? 0) && _); cbn [fst snd _drop_status].
      * split; [reflexivity|]. split; [now left|]. intros H _. exact H.
      * split; [reflexivity|]. cbn [_pass_packets].
        destruct (_pass_packets s); cbn [andb].
        -- split; [|discriminate].
           match goal with
           | |- context [if ?c then false else true] => destruct c
           end; [right; right|right; left]; now split.
        -- split; [right; right; now split|]. reflexivity.
Qed.

(** The answers to a stream from a state whose drop status is [d]. *)
Lemma run_statuses : forall (pkts : list TSPacket) (s : State) (status : Status),
  In status (run s pkts) ->
  status = TSP_OK \/ status = TSP_END \/ status = _drop_status s.
Proof.
  induction pkts as [|pkt rest IH]; intros s status Hin; [contradiction|].
  cbn [run] in Hin.
  destruct (processPacket_status s pkt) as (Hds & Hst & _).
  destruct (processPacket s pkt) as [s' st]. cbn [fst snd] in *.
  assert (Hrest : In status (run s' rest) ->
                  status = TSP_OK \/ status = TSP_END \/ status = _drop_status s).
  { intros H. rewrite <- Hds. now apply IH. }
  destruct st; cbn [In] in Hin.
  - destruct Hin as [<-|Hin]; [now left|now apply Hrest].
  - destruct Hin as [<-|Hin]; [|now apply Hrest].
    destruct Hst as [H|[[H _]|[H _]]]; try discriminate. right. right. exact H.
  - destruct Hin as [<-|Hin]; [|now apply Hrest].
    destruct Hst as [H|[[H _]|[H _]]]; try discriminate. right. right. exact H.
  - destruct Hin as [<-|[]]. right. now left.
Qed.

(** With [_pass_packets] clear, no packet passes up to the first clear
    packet of a monitored PID. *)
Lemma run_closed : forall (pkts : list TSPacket) (s : State) (n : nat),
  _pass_packets s = false ->
  _drop_status s <> TSP_OK ->
  (forall i, (i <= n)%nat ->
     clear_monitored (state_at s pkts i) (nth i pkts dummy_packet) = false) ->
  nth_error (run s pkts) n <> Some TSP_OK.
Proof.
  induction pkts as [|pkt rest IH]; intros s n Hclosed Hd Hno.
  - destruct n; discriminate.
  - cbn [run].
    destruct (processPacket_status s pkt) as (Hds & Hst & Hgate).
    assert (H0 : clear_monitored s pkt = false) by (apply (Hno O); lia).
    specialize (Hgate Hclosed H0).
    assert (Hrest : forall m, (S m <= n)%nat ->
              nth_error (run (fst (processPacket s pkt)) rest) m <> Some TSP_OK).
    { intros m Hm. apply IH; [exact Hgate|congruence|].
      intros i Hi. apply (Hno (S i)). lia. }
    destruct (processPacket s pkt) as [s' st]. cbn [fst snd] in *.
    assert (Hst' : st <> TSP_OK).
    { destruct Hst as [H|[[_ H]|[H _]]]; congruence. }
    destruct st; try congruence.
    + destruct n as [|n]; [discriminate|]. cbn [nth_error]. apply Hrest. lia.
    + destruct n as [|n]; [discriminate|]. cbn [nth_error]. apply Hrest. lia.
    + destruct n as [|[|n]]; discriminate.
Qed.

(** After [start], the plugin answers each packet by [TSP_OK], by
    [TSP_END] or by the drop status, which is [TSP_NULL] with
    [--stuffing] and [TSP_DROP] without; and it lets no packet through
    before the first clear packet on a monitored PID: initially the
    packets are dropped. *)
Theorem initially_drops (o : Options) (pkts : list TSPacket) :
  (forall status, In status (run (start o) pkts) ->
     status = TSP_OK \/ status = TSP_END
     \/ status = (if opt_stuffing o then TSP_NULL else TSP_DROP))
  /\ (forall n : nat,
        (forall i, (i <= n)%nat ->
           clear_monitored (state_at (start o) pkts i) (nth i pkts dummy_packet) = false) ->
        nth_error (run (start o) pkts) n <> Some TSP_OK).
Proof.
  split.
  - intros status Hin. exact (run_statuses pkts (start o) status Hin).
  - intros n Hno. apply run_closed; [reflexivity| |exact Hno].
    cbn [start _drop_status]. destruct (opt_stuffing o); discriminate.
Qed.

End ClearPluginStatusFacts.

Module PCRExtractReportFacts.
Import PCRExtractPlugin PCRExtractReport.

Lemma filter_line (f : Line -> bool) (c : bool) (l : Line) :
  filter f (if c then [l] else []) = if c && f l then [l] else [].
Proof. destruct c; cbn [filter andb]; [destruct (f l)|]; reflexivity. Qed.

Lemma uint64_fits (x : Z) : 0 <= x < 18446744073709551616 -> uint64 x = x.
Proof. intros H. unfold uint64. now apply Z.mod_small. Qed.

Section Report.

Variable SequencedPTS : Z -> Z -> bool.
Variable pid : Z.

Local Abbreviation processPacket := (processPacket SequencedPTS).
Local Abbreviation report := (report SequencedPTS).

(** The PCR line of one packet for the PID, and what the packet does to
    the PCR count and to the first PCR of the PID. *)
Lemma processPacket_pcr (s : State) (pkt : TSPacket) :
  _get_pcr (fst (processPacket s pkt)) = _get_pcr s
  /\ filter (is_pcr_of pid) (snd (processPacket s pkt))
     = (if (getPID pkt =? pid) && hasPCR pkt && _get_pcr s
        then [mkLine pid (_packet_count s) (packet_count (_stats s pid)) PCR
                (uint64 (pcr_count (_stats s pid) + 1)) (getPCR pkt)
                (uint64 (getPCR pkt
                         - (if pcr_count (_stats s pid) =? 0 then getPCR pkt
                            else first_pcr (_stats s pid))))
                None]
        else [])
  /\ pcr_count (_stats (fst (processPacket s pkt)) pid)
     = (if (getPID pkt =? pid) && hasPCR pkt
        then uint64 (pcr_count (_stats s pid) + 1) else pcr_count (_stats s pid))
  /\ first_pcr (_stats (fst (processPacket s pkt)) pid)
     = (if (getPID pkt =? pid) && hasPCR pkt && (pcr_count (_stats s pid) =? 0)
        then getPCR pkt else first_pcr (_stats s pid)).
Proof using Type.
  unfold PCRExtractPlugin.processPacket. cbn [fst snd _get_pcr _stats].
  split; [reflexivity|].
  rewrite !filter_app, !filter_line.
  unfold is_pcr_of at 2 3 4. cbn [line_type kind_eqb]. rewrite !andb_false_r. cbn [app].
  rewrite app_nil_r. unfold is_pcr_of. cbn [line_pid line_type kind_eqb].
  rewrite andb_true_r, Z.eqb_sym.
  destruct (Z.eqb_spec pid (getPID pkt)) as [->|Hne].
  - cbn [andb pcr_count first_pcr]. rewrite andb_true_r.
    destruct (hasPCR pkt); cbn [andb]; [|now repeat split].
    now repeat split.
  - cbn [andb]. rewrite andb_false_r. now repeat split.
Qed.

Lemma report_cons (s : State) (pkt : TSPacket) (pkts : list TSPacket) :
  report s (pkt :: pkts)
  = snd (processPacket s pkt) ++ report (fst (processPacket s pkt)) pkts.
Proof using Type.
  cbn [PCRExtractPlugin.report]. now destruct (processPacket s pkt).
Qed.

Lemma seq_from (c : Z) (start n : nat) :
  map (fun k => c + Z.of_nat k) (seq (S start) n)
  = map (fun k => c + 1 + Z.of_nat k) (seq start n).
Proof using Type.
  rewrite <- seq_shift, map_map. apply map_ext. intros k. lia.
Qed.

(** The PCR lines of the PID in the report of a stream, from a state
    that reports the PCRs and whose count cannot wrap around. *)
Lemma report_pcr_lines : forall (pkts : list TSPacket) (s : State),
  _get_pcr s = true ->
  0 <= pcr_count (_stats s pid) ->
  pcr_count (_stats s pid) + Z.of_nat (List.length pkts) < 18446744073709551616 ->
  map line_value (filter (is_pcr_of pid) (report s pkts)) = pcr_values pid pkts
  /\ map line_count (filter (is_pcr_of pid) (report s pkts))
     = map (fun k => pcr_count (_stats s pid) + Z.of_nat k)
         (seq 1 (List.length (pcr_values pid pkts)))
  /\ map line_offset (filter (is_pcr_of pid) (report s pkts))
     = map (fun v => uint64 (v - (if pcr_count (_stats s pid) =? 0
                                  then hd 0 (pcr_values pid pkts)
                                  else first_pcr (_stats s pid))))
         (pcr_values pid pkts)
  /\ map line_from_pcr (filter (is_pcr_of pid) (report s pkts))
     = map (fun _ => None) (pcr_values pid pkts).
Proof using Type.
  induction pkts as [|pkt pkts IH]; intros s Hget Hc Hlen.
  - cbn. repeat split.
  - cbn [List.length] in Hlen. rewrite report_cons, filter_app, !map_app.
    destruct (processPacket_pcr s pkt) as (Hget' & Hlines & Hcount & Hfirst).
    rewrite Hlines, Hget, andb_true_r. unfold pcr_values. cbn [filter].
    fold (pcr_values pid pkts).
    rewrite Hget in Hget'.
    destruct ((getPID pkt =? pid) && hasPCR pkt) eqn:Eb.
    + rewrite uint64_fits in Hcount by lia. cbn [andb] in Hfirst.
      destruct (IH (fst (processPacket s pkt)) Hget') as (H1 & H2 & H3 & H4);
        [lia|lia|].
      rewrite H1, H2, H3, H4.
      cbn [map app line_value line_count line_offset line_from_pcr List.length seq hd].
      rewrite uint64_fits by lia. rewrite Hcount, Hfirst.
      replace (pcr_count (_stats s pid) + 1 =? 0) with false
        by (symmetry; apply Z.eqb_neq; lia).
      split; [reflexivity|]. split.
      * f_equal. symmetry. apply seq_from.
      * split; [|reflexivity].
        destruct (pcr_count (_stats s pid) =? 0); reflexivity.
    + cbn [andb] in Hfirst.
      destruct (IH (fst (processPacket s pkt)) Hget') as (H1 & H2 & H3 & H4);
        [lia|lia|].
      rewrite H1, H2, H3, H4. rewrite Hcount, Hfirst. cbn [map app]. now repeat split.
Qed.

End Report.

(** When the PCRs are reported ([--pcr], or no selection at all), the PCR
    lines of a PID in the report of a stream of fewer than 2^64 packets
    are those of the packets of this PID that have a PCR, in their order:
    the values are the PCRs, the counts are 1, 2, 3, ..., each offset is
    the difference (as an unsigned integer of 64 bits) between the value
    and the first PCR of the PID, and the last field is empty. *)
Theorem pcr_lines_numbered (SequencedPTS : Z -> Z -> bool) (o : Options)
    (pkts : list TSPacket) (pid : Z) :
  opt_pcr o = true \/ opt_pcr o || opt_opcr o || opt_pts o || opt_dts o = false ->
  Z.of_nat (List.length pkts) < 18446744073709551616 ->
  map line_value (filter (is_pcr_of pid) (report SequencedPTS (start o) pkts))
  = pcr_values pid pkts
  /\ map line_count (filter (is_pcr_of pid) (report SequencedPTS (start o) pkts))
     = map Z.of_nat (seq 1 (List.length (pcr_values pid pkts)))
  /\ map line_offset (filter (is_pcr_of pid) (report SequencedPTS (start o) pkts))
     = map (fun v => uint64 (v - hd 0 (pcr_values pid pkts))) (pcr_values pid pkts)
  /\ map line_from_pcr (filter (is_pcr_of pid) (report SequencedPTS (start o) pkts))
     = map (fun _ => None) (pcr_values pid pkts).
Proof.
  intros Hopt Hlen.
  assert (Hget : _get_pcr (start o) = true).
  { unfold start. destruct Hopt as [H|H].
    - rewrite H. rewrite !andb_false_r. reflexivity.
    - apply orb_false_iff in H. destruct H as [H Hd].
      apply orb_false_iff in H. destruct H as [H Hp].
      apply orb_false_iff in H. destruct H as [Hc Ho].
      rewrite Hc, Ho, Hp, Hd. reflexivity. }
  assert (Hstats : _stats (start o) pid = new_context).
  { unfold start. destruct (negb _ && _ && _ && _); reflexivity. }
  destruct (report_pcr_lines SequencedPTS pid pkts (start o) Hget) as (H1 & H2 & H3 & H4).
  - rewrite Hstats. cbn. lia.
  - rewrite Hstats. cbn [new_context pcr_count]. lia.
  - rewrite Hstats in H2, H3. cbn [new_context pcr_count first_pcr Z.eqb] in H2, H3.
    split; [exact H1|]. split; [|split; [exact H3|exact H4]].
    rewrite H2. apply map_ext. intros k. lia.
Qed.

(** Three PCRs on PID 0x100, with [--pcr]. *)
Lemma pcr_lines_numbered_witness :
  map line_value
    (filter (is_pcr_of 0x100)
       (report (fun _ _ => true) (start (mkOptions true false false false false false))
          [mkPacket 0x100 true 5000 false 0 false 0 false 0;
           mkPacket 0x101 true 77 false 0 false 0 false 0;
           mkPacket 0x100 true 5300 false 0 true 10 false 0;
           mkPacket 0x100 true 4000 false 0 false 0 false 0]))
  = [5000; 5300; 4000]
  /\ map line_count
       (filter (is_pcr_of 0x100)
          (report (fun _ _ => true) (start (mkOptions true false false false false false))
             [mkPacket 0x100 true 5000 false 0 false 0 false 0;
              mkPacket 0x101 true 77 false 0 false 0 false 0;
              mkPacket 0x100 true 5300 false 0 true 10 false 0;
              mkPacket 0x100 true 4000 false 0 false 0 false 0]))
     = [1; 2; 3]
  /\ map line_offset
       (filter (is_pcr_of 0x100)
          (report (fun _ _ => true) (start (mkOptions true false false false false false))
             [mkPacket 0x100 true 5000 false 0 false 0 false 0;
              mkPacket 0x101 true 77 false 0 false 0 false 0;
              mkPacket 0x100 true 5300 false 0 true 10 false 0;
              mkPacket 0x100 true 4000 false 0 false 0 false 0]))
     = [0; 300; 18446744073709550616]
  /\ map line_from_pcr
       (filter (is_pcr_of 0x100)
          (report (fun _ _ => true) (start (mkOptions true false false false false false))
             [mkPacket 0x100 true 5000 false 0 false 0 false 0;
              mkPacket 0x101 true 77 false 0 false 0 false 0;
              mkPacket 0x100 true 5300 false 0 true 10 false 0;
              mkPacket 0x100 true 4000 false 0 false 0 false 0]))
     = [None; None; None].
Proof.
  apply (pcr_lines_numbered (fun _ _ => true)
           (mkOptions true false false false false false)
           [mkPacket 0x100 true 5000 false 0 false 0 false 0;
            mkPacket 0x101 true 77 false 0 false 0 false 0;
            mkPacket 0x100 true 5300 false 0 true 10 false 0;
            mkPacket 0x100 true 4000 false 0 false 0 false 0] 0x100).
  - left. reflexivity.
  - cbn. lia.
Defined.

End PCRExtractReportFacts.

Module CAIdentifierDescriptorFacts.
Import CAIdentifierDescriptor.

Lemma ids_size (ids : list Z) :
  Bytes.size (concat (map PutUInt16 ids)) = 2 * Z.of_nat (List.length ids).
Proof.
  induction ids as [|x ids IH]; [reflexivity|].
  cbn [map concat]. rewrite BytesFacts.size_app, IH.
  unfold Bytes.size, PutUInt16. cbn [List.length]. lia.
Qed.

Lemma get_ids_written (ids : list Z) :
  Forall (fun x => 0 <= x < 65536) ids ->
  get_ids (concat (map PutUInt16 ids)) = ids.
Proof.
  induction ids as [|x ids IH]; intros H; [reflexivity|].
  inversion H as [|? ? Hx Hrest]; subst.
  cbn [map concat].
  pose proof (EITFacts.GetUInt16_PutUInt16 x (concat (map PutUInt16 ids)) Hx) as Hget.
  unfold PutUInt16 in *. cbn [app] in *. cbn [get_ids]. rewrite Hget.
  f_equal. now apply IH.
Qed.

Lemma get_ids_bytes : forall (n : nat) (data : ByteBlock),
  List.length data = (2 * n)%nat ->
  all_u8 data = true ->
  concat (map PutUInt16 (get_ids data)) = data.
Proof.
  induction n as [|n IH]; intros data Hlen Hu8.
  - destruct data; [reflexivity|discriminate].
  - destruct data as [|hi [|lo rest]]; [discriminate|cbn in Hlen; lia|].
    cbn [List.length] in Hlen. unfold all_u8 in Hu8. cbn [forallb] in Hu8.
    apply andb_true_iff in Hu8. destruct Hu8 as [Hhi Hu8].
    apply andb_true_iff in Hu8. destruct Hu8 as [Hlo Hu8].
    cbn [get_ids map concat]. rewrite IH by (try exact Hu8; lia).
    pose proof (BytesFacts.forall_u8_sound
                  (fun hi => forall_u8 (fun lo =>
                     (Z.land (Z.shiftr (GetUInt16 [hi; lo]) 8) 255 =? hi)
                     && (Z.land (GetUInt16 [hi; lo]) 255 =? lo)))
                  ltac:(vm_compute; reflexivity) hi) as Hall.
    unfold is_u8 in Hhi, Hlo.
    apply andb_true_iff in Hhi. destruct Hhi as [Hh0 Hh1].
    apply andb_true_iff in Hlo. destruct Hlo as [Hl0 Hl1].
    apply Z.leb_le in Hh0, Hl0. apply Z.ltb_lt in Hh1, Hl1.
    specialize (Hall (conj Hh0 Hh1)). cbv beta in Hall.
    pose proof (BytesFacts.forall_u8_sound _ Hall lo (conj Hl0 Hl1)) as Hb.
    cbv beta in Hb. apply andb_true_iff in Hb. destruct Hb as [Hb1 Hb2].
    apply Z.eqb_eq in Hb1, Hb2.
    unfold PutUInt16. cbn [app].
    change (GetUInt16 (hi :: lo :: rest)) with (GetUInt16 [hi; lo]).
    now rewrite Hb1, Hb2.
Qed.

Section Codec.

Variable DID_CA_ID : Z.

Local Abbreviation serialize := (serialize DID_CA_ID).
Local Abbreviation deserialize := (deserialize DID_CA_ID).

(** The binary descriptor built for at most 127 identifiers. *)
Lemma serialize_fits (self : t) :
  (List.length (casids self) <= 127)%nat ->
  serialize self
  = Descriptor.mk (Some (DID_CA_ID :: 2 * Z.of_nat (List.length (casids self))
                         :: concat (map PutUInt16 (casids self)))).
Proof using Type.
  intros Hfit. unfold CAIdentifierDescriptor.serialize.
  rewrite BytesFacts.size_app, ids_size.
  change (Bytes.size [0; 0]) with 2.
  replace (uint8 (2 + 2 * Z.of_nat (List.length (casids self)) - 2))
    with (2 * Z.of_nat (List.length (casids self)))
    by (unfold uint8; rewrite Z.mod_small; lia).
  unfold Descriptor.from_ByteBlockPtr.
  rewrite !BytesFacts.size_cons, ids_size. unfold at_. cbn [nth].
  match goal with
  | |- (if ?c then _ else _) = _ =>
      replace c with true
        by (symmetry; rewrite !andb_true_iff, Z.geb_le, Z.ltb_lt, Z.eqb_eq; lia)
  end.
  reflexivity.
Qed.

(** Serialising up to 127 identifiers of 16 bits and deserialising the
    result gives the identifiers back, in a valid object.  With 128
    identifiers or more the payload is longer than 255 bytes: the binary
    descriptor is invalid and deserialising it gives an invalid object
    without identifiers. *)
Theorem ca_deserialize_serialize (self : t) :
  Forall (fun x => 0 <= x < 65536) (casids self) ->
  ((List.length (casids self) <= 127)%nat ->
   Descriptor.isValid (serialize self) = true
   /\ Descriptor.size (serialize self) = 2 + 2 * Z.of_nat (List.length (casids self))
   /\ deserialize (serialize self) = mk true (casids self))
  /\ ((127 < List.length (casids self))%nat ->
      Descriptor.isValid (serialize self) = false
      /\ deserialize (serialize self) = mk false []).
Proof using Type.
  intros Hids. split.
  - intros Hfit. rewrite (serialize_fits self Hfit).
    split; [reflexivity|]. split.
    + unfold Descriptor.size, Descriptor.content. cbn [Descriptor.data].
      rewrite !BytesFacts.size_cons, ids_size. lia.
    + unfold CAIdentifierDescriptor.deserialize, Descriptor.isValid, Descriptor.tag,
        Descriptor.payloadSize, Descriptor.payload, Descriptor.content.
      cbn [Descriptor.data skipn at_ nth andb]. rewrite Z.eqb_refl, ids_size.
      replace ((2 * Z.of_nat (List.length (casids self))) mod 2 =? 0) with true
        by (symmetry; apply Z.eqb_eq; rewrite Z.mul_comm; apply Z.mod_mul; lia).
      cbn [andb]. now rewrite get_ids_written.
  - intros Hlong.
    assert (Hinv : serialize self = Descriptor.mk None).
    { unfold CAIdentifierDescriptor.serialize, Descriptor.from_ByteBlockPtr.
      rewrite !BytesFacts.size_cons, ids_size.
      match goal with
      | |- (if ?a && ?b && ?c then _ else _) = _ =>
          replace b with false by (symmetry; apply Z.ltb_ge; lia)
      end.
      now rewrite andb_false_r. }
    rewrite Hinv. split; reflexivity.
Qed.

(** Deserialising a valid binary descriptor that has the tag of the
    descriptor and a payload of an even number of bytes, and serialising
    the result, gives the same bytes. *)
Theorem ca_serialize_deserialize (desc : Descriptor.t) :
  Descriptor.isValid desc = true ->
  Descriptor.consistent (Descriptor.content desc) ->
  all_u8 (Descriptor.content desc) = true ->
  Descriptor.tag desc = DID_CA_ID ->
  Descriptor.payloadSize desc mod 2 = 0 ->
  _is_valid (deserialize desc) = true
  /\ Descriptor.content (serialize (deserialize desc)) = Descriptor.content desc.
Proof using Type.
  intros Hvalid [Hsize Hlen] Hu8 Htag Heven.
  unfold CAIdentifierDescriptor.deserialize.
  rewrite Hvalid, Htag, Z.eqb_refl, Heven. cbn [andb Z.eqb _is_valid].
  split; [reflexivity|].
  unfold Descriptor.payloadSize, Descriptor.payload, Descriptor.tag in *.
  destruct (Descriptor.content desc) as [|tag [|len payload]] eqn:Econtent;
    [cbn in Hsize; lia|cbn in Hsize; lia|].
  cbn [skipn] in *. unfold at_ in Htag, Hlen. cbn [nth] in Htag, Hlen.
  rewrite !BytesFacts.size_cons in Hlen, Hsize.
  unfold all_u8 in Hu8. cbn [forallb] in Hu8.
  apply andb_true_iff in Hu8. destruct Hu8 as [_ Hu8].
  apply andb_true_iff in Hu8. destruct Hu8 as [_ Hu8].
  assert (Hn : exists n : nat, List.length payload = (2 * n)%nat).
  { exists (Z.to_nat (Bytes.size payload / 2)).
    pose proof (Z.div_mod (Bytes.size payload) 2 ltac:(lia)) as Hdm.
    pose proof (BytesFacts.size_nonneg payload) as Hnn.
    assert (0 <= Bytes.size payload / 2) by (apply Z.div_pos; lia).
    unfold Bytes.size in *. lia. }
  destruct Hn as [n Hn].
  assert (Hids : List.length (get_ids payload) = n).
  { pose proof (get_ids_bytes n payload Hn Hu8) as Hb.
    apply (f_equal Bytes.size) in Hb. rewrite ids_size in Hb.
    unfold Bytes.size in Hb. lia. }
  rewrite serialize_fits; cbn [casids]; rewrite ?Hids;
    [|unfold Bytes.size in *; lia].
  unfold Descriptor.content. cbn [Descriptor.data].
  rewrite (get_ids_bytes n payload Hn Hu8). subst tag.
  f_equal. f_equal. unfold Bytes.size in *. lia.
Qed.

End Codec.

(** Two identifiers, with the tag 0x53 of the DVB standard. *)
Lemma ca_deserialize_serialize_witness :
  ((List.length (casids two_ids) <= 127)%nat ->
   Descriptor.isValid (serialize 0x53 two_ids) = true
   /\ Descriptor.size (serialize 0x53 two_ids)
      = 2 + 2 * Z.of_nat (List.length (casids two_ids))
   /\ deserialize 0x53 (serialize 0x53 two_ids) = mk true (casids two_ids))
  /\ ((127 < List.length (casids two_ids))%nat ->
      Descriptor.isValid (serialize 0x53 two_ids) = false
      /\ deserialize 0x53 (serialize 0x53 two_ids) = mk false []).
Proof.
  apply (ca_deserialize_serialize 0x53 two_ids).
  repeat constructor; cbn; lia.
Defined.

(** The descriptor 53 04 01 00 05 00. *)
Lemma ca_serialize_deserialize_witness :
  _is_valid (deserialize 0x53 (Descriptor.from_memory [0x53; 4; 1; 0; 5; 0])) = true
  /\ Descriptor.content
       (serialize 0x53 (deserialize 0x53 (Descriptor.from_memory [0x53; 4; 1; 0; 5; 0])))
     = Descriptor.content (Descriptor.from_memory [0x53; 4; 1; 0; 5; 0]).
Proof.
  apply (ca_serialize_deserialize 0x53 (Descriptor.from_memory [0x53; 4; 1; 0; 5; 0])).
  - reflexivity.
  - cbn. unfold Descriptor.consistent. cbn. lia.
  - reflexivity.
  - reflexivity.
  - reflexivity.
Defined.

End CAIdentifierDescriptorFacts.

Module TerrestrialDeliverySystemDescriptorFacts.
Import TerrestrialDeliverySystemDescriptor.

Lemma forall_bool_sound (p : bool -> bool) :
  forall_bool p = true -> forall b, p b = true.
Proof.
  unfold forall_bool. intros H b. apply andb_true_iff in H. now destruct b.
Qed.

Lemma land_range (x : Z) (n : Z) :
  0 <= n -> 0 <= Z.land x (Z.ones n) < 2 ^ n.
Proof.
  intros Hn. rewrite Z.land_ones by exact Hn. apply Z.mod_pos_bound.
  now apply Z.pow_pos_nonneg.
Qed.

Lemma land_7_fits (x : Z) : 0 <= x < 8 -> Z.land x 0x07 = x.
Proof.
  intros Hx. change 0x07 with (Z.ones 3). rewrite Z.land_ones by lia.
  now apply Z.mod_small.
Qed.

Lemma land_3_fits (x : Z) : 0 <= x < 4 -> Z.land x 0x03 = x.
Proof.
  intros Hx. change 0x03 with (Z.ones 2). rewrite Z.land_ones by lia.
  now apply Z.mod_small.
Qed.

(** The byte of the bandwidth and of the three priority flags. *)
Lemma byte4_read (b : Z) (hp nts nmf : bool) :
  0 <= b < 256 ->
  let byte := uint8 (Z.lor (Z.shiftl b 5)
                       (Z.lor (Z.shiftl (bit hp) 4)
                          (Z.lor (Z.shiftl (bit nts) 3)
                             (Z.lor (Z.shiftl (bit nmf) 2) 0x03)))) in
  Z.land (Z.shiftr byte 5) 0x07 = Z.land b 0x07
  /\ negb (Z.land byte 0x10 =? 0) = hp
  /\ negb (Z.land byte 0x08 =? 0) = nts
  /\ negb (Z.land byte 0x04 =? 0) = nmf.
Proof.
  intros Hb.
  pose proof (BytesFacts.forall_below_sound 256
    (fun b => forall_bool (fun hp => forall_bool (fun nts => forall_bool (fun nmf =>
       let byte := uint8 (Z.lor (Z.shiftl b 5)
                            (Z.lor (Z.shiftl (bit hp) 4)
                               (Z.lor (Z.shiftl (bit nts) 3)
                                  (Z.lor (Z.shiftl (bit nmf) 2) 0x03)))) in
       (Z.land (Z.shiftr byte 5) 0x07 =? Z.land b 0x07)
       && Bool.eqb (negb (Z.land byte 0x10 =? 0)) hp
       && Bool.eqb (negb (Z.land byte 0x08 =? 0)) nts
       && Bool.eqb (negb (Z.land byte 0x04 =? 0)) nmf))))
    ltac:(vm_compute; reflexivity) b Hb) as H.
  cbv beta in H.
  pose proof (forall_bool_sound _ (forall_bool_sound _ (forall_bool_sound _ H hp) nts) nmf)
    as H'.
  cbv beta zeta in H'. cbv zeta.
  apply andb_true_iff in H'. destruct H' as [H' H4].
  apply andb_true_iff in H'. destruct H' as [H' H3].
  apply andb_true_iff in H'. destruct H' as [H1 H2].
  apply Z.eqb_eq in H1. apply Bool.eqb_prop in H2, H3, H4. auto.
Qed.

(** The byte of the constellation, the hierarchy and the rate of the high
    priority stream. *)
Lemma byte5_read (c h r : Z) :
  0 <= c < 256 ->
  let byte := uint8 (Z.lor (Z.shiftl c 6)
                       (Z.lor (Z.shiftl (Z.land h 0x07) 3) (Z.land r 0x07))) in
  Z.land (Z.shiftr byte 6) 0x03 = Z.land c 0x03
  /\ Z.land (Z.shiftr byte 3) 0x07 = Z.land h 0x07
  /\ Z.land byte 0x07 = Z.land r 0x07.
Proof.
  intros Hc.
  pose proof (land_range h 3 ltac:(lia)) as Hh.
  pose proof (land_range r 3 ltac:(lia)) as Hr.
  change (Z.ones 3) with 0x07 in Hh, Hr. change (2 ^ 3) with 8 in Hh, Hr.
  generalize dependent (Z.land h 0x07). intros h7 Hh.
  generalize dependent (Z.land r 0x07). intros r7 Hr.
  pose proof (BytesFacts.forall_below_sound 256
    (fun c => forall_below 8 (fun h7 => forall_below 8 (fun r7 =>
       let byte := uint8 (Z.lor (Z.shiftl c 6) (Z.lor (Z.shiftl h7 3) r7)) in
       (Z.land (Z.shiftr byte 6) 0x03 =? Z.land c 0x03)
       && (Z.land (Z.shiftr byte 3) 0x07 =? h7)
       && (Z.land byte 0x07 =? r7))))
    ltac:(vm_compute; reflexivity) c Hc) as H.
  cbv beta in H.
  pose proof (BytesFacts.forall_below_sound _ _
                (BytesFacts.forall_below_sound _ _ H h7 Hh) r7 Hr) as H'.
  cbv beta zeta in H'. cbv zeta.
  apply andb_true_iff in H'. destruct H' as [H' H3].
  apply andb_true_iff in H'. destruct H' as [H1 H2].
  apply Z.eqb_eq in H1, H2, H3. auto.
Qed.

(** The byte of the rate of the low priority stream, the guard interval,
    the transmission mode and the last flag. *)
Lemma byte6_read (l g m : Z) (o : bool) :
  0 <= l < 256 ->
  let byte := uint8 (Z.lor (Z.shiftl l 5)
                       (Z.lor (Z.shiftl (Z.land g 0x03) 3)
                          (Z.lor (Z.shiftl (Z.land m 0x03) 1) (bit o)))) in
  Z.land (Z.shiftr byte 5) 0x07 = Z.land l 0x07
  /\ Z.land (Z.shiftr byte 3) 0x03 = Z.land g 0x03
  /\ Z.land (Z.shiftr byte 1) 0x03 = Z.land m 0x03
  /\ negb (Z.land byte 0x01 =? 0) = o.
Proof.
  intros Hl.
  pose proof (land_range g 2 ltac:(lia)) as Hg.
  pose proof (land_range m 2 ltac:(lia)) as Hm.
  change (Z.ones 2) with 0x03 in Hg, Hm. change (2 ^ 2) with 4 in Hg, Hm.
  generalize dependent (Z.land g 0x03). intros g3 Hg.
  generalize dependent (Z.land m 0x03). intros m3 Hm.
  pose proof (BytesFacts.forall_below_sound 256
    (fun l => forall_below 4 (fun g3 => forall_below 4 (fun m3 => forall_bool (fun o =>
       let byte := uint8 (Z.lor (Z.shiftl l 5)
                            (Z.lor (Z.shiftl g3 3) (Z.lor (Z.shiftl m3 1) (bit o)))) in
       (Z.land (Z.shiftr byte 5) 0x07 =? Z.land l 0x07)
       && (Z.land (Z.shiftr byte 3) 0x03 =? g3)
       && (Z.land (Z.shiftr byte 1) 0x03 =? m3)
       && Bool.eqb (negb (Z.land byte 0x01 =? 0)) o))))
    ltac:(vm_compute; reflexivity) l Hl) as H.
  cbv beta in H.
  pose proof (forall_bool_sound _
                (BytesFacts.forall_below_sound _ _
                   (BytesFacts.forall_below_sound _ _ H g3 Hg) m3 Hm) o) as H'.
  cbv beta zeta in H'. cbv zeta.
  apply andb_true_iff in H'. destruct H' as [H' H4].
  apply andb_true_iff in H'. destruct H' as [H' H3].
  apply andb_true_iff in H'. destruct H' as [H1 H2].
  apply Z.eqb_eq in H1, H2, H3. apply Bool.eqb_prop in H4. auto.
Qed.

Section Codec.

Variable DID_TERREST_DELIVERY : Z.

Local Abbreviation serialize := (serialize DID_TERREST_DELIVERY).
Local Abbreviation deserialize := (deserialize DID_TERREST_DELIVERY).

Lemma terrestrial_bytes (self : t) :
  serialize self
  = Descriptor.mk
      (Some ([uint8 DID_TERREST_DELIVERY; 11]
             ++ PutUInt32 (centre_frequency self)
             ++ [uint8 (Z.lor (Z.shiftl (bandwidth self) 5)
                          (Z.lor (Z.shiftl (bit (high_priority self)) 4)
                             (Z.lor (Z.shiftl (bit (no_time_slicing self)) 3)
                                (Z.lor (Z.shiftl (bit (no_mpe_fec self)) 2) 0x03))));
                 uint8 (Z.lor (Z.shiftl (constellation self) 6)
                          (Z.lor (Z.shiftl (Z.land (hierarchy self) 0x07) 3)
                             (Z.land (code_rate_hp self) 0x07)));
                 uint8 (Z.lor (Z.shiftl (code_rate_lp self) 5)
                          (Z.lor (Z.shiftl (Z.land (guard_interval self) 0x03) 3)
                             (Z.lor (Z.shiftl (Z.land (transmission_mode self) 0x03) 1)
                                (bit (other_frequency self)))));
                 0xFF; 0xFF; 0xFF; 0xFF])).
Proof using Type. reflexivity. Qed.

(** [serialize] always gives a valid binary descriptor of thirteen
    bytes, and [deserialize] reads from it the fields reduced to the bits
    that the binary form has for them, whatever the object held before:
    a descriptor whose fields fit in these bits comes back unchanged,
    marked valid. *)
Theorem terrestrial_deserialize_serialize (self other : t) :
  typed self ->
  Descriptor.isValid (serialize self) = true
  /\ Descriptor.size (serialize self) = 13
  /\ deserialize other (serialize self) = masked self
  /\ (in_range self -> masked self
      = mk true (centre_frequency self) (bandwidth self) (high_priority self)
          (no_time_slicing self) (no_mpe_fec self) (constellation self) (hierarchy self)
          (code_rate_hp self) (code_rate_lp self) (guard_interval self)
          (transmission_mode self) (other_frequency self)).
Proof using Type.
  intros (Hcf & Hb & Hc & Hh & Hr & Hl & Hg & Hm).
  split; [reflexivity|]. split; [reflexivity|]. split.
  - unfold TerrestrialDeliverySystemDescriptor.deserialize. rewrite terrestrial_bytes.
    pose proof (BigEndianFacts.GetUInt32_PutUInt32 (centre_frequency self)
                  [uint8 (Z.lor (Z.shiftl (bandwidth self) 5)
                            (Z.lor (Z.shiftl (bit (high_priority self)) 4)
                               (Z.lor (Z.shiftl (bit (no_time_slicing self)) 3)
                                  (Z.lor (Z.shiftl (bit (no_mpe_fec self)) 2) 0x03))));
                   uint8 (Z.lor (Z.shiftl (constellation self) 6)
                            (Z.lor (Z.shiftl (Z.land (hierarchy self) 0x07) 3)
                               (Z.land (code_rate_hp self) 0x07)));
                   uint8 (Z.lor (Z.shiftl (code_rate_lp self) 5)
                            (Z.lor (Z.shiftl (Z.land (guard_interval self) 0x03) 3)
                               (Z.lor (Z.shiftl (Z.land (transmission_mode self) 0x03) 1)
                                  (bit (other_frequency self)))));
                   0xFF; 0xFF; 0xFF; 0xFF] Hcf) as Hget.
    unfold PutUInt32 in *. cbn [app] in *.
    cbn [Descriptor.isValid Descriptor.tag Descriptor.payloadSize Descriptor.payload
         Descriptor.content Descriptor.data skipn at_ nth].
    rewrite Z.eqb_refl, Hget.
    match goal with
    | |- (if true && true && ?c then _ else _) = _ => change c with true
    end.
    cbn [andb].
    destruct (byte4_read (bandwidth self) (high_priority self) (no_time_slicing self)
                (no_mpe_fec self) Hb) as (B1 & B2 & B3 & B4).
    destruct (byte5_read (constellation self) (hierarchy self) (code_rate_hp self) Hc)
      as (C1 & C2 & C3).
    destruct (byte6_read (code_rate_lp self) (guard_interval self)
                (transmission_mode self) (other_frequency self) Hl)
      as (D1 & D2 & D3 & D4).
    cbv zeta in B1, B2, B3, B4, C1, C2, C3, D1, D2, D3, D4.
    rewrite B1, B2, B3, B4, C1, C2, C3, D1, D2, D3, D4. reflexivity.
  - intros (_ & Hb' & Hc' & Hh' & Hr' & Hl' & Hg' & Hm').
    unfold masked.
    rewrite !land_7_fits, !land_3_fits by assumption. reflexivity.
Qed.

End Codec.

(** A multiplex at 474 MHz, with the tag 0x5A of the DVB standard. *)
Lemma terrestrial_deserialize_serialize_witness :
  Descriptor.isValid (serialize 0x5A mux_474) = true
  /\ Descriptor.size (serialize 0x5A mux_474) = 13
  /\ deserialize 0x5A init (serialize 0x5A mux_474) = masked mux_474
  /\ (in_range mux_474 -> masked mux_474
      = mk true (centre_frequency mux_474) (bandwidth mux_474) (high_priority mux_474)
          (no_time_slicing mux_474) (no_mpe_fec mux_474) (constellation mux_474)
          (hierarchy mux_474) (code_rate_hp mux_474) (code_rate_lp mux_474)
          (guard_interval mux_474) (transmission_mode mux_474) (other_frequency mux_474)).
Proof.
  apply (terrestrial_deserialize_serialize 0x5A mux_474 init).
  unfold typed. cbn. lia.
Defined.

End TerrestrialDeliverySystemDescriptorFacts.

Module DescriptorListLanguageFacts.
Import DescriptorList DescriptorListSearch DescriptorListLanguage.

Lemma skipn_head (l : t) (index : nat) :
  (index < List.length l)%nat ->
  skipn index l = nth index l dummy :: skipn (S index) l.
Proof.
  revert index. induction l as [|e l IH]; intros index H; [cbn in H; lia|].
  destruct index as [|index]; [reflexivity|].
  cbn [List.length] in H. cbn [skipn nth]. apply IH. lia.
Qed.

Section Language.

Variable DID_LANGUAGE DID_SUBTITLING DID_TELETEXT : Z.
Variable SimilarStrings : string -> ByteBlock -> bool.

Local Abbreviation searchLanguage_loop := (searchLanguage_loop DID_LANGUAGE SimilarStrings).
Local Abbreviation searchLanguage := (searchLanguage DID_LANGUAGE SimilarStrings).
Local Abbreviation subtitling_loop := (subtitling_loop SimilarStrings).
Local Abbreviation teletext_loop := (teletext_loop SimilarStrings).
Local Abbreviation searchSubtitle_loop :=
  (searchSubtitle_loop DID_SUBTITLING DID_TELETEXT SimilarStrings).
Local Abbreviation searchSubtitle :=
  (searchSubtitle DID_SUBTITLING DID_TELETEXT SimilarStrings).
Local Abbreviation has_language := (has_language DID_LANGUAGE SimilarStrings).
Local Abbreviation has_subtitles :=
  (has_subtitles DID_SUBTITLING DID_TELETEXT SimilarStrings).
Local Abbreviation subtitle_kind := (subtitle_kind DID_SUBTITLING DID_TELETEXT).

(** *** [searchLanguage] *)

Lemma searchLanguage_loop_first (l : t) (language : string) :
  forall (fuel index : nat),
  (List.length l <= index + fuel)%nat ->
  ((searchLanguage_loop fuel l language index < count l)%nat ->
   (index <= searchLanguage_loop fuel l language index)%nat
   /\ has_language language (nth (searchLanguage_loop fuel l language index) l dummy) = true)
  /\ (searchLanguage_loop fuel l language index <= count l)%nat
  /\ (forall i, (index <= i)%nat ->
        (i < searchLanguage_loop fuel l language index)%nat ->
        has_language language (nth i l dummy) = false).
Proof using Type.
  unfold count.
  induction fuel as [|fuel IH]; intros index Hfuel;
    cbn [DescriptorListLanguage.searchLanguage_loop]; unfold count.
  - split; [lia|]. split; [lia|]. intros i Hi Hlt. lia.
  - destruct (index <? List.length l)%nat eqn:Elt.
    + apply Nat.ltb_lt in Elt.
      fold (has_language language (nth index l dummy)).
      destruct (has_language language (nth index l dummy)) eqn:Ehas.
      * split; [intros _; split; [lia|exact Ehas]|]. split; [lia|]. intros i Hi Hlt. lia.
      * destruct (IH (S index)) as (H1 & H2 & H3); [lia|].
        split; [intros Hr; destruct (H1 Hr); split; [lia|assumption]|].
        split; [exact H2|].
        intros i Hi Hlt. destruct (Nat.eq_dec i index) as [->|Hne]; [exact Ehas|].
        apply H3; lia.
    + apply Nat.ltb_ge in Elt. split; [lia|]. split; [lia|]. intros i Hi Hlt. lia.
Qed.

(** [searchLanguage] returns the index of the first language descriptor,
    from [start_index] on, whose payload has at least three bytes and
    starts with a similar language; it returns [count ()] when there is
    none, also when [start_index] is beyond the end. *)
Theorem searchLanguage_first (l : t) (language : string) (start_index : nat) :
  (searchLanguage l language start_index <= count l)%nat
  /\ ((searchLanguage l language start_index < count l)%nat ->
      (start_index <= searchLanguage l language start_index)%nat
      /\ has_language language (nth (searchLanguage l language start_index) l dummy) = true)
  /\ (forall i, (start_index <= i)%nat ->
        (i < searchLanguage l language start_index)%nat ->
        has_language language (nth i l dummy) = false).
Proof using Type.
  destruct (searchLanguage_loop_first l language (List.length l) start_index)
    as (H1 & H2 & H3); [lia|].
  unfold DescriptorListLanguage.searchLanguage.
  split; [exact H2|]. split; [exact H1|exact H3].
Qed.

(** *** The entries of a descriptor *)

Lemma size_geb (data : ByteBlock) (n : nat) :
  (Bytes.size data >=? Z.of_nat n) = (n <=? List.length data)%nat.
Proof using Type.
  unfold Bytes.size. destruct (n <=? List.length data)%nat eqn:E.
  - apply Nat.leb_le in E. apply Z.geb_le. lia.
  - apply Nat.leb_gt in E. rewrite Z.geb_leb. apply Z.leb_gt. lia.
Qed.

Lemma subtitling_loop_entries (language : string) :
  forall (fuel1 fuel2 : nat) (data : ByteBlock),
  (List.length data <= fuel1)%nat -> (List.length data <= fuel2)%nat ->
  subtitling_loop fuel1 language data
  = existsb (fun entry => SimilarStrings language (firstn 3 entry)) (entries fuel2 8 data).
Proof using Type.
  induction fuel1 as [|fuel1 IH]; intros fuel2 data H1 H2.
  - destruct data; [|cbn in H1; lia]. destruct fuel2; reflexivity.
  - cbn [DescriptorListLanguage.subtitling_loop].
    rewrite (size_geb data 8 : (Bytes.size data >=? 8) = _).
    destruct fuel2 as [|fuel2].
    + destruct data; [reflexivity|cbn in H2; lia].
    + cbn [entries]. destruct (8 <=? List.length data)%nat eqn:E; [|reflexivity].
      apply Nat.leb_le in E. cbn [existsb].
      rewrite firstn_firstn. cbn [Nat.min].
      destruct (SimilarStrings language (firstn 3 data)); [reflexivity|].
      cbn [orb]. apply IH; rewrite length_skipn; lia.
Qed.

Lemma at_firstn (data : ByteBlock) (i n : nat) :
  (i < n)%nat -> at_ (firstn n data) i = at_ data i.
Proof using Type.
  unfold at_. revert i n. induction data as [|x data IH]; intros i n H.
  - rewrite firstn_nil. reflexivity.
  - destruct n as [|n]; [lia|]. destruct i as [|i]; [reflexivity|].
    cbn [firstn nth]. apply IH. lia.
Qed.

Lemma teletext_loop_entries (language : string) :
  forall (fuel1 fuel2 : nat) (data : ByteBlock) (seen : bool),
  (List.length data <= fuel1)%nat -> (List.length data <= fuel2)%nat ->
  fst (teletext_loop fuel1 language data seen)
  = existsb (fun entry =>
               teletext_subtitles entry
               && (language_empty language || SimilarStrings language (firstn 3 entry)))
      (entries fuel2 5 data)
  /\ (fst (teletext_loop fuel1 language data seen) = false ->
      snd (teletext_loop fuel1 language data seen)
      = seen || (negb (language_empty language)
                 && existsb teletext_subtitles (entries fuel2 5 data))).
Proof using Type.
  induction fuel1 as [|fuel1 IH]; intros fuel2 data seen H1 H2.
  - destruct data; [|cbn in H1; lia].
    destruct fuel2; cbn; rewrite andb_false_r, orb_false_r; now split.
  - cbn [DescriptorListLanguage.teletext_loop].
    rewrite (size_geb data 5 : (Bytes.size data >=? 5) = _).
    destruct fuel2 as [|fuel2].
    + destruct data; [|cbn in H2; lia].
      cbn. rewrite andb_false_r, orb_false_r. now split.
    + cbn [entries]. destruct (5 <=? List.length data)%nat eqn:E.
      2:{ cbn. rewrite andb_false_r, orb_false_r. now split. }
      apply Nat.leb_le in E. cbn [existsb].
      unfold teletext_subtitles at 1 3. rewrite at_firstn by lia.
      rewrite firstn_firstn. cbn [Nat.min].
      assert (Hrest : (List.length (skipn 5 data) <= fuel1)%nat
                      /\ (List.length (skipn 5 data) <= fuel2)%nat)
        by (rewrite length_skipn; lia).
      destruct Hrest as [Hr1 Hr2].
      destruct ((Z.shiftr (at_ data 3) 3 =? 2) || (Z.shiftr (at_ data 3) 3 =? 5)).
      * destruct (language_empty language) eqn:Eempty; cbn [andb orb negb fst snd].
        -- split; [reflexivity|discriminate].
        -- destruct (SimilarStrings language (firstn 3 data)); cbn [fst snd orb].
           ++ split; [reflexivity|discriminate].
           ++ destruct (IH fuel2 (skipn 5 data) true Hr1 Hr2) as [Hf Hs].
              split; [exact Hf|]. intros Hnot. rewrite (Hs Hnot).
              cbn [orb]. now rewrite orb_true_r.
      * cbn [andb orb]. exact (IH fuel2 (skipn 5 data) seen Hr1 Hr2).
Qed.

(** What one entry of the list does in [searchSubtitle]. *)
Lemma subtitle_step (language : string) (e : Element) :
  (if Descriptor.tag (desc e) =? DID_SUBTITLING then
     language_empty language
     || subtitling_loop (List.length (Descriptor.payload (desc e))) language
          (Descriptor.payload (desc e))
   else if Descriptor.tag (desc e) =? DID_TELETEXT then
     fst (teletext_loop (List.length (Descriptor.payload (desc e))) language
            (Descriptor.payload (desc e)) false)
   else false) = has_subtitles language e
  /\ (has_subtitles language e = false ->
      (if Descriptor.tag (desc e) =? DID_SUBTITLING then true
       else if Descriptor.tag (desc e) =? DID_TELETEXT then
         snd (teletext_loop (List.length (Descriptor.payload (desc e))) language
                (Descriptor.payload (desc e)) false)
       else false) = negb (language_empty language) && subtitle_kind e).
Proof using Type.
  unfold DescriptorListLanguage.has_subtitles, DescriptorListLanguage.subtitle_kind,
    payload_entries.
  destruct (Descriptor.tag (desc e) =? DID_SUBTITLING).
  - rewrite (subtitling_loop_entries language _ (List.length (Descriptor.payload (desc e))))
      by lia.
    split; [reflexivity|]. intros H. apply orb_false_iff in H. destruct H as [-> _].
    reflexivity.
  - destruct (Descriptor.tag (desc e) =? DID_TELETEXT).
    + destruct (teletext_loop_entries language
                  (List.length (Descriptor.payload (desc e)))
                  (List.length (Descriptor.payload (desc e)))
                  (Descriptor.payload (desc e)) false) as [Hf Hs]; [lia|lia|].
      split; [exact Hf|]. intros H. rewrite <- Hf in H. rewrite (Hs H). reflexivity.
    + split; [reflexivity|]. intros _. now rewrite andb_false_r.
Qed.

(** *** [searchSubtitle] *)

Lemma searchSubtitle_loop_first (l : t) (language : string) :
  forall (fuel not_found index : nat),
  (List.length l <= index + fuel)%nat ->
  (count l <= not_found)%nat ->
  ((searchSubtitle_loop fuel l language not_found index < count l)%nat ->
   (index <= searchSubtitle_loop fuel l language not_found index)%nat
   /\ has_subtitles language
        (nth (searchSubtitle_loop fuel l language not_found index) l dummy) = true
   /\ forall i, (index <= i)%nat ->
        (i < searchSubtitle_loop fuel l language not_found index)%nat ->
        has_subtitles language (nth i l dummy) = false)
  /\ ((count l <= searchSubtitle_loop fuel l language not_found index)%nat ->
      (forall i, (index <= i < count l)%nat ->
         has_subtitles language (nth i l dummy) = false)
      /\ searchSubtitle_loop fuel l language not_found index
         = (if negb (language_empty language) && existsb subtitle_kind (skipn index l)
            then (count l + 1)%nat else not_found)).
Proof using Type.
  unfold count.
  induction fuel as [|fuel IH]; intros not_found index Hfuel Hnf;
    cbn [DescriptorListLanguage.searchSubtitle_loop]; unfold count.
  - split; [lia|]. intros _. split; [intros i Hi; lia|].
    rewrite skipn_all2 by lia. cbn [existsb]. now rewrite andb_false_r.
  - destruct (index <? List.length l)%nat eqn:Elt.
    2:{ apply Nat.ltb_ge in Elt. split; [lia|]. intros _. split; [intros i Hi; lia|].
        rewrite skipn_all2 by lia. cbn [existsb]. now rewrite andb_false_r. }
    apply Nat.ltb_lt in Elt.
    rewrite (skipn_head l index Elt). cbn [existsb].
    destruct (subtitle_step language (nth index l dummy)) as [Hstep Hkind].
    set (e := nth index l dummy) in *.
    destruct (has_subtitles language e) eqn:Ehas.
    + (* the function returns [index] *)
      assert (Hret :
        (if Descriptor.tag (desc e) =? DID_SUBTITLING
         then if language_empty language then index
              else if subtitling_loop (List.length (Descriptor.payload (desc e))) language
                        (Descriptor.payload (desc e))
                   then index
                   else searchSubtitle_loop fuel l language (List.length l + 1)%nat (S index)
         else if Descriptor.tag (desc e) =? DID_TELETEXT
              then let '(found, seen) :=
                     teletext_loop (List.length (Descriptor.payload (desc e))) language
                       (Descriptor.payload (desc e)) false in
                   if found then index
                   else searchSubtitle_loop fuel l language
                          (if seen then (List.length l + 1)%nat else not_found) (S index)
              else searchSubtitle_loop fuel l language not_found (S index)) = index).
      { destruct (Descriptor.tag (desc e) =? DID_SUBTITLING).
        - destruct (language_empty language); [reflexivity|]. cbn [orb] in Hstep.
          now rewrite Hstep.
        - destruct (Descriptor.tag (desc e) =? DID_TELETEXT); [|discriminate].
          destruct (teletext_loop _ language _ false) as [found seen].
          cbn [fst] in Hstep. now rewrite Hstep. }
      rewrite Hret. split; [|lia].
      intros _. split; [lia|]. split; [exact Ehas|]. intros i Hi Hlt. lia.
    + (* the loop goes on, with [not_found] updated *)
      specialize (Hkind eq_refl).
      assert (Hnext : exists nf : nat,
        (if Descriptor.tag (desc e) =? DID_SUBTITLING
         then if language_empty language then index
              else if subtitling_loop (List.length (Descriptor.payload (desc e))) language
                        (Descriptor.payload (desc e))
                   then index
                   else searchSubtitle_loop fuel l language (List.length l + 1)%nat (S index)
         else if Descriptor.tag (desc e) =? DID_TELETEXT
              then let '(found, seen) :=
                     teletext_loop (List.length (Descriptor.payload (desc e))) language
                       (Descriptor.payload (desc e)) false in
                   if found then index
                   else searchSubtitle_loop fuel l language
                          (if seen then (List.length l + 1)%nat else not_found) (S index)
              else searchSubtitle_loop fuel l language not_found (S index))
        = searchSubtitle_loop fuel l language nf (S index)
        /\ nf = (if negb (language_empty language) && subtitle_kind e
                 then (List.length l + 1)%nat else not_found)).
      { destruct (Descriptor.tag (desc e) =? DID_SUBTITLING).
        - apply orb_false_iff in Hstep. destruct Hstep as [Hempty Hloop].
          rewrite <- Hkind, Hempty, Hloop. eexists. split; reflexivity.
        - destruct (Descriptor.tag (desc e) =? DID_TELETEXT).
          + destruct (teletext_loop _ language _ false) as [found seen].
            cbn [fst snd] in Hstep, Hkind. rewrite <- Hkind, Hstep.
            eexists. split; reflexivity.
          + rewrite <- Hkind. eexists. split; reflexivity. }
      destruct Hnext as (nf & -> & Hnf').
      assert (Hnf2 : (List.length l <= nf)%nat)
        by (rewrite Hnf'; destruct (negb _ && _); lia).
      destruct (IH nf (S index)) as (H1 & H2); [lia|exact Hnf2|]. unfold count in H1, H2.
      split.
      * intros Hr. destruct (H1 Hr) as (Ha & Hb & Hc).
        split; [lia|]. split; [exact Hb|].
        intros i Hi Hlt. destruct (Nat.eq_dec i index) as [->|Hne]; [exact Ehas|].
        apply Hc; lia.
      * intros Hr. destruct (H2 Hr) as (Ha & Hb). split.
        -- intros i Hi. destruct (Nat.eq_dec i index) as [->|Hne]; [exact Ehas|].
           apply Ha. lia.
        -- rewrite Hb, Hnf'.
           destruct (language_empty language); cbn [negb andb]; [reflexivity|].
           destruct (subtitle_kind e); cbn [orb].
           ++ now destruct (existsb subtitle_kind (skipn (S index) l)).
           ++ reflexivity.
Qed.

(** [searchSubtitle] returns the index of the first descriptor, from
    [start_index] on, that carries subtitles in the language (any
    subtitles when the language is empty).  When there is none it
    returns [count () + 1] if a language is given and some descriptor
    from [start_index] on carries subtitles in another language, and
    [count ()] otherwise. *)
Theorem searchSubtitle_first (l : t) (language : string) (start_index : nat) :
  ((searchSubtitle l language start_index < count l)%nat ->
   (start_index <= searchSubtitle l language start_index)%nat
   /\ has_subtitles language (nth (searchSubtitle l language start_index) l dummy) = true
   /\ forall i, (start_index <= i)%nat ->
        (i < searchSubtitle l language start_index)%nat ->
        has_subtitles language (nth i l dummy) = false)
  /\ ((count l <= searchSubtitle l language start_index)%nat ->
      (forall i, (start_index <= i < count l)%nat ->
         has_subtitles language (nth i l dummy) = false)
      /\ searchSubtitle l language start_index
         = (if negb (language_empty language)
               && existsb subtitle_kind (skipn start_index l)
            then (count l + 1)%nat else count l)).
Proof using Type.
  destruct (searchSubtitle_loop_first l language (List.length l) (count l) start_index)
    as (H1 & H2); [lia|lia|].
  unfold DescriptorListLanguage.searchSubtitle. split; [exact H1|exact H2].
Qed.

End Language.

(** In the sample list, with the tags 0x59 and 0x56 of the DVB standard:
    any subtitles are found at index 0, English subtitles at index 1,
    and German subtitles are not found although there are subtitles. *)
Lemma searchSubtitle_sample :
  searchSubtitle 0x59 0x56 same_bytes sample_list "" 0 = 0%nat
  /\ searchSubtitle 0x59 0x56 same_bytes sample_list "eng" 0 = 1%nat
  /\ searchSubtitle 0x59 0x56 same_bytes sample_list "deu" 0 = 3%nat
  /\ searchSubtitle 0x59 0x56 same_bytes sample_list "" 2 = 2%nat
  /\ searchSubtitle 0x59 0x56 same_bytes sample_list "fra" 1 = 3%nat.
Proof. repeat split; vm_compute; reflexivity. Qed.

End DescriptorListLanguageFacts.

Module PMTPluginDescriptorsFacts.
Import DescriptorList DescriptorListSearch PMTPlugin PMTPluginDescriptors.

Lemma filter_and {A : Type} (f g : A -> bool) (l : list A) :
  filter f (filter g l) = filter (fun x => g x && f x) l.
Proof.
  induction l as [|a l IH]; [reflexivity|].
  cbn [filter]. destruct (g a); cbn [filter andb]; [|exact IH].
  destruct (f a); now rewrite IH.
Qed.

(** [removeByTag] as a filter, for a tag that is not the one of the
    private_data_specifier_descriptor. *)
Lemma removeByTag_kept (l : t) (tag p : Z) :
  tag <> DID_PRIV_DATA_SPECIF ->
  fst (removeByTag l tag p) = filter (fun e => negb (selected tag p e)) l.
Proof.
  intros Htag. unfold removeByTag.
  pose proof (DescriptorListSearchFacts.removeByTag_loop_filter tag p Htag l [] 0) as H.
  cbn [app List.length] in H. now rewrite H.
Qed.

Lemma remove_descriptors_filter : forall (removed_desc : list Z) (pds : Z) (pmt : PMT),
  ~ In DID_PRIV_DATA_SPECIF removed_desc ->
  remove_descriptors removed_desc pds pmt
  = mkPMT (filter (kept removed_desc pds) (pmt_descs pmt))
      (map (fun smi => (fst smi,
                        mkStream (stream_type (snd smi))
                          (filter (kept removed_desc pds) (descs (snd smi)))))
         (streams pmt)).
Proof.
  induction removed_desc as [|tag rest IH]; intros pds pmt Hno.
  - unfold remove_descriptors, kept. cbn [fold_left forallb].
    destruct pmt as [d s]. cbn [pmt_descs streams]. f_equal.
    + induction d as [|e d IHd]; [reflexivity|]. cbn [filter]. now rewrite <- IHd.
    + induction s as [|[pid [ty ds]] s IHs]; [reflexivity|].
      cbn [map fst snd stream_type descs]. rewrite <- IHs. do 3 f_equal.
      induction ds as [|e ds IHd]; [reflexivity|]. cbn [filter]. now rewrite <- IHd.
  - assert (Htag : tag <> DID_PRIV_DATA_SPECIF) by (intros E; apply Hno; now left).
    assert (Hrest : ~ In DID_PRIV_DATA_SPECIF rest) by (intros H; apply Hno; now right).
    change (remove_descriptors (tag :: rest) pds pmt)
      with (remove_descriptors rest pds (remove_tag pds pmt tag)).
    rewrite (IH pds _ Hrest). unfold remove_tag. cbn [pmt_descs streams].
    rewrite removeByTag_kept by exact Htag. rewrite filter_and. f_equal.
    rewrite map_map. apply map_ext. intros [pid [ty ds]].
    cbn [fst snd stream_type descs].
    rewrite removeByTag_kept by exact Htag. now rewrite filter_and.
Qed.

(** The loop run for [--remove-descriptor], with tags other than the one
    of the private_data_specifier_descriptor: in the list of the program
    and in the list of every component, the descriptors that [search]
    would find for one of the tags (with the specifier of [--pds], for
    the private tags) are removed, the others are kept in their order;
    PIDs and stream types are unchanged; the order of the tags and their
    repetitions do not matter. *)
Theorem remove_descriptors_result (removed_desc : list Z) (pds : Z) (pmt : PMT) :
  ~ In DID_PRIV_DATA_SPECIF removed_desc ->
  pmt_descs (remove_descriptors removed_desc pds pmt)
  = filter (kept removed_desc pds) (pmt_descs pmt)
  /\ streams (remove_descriptors removed_desc pds pmt)
     = map (fun smi => (fst smi,
                        mkStream (stream_type (snd smi))
                          (filter (kept removed_desc pds) (descs (snd smi)))))
         (streams pmt)
  /\ (forall other : list Z,
        (forall tag, In tag other <-> In tag removed_desc) ->
        remove_descriptors other pds pmt = remove_descriptors removed_desc pds pmt).
Proof.
  intros Hno. rewrite (remove_descriptors_filter removed_desc pds pmt Hno).
  split; [reflexivity|]. split; [reflexivity|].
  intros other Hsame.
  assert (Hno' : ~ In DID_PRIV_DATA_SPECIF other) by (intros H; apply Hno; now apply Hsame).
  rewrite (remove_descriptors_filter other pds pmt Hno').
  assert (Hkept : forall e, kept other pds e = kept removed_desc pds e).
  { intros e. unfold kept.
    destruct (forallb (fun tag => negb (selected tag pds e)) removed_desc) eqn:E.
    - apply forallb_forall. intros tag Hin.
      rewrite forallb_forall in E. apply E. now apply Hsame.
    - destruct (forallb (fun tag => negb (selected tag pds e)) other) eqn:E'; [|reflexivity].
      rewrite <- E. symmetry. apply forallb_forall. intros tag Hin.
      rewrite forallb_forall in E'. apply E'. now apply Hsame. }
  f_equal.
  - apply filter_ext. exact Hkept.
  - apply map_ext. intros smi. do 2 f_equal. apply filter_ext. exact Hkept.
Qed.

(** Removing the tags 0x0A and 0x52 from the sample PMT. *)
Lemma remove_descriptors_result_witness :
  pmt_descs (remove_descriptors [0x0A; 0x52] 0 sample_pmt)
  = filter (kept [0x0A; 0x52] 0) (pmt_descs sample_pmt)
  /\ streams (remove_descriptors [0x0A; 0x52] 0 sample_pmt)
     = map (fun smi => (fst smi,
                        mkStream (stream_type (snd smi))
                          (filter (kept [0x0A; 0x52] 0) (descs (snd smi)))))
         (streams sample_pmt)
  /\ (forall other : list Z,
        (forall tag, In tag other <-> In tag [0x0A; 0x52]) ->
        remove_descriptors other 0 sample_pmt
        = remove_descriptors [0x0A; 0x52] 0 sample_pmt).
Proof.
  apply (remove_descriptors_result [0x0A; 0x52] 0 sample_pmt).
  cbn. unfold DID_PRIV_DATA_SPECIF. intros [H|[H|[]]]; discriminate.
Defined.

(** What is left of the sample PMT: the private descriptor of the
    program, and nothing in the component. *)
Lemma remove_descriptors_sample :
  map (fun e => Descriptor.content (desc e))
    (pmt_descs (remove_descriptors [0x0A; 0x52] 0 sample_pmt)) = [[0x83; 1; 7]]
  /\ map (fun smi => List.length (descs (snd smi)))
       (streams (remove_descriptors [0x0A; 0x52] 0 sample_pmt)) = [O].
Proof. split; vm_compute; reflexivity. Qed.

End PMTPluginDescriptorsFacts.
